(** * YachtDice: settle detection, outcome resolution and roll coordination

    A shallow embedding of the dice components of the repository
    ([components/Dice.tsx], [components/DiceContainer.tsx],
    [utils/Points.tsx]) and the properties of its specification.

    JavaScript numbers that carry geometry (positions, velocities,
    quaternion components, damping coefficients) are read as real numbers;
    counters, face values, timer identifiers and millisecond delays are
    integers. *)

From Stdlib Require Import Reals Lra Lia ZArith List Bool Arith PeanoNat.
From Stdlib Require Import Permutation.
Import ListNotations.

(* ================================================================== *)
(** * Part I.  The program *)
(* ================================================================== *)

(** ** Numbers *)

Module Num.

(** [x > y] on numbers. *)
Definition gtb (x y : R) : bool := if Rgt_dec x y then true else false.

(** [x < y] on numbers. *)
Definition ltb (x y : R) : bool := if Rlt_dec x y then true else false.

(** [x >= y] on numbers. *)
Definition geb (x y : R) : bool := if Rge_dec x y then true else false.

(** [x === y] on numbers. *)
Definition eqb (x y : R) : bool := if Req_dec_T x y then true else false.

(** [Math.pow(x, 2)]. *)
Definition pow2 (x : R) : R := (x * x)%R.

End Num.

(** ** The parts of three.js the components call *)

(** [THREE.Vector3]. *)
Record Vector3 : Type := mkVector3 { x : R; y : R; z : R }.

(** [THREE.Quaternion], and the shape [{x, y, z, w}] in which the physics
    engine hands out a rotation.  The constructor stores the four
    components as they are given. *)
Record Quaternion : Type := mkQuaternion { qx : R; qy : R; qz : R; qw : R }.

Module THREE.

Local Open Scope R_scope.

(** [Vector3.dot]. *)
Definition dot (a b : Vector3) : R :=
  x a * x b + y a * y b + z a * z b.

(** [Vector3.distanceToSquared]. *)
Definition distanceToSquared (a b : Vector3) : R :=
  let dx := x a - x b in
  let dy := y a - y b in
  let dz := z a - z b in
  dx * dx + dy * dy + dz * dz.

(** [Vector3.distanceTo]. *)
Definition distanceTo (a b : Vector3) : R := sqrt (distanceToSquared a b).

(** [Vector3.applyQuaternion] as three.js implements it since release r153
    (2023), the releases that go with the physics binding whose handle API
    the components use: [v + w t + q x t] with [t = 2 (q x v)].  The
    library's comment reads "quaternion q is assumed to have unit length";
    the function uses the components it is given. *)
Definition applyQuaternion (v : Vector3) (q : Quaternion) : Vector3 :=
  let vx := x v in
  let vy := y v in
  let vz := z v in
  let tx := 2 * (qy q * vz - qz q * vy) in
  let ty := 2 * (qz q * vx - qx q * vz) in
  let tz := 2 * (qx q * vy - qy q * vx) in
  mkVector3 (vx + qw q * tx + qy q * tz - qz q * ty)
            (vy + qw q * ty + qz q * tx - qx q * tz)
            (vz + qw q * tz + qx q * ty - qy q * tx).


(** [Quaternion.lengthSq] and [Quaternion.length]. *)
Definition lengthSq (q : Quaternion) : R :=
  qx q * qx q + qy q * qy q + qz q * qz q + qw q * qw q.

Definition length (q : Quaternion) : R := sqrt (lengthSq q).


(** The quaternion [s q], every component multiplied by [s]. *)
Definition scale (s : R) (q : Quaternion) : Quaternion :=
  mkQuaternion (s * qx q) (s * qy q) (s * qz q) (s * qw q).

End THREE.

(** ** OrientationResolver: [getDiceValueFromRotation] *)

(** One entry of the [faces] table. *)
Record Face : Type := mkFace { normal : Vector3; value : Z }.

Definition faces : list Face :=
  [ mkFace (mkVector3 0 0 1) 1      (* Front (Z+) = 1 *)
  ; mkFace (mkVector3 1 0 0) 2      (* Right (X+) = 2 *)
  ; mkFace (mkVector3 0 1 0) 3      (* Top (Y+) = 3 *)
  ; mkFace (mkVector3 0 0 (-1)) 4   (* Back (Z-) = 4 *)
  ; mkFace (mkVector3 (-1) 0 0) 5   (* Left (X-) = 5 *)
  ; mkFace (mkVector3 0 (-1) 0) 6   (* Bottom (Y-) = 6 *)
  ].

Definition worldUp : Vector3 := mkVector3 0 1 0.

(** [rotatedNormal.dot(worldUp)] for one face. *)
Definition alignment (quat : Quaternion) (face : Face) : R :=
  THREE.dot (THREE.applyQuaternion (normal face) quat) worldUp.

(** The two variables the loop updates.  [maxAlignment] starts at
    [-Infinity], written [None]: every number is greater. *)
Record Best : Type := mkBest { maxAlignment : option R; upFaceValue : Z }.

(** [alignment > maxAlignment]. *)
Definition exceeds (a : R) (m : option R) : bool :=
  match m with
  | None => true
  | Some m => Num.gtb a m
  end.

(** The body of [faces.forEach]. *)
Definition visit (quat : Quaternion) (best : Best) (face : Face) : Best :=
  let a := alignment quat face in
  if exceeds a (maxAlignment best) then mkBest (Some a) (value face) else best.

Definition getDiceValueFromRotation (rotation : Quaternion) : Z :=
  let quat :=
    mkQuaternion (qx rotation) (qy rotation) (qz rotation) (qw rotation) in
  upFaceValue (fold_left (visit quat) faces (mkBest None 1)).

(** ** Timers: [setTimeout], [setInterval], [clearTimeout], [clearInterval] *)

(** The functions the components hand to [setTimeout] and [setInterval]. *)
Inductive Callback : Type :=
| ResetTimer                       (* DiceContainer: ends the roll *)
| PointsTimer                      (* DiceContainer: computes the total *)
| RespawnTimer (die : nat)         (* PhysicsDice: respawns the body *)
| StabilityTimer (die : nat)       (* PhysicsDice: starts the two intervals *)
| GradualDamping (die : nat)       (* PhysicsDice: interval, damping ramp *)
| StabilityCheck (die : nat)       (* PhysicsDice: interval, checkStability *)
| ForcedLock (die : nat).          (* PhysicsDice: forced lock *)

(** A scheduled callback: its identifier, the time it is due, its period
    when it is an interval, and what it runs. *)
Record Timer : Type :=
  mkTimer { timerId : nat; due : nat; every : option nat; callback : Callback }.

(** The browser's clock and timer table, in milliseconds.  Identifiers are
    handed out from 1, so a stored identifier is always truthy. *)
Record Timers : Type :=
  mkTimers { now : nat; nextTimerId : nat; pending : list Timer }.

Definition setTimeout (cb : Callback) (delay : nat) (t : Timers) : nat * Timers :=
  let id := nextTimerId t in
  (id, mkTimers (now t) (S id)
         (pending t ++ [mkTimer id (now t + delay) None cb])).

Definition setInterval (cb : Callback) (delay : nat) (t : Timers) : nat * Timers :=
  let id := nextTimerId t in
  (id, mkTimers (now t) (S id)
         (pending t ++ [mkTimer id (now t + delay) (Some delay) cb])).

Definition clearTimeout (id : nat) (t : Timers) : Timers :=
  mkTimers (now t) (nextTimerId t)
    (filter (fun tm => negb (timerId tm =? id)) (pending t)).

Definition clearInterval (id : nat) (t : Timers) : Timers := clearTimeout id t.

(** [if (ref.current) { clearTimeout(ref.current) }]. *)
Definition clearIfSet (ref : option nat) (t : Timers) : Timers :=
  match ref with
  | Some id => clearTimeout id t
  | None => t
  end.

(** ** The rigid-body handle of the physics engine *)

(** [setBodyType(0, _)] and [setBodyType(2, _)]. *)
Inductive BodyType : Type := Dynamic | Fixed.

Record RigidBody : Type :=
  mkRigidBody
    { translation : Vector3
    ; rotation : Quaternion
    ; linvel : Vector3
    ; angvel : Vector3
    ; bodyType : BodyType
    ; linearDamping : R
    ; angularDamping : R }.

Definition setBodyType (t : BodyType) (b : RigidBody) : RigidBody :=
  mkRigidBody (translation b) (rotation b) (linvel b) (angvel b) t
    (linearDamping b) (angularDamping b).

Definition setTranslation (v : Vector3) (b : RigidBody) : RigidBody :=
  mkRigidBody v (rotation b) (linvel b) (angvel b) (bodyType b)
    (linearDamping b) (angularDamping b).

Definition setRotation (q : Quaternion) (b : RigidBody) : RigidBody :=
  mkRigidBody (translation b) q (linvel b) (angvel b) (bodyType b)
    (linearDamping b) (angularDamping b).

Definition setLinvel (v : Vector3) (b : RigidBody) : RigidBody :=
  mkRigidBody (translation b) (rotation b) v (angvel b) (bodyType b)
    (linearDamping b) (angularDamping b).

Definition setAngvel (v : Vector3) (b : RigidBody) : RigidBody :=
  mkRigidBody (translation b) (rotation b) (linvel b) v (bodyType b)
    (linearDamping b) (angularDamping b).

Definition setLinearDamping (k : R) (b : RigidBody) : RigidBody :=
  mkRigidBody (translation b) (rotation b) (linvel b) (angvel b) (bodyType b)
    k (angularDamping b).

Definition setAngularDamping (k : R) (b : RigidBody) : RigidBody :=
  mkRigidBody (translation b) (rotation b) (linvel b) (angvel b) (bodyType b)
    (linearDamping b) k.

(** [applyTorqueImpulse]: the engine turns the impulse into motion in its
    next steps; what the body does afterwards reaches the component as the
    kinematics it reads on later ticks. *)
Definition applyTorqueImpulse (torque : Vector3) (b : RigidBody) : RigidBody := b.

Definition zeroVector : Vector3 := mkVector3 0 0 0.

(** What one step of the simulation leaves in a body: position, rotation
    and velocities are the engine's to choose. *)
Record Kinematics : Type :=
  mkKinematics
    { kTranslation : Vector3
    ; kRotation : Quaternion
    ; kLinvel : Vector3
    ; kAngvel : Vector3 }.

(** A simulation step moves a dynamic body and leaves a fixed one alone. *)
Definition simulate (k : Kinematics) (b : RigidBody) : RigidBody :=
  match bodyType b with
  | Fixed => b
  | Dynamic =>
      mkRigidBody (kTranslation k) (kRotation k) (kLinvel k) (kAngvel k)
        Dynamic (linearDamping b) (angularDamping b)
  end.

(** ** BodyController and SettleDetector: [PhysicsDice] *)

(** One entry of [positionHistoryRef]. *)
Record Sample : Type := mkSample { pos : Vector3; time : nat }.

(** The props and refs of one [PhysicsDice].  [resetCount] is the one prop
    that changes; it is an argument of the effect. *)
Record PhysicsDice : Type :=
  mkPhysicsDice
    { position : Vector3
    ; index : nat
    ; startDelay : nat
    ; diceRef : option RigidBody
    ; isResettingRef : bool
    ; currentDampingRef : R
    ; isLockedRef : bool
    ; finalValueRef : Z
    ; timerRef : option nat
    ; lastResetCountRef : nat
    ; stabilityTimerRef : option nat
    ; gradualDampingRef : option nat
    ; stabilityCheckRef : option nat
    ; positionHistoryRef : list Sample }.

Definition setDiceRef (b : option RigidBody) (d : PhysicsDice) : PhysicsDice :=
  mkPhysicsDice (position d) (index d) (startDelay d) b (isResettingRef d)
    (currentDampingRef d) (isLockedRef d) (finalValueRef d) (timerRef d)
    (lastResetCountRef d) (stabilityTimerRef d) (gradualDampingRef d)
    (stabilityCheckRef d) (positionHistoryRef d).

Definition setIsResettingRef (v : bool) (d : PhysicsDice) : PhysicsDice :=
  mkPhysicsDice (position d) (index d) (startDelay d) (diceRef d) v
    (currentDampingRef d) (isLockedRef d) (finalValueRef d) (timerRef d)
    (lastResetCountRef d) (stabilityTimerRef d) (gradualDampingRef d)
    (stabilityCheckRef d) (positionHistoryRef d).

Definition setCurrentDampingRef (v : R) (d : PhysicsDice) : PhysicsDice :=
  mkPhysicsDice (position d) (index d) (startDelay d) (diceRef d)
    (isResettingRef d) v (isLockedRef d) (finalValueRef d) (timerRef d)
    (lastResetCountRef d) (stabilityTimerRef d) (gradualDampingRef d)
    (stabilityCheckRef d) (positionHistoryRef d).

Definition setIsLockedRef (v : bool) (d : PhysicsDice) : PhysicsDice :=
  mkPhysicsDice (position d) (index d) (startDelay d) (diceRef d)
    (isResettingRef d) (currentDampingRef d) v (finalValueRef d) (timerRef d)
    (lastResetCountRef d) (stabilityTimerRef d) (gradualDampingRef d)
    (stabilityCheckRef d) (positionHistoryRef d).

Definition setFinalValueRef (v : Z) (d : PhysicsDice) : PhysicsDice :=
  mkPhysicsDice (position d) (index d) (startDelay d) (diceRef d)
    (isResettingRef d) (currentDampingRef d) (isLockedRef d) v (timerRef d)
    (lastResetCountRef d) (stabilityTimerRef d) (gradualDampingRef d)
    (stabilityCheckRef d) (positionHistoryRef d).

Definition setTimerRef (v : option nat) (d : PhysicsDice) : PhysicsDice :=
  mkPhysicsDice (position d) (index d) (startDelay d) (diceRef d)
    (isResettingRef d) (currentDampingRef d) (isLockedRef d) (finalValueRef d)
    v (lastResetCountRef d) (stabilityTimerRef d) (gradualDampingRef d)
    (stabilityCheckRef d) (positionHistoryRef d).

Definition setLastResetCountRef (v : nat) (d : PhysicsDice) : PhysicsDice :=
  mkPhysicsDice (position d) (index d) (startDelay d) (diceRef d)
    (isResettingRef d) (currentDampingRef d) (isLockedRef d) (finalValueRef d)
    (timerRef d) v (stabilityTimerRef d) (gradualDampingRef d)
    (stabilityCheckRef d) (positionHistoryRef d).

Definition setStabilityTimerRef (v : option nat) (d : PhysicsDice) : PhysicsDice :=
  mkPhysicsDice (position d) (index d) (startDelay d) (diceRef d)
    (isResettingRef d) (currentDampingRef d) (isLockedRef d) (finalValueRef d)
    (timerRef d) (lastResetCountRef d) v (gradualDampingRef d)
    (stabilityCheckRef d) (positionHistoryRef d).

Definition setGradualDampingRef (v : option nat) (d : PhysicsDice) : PhysicsDice :=
  mkPhysicsDice (position d) (index d) (startDelay d) (diceRef d)
    (isResettingRef d) (currentDampingRef d) (isLockedRef d) (finalValueRef d)
    (timerRef d) (lastResetCountRef d) (stabilityTimerRef d) v
    (stabilityCheckRef d) (positionHistoryRef d).

Definition setStabilityCheckRef (v : option nat) (d : PhysicsDice) : PhysicsDice :=
  mkPhysicsDice (position d) (index d) (startDelay d) (diceRef d)
    (isResettingRef d) (currentDampingRef d) (isLockedRef d) (finalValueRef d)
    (timerRef d) (lastResetCountRef d) (stabilityTimerRef d)
    (gradualDampingRef d) v (positionHistoryRef d).

Definition setPositionHistoryRef (v : list Sample) (d : PhysicsDice) : PhysicsDice :=
  mkPhysicsDice (position d) (index d) (startDelay d) (diceRef d)
    (isResettingRef d) (currentDampingRef d) (isLockedRef d) (finalValueRef d)
    (timerRef d) (lastResetCountRef d) (stabilityTimerRef d)
    (gradualDampingRef d) (stabilityCheckRef d) v.

(** A call [onStable(index, value)]. *)
Record Settled : Type := mkSettled { settledIndex : nat; settledValue : Z }.

(** [lockDicePhysics]: the state it leaves, and the call of [onStable] it
    makes, if any. *)
Definition lockDicePhysics (d : PhysicsDice) : PhysicsDice * option Settled :=
  match diceRef d with
  | Some body =>
      if negb (isLockedRef d) then
        let d := setFinalValueRef (getDiceValueFromRotation (rotation body)) d in
        let body := setBodyType Fixed body in
        let body := setLinvel zeroVector body in
        let body := setAngvel zeroVector body in
        let d := setDiceRef (Some body) d in
        let d := setIsLockedRef true d in
        (d, Some (mkSettled (index d) (finalValueRef d)))
      else (d, None)
  | None => (d, None)
  end.

(** The loop [for (let i = 1; i < 5; i++)] of [checkStability], from [i]
    on, with [n] rounds left: [false] as soon as a pair of consecutive
    samples lies more than 0.0001 apart.  Under the guard
    [history.length >= 5] both entries exist for every [i] in 1..4. *)
Fixpoint positionsStable (history : list Sample) (i n : nat) : bool :=
  match n with
  | O => true
  | S n =>
      match nth_error history (List.length history - i - 1),
            nth_error history (List.length history - i) with
      | Some prev, Some curr =>
          let distance := THREE.distanceTo (pos prev) (pos curr) in
          if Num.gtb distance (1 / 10000) then false
          else positionsStable history (S i) n
      | _, _ => false
      end
  end.

(** [Math.sqrt(Math.pow(v.x, 2) + Math.pow(v.y, 2) + Math.pow(v.z, 2))]. *)
Definition magnitude (v : Vector3) : R :=
  sqrt (Num.pow2 (x v) + Num.pow2 (y v) + Num.pow2 (z v)).

(** The value of [isStable] after the velocity test. *)
Definition velocitiesStable (body : RigidBody) : bool :=
  let linVelMagnitude := magnitude (linvel body) in
  let angVelMagnitude := magnitude (angvel body) in
  if Num.gtb linVelMagnitude (5 / 1000) || Num.gtb angVelMagnitude (5 / 1000)
  then false else true.

(** [positionHistoryRef.current.push(...)] followed by the [shift] that
    keeps the ten most recent entries. *)
Definition pushSample (s : Sample) (history : list Sample) : list Sample :=
  let history := history ++ [s] in
  if (10 <? List.length history)%nat then tl history else history.

(** [checkStability] at time [currentTime]. *)
Definition checkStability (currentTime : nat) (d : PhysicsDice)
  : PhysicsDice * option Settled :=
  match diceRef d with
  | None => (d, None)
  | Some body =>
      if isLockedRef d then (d, None)
      else
        let posVector := translation body in
        let d :=
          setPositionHistoryRef
            (pushSample (mkSample posVector currentTime) (positionHistoryRef d))
            d in
        if (5 <=? List.length (positionHistoryRef d))%nat then
          let isStable := positionsStable (positionHistoryRef d) 1 4 in
          let isStable := if isStable then velocitiesStable body else false in
          if isStable then lockDicePhysics d else (d, None)
        else (d, None)
  end.

(** The guard of the respawn effect:
    [resetCount > 0 && resetCount !== lastResetCountRef.current]. *)
Definition respawnDue (resetCount : nat) (d : PhysicsDice) : bool :=
  (0 <? resetCount)%nat && negb (resetCount =? lastResetCountRef d)%nat.

(** The body of the [useEffect] that respawns the die. *)
Definition respawnEffect (resetCount : nat) (d : PhysicsDice) (t : Timers)
  : PhysicsDice * Timers :=
  if respawnDue resetCount d then
    let d := setLastResetCountRef resetCount d in
    let t := clearIfSet (timerRef d) t in
    let d := setTimerRef None d in
    let t := clearIfSet (stabilityTimerRef d) t in
    let d := setStabilityTimerRef None d in
    let t := clearIfSet (gradualDampingRef d) t in
    let d := setGradualDampingRef None d in
    let t := clearIfSet (stabilityCheckRef d) t in
    let d := setStabilityCheckRef None d in
    let d := setPositionHistoryRef [] d in
    let d := setIsResettingRef true d in
    let d := setCurrentDampingRef (1 / 2) d in
    let d := setIsLockedRef false d in
    let d := setFinalValueRef 1 d in
    let (id, t) := setTimeout (RespawnTimer (index d)) (startDelay d) t in
    (setTimerRef (Some id) d, t)
  else (d, t).

(** The function the effect returns; React runs it before the effect runs
    again and on unmount.  It cancels and leaves the refs as they are. *)
Definition effectCleanup (d : PhysicsDice) (t : Timers) : Timers :=
  let t := clearIfSet (timerRef d) t in
  let t := clearIfSet (stabilityTimerRef d) t in
  let t := clearIfSet (gradualDampingRef d) t in
  clearIfSet (stabilityCheckRef d) t.

(** The values [Math.random()] and [setFromEuler] contribute to a respawn:
    the two position jitters in [0,1), the quaternion of the random Euler
    angles, and the random torque. *)
Record Draw : Type :=
  mkDraw { jitterX : R; jitterZ : R; quaternion : Quaternion; torque : Vector3 }.

(** The callback of [timerRef]: it runs [startDelay] after the effect. *)
Definition respawnTimeout (r : Draw) (d : PhysicsDice) (t : Timers)
  : PhysicsDice * Timers :=
  match diceRef d with
  | Some body =>
      let body := setBodyType Dynamic body in
      let body :=
        setTranslation
          (mkVector3 (x (position d) + (jitterX r - 1 / 2) * (5 / 100))
                     (y (position d))
                     (z (position d) + (jitterZ r - 1 / 2) * (5 / 100)))
          body in
      let body := setRotation (quaternion r) body in
      let body := setLinvel zeroVector body in
      let body := setAngvel zeroVector body in
      let body := setLinearDamping (currentDampingRef d) body in
      let body := setAngularDamping (currentDampingRef d) body in
      let body := applyTorqueImpulse (torque r) body in
      let d := setDiceRef (Some body) d in
      let (id, t) := setTimeout (StabilityTimer (index d)) 1500 t in
      let d := setStabilityTimerRef (Some id) d in
      let (_, t) := setTimeout (ForcedLock (index d)) 3000 t in
      (setTimerRef None d, t)
  | None => (setTimerRef None d, t)
  end.

(** The callback of [stabilityTimerRef], 1500 ms after the respawn. *)
Definition stabilityTimeout (d : PhysicsDice) (t : Timers)
  : PhysicsDice * Timers :=
  match diceRef d with
  | Some _ =>
      let (id, t) := setInterval (GradualDamping (index d)) 100 t in
      let d := setGradualDampingRef (Some id) d in
      let (id, t) := setInterval (StabilityCheck (index d)) 100 t in
      let d := setStabilityCheckRef (Some id) d in
      (setStabilityTimerRef None d, t)
  | None => (setStabilityTimerRef None d, t)
  end.

(** One round of the [gradualDampingRef] interval. *)
Definition gradualDampingTick (d : PhysicsDice) (t : Timers)
  : PhysicsDice * Timers :=
  match diceRef d with
  | Some body =>
      if Num.ltb (currentDampingRef d) 20 && negb (isLockedRef d) then
        let d := setCurrentDampingRef (currentDampingRef d + 1 / 2) d in
        let body := setLinearDamping (currentDampingRef d) body in
        let body := setAngularDamping (currentDampingRef d) body in
        let d := setDiceRef (Some body) d in
        if Num.geb (currentDampingRef d) 20 then
          let t := clearIfSet (gradualDampingRef d) t in
          let d :=
            match gradualDampingRef d with
            | Some _ => setGradualDampingRef None d
            | None => d
            end in
          (setIsResettingRef false d, t)
        else (d, t)
      else (d, t)
  | None => (d, t)
  end.

(** The forced lock, 3000 ms after the respawn. *)
Definition forcedLockTimeout (d : PhysicsDice) : PhysicsDice * option Settled :=
  if negb (isLockedRef d) then
    match diceRef d with
    | Some _ => lockDicePhysics d
    | None => (d, None)
    end
  else (d, None).

(** A [PhysicsDice] as it is mounted: the initial values of its refs. *)
Definition mountPhysicsDice (position : Vector3) (index startDelay : nat)
  (body : option RigidBody) : PhysicsDice :=
  mkPhysicsDice position index startDelay body false (1 / 2) false 1
    None 0 None None None [].

(** The [RigidBody] element as it is mounted, with the random rotation of
    that render. *)
Definition mountRigidBody (position : Vector3) (randomRotation : Quaternion)
  : RigidBody :=
  mkRigidBody position randomRotation zeroVector zeroVector Dynamic
    (1 / 2) (1 / 2).

(** ** RollCoordinator and OutcomeAggregator: [DiceContainer] *)

Definition diceCount : nat := 5.

(** A slot of the JavaScript array [diceValues]: a hole (an index below
    [length] that was never assigned), [undefined], or a number. *)
Inductive Entry : Type :=
| Hole
| Undefined
| Number (v : Z).

(** [[...prev]]: the copy reads every index, so holes come out as
    [undefined]. *)
Definition spread (prev : list Entry) : list Entry :=
  map (fun e => match e with Hole => Undefined | _ => e end) prev.

(** [a[index] = v]: an index past the end extends the array, leaving
    holes in between. *)
Fixpoint assign (a : list Entry) (index : nat) (v : Entry) : list Entry :=
  match index, a with
  | O, [] => [v]
  | O, _ :: rest => v :: rest
  | S i, [] => Hole :: assign [] i v
  | S i, e :: rest => e :: assign rest i v
  end.

(** [prev.reduce((acc, val) => acc + val, 0)]: holes are skipped, and a
    sum with [undefined] is [NaN], written [None]. *)
Definition reduceSum (prev : list Entry) : option Z :=
  fold_left
    (fun acc e =>
       match e with
       | Hole => acc
       | Undefined => None
       | Number v => option_map (fun a => (a + v)%Z) acc
       end)
    prev (Some 0%Z).

(** [diceValues.filter(v => v > 0)]. *)
Fixpoint positives (a : list Entry) : list Z :=
  match a with
  | [] => []
  | Number v :: rest => if (0 <? v)%Z then v :: positives rest else positives rest
  | _ :: rest => positives rest
  end.

(** The state and refs of [DiceContainer]. *)
Record DiceContainer : Type :=
  mkDiceContainer
    { resetCount : nat
    ; isRolling : bool
    ; resetTimerRef : option nat
    ; stableDiceCountRef : nat
    ; hasCalculatedPointsRef : bool
    ; diceValues : list Entry
    ; totalPoints : option Z }.

(** [DiceContainer] as it is mounted. *)
Definition mountDiceContainer : DiceContainer :=
  mkDiceContainer 0 false None 0 false [] (Some 0%Z).

(** [handleDiceStable(index, value)]. *)
Definition handleDiceStable (index : nat) (value : Z) (c : DiceContainer)
  (t : Timers) : DiceContainer * Timers :=
  let count := S (stableDiceCountRef c) in
  let values := assign (spread (diceValues c)) index (Number value) in
  if (count =? diceCount)%nat && negb (hasCalculatedPointsRef c) then
    let (_, t) := setTimeout PointsTimer 100 t in
    (mkDiceContainer (resetCount c) (isRolling c) (resetTimerRef c) count true
       values (totalPoints c), t)
  else
    (mkDiceContainer (resetCount c) (isRolling c) (resetTimerRef c) count
       (hasCalculatedPointsRef c) values (totalPoints c), t).

(** The callback [handleDiceStable] schedules: the total, recomputed from
    the stored values. *)
Definition pointsTimeout (c : DiceContainer) : DiceContainer :=
  let sum := reduceSum (diceValues c) in
  mkDiceContainer (resetCount c) (isRolling c) (resetTimerRef c)
    (stableDiceCountRef c) (hasCalculatedPointsRef c) (diceValues c) sum.

(** [handleReset]. *)
Definition handleReset (c : DiceContainer) (t : Timers)
  : DiceContainer * Timers :=
  if negb (isRolling c) then
    let t := clearIfSet (resetTimerRef c) t in
    let (id, t) := setTimeout ResetTimer 4000 t in
    (mkDiceContainer (S (resetCount c)) true (Some id) 0 false [] (Some 0%Z), t)
  else (c, t).

(** What a call of a function of the components evaluates to. *)
Inductive Returned : Type :=
| ReturnedUndefined
| ReturnedBoolean (b : bool).

(** The value of the call [handleReset()].  The body is one [if] with no
    [else] and holds no [return] statement: with the guard [!isRolling]
    true the block runs to its end, with the guard false it is skipped,
    and either way the function ends without returning a value. *)
Definition handleResetReturns (c : DiceContainer) : Returned :=
  if negb (isRolling c) then ReturnedUndefined else ReturnedUndefined.

(** The callback of [resetTimerRef]. *)
Definition resetTimeout (c : DiceContainer) : DiceContainer :=
  mkDiceContainer (resetCount c) false None (stableDiceCountRef c)
    (hasCalculatedPointsRef c) (diceValues c) (totalPoints c).

(** What the score panel shows: the total, or ['...'] ([None]) while
    rolling, and the breakdown when there is one. *)
Definition shownTotal (c : DiceContainer) : option (option Z) :=
  if isRolling c then None else Some (totalPoints c).

Definition shownBreakdown (c : DiceContainer) : option (list Z) :=
  if negb (isRolling c) && (0 <? List.length (diceValues c))%nat
  then Some (positives (diceValues c)) else None.

(** ** OutcomeAggregator of [utils/Points.tsx] *)

(** The effect on [updateTrigger]: the values and the sum it stores, read
    from the handles in [diceRefs], or nothing when the guard fails. *)
Definition calculatePoints (updateTrigger : nat) (rolling : bool)
  (diceRefs : list (option RigidBody)) : option (list Z * Z) :=
  if (0 <? updateTrigger)%nat && negb rolling then
    Some
      (fold_left
         (fun acc dice =>
            match dice with
            | Some dice =>
                let value := getDiceValueFromRotation (rotation dice) in
                (fst acc ++ [value], (snd acc + value)%Z)
            | None => acc
            end)
         diceRefs ([], 0%Z))
  else None.

(** ** The page: the container, its dice and the timers *)

(** [calculateDicePosition(index)]. *)
Definition calculateDicePosition (index : nat) : Vector3 :=
  let spacing := 1%R in
  mkVector3 ((INR index - (INR diceCount - 1) / 2) * spacing) 4 0.

(** The mounted page.  [notified] and [completions] record, for the
    properties, the calls of [onStable] made so far and how many times the
    points callback has run. *)
Record World : Type :=
  mkWorld
    { timers : Timers
    ; container : DiceContainer
    ; dice : list PhysicsDice
    ; notified : list Settled
    ; completions : nat }.

Fixpoint replaceNth {A : Type} (n : nat) (a : A) (l : list A) : list A :=
  match n, l with
  | _, [] => []
  | O, _ :: rest => a :: rest
  | S n, b :: rest => b :: replaceNth n a rest
  end.

(** The cleanups of all dice, then their effects: what React runs after a
    render of the container.  Every render hands each die a fresh
    [position] array, so the effect of each die runs again. *)
Definition cleanupAll (ds : list PhysicsDice) (t : Timers) : Timers :=
  fold_left (fun t d => effectCleanup d t) ds t.

Fixpoint effectAll (rc : nat) (ds : list PhysicsDice) (t : Timers)
  : list PhysicsDice * Timers :=
  match ds with
  | [] => ([], t)
  | d :: rest =>
      let (d, t) := respawnEffect rc d t in
      let (rest, t) := effectAll rc rest t in
      (d :: rest, t)
  end.

Definition commit (w : World) : World :=
  let t := cleanupAll (dice w) (timers w) in
  let (ds, t) := effectAll (resetCount (container w)) (dice w) t in
  mkWorld t (container w) ds (notified w) (completions w).

(** A call of the [onStable] prop, which is [handleDiceStable]; its
    [setDiceValues] makes the container render again. *)
Definition deliver (r : option Settled) (w : World) : World :=
  match r with
  | None => w
  | Some s =>
      let (c, t) :=
        handleDiceStable (settledIndex s) (settledValue s)
          (container w) (timers w) in
      commit (mkWorld t c (dice w) (notified w ++ [s]) (completions w))
  end.

(** Runs a function of die [i] that may call [onStable]. *)
Definition withDie (i : nat) (f : PhysicsDice -> PhysicsDice * option Settled)
  (w : World) : World :=
  match nth_error (dice w) i with
  | Some d =>
      let (d, r) := f d in
      deliver r
        (mkWorld (timers w) (container w) (replaceNth i d (dice w))
           (notified w) (completions w))
  | None => w
  end.

(** Runs a function of die [i] that may set or clear timers. *)
Definition withDieTimers (i : nat)
  (f : PhysicsDice -> Timers -> PhysicsDice * Timers) (w : World) : World :=
  match nth_error (dice w) i with
  | Some d =>
      let (d, t) := f d (timers w) in
      mkWorld t (container w) (replaceNth i d (dice w))
        (notified w) (completions w)
  | None => w
  end.

Definition totalEqb (a b : option Z) : bool :=
  match a, b with
  | Some a, Some b => (a =? b)%Z
  | None, None => true
  | _, _ => false
  end.

(** The click on the button: [handleReset], and the render that follows
    when it changed the state. *)
Definition click (w : World) : World :=
  let (c, t) := handleReset (container w) (timers w) in
  let w' := mkWorld t c (dice w) (notified w) (completions w) in
  if isRolling (container w) then w' else commit w'.

(** What a timer runs.  A callback of the container that changes its state
    is followed by a render. *)
Definition run (r : Draw) (cb : Callback) (w : World) : World :=
  match cb with
  | ResetTimer =>
      let w' :=
        mkWorld (timers w) (resetTimeout (container w)) (dice w)
          (notified w) (completions w) in
      if isRolling (container w) then commit w' else w'
  | PointsTimer =>
      let w' :=
        mkWorld (timers w) (pointsTimeout (container w)) (dice w)
          (notified w) (S (completions w)) in
      if totalEqb (totalPoints (container w)) (totalPoints (container w'))
      then w' else commit w'
  | RespawnTimer i => withDieTimers i (respawnTimeout r) w
  | StabilityTimer i => withDieTimers i stabilityTimeout w
  | GradualDamping i => withDieTimers i gradualDampingTick w
  | StabilityCheck i => withDie i (checkStability (now (timers w))) w
  | ForcedLock i => withDie i forcedLockTimeout w
  end.

(** The pending timer that is due first; of several due together, the one
    set first. *)
Fixpoint earliest (l : list Timer) : option Timer :=
  match l with
  | [] => None
  | tm :: rest =>
      match earliest rest with
      | Some tm' => if (due tm' <? due tm)%nat then Some tm' else Some tm
      | None => Some tm
      end
  end.

Definition dueTimer (t : Timers) : option Timer :=
  match earliest (pending t) with
  | Some tm => if (due tm <=? now t)%nat then Some tm else None
  | None => None
  end.

(** Takes a due timer off the table, or moves it one period on when it is
    an interval, and runs its callback. *)
Definition fire (r : Draw) (tm : Timer) (w : World) : World :=
  let t := clearTimeout (timerId tm) (timers w) in
  let t :=
    match every tm with
    | Some period =>
        mkTimers (now t) (nextTimerId t)
          (pending t ++
             [mkTimer (timerId tm) (due tm + period) (Some period) (callback tm)])
    | None => t
    end in
  run r (callback tm)
    (mkWorld t (container w) (dice w) (notified w) (completions w)).

(** One turn of the event loop: the timer that is due runs; when none is
    due, a millisecond passes.  On this clock a callback and the render
    that follows it take no time, and a timer runs in the millisecond it
    is due. *)
Definition tick (r : Draw) (w : World) : World :=
  match dueTimer (timers w) with
  | Some tm => fire r tm w
  | None =>
      mkWorld
        (mkTimers (S (now (timers w))) (nextTimerId (timers w))
           (pending (timers w)))
        (container w) (dice w) (notified w) (completions w)
  end.

(** What happens to the page. *)
Inductive Action : Type :=
| Click
| Tick (r : Draw)
| Simulate (i : nat) (k : Kinematics).

Definition step (w : World) (a : Action) : World :=
  match a with
  | Click => click w
  | Tick r => tick r w
  | Simulate i k =>
      match nth_error (dice w) i with
      | Some d =>
          mkWorld (timers w) (container w)
            (replaceNth i
               (setDiceRef (option_map (simulate k) (diceRef d)) d) (dice w))
            (notified w) (completions w)
      | None => w
      end
  end.

Definition steps (w : World) (acts : list Action) : World :=
  fold_left step acts w.

(** The dice the container mounts, from index [i] on: [startDelay] is 100,
    and [handles] are the rigid bodies the engine has given them. *)
Fixpoint mountDice (i : nat) (handles : list (option RigidBody))
  : list PhysicsDice :=
  match handles with
  | [] => []
  | h :: rest =>
      mountPhysicsDice (calculateDicePosition i) i 100 h
        :: mountDice (S i) rest
  end.

Definition mountWorld (handles : list (option RigidBody)) : World :=
  mkWorld (mkTimers 0 1 []) mountDiceContainer (mountDice 0 handles) [] 0.

(** ** Vocabulary of the properties *)

(** The six axis-aligned rest orientations of the die, one per face: the
    rotation that turns that face's normal onto world-up. *)
Definition SQRT1_2 : R := sqrt (1 / 2).

(** No rotation: Top (Y+) is up. *)
Definition restTop : Quaternion := mkQuaternion 0 0 0 1.

(** Half a turn about X: Bottom (Y-) is up. *)
Definition restBottom : Quaternion := mkQuaternion 1 0 0 0.

(** A quarter turn about X, clockwise: Front (Z+) is up. *)
Definition restFront : Quaternion := mkQuaternion (- SQRT1_2) 0 0 SQRT1_2.

(** A quarter turn about X, counter-clockwise: Back (Z-) is up. *)
Definition restBack : Quaternion := mkQuaternion SQRT1_2 0 0 SQRT1_2.

(** A quarter turn about Z, counter-clockwise: Right (X+) is up. *)
Definition restRight : Quaternion := mkQuaternion 0 0 SQRT1_2 SQRT1_2.

(** A quarter turn about Z, clockwise: Left (X-) is up. *)
Definition restLeft : Quaternion := mkQuaternion 0 0 (- SQRT1_2) SQRT1_2.

(** [f] is the first entry of [l] at which [a] is greatest: no entry has a
    greater [a], and every earlier entry has a smaller one. *)
Definition FirstMax (a : Face -> R) (l : list Face) (f : Face) : Prop :=
  exists i,
    nth_error l i = Some f /\
    (forall g, In g l -> (a g <= a f)%R) /\
    (forall j g, (j < i)%nat -> nth_error l j = Some g -> (a g < a f)%R).

(** What the loop holds after a prefix of the table. *)
Definition LoopInv (a : Face -> R) (p : list Face) (b : Best) : Prop :=
  match p with
  | [] => b = mkBest None 1
  | _ :: _ => exists f, FirstMax a p f /\ b = mkBest (Some (a f)) (value f)
  end.

(** A unit quaternion, a turn of about 33 degrees about X: Top (Y+) is
    still the face most nearly up. *)
Definition tilted : Quaternion := mkQuaternion (7 / 25) 0 0 (24 / 25).






(** The [n] most recent entries of a history. *)
Definition lastN {A : Type} (n : nat) (l : list A) : list A :=
  skipn (List.length l - n) l.

(** Every two consecutive positions of [ps] lie at most [eps] apart. *)
Definition ConsecutiveWithin (eps : R) (ps : list Vector3) : Prop :=
  forall k a b,
    nth_error ps k = Some a -> nth_error ps (S k) = Some b ->
    (THREE.distanceTo a b <= eps)%R.

(** The settle criterion of the specification, on the history as it
    stands after the sample of the tick and the velocities of the body. *)
Definition SettleCondition (history : list Sample) (body : RigidBody) : Prop :=
  (5 <= List.length history)%nat /\
  ConsecutiveWithin (1 / 10000) (map pos (lastN 5 history)) /\
  (magnitude (linvel body) <= 5 / 1000)%R /\
  (magnitude (angvel body) <= 5 / 1000)%R.

(** One tick of the detector: the simulation has moved the body to [k],
    and [checkStability] runs at time [t]. *)
Definition observe (d : PhysicsDice) (tick : nat * Kinematics)
  : PhysicsDice * option Settled :=
  checkStability (fst tick)
    (setDiceRef (option_map (simulate (snd tick)) (diceRef d)) d).

(** A run of ticks, with what each reported. *)
Fixpoint observeAll (d : PhysicsDice) (ticks : list (nat * Kinematics))
  : PhysicsDice * list (option Settled) :=
  match ticks with
  | [] => (d, [])
  | tick :: rest =>
      let (d1, r) := observe d tick in
      let (d2, rs) := observeAll d1 rest in
      (d2, r :: rs)
  end.

(** A die as the respawn effect leaves its detector: no sample, unlocked. *)
Definition Respawned (d : PhysicsDice) : Prop :=
  positionHistoryRef d = [] /\ isLockedRef d = false.

(** A body lying still where it was mounted, and a die that holds it. *)
Definition restingKinematics : Kinematics :=
  mkKinematics (mkVector3 0 (3 / 10) 0) restTop zeroVector zeroVector.

Definition restingDie : PhysicsDice :=
  mountPhysicsDice (mkVector3 0 4 0) 0 100
    (Some (mountRigidBody (mkVector3 0 4 0) restTop)).

(** What can be called on a die within one roll: [lockDicePhysics], a
    round of the stability interval, the forced lock, and, in between, a
    step of the simulation. *)
Inductive Invocation : Type :=
| Freeze
| Check (currentTime : nat)
| Forced
| Simulated (k : Kinematics).

Definition invoke (d : PhysicsDice) (a : Invocation)
  : PhysicsDice * option Settled :=
  match a with
  | Freeze => lockDicePhysics d
  | Check t => checkStability t d
  | Forced => forcedLockTimeout d
  | Simulated k =>
      (setDiceRef (option_map (simulate k) (diceRef d)) d, None)
  end.

(** A run of invocations, with the calls of [onStable] it made, in order. *)
Fixpoint invokeAll (d : PhysicsDice) (acts : list Invocation)
  : PhysicsDice * list Settled :=
  match acts with
  | [] => (d, [])
  | a :: rest =>
      let (d1, r) := invoke d a in
      let (d2, rs) := invokeAll d1 rest in
      (d2, match r with Some s => s :: rs | None => rs end)
  end.

(** A series of calls of [handleDiceStable]. *)
Fixpoint deliverAll (ns : list Settled) (c : DiceContainer) (t : Timers)
  : DiceContainer * Timers :=
  match ns with
  | [] => (c, t)
  | s :: rest =>
      let (c, t) := handleDiceStable (settledIndex s) (settledValue s) c t in
      deliverAll rest c t
  end.

(** The sum of a list of face values. *)
Definition sumZ (vs : list Z) : Z := fold_right Z.add 0%Z vs.

(** The values of the dice that have a handle, in the order of [diceRefs]. *)
Definition liveValues (diceRefs : list (option RigidBody)) : list Z :=
  flat_map
    (fun dice =>
       match dice with
       | Some dice => [getDiceValueFromRotation (rotation dice)]
       | None => []
       end)
    diceRefs.

(** The notifications of a roll in which the dice settle in the order
    [order] and die [i] shows [nth i vs]. *)
Definition settlesInOrder (vs : list Z) (order : list nat) : list Settled :=
  map (fun i => mkSettled i (nth i vs 0%Z)) order.

(** Five bodies at rest showing 3, 5, 1, 6 and 2. *)
Definition restingBodies : list (option RigidBody) :=
  [ Some (mountRigidBody (calculateDicePosition 0) restTop)
  ; Some (mountRigidBody (calculateDicePosition 1) restLeft)
  ; Some (mountRigidBody (calculateDicePosition 2) restFront)
  ; Some (mountRigidBody (calculateDicePosition 3) restBottom)
  ; Some (mountRigidBody (calculateDicePosition 4) restRight) ].

(** ** The roll, from the click to the reset: what the properties say *)

(** The timer identifiers a die holds in its refs. *)
Definition refsOf (d : PhysicsDice) : list (option nat) :=
  [timerRef d; stabilityTimerRef d; gradualDampingRef d; stabilityCheckRef d].

(** No die holds [id] in a ref: no cleanup and no effect will cancel it. *)
Definition Untracked (ds : list PhysicsDice) (id : nat) : Prop :=
  forall d, In d ds -> ~ In (Some id) (refsOf d).

(** The die a callback belongs to. *)
Definition dieOf (cb : Callback) : option nat :=
  match cb with
  | ResetTimer | PointsTimer => None
  | RespawnTimer i | StabilityTimer i | GradualDamping i
  | StabilityCheck i | ForcedLock i => Some i
  end.

(** The callbacks whose timer a die keeps in a ref. *)
Definition tracked (cb : Callback) : bool :=
  match cb with
  | RespawnTimer _ | StabilityTimer _ | GradualDamping _ | StabilityCheck _ =>
      true
  | ResetTimer | PointsTimer | ForcedLock _ => false
  end.

(** When a timer of the roll that started at [T] is due. *)
Definition DueOk (T : nat) (tm : Timer) : Prop :=
  match callback tm with
  | ResetTimer => due tm = (T + 4000)%nat /\ every tm = None
  | PointsTimer => (T + 100 < due tm <= T + 3200)%nat /\ every tm = None
  | RespawnTimer _ => due tm = (T + 100)%nat /\ every tm = None
  | StabilityTimer _ => due tm = (T + 1600)%nat /\ every tm = None
  | GradualDamping _ | StabilityCheck _ =>
      (T + 100 < due tm)%nat /\ every tm = Some 100%nat
  | ForcedLock _ => due tm = (T + 3100)%nat /\ every tm = None
  end.

(** What the refs of its die say while a timer is pending. *)
Definition RefOk (d : PhysicsDice) (tm : Timer) : Prop :=
  match callback tm with
  | RespawnTimer _ =>
      timerRef d = Some (timerId tm) /\ isLockedRef d = false
  | StabilityTimer _ =>
      timerRef d = None /\ stabilityTimerRef d = Some (timerId tm)
  | GradualDamping _ =>
      timerRef d = None /\ stabilityTimerRef d = None /\
      gradualDampingRef d = Some (timerId tm)
  | StabilityCheck _ =>
      timerRef d = None /\ stabilityTimerRef d = None /\
      stabilityCheckRef d = Some (timerId tm)
  | ForcedLock _ => timerRef d = None
  | ResetTimer | PointsTimer => True
  end.

(** What holds of a pending timer during the roll that started at [T]:
    it is not overdue, its identifier has been handed out, it is due when
    its callback says, and it is either tracked by the right ref of its
    die or held by no die at all. *)
Definition TimerOk (T : nat) (w : World) (tm : Timer) : Prop :=
  (now (timers w) <= due tm)%nat /\
  (timerId tm < nextTimerId (timers w))%nat /\
  DueOk T tm /\
  (callback tm = ResetTimer ->
   resetTimerRef (container w) = Some (timerId tm)) /\
  (tracked (callback tm) = false -> Untracked (dice w) (timerId tm)) /\
  (forall i, dieOf (callback tm) = Some i ->
     exists d, nth_error (dice w) i = Some d /\ RefOk d tm).

(** A locked die holds a fixed body and the value of its orientation. *)
Definition Resolved (d : PhysicsDice) : Prop :=
  isLockedRef d = true ->
  exists body,
    diceRef d = Some body /\ bodyType body = Fixed /\
    finalValueRef d = getDiceValueFromRotation (rotation body).

(** What holds of the die at position [i] of the page at all times. *)
Definition DieOk (w : World) (i : nat) (d : PhysicsDice) : Prop :=
  index d = i /\ startDelay d = 100%nat /\
  lastResetCountRef d = resetCount (container w) /\
  (forall id, In (Some id) (refsOf d) -> (id < nextTimerId (timers w))%nat) /\
  (1 <= finalValueRef d <= 6)%Z /\
  Resolved d.

(** A die with a handle is locked, or its forced lock is still to come. *)
Definition Live (w : World) (i : nat) (d : PhysicsDice) : Prop :=
  diceRef d <> None ->
  isLockedRef d = true \/
  exists tm, In tm (pending (timers w)) /\
             (callback tm = ForcedLock i \/ callback tm = RespawnTimer i).

(** The invariant of the page.  While a roll is in flight, it started at
    some time [T]: the reset timer is pending, due at [T + 4000], and every
    pending timer is as [TimerOk] says.  Between rolls no timer is
    pending. *)
Definition Inv (w : World) : Prop :=
  (forall i d, nth_error (dice w) i = Some d -> DieOk w i d) /\
  NoDup (map timerId (pending (timers w))) /\
  if isRolling (container w) then
    exists T,
      (exists tm, In tm (pending (timers w)) /\ callback tm = ResetTimer) /\
      Forall (TimerOk T w) (pending (timers w)) /\
      (forall i d, nth_error (dice w) i = Some d -> Live w i d)
  else pending (timers w) = [].

(** A die frozen for good: locked, its body fixed, and its value that of
    its orientation. *)
Definition Locked (d : PhysicsDice) : Prop :=
  isLockedRef d = true /\ (1 <= finalValueRef d <= 6)%Z /\
  exists body,
    diceRef d = Some body /\ bodyType body = Fixed /\
    finalValueRef d = getDiceValueFromRotation (rotation body).

(** Every die that has a body is locked for good. *)
Definition AllLocked (w : World) : Prop :=
  forall d, In d (dice w) -> diceRef d <> None -> Locked d.

(** What the functions that freeze a die leave untouched. *)
Definition KeepsDie (d d' : PhysicsDice) : Prop :=
  index d' = index d /\ startDelay d' = startDelay d /\
  lastResetCountRef d' = lastResetCountRef d /\
  refsOf d' = refsOf d /\
  (diceRef d' = None <-> diceRef d = None) /\
  (isLockedRef d = true -> isLockedRef d' = true) /\
  ((1 <= finalValueRef d <= 6)%Z -> (1 <= finalValueRef d' <= 6)%Z) /\
  (Resolved d -> Resolved d').

(** The part of the invariant that holds throughout a roll, also while a
    callback is running. *)
Definition RollInv (T : nat) (w : World) : Prop :=
  (forall i d, nth_error (dice w) i = Some d -> DieOk w i d) /\
  NoDup (map timerId (pending (timers w))) /\
  isRolling (container w) = true /\
  Forall (TimerOk T w) (pending (timers w)).

Definition ResetPending (w : World) : Prop :=
  exists tm, In tm (pending (timers w)) /\ callback tm = ResetTimer.

(** The page once [tm] has been taken off the timer table, or moved one
    period on: what [fire] hands to the callback. *)
Definition dequeued (tm : Timer) (w : World) : World :=
  let t := clearTimeout (timerId tm) (timers w) in
  let t :=
    match every tm with
    | Some period =>
        mkTimers (now t) (nextTimerId t)
          (pending t ++
             [mkTimer (timerId tm) (due tm + period) (Some period) (callback tm)])
    | None => t
    end in
  mkWorld t (container w) (dice w) (notified w) (completions w).

(** The die the respawn effect leaves, its respawn timer being [id]. *)
Definition respawned (rc id : nat) (d : PhysicsDice) : PhysicsDice :=
  mkPhysicsDice (position d) (index d) (startDelay d) (diceRef d) true (1 / 2)
    false 1 (Some id) rc None None None [].

(** Whether a ref holds a rigid body. *)
Definition present (h : option RigidBody) : bool :=
  match h with Some _ => true | None => false end.

(** Which dice of the page have their rigid body. *)
Definition handlesOf (w : World) : list bool :=
  map (fun d => present (diceRef d)) (dice w).

(** The deadlines of the roll that started at [T], as the timer table of
    [w] has them: the reset timer is pending and due at [T + 4000]; a
    respawn is due [startDelay] after the click, a forced lock 3000 ms
    after the respawn, and the points callback at most 100 ms after the
    last forced lock; and every die that has a body and is not locked yet
    still has its forced lock, or the respawn that sets it, ahead. *)
Definition RollTiming (T : nat) (w : World) : Prop :=
  (now (timers w) <= T + 4000)%nat /\
  (exists tm, In tm (pending (timers w)) /\ callback tm = ResetTimer /\
              due tm = (T + 4000)%nat) /\
  (forall tm i, In tm (pending (timers w)) ->
     callback tm = RespawnTimer i -> due tm = (T + 100)%nat) /\
  (forall tm i, In tm (pending (timers w)) ->
     callback tm = ForcedLock i -> due tm = (T + 100 + 3000)%nat) /\
  (forall tm, In tm (pending (timers w)) ->
     callback tm = PointsTimer -> (due tm <= T + 100 + 3000 + 100)%nat) /\
  (forall i d, nth_error (dice w) i = Some d -> diceRef d <> None ->
     isLockedRef d = true \/
     exists tm, In tm (pending (timers w)) /\
                (callback tm = ForcedLock i \/ callback tm = RespawnTimer i)).

(** Whatever happens next to [w], if it takes the rolling flag down it
    does so at [T + 4000], and every body the page was mounted with is
    then locked. *)
Definition EndsLocked (T : nat) (handles : list (option RigidBody))
  (w : World) : Prop :=
  forall a : Action,
    isRolling (container (step w a)) = false ->
    now (timers (step w a)) = (T + 4000)%nat /\
    Forall2 (fun h d => h <> None -> Locked d) handles (dice (step w a)).

(** A roll that started at [T] is in flight: the invariant of the roll
    holds, the reset timer is pending, and every unlocked die that has a
    body has its forced lock ahead. *)
Definition Rolling (T : nat) (w : World) : Prop :=
  RollInv T w /\ ResetPending w /\
  (forall j e, nth_error (dice w) j = Some e -> Live w j e).

(** The roll that started at [T] has just ended: the flag is down, the
    time is [T + 4000], and every die that has a body is locked. *)
Definition RollEnded (T : nat) (w : World) : Prop :=
  Inv w /\ AllLocked w /\ isRolling (container w) = false /\
  now (timers w) = (T + 4000)%nat.

(** The rolling flag is set in [w] and stays set along [acts]. *)
Fixpoint rollingThrough (w : World) (acts : list Action) : bool :=
  match acts with
  | [] => isRolling (container w)
  | a :: rest => isRolling (container w) && rollingThrough (step w a) rest
  end.

(** A draw, for pages whose dice have no body to move. *)
Definition draw0 : Draw := mkDraw 0 0 restTop zeroVector.


(** ** Further vocabulary: the resolver, the refs of the dice, the score
    panel of [utils/Points.tsx], and what an action does to the page *)

(** The quaternion product [a b] ([Quaternion.multiplyQuaternions]): as a
    rotation, [b] followed by [a]. *)
Definition multiplyQuaternions (a b : Quaternion) : Quaternion :=
  mkQuaternion
    (qx a * qw b + qw a * qx b + qy a * qz b - qz a * qy b)
    (qy a * qw b + qw a * qy b + qz a * qx b - qx a * qz b)
    (qz a * qw b + qw a * qz b + qx a * qy b - qy a * qx b)
    (qw a * qw b - qx a * qx b - qy a * qy b - qz a * qz b).

(** A turn about world-up, the Y axis, given by the cosine [c] and the
    sine [s] of half its angle. *)
Definition yaw (c s : R) : Quaternion := mkQuaternion 0 s 0 c.

(** The history of a die never outgrows the ten samples [checkStability]
    keeps. *)
Definition HistoryBounded (d : PhysicsDice) : Prop :=
  (List.length (positionHistoryRef d) <= 10)%nat.

(** The damping of a die is on the ramp: 0.5 plus so many steps of 0.5,
    39 at most, which is 20. *)
Definition DampingOnRamp (d : PhysicsDice) : Prop :=
  exists k : nat, (k <= 39)%nat /\ currentDampingRef d = ((1 + INR k) / 2)%R.

(** A die that has no rigid body is not locked. *)
Definition UnlockedWithoutBody (d : PhysicsDice) : Prop :=
  diceRef d = None -> isLockedRef d = false.

(** [n] rounds of the damping interval of a die. *)
Fixpoint dampingRounds (n : nat) (d : PhysicsDice) (t : Timers)
  : PhysicsDice * Timers :=
  match n with
  | O => (d, t)
  | S n =>
      let (d, t) := dampingRounds n d t in
      gradualDampingTick d t
  end.

(** The callback ref the container gives die [index]: the loop pushes
    [null] while [diceRefs.current.length <= index], then
    [diceRefs.current[index] = el]. *)
Definition refCallback (index : nat) (el : option RigidBody)
  (diceRefs : list (option RigidBody)) : list (option RigidBody) :=
  replaceNth index el
    (diceRefs ++ repeat None (S index - List.length diceRefs)).

(** The callbacks of the dice [order], in that order, die [i] handing in
    [nth i handles None]. *)
Definition registerAll (handles : list (option RigidBody)) (order : list nat)
  (diceRefs : list (option RigidBody)) : list (option RigidBody) :=
  fold_left (fun refs i => refCallback i (nth i handles None) refs)
    order diceRefs.

(** The state of the [Points] component of [utils/Points.tsx]. *)
Record PointsState : Type :=
  mkPointsState { pointsTotal : Z; pointsValues : list Z }.

(** The props of [Points] that change; [diceRefs] is one ref object
    throughout. *)
Record PointsProps : Type :=
  mkPointsProps
    { propResetCount : nat; propIsRolling : bool; propUpdateTrigger : nat }.

Definition mountPointsState : PointsState := mkPointsState 0 [].

(** The effect on [resetCount]. *)
Definition pointsResetEffect (p : PointsProps) (s : PointsState)
  : PointsState :=
  if (0 <? propResetCount p)%nat then mkPointsState 0 [] else s.

(** The effect on [updateTrigger] and [isRolling], reading the handles
    [diceRefs.current] holds when it runs. *)
Definition pointsUpdateEffect (p : PointsProps)
  (diceRefs : list (option RigidBody)) (s : PointsState) : PointsState :=
  match calculatePoints (propUpdateTrigger p) (propIsRolling p) diceRefs with
  | Some (values, sum) => mkPointsState sum values
  | None => s
  end.

(** A render of [Points] with the props [p] after one with [old], or the
    first render when there is none: the effects whose dependencies have
    changed run, in the order of the source, on the state of the
    render. *)
Definition pointsRender (old : option PointsProps) (p : PointsProps)
  (diceRefs : list (option RigidBody)) (s : PointsState) : PointsState :=
  let resetChanged :=
    match old with
    | None => true
    | Some o => negb (propResetCount o =? propResetCount p)%nat
    end in
  let updateChanged :=
    match old with
    | None => true
    | Some o =>
        negb (propUpdateTrigger o =? propUpdateTrigger p)%nat
        || negb (Bool.eqb (propIsRolling o) (propIsRolling p))
    end in
  let s := if resetChanged then pointsResetEffect p s else s in
  if updateChanged then pointsUpdateEffect p diceRefs s else s.

(** What the panel shows: the total, or ['...'] ([None]) while rolling,
    and under it the values and the total when there are values. *)
Definition pointsShownTotal (p : PointsProps) (s : PointsState) : option Z :=
  if propIsRolling p then None else Some (pointsTotal s).

Definition pointsShownBreakdown (p : PointsProps) (s : PointsState)
  : option (list Z * Z) :=
  if negb (propIsRolling p) && (0 <? List.length (pointsValues s))%nat
  then Some (pointsValues s, pointsTotal s) else None.

(** A run of renders of [Points], each with its props and the handles the
    ref array holds at that time. *)
Fixpoint pointsRenders (old : option PointsProps)
  (rs : list (PointsProps * list (option RigidBody))) (s : PointsState)
  : PointsState :=
  match rs with
  | [] => s
  | (p, diceRefs) :: rest =>
      pointsRenders (Some p) rest (pointsRender old p diceRefs s)
  end.

(** What [Points] keeps true of its state: the total is the sum of the
    values, and every value is a face. *)
Definition PointsConsistent (s : PointsState) : Prop :=
  pointsTotal s = sumZ (pointsValues s) /\
  Forall (fun v => (1 <= v <= 6)%Z) (pointsValues s).

(** Two states of a die that show the same to the container: the same
    lock flag and the same value. *)
Definition SameFace (d d' : PhysicsDice) : Prop :=
  isLockedRef d' = isLockedRef d /\ finalValueRef d' = finalValueRef d.

Definition SameFaces (ds ds' : list PhysicsDice) : Prop :=
  Forall2 SameFace ds ds'.

(** A timer that no die keeps in a ref stays pending from [w] to [w']
    unless it is the one that was due in [w]. *)
Definition Survives (w w' : World) : Prop :=
  forall p, In p (pending (timers w)) -> tracked (callback p) = false ->
    In p (pending (timers w')) \/ dueTimer (timers w) = Some p.

(** The pending points timers of [w'] are those of [w]. *)
Definition SamePoints (w w' : World) : Prop :=
  forall p, callback p = PointsTimer ->
    (In p (pending (timers w')) <-> In p (pending (timers w))).

(** What one action of a roll in flight can be, seen from the container.
    Nothing: the container is as it was and the dice show the same. *)
Definition Quiet (w w' : World) : Prop :=
  container w' = container w /\ SameFaces (dice w) (dice w') /\
  SamePoints w w' /\
  notified w' = notified w /\ completions w' = completions w.

(** A die settles: die [i] locks and [handleDiceStable] is called with its
    value; the render that follows leaves pending only timers that no die
    holds in a ref. *)
Definition Settles (w w' : World) : Prop :=
  exists i d d',
    nth_error (dice w) i = Some d /\ isLockedRef d = false /\
    isLockedRef d' = true /\
    dice w' = replaceNth i d' (dice w) /\
    container w' =
      fst (handleDiceStable i (finalValueRef d') (container w) (timers w)) /\
    (forall p, callback p = PointsTimer ->
       (In p (pending (timers w')) <->
        In p (pending (timers w)) \/
        (hasCalculatedPointsRef (container w) = false /\
         stableDiceCountRef (container w) = 4%nat /\
         p = mkTimer (nextTimerId (timers w)) (now (timers w) + 100) None
               PointsTimer))) /\
    (forall q, In q (pending (timers w')) ->
       Untracked (dice w') (timerId q)) /\
    notified w' = notified w ++ [mkSettled i (finalValueRef d')] /\
    completions w' = completions w.

(** The points callback runs. *)
Definition Scores (w w' : World) : Prop :=
  (exists p, dueTimer (timers w) = Some p /\ callback p = PointsTimer) /\
  container w' = pointsTimeout (container w) /\ dice w' = dice w /\
  (forall q, In q (pending (timers w')) ->
     In q (pending (timers w)) /\ dueTimer (timers w) <> Some q) /\
  notified w' = notified w /\ completions w' = S (completions w).

(** The reset timer runs and ends the roll. *)
Definition Ends (w w' : World) : Prop :=
  container w' = resetTimeout (container w) /\ dice w' = dice w /\
  pending (timers w') = [] /\
  (forall p, In p (pending (timers w)) -> callback p <> PointsTimer) /\
  notified w' = notified w /\ completions w' = completions w.

(** The number of locked dice. *)
Definition lockedCount (ds : list PhysicsDice) : nat :=
  List.length (filter isLockedRef ds).

(** [diceValues] holds, at the index of every locked die, its value. *)
Definition ValuesMatch (vals : list Entry) (ds : list PhysicsDice) : Prop :=
  forall i d, nth_error ds i = Some d -> isLockedRef d = true ->
    nth_error vals i = Some (Number (finalValueRef d)).

(** A points timer is pending. *)
Definition PointsPending (w : World) : Prop :=
  exists p, In p (pending (timers w)) /\ callback p = PointsTimer.

(** What the container knows of the dice, at all times: the count is the
    number of locked dice, the values stored are theirs, the one-shot flag
    is up exactly from the fifth on, a points timer is pending only then,
    and with the flag up and the timer gone the total is the sum stored. *)
Definition ScoreCore (w : World) : Prop :=
  (List.length (dice w) <= diceCount)%nat /\
  stableDiceCountRef (container w) = lockedCount (dice w) /\
  ValuesMatch (diceValues (container w)) (dice w) /\
  (List.length (diceValues (container w)) <= List.length (dice w))%nat /\
  (hasCalculatedPointsRef (container w) = true <->
   (5 <= stableDiceCountRef (container w))%nat) /\
  (PointsPending w -> hasCalculatedPointsRef (container w) = true) /\
  (hasCalculatedPointsRef (container w) = false ->
   totalPoints (container w) = Some 0%Z) /\
  (hasCalculatedPointsRef (container w) = true ->
   PointsPending w \/
   totalPoints (container w) = reduceSum (diceValues (container w))) /\
  (forall p q, In p (pending (timers w)) -> In q (pending (timers w)) ->
     callback p = PointsTimer -> callback q = PointsTimer -> p = q).

(** And between rolls, once there has been one, every die that has a body
    is locked. *)
Definition Score (w : World) : Prop :=
  ScoreCore w /\
  (isRolling (container w) = false -> (0 < resetCount (container w))%nat ->
   AllLocked w).

(** From [t] to [t'] no time has passed, and a timer pending in [t'] was
    pending in [t] or is due later than now; a new one that a die keeps in
    a ref is there only when [b] allows it. *)
Definition Delta (b : bool) (t t' : Timers) : Prop :=
  now t' = now t /\
  forall q, In q (pending t') ->
    In q (pending t) \/
    ((now t < due q)%nat /\ (tracked (callback q) = true -> b = true)).

(** The timers that are due. *)
Definition dueNow (t : Timers) : list Timer :=
  filter (fun q => (due q <=? now t)%nat) (pending t).

(** What happens to the page, one action after the other, for ever: the
    [n] actions from the [k]-th on. *)
Definition prefix (s : nat -> Action) (k n : nat) : list Action :=
  map s (seq k n).

(** The event loop keeps turning: after every action there is a turn of
    it still to come. *)
Definition Fair (s : nat -> Action) : Prop :=
  forall k, exists j r, (k <= j)%nat /\ s j = Tick r.

(** Some die is locked. *)
Definition anyLocked (w : World) : bool := existsb isLockedRef (dice w).

(** Some pending timer is one a die keeps in a ref: a respawn, the start
    of the stability checks, or one of the two intervals. *)
Definition anyTracked (w : World) : bool :=
  existsb (fun q => tracked (callback q)) (pending (timers w)).

(** While a die is locked, no timer that a die keeps in a ref is
    pending. *)
Definition LockedMeansUntracked (w : World) : Prop :=
  forall d, In d (dice w) -> isLockedRef d = true ->
  forall q, In q (pending (timers w)) -> tracked (callback q) = false.

(** The values the dice hold, in the order of the dice. *)
Definition faceValues (w : World) : list Z := map finalValueRef (dice w).

(** How often the points callback has run, against the roll counter: once
    for every roll, the roll in flight counted from the moment its points
    timer has run. *)
Definition Tally (w : World) : Prop :=
  (hasCalculatedPointsRef (container w) = true -> ~ PointsPending w ->
   completions w = resetCount (container w)) /\
  (hasCalculatedPointsRef (container w) = false ->
   (resetCount (container w) = 0%nat /\ completions w = 0%nat /\
    isRolling (container w) = false) \/
   S (completions w) = resetCount (container w)) /\
  (PointsPending w -> S (completions w) = resetCount (container w)).

(** The die of slot [i], mounted with a body at rest. *)
Definition slotDie (i : nat) : PhysicsDice :=
  mountPhysicsDice (calculateDicePosition i) i 100
    (Some (mountRigidBody (calculateDicePosition i) restTop)).

(* ================================================================== *)
(** * Part II.  Properties *)
(* ================================================================== *)

(** ** Comparisons *)

Lemma gtb_true (a b : R) : Num.gtb a b = true <-> (a > b)%R.
Proof. unfold Num.gtb; destruct (Rgt_dec a b); split; intros; easy. Qed.

Lemma gtb_false (a b : R) : Num.gtb a b = false <-> (a <= b)%R.
Proof.
  unfold Num.gtb; destruct (Rgt_dec a b); split; intros; try easy; lra.
Qed.

Lemma ltb_true (a b : R) : Num.ltb a b = true <-> (a < b)%R.
Proof. unfold Num.ltb; destruct (Rlt_dec a b); split; intros; easy. Qed.

Lemma ltb_false (a b : R) : Num.ltb a b = false <-> (b <= a)%R.
Proof.
  unfold Num.ltb; destruct (Rlt_dec a b); split; intros; try easy; lra.
Qed.

Lemma geb_true (a b : R) : Num.geb a b = true <-> (a >= b)%R.
Proof. unfold Num.geb; destruct (Rge_dec a b); split; intros; easy. Qed.



(** ** OrientationResolver *)

Lemma quaternion_eta (q : Quaternion) :
  mkQuaternion (qx q) (qy q) (qz q) (qw q) = q.
Proof. destruct q; reflexivity. Qed.

Lemma FirstMax_singleton (a : Face -> R) (g : Face) : FirstMax a [g] g.
Proof.
  exists 0%nat; repeat split.
  - intros h [<- | []]; lra.
  - intros j h Hj; lia.
Qed.

Lemma FirstMax_snoc_keep (a : Face -> R) (p : list Face) (f g : Face) :
  FirstMax a p f -> (a g <= a f)%R -> FirstMax a (p ++ [g]) f.
Proof.
  intros (i & Hi & Hall & Hbefore) Hle.
  assert (Hlt : (i < length p)%nat) by (apply nth_error_Some; congruence).
  exists i; repeat split.
  - rewrite nth_error_app1; assumption.
  - intros h Hin; apply in_app_or in Hin as [Hin | [<- | []]]; auto.
  - intros j h Hj Hnth; rewrite nth_error_app1 in Hnth by lia; eauto.
Qed.

Lemma FirstMax_snoc_take (a : Face -> R) (p : list Face) (f g : Face) :
  FirstMax a p f -> (a g > a f)%R -> FirstMax a (p ++ [g]) g.
Proof.
  intros (i & Hi & Hall & Hbefore) Hgt.
  exists (length p); repeat split.
  - rewrite nth_error_app2, Nat.sub_diag; [reflexivity | lia].
  - intros h Hin; apply in_app_or in Hin as [Hin | [<- | []]].
    + specialize (Hall h Hin); lra.
    + lra.
  - intros j h Hj Hnth; rewrite nth_error_app1 in Hnth by lia.
    apply nth_error_In in Hnth; specialize (Hall h Hnth); lra.
Qed.

Lemma fold_visit_inv (quat : Quaternion) (p : list Face) :
  LoopInv (alignment quat) p (fold_left (visit quat) p (mkBest None 1)).
Proof.
  induction p as [| g p IH] using rev_ind; [reflexivity |].
  rewrite fold_left_app; cbn [fold_left].
  destruct p as [| h t].
  - cbn; exists g; split; [apply FirstMax_singleton | reflexivity].
  - cbn [LoopInv] in IH; destruct IH as (f & Hf & ->).
    cbn [app LoopInv]; change (h :: t ++ [g]) with ((h :: t) ++ [g]).
    unfold visit; cbn [maxAlignment exceeds].
    destruct (Num.gtb (alignment quat g) (alignment quat f)) eqn:E.
    + apply gtb_true in E; exists g; split;
        [apply FirstMax_snoc_take with f; assumption | reflexivity].
    + apply gtb_false in E; exists f; split;
        [apply FirstMax_snoc_keep; assumption | reflexivity].
Qed.

Lemma getDiceValueFromRotation_first_max (rotation : Quaternion) :
  exists f,
    FirstMax (alignment rotation) faces f /\
    getDiceValueFromRotation rotation = value f.
Proof.
  unfold getDiceValueFromRotation; rewrite quaternion_eta.
  pose proof (fold_visit_inv rotation faces) as H.
  unfold faces in H at 1; cbn [LoopInv] in H; fold faces in H.
  destruct H as (f & Hf & ->); exists f; split; [assumption | reflexivity].
Qed.

Lemma faces_values (f : Face) : In f faces -> (1 <= value f <= 6)%Z.
Proof.
  unfold faces; cbn; intros H.
  repeat (destruct H as [<- | H]; [cbn; lia |]); destruct H.
Qed.

Lemma getDiceValueFromRotation_range (rotation : Quaternion) :
  (1 <= getDiceValueFromRotation rotation <= 6)%Z.
Proof.
  destruct (getDiceValueFromRotation_first_max rotation)
    as (f & (i & Hi & _) & ->).
  apply faces_values; eapply nth_error_In; eassumption.
Qed.

Lemma SQRT1_2_sqr : (SQRT1_2 * SQRT1_2 = 1 / 2)%R.
Proof. unfold SQRT1_2; apply sqrt_def; lra. Qed.

(** Settles every comparison of a run of the loop on a given quaternion. *)
Ltac run_resolver :=
  unfold getDiceValueFromRotation, faces; cbn [fold_left];
  unfold visit, alignment, exceeds, worldUp, THREE.dot, THREE.applyQuaternion;
  cbn [x y z qx qy qz qw normal value maxAlignment upFaceValue];
  repeat match goal with
    | |- context [Num.gtb ?a ?b] =>
        let E := fresh "E" in
        destruct (Num.gtb a b) eqn:E;
        [ apply gtb_true in E | apply gtb_false in E ];
        cbn [x y z qx qy qz qw normal value maxAlignment upFaceValue];
        try (exfalso; nra)
    end;
  try reflexivity.

Lemma rest_orientations :
  getDiceValueFromRotation restFront = 1%Z /\
  getDiceValueFromRotation restRight = 2%Z /\
  getDiceValueFromRotation restTop = 3%Z /\
  getDiceValueFromRotation restBack = 4%Z /\
  getDiceValueFromRotation restLeft = 5%Z /\
  getDiceValueFromRotation restBottom = 6%Z.
Proof.
  pose proof SQRT1_2_sqr as Hs.
  unfold restFront, restRight, restTop, restBack, restLeft, restBottom.
  repeat split; run_resolver.
Qed.

(** C2.  For every input quaternion [getDiceValueFromRotation] returns the
    value of the first face, in the order Z+ (1), X+ (2), Y+ (3), Z- (4),
    X- (5), Y- (6) of the table, whose rotated normal has the greatest dot
    product with world-up (0,1,0); the result is always one of 1..6, and
    each of the six axis-aligned rest orientations yields the value of the
    face it turns up. *)
Theorem resolver_returns_first_most_upward_face :
  (forall rotation : Quaternion,
      exists f,
        FirstMax (alignment rotation) faces f /\
        getDiceValueFromRotation rotation = value f) /\
  (forall rotation : Quaternion,
      (1 <= getDiceValueFromRotation rotation <= 6)%Z) /\
  map (fun f => (normal f, value f)) faces =
    [ (mkVector3 0 0 1, 1%Z); (mkVector3 1 0 0, 2%Z); (mkVector3 0 1 0, 3%Z);
      (mkVector3 0 0 (-1), 4%Z); (mkVector3 (-1) 0 0, 5%Z);
      (mkVector3 0 (-1) 0, 6%Z) ] /\
  worldUp = mkVector3 0 1 0 /\
  getDiceValueFromRotation restFront = 1%Z /\
  getDiceValueFromRotation restRight = 2%Z /\
  getDiceValueFromRotation restTop = 3%Z /\
  getDiceValueFromRotation restBack = 4%Z /\
  getDiceValueFromRotation restLeft = 5%Z /\
  getDiceValueFromRotation restBottom = 6%Z.
Proof.
  split; [exact getDiceValueFromRotation_first_max |].
  split; [exact getDiceValueFromRotation_range |].
  split; [reflexivity |].
  split; [reflexivity |].
  exact rest_orientations.
Qed.









Local Open Scope R_scope.














Local Close Scope R_scope.

(** ** SettleDetector *)

Lemma last_five {A : Type} (h : list A) :
  (5 <= List.length h)%nat ->
  exists pre a b c d e, h = pre ++ [a; b; c; d; e].
Proof.
  intros H.
  rewrite <- (firstn_skipn (List.length h - 5) h).
  pose proof (length_skipn (List.length h - 5) h) as L.
  destruct (skipn (List.length h - 5) h) as [| a [| b [| c [| d [| e [| ? ?]]]]]];
    cbn in L; try lia.
  now exists (firstn (List.length h - 5) h), a, b, c, d, e.
Qed.

Lemma nth_error_app_plus {A : Type} (pre l : list A) (k : nat) :
  nth_error (pre ++ l) (List.length pre + k) = nth_error l k.
Proof.
  rewrite nth_error_app2 by lia.
  f_equal; lia.
Qed.

Lemma lastN_five {A : Type} (pre : list A) (a b c d e : A) :
  lastN 5 (pre ++ [a; b; c; d; e]) = [a; b; c; d; e].
Proof.
  unfold lastN; rewrite length_app; cbn [List.length].
  replace (List.length pre + 5 - 5)%nat with (List.length pre) by lia.
  rewrite skipn_app, skipn_all, Nat.sub_diag; reflexivity.
Qed.

Lemma ConsecutiveWithin_five (eps : R) (a b c d e : Vector3) :
  ConsecutiveWithin eps [a; b; c; d; e] <->
  (THREE.distanceTo a b <= eps)%R /\ (THREE.distanceTo b c <= eps)%R /\
  (THREE.distanceTo c d <= eps)%R /\ (THREE.distanceTo d e <= eps)%R.
Proof.
  unfold ConsecutiveWithin; split.
  - intros H; repeat split.
    + apply (H 0%nat); reflexivity.
    + apply (H 1%nat); reflexivity.
    + apply (H 2%nat); reflexivity.
    + apply (H 3%nat); reflexivity.
  - intros (Hab & Hbc & Hcd & Hde) k p q Hp Hq.
    destruct k as [| [| [| [| [| k]]]]]; cbn in Hp, Hq;
      try discriminate; injection Hp as <-; injection Hq as <-; assumption.
Qed.

Lemma positionsStable_five (pre : list Sample) (a b c d e : Sample) :
  positionsStable (pre ++ [a; b; c; d; e]) 1 4 = true <->
  ConsecutiveWithin (1 / 10000) (map pos [a; b; c; d; e]).
Proof.
  cbn [map]; rewrite ConsecutiveWithin_five.
  cbn [positionsStable]; rewrite length_app; cbn [List.length].
  replace (List.length pre + 5 - 1 - 1)%nat with (List.length pre + 3)%nat by lia.
  replace (List.length pre + 5 - 1)%nat with (List.length pre + 4)%nat by lia.
  replace (List.length pre + 5 - 2 - 1)%nat with (List.length pre + 2)%nat by lia.
  replace (List.length pre + 5 - 2)%nat with (List.length pre + 3)%nat by lia.
  replace (List.length pre + 5 - 3 - 1)%nat with (List.length pre + 1)%nat by lia.
  replace (List.length pre + 5 - 3)%nat with (List.length pre + 2)%nat by lia.
  replace (List.length pre + 5 - 4 - 1)%nat with (List.length pre + 0)%nat by lia.
  replace (List.length pre + 5 - 4)%nat with (List.length pre + 1)%nat by lia.
  rewrite !nth_error_app_plus; cbn [nth_error].
  destruct (Num.gtb (THREE.distanceTo (pos d) (pos e)) (1 / 10000)) eqn:Ede;
  destruct (Num.gtb (THREE.distanceTo (pos c) (pos d)) (1 / 10000)) eqn:Ecd;
  destruct (Num.gtb (THREE.distanceTo (pos b) (pos c)) (1 / 10000)) eqn:Ebc;
  destruct (Num.gtb (THREE.distanceTo (pos a) (pos b)) (1 / 10000)) eqn:Eab;
  rewrite ?gtb_true, ?gtb_false in *;
  split; try discriminate; try (intros; repeat split; assumption);
  intros (? & ? & ? & ?); lra.
Qed.

Lemma positionsStable_spec (history : list Sample) :
  (5 <= List.length history)%nat ->
  positionsStable history 1 4 = true <->
  ConsecutiveWithin (1 / 10000) (map pos (lastN 5 history)).
Proof.
  intros H; destruct (last_five history H) as (pre & a & b & c & d & e & ->).
  rewrite lastN_five; apply positionsStable_five.
Qed.

Lemma velocitiesStable_spec (body : RigidBody) :
  velocitiesStable body = true <->
  (magnitude (linvel body) <= 5 / 1000)%R /\
  (magnitude (angvel body) <= 5 / 1000)%R.
Proof.
  unfold velocitiesStable.
  destruct (Num.gtb (magnitude (linvel body)) (5 / 1000)) eqn:El;
  destruct (Num.gtb (magnitude (angvel body)) (5 / 1000)) eqn:Ea;
  rewrite ?gtb_true, ?gtb_false in *; cbn;
  split; try discriminate; try (intros; split; assumption);
  intros (? & ?); lra.
Qed.

(** An unlocked die with a live handle locks when asked to. *)
Lemma lockDicePhysics_unlocked (d : PhysicsDice) (body : RigidBody) :
  diceRef d = Some body -> isLockedRef d = false ->
  exists d',
    lockDicePhysics d =
      (d', Some (mkSettled (index d) (getDiceValueFromRotation (rotation body)))) /\
    isLockedRef d' = true /\
    finalValueRef d' = getDiceValueFromRotation (rotation body) /\
    positionHistoryRef d' = positionHistoryRef d.
Proof.
  intros Hb Hl; unfold lockDicePhysics; rewrite Hb, Hl; cbn.
  eexists; repeat split.
Qed.

Lemma pushSample_short (s : Sample) (history : list Sample) :
  (List.length history < 10)%nat -> pushSample s history = history ++ [s].
Proof.
  intros H; unfold pushSample.
  destruct (10 <? List.length (history ++ [s]))%nat eqn:E; [| reflexivity].
  apply Nat.ltb_lt in E; rewrite length_app in E; cbn in E; lia.
Qed.

Lemma pushSample_length (s : Sample) (history : list Sample) :
  (List.length (pushSample s history) <= S (List.length history))%nat.
Proof.
  unfold pushSample.
  destruct (10 <? List.length (history ++ [s]))%nat;
    [destruct (history ++ [s]) eqn:E; cbn;
       apply (f_equal (@List.length Sample)) in E |];
    rewrite length_app in *; cbn in *; lia.
Qed.

(** What one call of [checkStability] does to an unlocked die with a live
    handle: it records the sample, and locks exactly under the criterion. *)
Lemma checkStability_spec (t : nat) (d : PhysicsDice) (body : RigidBody) :
  diceRef d = Some body -> isLockedRef d = false ->
  let history :=
    pushSample (mkSample (translation body) t) (positionHistoryRef d) in
  positionHistoryRef (fst (checkStability t d)) = history /\
  (SettleCondition history body ->
     snd (checkStability t d) =
       Some (mkSettled (index d) (getDiceValueFromRotation (rotation body))) /\
     isLockedRef (fst (checkStability t d)) = true) /\
  (~ SettleCondition history body ->
     snd (checkStability t d) = None /\
     isLockedRef (fst (checkStability t d)) = false /\
     diceRef (fst (checkStability t d)) = Some body).
Proof.
  intros Hb Hl history; unfold checkStability, SettleCondition.
  rewrite Hb, Hl; fold history.
  set (d1 := setPositionHistoryRef history d).
  change (positionHistoryRef d1) with history.
  destruct (5 <=? List.length history)%nat eqn:E5.
  - apply Nat.leb_le in E5.
    pose proof (positionsStable_spec history E5) as Hp.
    pose proof (velocitiesStable_spec body) as Hv.
    destruct (positionsStable history 1 4) eqn:Ep.
    + destruct (velocitiesStable body) eqn:Ev.
      * destruct (lockDicePhysics_unlocked d1 body Hb Hl)
          as (d' & -> & Hlock & _ & Hh).
        cbn [fst snd]; split; [exact Hh |]; split.
        -- intros _; split; [reflexivity | exact Hlock].
        -- intros Hn; exfalso; apply Hn.
           split; [exact E5 |]; split; [apply Hp; reflexivity |].
           apply Hv; reflexivity.
      * cbn [fst snd]; split; [reflexivity |]; split.
        -- intros (_ & _ & Hvel); apply Hv in Hvel; discriminate.
        -- intros _; repeat split; [exact Hl | exact Hb].
    + cbn [fst snd]; split; [reflexivity |]; split.
      * intros (_ & Hpos & _); apply Hp in Hpos; discriminate.
      * intros _; repeat split; [exact Hl | exact Hb].
  - apply Nat.leb_gt in E5.
    cbn [fst snd]; split; [reflexivity |]; split.
    + intros (H5 & _); lia.
    + intros _; repeat split; [exact Hl | exact Hb].
Qed.

Lemma SettleCondition_dec (history : list Sample) (body : RigidBody) :
  SettleCondition history body \/ ~ SettleCondition history body.
Proof.
  unfold SettleCondition.
  destruct (le_lt_dec 5 (List.length history)) as [H5 | H5]; [| right; lia].
  pose proof (positionsStable_spec history H5) as Hp.
  pose proof (velocitiesStable_spec body) as Hv.
  destruct (positionsStable history 1 4); destruct (velocitiesStable body).
  - left; split; [exact H5 |]; split; [apply Hp | apply Hv]; reflexivity.
  - right; intros (_ & _ & H); apply Hv in H; discriminate.
  - right; intros (_ & H & _); apply Hp in H; discriminate.
  - right; intros (_ & H & _); apply Hp in H; discriminate.
Qed.

(** A call on a die without a handle, or on a locked die, does nothing. *)
Lemma checkStability_inert (t : nat) (d : PhysicsDice) :
  diceRef d = None \/ isLockedRef d = true -> checkStability t d = (d, None).
Proof.
  unfold checkStability; intros [H | H]; rewrite H; [reflexivity |].
  destruct (diceRef d); reflexivity.
Qed.

Lemma simulate_dynamic (k : Kinematics) (body : RigidBody) :
  bodyType body = Dynamic ->
  simulate k body =
    mkRigidBody (kTranslation k) (kRotation k) (kLinvel k) (kAngvel k) Dynamic
      (linearDamping body) (angularDamping body).
Proof. unfold simulate; intros ->; reflexivity. Qed.

(** A tick on a falling die that has fewer than four samples only records
    the position. *)
Lemma observe_recording (d : PhysicsDice) (body : RigidBody)
  (t : nat) (k : Kinematics) :
  diceRef d = Some body -> bodyType body = Dynamic -> isLockedRef d = false ->
  (List.length (positionHistoryRef d) < 4)%nat ->
  exists d' body',
    observe d (t, k) = (d', None) /\
    diceRef d' = Some body' /\ bodyType body' = Dynamic /\
    isLockedRef d' = false /\
    positionHistoryRef d' =
      positionHistoryRef d ++ [mkSample (kTranslation k) t].
Proof.
  intros Hb Hdyn Hl Hlen; unfold observe; cbn [fst snd].
  set (d0 := setDiceRef (option_map (simulate k) (diceRef d)) d).
  assert (Hb0 : diceRef d0 = Some (simulate k body))
    by (unfold d0; rewrite Hb; reflexivity).
  destruct (checkStability_spec t d0 (simulate k body) Hb0 Hl)
    as (Hh & _ & Hno).
  rewrite pushSample_short in Hh, Hno
    by (change (positionHistoryRef d0) with (positionHistoryRef d); lia).
  destruct Hno as (Hnone & Hl' & Hb').
  { intros (H5 & _).
    change (positionHistoryRef d0) with (positionHistoryRef d) in H5.
    rewrite length_app in H5; cbn in H5; lia. }
  exists (fst (checkStability t d0)), (simulate k body).
  split; [rewrite <- Hnone; apply surjective_pairing |].
  split; [exact Hb' |].
  split; [rewrite simulate_dynamic by assumption; reflexivity |].
  split; [exact Hl' |].
  rewrite Hh, simulate_dynamic by assumption; reflexivity.
Qed.

(** No run of fewer than five ticks after a respawn reports a settle. *)
Lemma observeAll_too_short (ticks : list (nat * Kinematics)) :
  forall d : PhysicsDice,
    isLockedRef d = false ->
    (List.length (positionHistoryRef d) + List.length ticks < 5)%nat ->
    Forall (fun r => r = None) (snd (observeAll d ticks)).
Proof.
  induction ticks as [| [t k] rest IH]; intros d Hl Hlen; cbn [observeAll].
  - constructor.
  - destruct (observe d (t, k)) as [d1 r] eqn:E1.
    destruct (observeAll d1 rest) as [d2 rs] eqn:E2; cbn [snd].
    cbn [List.length] in Hlen.
    assert (H1 : r = None /\ isLockedRef d1 = false /\
                 (List.length (positionHistoryRef d1)
                  <= S (List.length (positionHistoryRef d)))%nat).
    { unfold observe in E1; cbn [fst snd] in E1.
      set (d0 := setDiceRef (option_map (simulate k) (diceRef d)) d) in *.
      destruct (diceRef d0) as [body0 |] eqn:Hb0.
      - destruct (checkStability_spec t d0 body0 Hb0 Hl) as (Hh & _ & Hno).
        destruct Hno as (Hnone & Hl' & _).
        { intros (H5 & _).
          pose proof (pushSample_length (mkSample (translation body0) t)
                        (positionHistoryRef d0)) as Hp.
          change (positionHistoryRef d0) with (positionHistoryRef d) in Hp, H5.
          lia. }
        rewrite E1 in Hnone, Hl', Hh; cbn [fst snd] in *.
        split; [exact Hnone |]; split; [exact Hl' |].
        rewrite Hh; apply pushSample_length.
      - rewrite checkStability_inert in E1 by (left; exact Hb0).
        injection E1 as <- <-; repeat split; [exact Hl | cbn; lia]. }
    destruct H1 as (-> & Hl1 & Hlen1).
    constructor; [reflexivity |].
    specialize (IH d1 Hl1); rewrite E2 in IH; apply IH; lia.
Qed.

Lemma magnitude_zero : magnitude zeroVector = 0%R.
Proof.
  unfold magnitude, Num.pow2, zeroVector; cbn.
  replace (0 * 0 + 0 * 0 + 0 * 0)%R with 0%R by ring.
  apply sqrt_0.
Qed.

Lemma distanceTo_self (p : Vector3) : THREE.distanceTo p p = 0%R.
Proof.
  unfold THREE.distanceTo, THREE.distanceToSquared; cbn.
  replace ((x p - x p) * (x p - x p) + (y p - y p) * (y p - y p) +
           (z p - z p) * (z p - z p))%R with 0%R by ring.
  apply sqrt_0.
Qed.

(** Five ticks after a respawn whose positions all lie within 0.00001 of
    each other, with zero velocities, settle on the fifth tick. *)
Lemma observeAll_five_close (d : PhysicsDice) (body : RigidBody)
  (ticks : list (nat * Kinematics)) :
  Respawned d -> diceRef d = Some body -> bodyType body = Dynamic ->
  List.length ticks = 5%nat ->
  (forall a b, In a ticks -> In b ticks ->
     (THREE.distanceTo (kTranslation (snd a)) (kTranslation (snd b))
      <= 1 / 100000)%R) ->
  (forall a, In a ticks ->
     kLinvel (snd a) = zeroVector /\ kAngvel (snd a) = zeroVector) ->
  exists s, snd (observeAll d ticks) = [None; None; None; None; Some s].
Proof.
  intros (Hh & Hl) Hb Hdyn Hlen Hclose Hzero.
  destruct ticks as [| [t1 k1] [| [t2 k2] [| [t3 k3] [| [t4 k4]
    [| [t5 k5] [| ? ?]]]]]]; try discriminate; clear Hlen.
  cbn [observeAll].
  destruct (observe_recording d body t1 k1 Hb Hdyn Hl)
    as (d1 & b1 & -> & Hb1 & Hdyn1 & Hl1 & Hh1);
    [rewrite Hh; cbn; lia |].
  destruct (observe_recording d1 b1 t2 k2 Hb1 Hdyn1 Hl1)
    as (d2 & b2 & -> & Hb2 & Hdyn2 & Hl2 & Hh2);
    [rewrite Hh1, Hh; cbn; lia |].
  destruct (observe_recording d2 b2 t3 k3 Hb2 Hdyn2 Hl2)
    as (d3 & b3 & -> & Hb3 & Hdyn3 & Hl3 & Hh3);
    [rewrite Hh2, Hh1, Hh; cbn; lia |].
  destruct (observe_recording d3 b3 t4 k4 Hb3 Hdyn3 Hl3)
    as (d4 & b4 & -> & Hb4 & Hdyn4 & Hl4 & Hh4);
    [rewrite Hh3, Hh2, Hh1, Hh; cbn; lia |].
  unfold observe at 1; cbn [fst snd].
  set (d0 := setDiceRef (option_map (simulate k5) (diceRef d4)) d4).
  assert (Hb0 : diceRef d0 = Some (simulate k5 b4))
    by (unfold d0; rewrite Hb4; reflexivity).
  destruct (checkStability_spec t5 d0 (simulate k5 b4) Hb0 Hl4)
    as (_ & Hyes & _).
  destruct Hyes as (Hsome & _).
  { change (positionHistoryRef d0) with (positionHistoryRef d4).
    rewrite Hh4, Hh3, Hh2, Hh1, Hh, simulate_dynamic by assumption.
    cbn [app translation linvel angvel].
    rewrite pushSample_short by (cbn; lia); cbn [app].
    split; [cbn; lia |]; split.
    - change [mkSample (kTranslation k1) t1; mkSample (kTranslation k2) t2;
              mkSample (kTranslation k3) t3; mkSample (kTranslation k4) t4;
              mkSample (kTranslation k5) t5]
        with ([] ++ [mkSample (kTranslation k1) t1;
                     mkSample (kTranslation k2) t2;
                     mkSample (kTranslation k3) t3;
                     mkSample (kTranslation k4) t4;
                     mkSample (kTranslation k5) t5]).
      rewrite lastN_five; cbn [map pos].
      apply ConsecutiveWithin_five.
      pose proof (Hclose (t1, k1) (t2, k2)) as H12.
      pose proof (Hclose (t2, k2) (t3, k3)) as H23.
      pose proof (Hclose (t3, k3) (t4, k4)) as H34.
      pose proof (Hclose (t4, k4) (t5, k5)) as H45.
      cbn [snd In] in H12, H23, H34, H45.
      repeat split;
        [ assert (H := H12) | assert (H := H23)
        | assert (H := H34) | assert (H := H45) ];
        (etransitivity; [apply H; tauto | lra]).
    - destruct (Hzero (t5, k5)) as (Ev & Ew); [cbn; tauto |].
      cbn [snd] in Ev, Ew; cbn [linvel angvel].
      rewrite Ev, Ew, magnitude_zero; lra. }
  destruct (checkStability t5 d0) as [d5 r5]; cbn [snd] in *.
  eexists; rewrite Hsome; reflexivity.
Qed.

(** C1.  On an unlocked die with a live handle, [checkStability] reports a
    settle on a tick if and only if the history then holds at least five
    samples, the four displacements between consecutive pairs of the five
    most recent positions are each at most 0.0001, and the magnitudes of
    the linear and of the angular velocity are each at most 0.005.  After
    a respawn no run of fewer than five ticks settles, and five ticks
    within 0.00001 of each other with zero velocities settle on the fifth
    and not before. *)
Theorem stability_check_settles_iff_criterion :
  (forall (t : nat) (d : PhysicsDice) (body : RigidBody),
      diceRef d = Some body -> isLockedRef d = false ->
      let history :=
        pushSample (mkSample (translation body) t) (positionHistoryRef d) in
      positionHistoryRef (fst (checkStability t d)) = history /\
      (snd (checkStability t d) <> None <-> SettleCondition history body) /\
      (isLockedRef (fst (checkStability t d)) = true <->
       SettleCondition history body)) /\
  (forall (d : PhysicsDice) (ticks : list (nat * Kinematics)),
      Respawned d -> (List.length ticks < 5)%nat ->
      Forall (fun r => r = None) (snd (observeAll d ticks))) /\
  (forall (d : PhysicsDice) (body : RigidBody)
          (ticks : list (nat * Kinematics)),
      Respawned d -> diceRef d = Some body -> bodyType body = Dynamic ->
      List.length ticks = 5%nat ->
      (forall a b, In a ticks -> In b ticks ->
         (THREE.distanceTo (kTranslation (snd a)) (kTranslation (snd b))
          <= 1 / 100000)%R) ->
      (forall a, In a ticks ->
         kLinvel (snd a) = zeroVector /\ kAngvel (snd a) = zeroVector) ->
      exists s, snd (observeAll d ticks) = [None; None; None; None; Some s]).
Proof.
  split; [| split].
  - intros t d body Hb Hl history.
    destruct (checkStability_spec t d body Hb Hl) as (Hh & Hyes & Hno).
    fold history in Hh, Hyes, Hno.
    split; [exact Hh |].
    destruct (SettleCondition_dec history body) as [Hc | Hc].
    + destruct (Hyes Hc) as (Hs & Hk); rewrite Hs, Hk.
      split; split; intros; try assumption; try reflexivity; discriminate.
    + destruct (Hno Hc) as (Hs & Hk & _); rewrite Hs, Hk.
      split; split; intros; try contradiction; discriminate.
  - intros d ticks (Hh & Hl) Hlen.
    apply observeAll_too_short; [exact Hl | rewrite Hh; cbn; lia].
  - exact observeAll_five_close.
Qed.

Lemma stability_check_settles_iff_criterion_witness :
  exists s,
    snd (observeAll restingDie
           [ (1700%nat, restingKinematics); (1800%nat, restingKinematics)
           ; (1900%nat, restingKinematics); (2000%nat, restingKinematics)
           ; (2100%nat, restingKinematics) ])
    = [None; None; None; None; Some s].
Proof.
  apply (proj2 (proj2 stability_check_settles_iff_criterion) restingDie
           (mountRigidBody (mkVector3 0 4 0) restTop)).
  - split; reflexivity.
  - reflexivity.
  - reflexivity.
  - reflexivity.
  - intros a b Ha Hb; cbn [In] in Ha, Hb.
    assert (Ea : snd a = restingKinematics)
      by (repeat (destruct Ha as [<- | Ha]; [reflexivity |]); destruct Ha).
    assert (Eb : snd b = restingKinematics)
      by (repeat (destruct Hb as [<- | Hb]; [reflexivity |]); destruct Hb).
    rewrite Ea, Eb, distanceTo_self; lra.
  - intros a Ha; cbn [In] in Ha.
    assert (Ea : snd a = restingKinematics)
      by (repeat (destruct Ha as [<- | Ha]; [reflexivity |]); destruct Ha).
    rewrite Ea; split; reflexivity.
Defined.

(** ** BodyController: the freeze is one-shot *)

Lemma lockDicePhysics_locked (d : PhysicsDice) :
  isLockedRef d = true -> lockDicePhysics d = (d, None).
Proof.
  intros H; unfold lockDicePhysics; rewrite H.
  destruct (diceRef d); reflexivity.
Qed.

Lemma forcedLockTimeout_locked (d : PhysicsDice) :
  isLockedRef d = true -> forcedLockTimeout d = (d, None).
Proof. intros H; unfold forcedLockTimeout; rewrite H; reflexivity. Qed.

(** Whoever reports a settle leaves the lock flag set. *)
Lemma lockDicePhysics_reports (d : PhysicsDice) :
  snd (lockDicePhysics d) <> None ->
  isLockedRef d = false /\ isLockedRef (fst (lockDicePhysics d)) = true.
Proof.
  unfold lockDicePhysics.
  destruct (diceRef d) as [body |]; [| cbn; congruence].
  destruct (isLockedRef d); cbn; [congruence | split; reflexivity].
Qed.

Lemma lockDicePhysics_keeps_lock (d : PhysicsDice) :
  isLockedRef d = true -> isLockedRef (fst (lockDicePhysics d)) = true.
Proof. intros H; rewrite lockDicePhysics_locked; assumption. Qed.

Lemma invoke_locked (d : PhysicsDice) (a : Invocation) :
  isLockedRef d = true ->
  snd (invoke d a) = None /\ isLockedRef (fst (invoke d a)) = true.
Proof.
  intros H; destruct a; cbn [invoke].
  - rewrite lockDicePhysics_locked by assumption; split; [reflexivity | exact H].
  - rewrite checkStability_inert by (right; assumption).
    split; [reflexivity | exact H].
  - rewrite forcedLockTimeout_locked by assumption.
    split; [reflexivity | exact H].
  - split; [reflexivity | exact H].
Qed.

Lemma checkStability_reports (t : nat) (d : PhysicsDice) :
  snd (checkStability t d) <> None ->
  isLockedRef d = false /\ isLockedRef (fst (checkStability t d)) = true.
Proof.
  intros H.
  destruct (diceRef d) as [body |] eqn:Hb;
    [| rewrite checkStability_inert in H by (left; assumption);
       cbn in H; congruence].
  destruct (isLockedRef d) eqn:Hl;
    [rewrite checkStability_inert in H by (right; assumption);
     cbn in H; congruence |].
  split; [reflexivity |].
  destruct (checkStability_spec t d body Hb Hl) as (_ & Hyes & Hno).
  destruct (SettleCondition_dec
              (pushSample (mkSample (translation body) t) (positionHistoryRef d))
              body) as [Hc | Hc].
  - apply Hyes, Hc.
  - destruct (Hno Hc) as (Hnone & _); congruence.
Qed.

Lemma invoke_reports (d : PhysicsDice) (a : Invocation) :
  snd (invoke d a) <> None ->
  isLockedRef d = false /\ isLockedRef (fst (invoke d a)) = true.
Proof.
  destruct a; cbn [invoke].
  - apply lockDicePhysics_reports.
  - apply checkStability_reports.
  - unfold forcedLockTimeout.
    destruct (isLockedRef d) eqn:Hl; cbn [negb]; [cbn; congruence |].
    destruct (diceRef d) eqn:Hb; [| cbn; congruence].
    rewrite <- Hl at 1; apply lockDicePhysics_reports.
  - cbn; congruence.
Qed.

Lemma invokeAll_locked (acts : list Invocation) :
  forall d : PhysicsDice,
    isLockedRef d = true ->
    snd (invokeAll d acts) = [] /\ isLockedRef (fst (invokeAll d acts)) = true.
Proof.
  induction acts as [| a rest IH]; intros d H; cbn [invokeAll].
  - split; [reflexivity | exact H].
  - destruct (invoke_locked d a H) as (Hnone & Hl).
    destruct (invoke d a) as [d1 r]; cbn [fst snd] in *; subst r.
    specialize (IH d1 Hl).
    destruct (invokeAll d1 rest) as [d2 rs]; cbn [fst snd] in *.
    exact IH.
Qed.

(** Within one roll a die calls [onStable] at most once. *)
Lemma invokeAll_at_most_once (acts : list Invocation) :
  forall d : PhysicsDice, (List.length (snd (invokeAll d acts)) <= 1)%nat.
Proof.
  induction acts as [| a rest IH]; intros d; cbn [invokeAll]; [cbn; lia |].
  destruct (invoke d a) as [d1 r] eqn:E.
  destruct r as [s |].
  - assert (Hl : isLockedRef d1 = true).
    { pose proof (invoke_reports d a) as H; rewrite E in H.
      apply H; cbn; congruence. }
    destruct (invokeAll_locked rest d1 Hl) as (Hnil & _).
    destruct (invokeAll d1 rest) as [d2 rs]; cbn [snd] in *; subst rs.
    cbn; lia.
  - specialize (IH d1).
    destruct (invokeAll d1 rest) as [d2 rs]; cbn [snd] in *; exact IH.
Qed.

(** C6.  Once the lock flag of a die is set, [lockDicePhysics],
    [checkStability] and the forced lock each leave the die as it is and
    call nothing; a simulation step does not move the body that
    [lockDicePhysics] fixed; and whatever is invoked on a die within one
    roll, in whatever order, [onStable] is called at most once, so the
    detector and the forced lock never both report. *)
Theorem freeze_is_one_shot :
  (forall d : PhysicsDice,
      isLockedRef d = true ->
      lockDicePhysics d = (d, None) /\
      (forall t : nat, checkStability t d = (d, None)) /\
      forcedLockTimeout d = (d, None)) /\
  (forall (d : PhysicsDice) (body : RigidBody) (acts : list Invocation),
      diceRef d = Some body -> isLockedRef d = false ->
      invokeAll (fst (lockDicePhysics d)) acts = (fst (lockDicePhysics d), [])) /\
  (forall (d : PhysicsDice) (acts : list Invocation),
      (List.length (snd (invokeAll d acts)) <= 1)%nat) /\
  (forall (d : PhysicsDice) (before after : list Invocation) (t : nat),
      snd (invoke (fst (invokeAll d before)) (Check t)) <> None ->
      snd (invokeAll (fst (invoke (fst (invokeAll d before)) (Check t)))
             (after ++ [Forced])) = []) /\
  (forall (d : PhysicsDice) (before after : list Invocation) (t : nat),
      snd (invoke (fst (invokeAll d before)) Forced) <> None ->
      snd (invokeAll (fst (invoke (fst (invokeAll d before)) Forced))
             (after ++ [Check t])) = []).
Proof.
  split; [| split; [| split; [| split]]].
  - intros d H; split; [apply lockDicePhysics_locked, H |].
    split; [intros t; apply checkStability_inert; right; exact H |].
    apply forcedLockTimeout_locked, H.
  - intros d body acts Hb Hl.
    unfold lockDicePhysics; rewrite Hb, Hl; cbn [negb fst].
    set (d1 := setIsLockedRef true _).
    assert (Hl1 : isLockedRef d1 = true) by reflexivity.
    assert (Hfix : exists b1, diceRef d1 = Some b1 /\ bodyType b1 = Fixed)
      by (eexists; split; reflexivity).
    clearbody d1; clear d body Hb Hl.
    induction acts as [| a rest IH]; [reflexivity |].
    cbn [invokeAll].
    assert (Ha : invoke d1 a = (d1, None)).
    { destruct a; cbn [invoke].
      - apply lockDicePhysics_locked, Hl1.
      - apply checkStability_inert; right; exact Hl1.
      - apply forcedLockTimeout_locked, Hl1.
      - destruct Hfix as (b1 & Hb1 & Hf1); rewrite Hb1; cbn [option_map].
        unfold simulate; rewrite Hf1, <- Hb1.
        destruct d1; reflexivity. }
    rewrite Ha, IH; reflexivity.
  - intros d acts; apply invokeAll_at_most_once.
  - intros d before after t H.
    apply invokeAll_locked, (invoke_reports _ _ H).
  - intros d before after t H.
    apply invokeAll_locked, (invoke_reports _ _ H).
Qed.

Lemma freeze_is_one_shot_witness :
  isLockedRef (fst (lockDicePhysics restingDie)) = true /\
  lockDicePhysics (fst (lockDicePhysics restingDie)) =
    (fst (lockDicePhysics restingDie), None).
Proof.
  assert (H : isLockedRef (fst (lockDicePhysics restingDie)) = true)
    by reflexivity.
  split; [exact H |].
  exact (proj1 (proj1 freeze_is_one_shot (fst (lockDicePhysics restingDie)) H)).
Defined.

(** ** BodyController: the respawn effect *)

Lemma respawnDue_false (rc : nat) (d : PhysicsDice) :
  respawnDue rc d = false <-> rc = 0%nat \/ rc = lastResetCountRef d.
Proof.
  unfold respawnDue.
  destruct (0 <? rc)%nat eqn:E0; destruct (rc =? lastResetCountRef d)%nat eqn:E1;
    cbn; rewrite ?Nat.ltb_lt, ?Nat.ltb_ge, ?Nat.eqb_eq, ?Nat.eqb_neq in *;
    split; intros; try discriminate; try reflexivity; lia.
Qed.

Lemma clearIfSet_frame (ref : option nat) (t : Timers) :
  now (clearIfSet ref t) = now t /\
  nextTimerId (clearIfSet ref t) = nextTimerId t /\
  incl (pending (clearIfSet ref t)) (pending t).
Proof.
  destruct ref as [id |]; cbn; repeat split; try apply incl_refl.
  intros tm H; apply filter_In in H; tauto.
Qed.

Lemma effectCleanup_frame (d : PhysicsDice) (t : Timers) :
  now (effectCleanup d t) = now t /\
  nextTimerId (effectCleanup d t) = nextTimerId t /\
  incl (pending (effectCleanup d t)) (pending t).
Proof.
  unfold effectCleanup.
  destruct (clearIfSet_frame (timerRef d) t) as (N1 & I1 & P1).
  destruct (clearIfSet_frame (stabilityTimerRef d) (clearIfSet (timerRef d) t))
    as (N2 & I2 & P2).
  destruct (clearIfSet_frame (gradualDampingRef d)
              (clearIfSet (stabilityTimerRef d) (clearIfSet (timerRef d) t)))
    as (N3 & I3 & P3).
  destruct (clearIfSet_frame (stabilityCheckRef d)
              (clearIfSet (gradualDampingRef d)
                 (clearIfSet (stabilityTimerRef d) (clearIfSet (timerRef d) t))))
    as (N4 & I4 & P4).
  repeat split; try congruence.
  eapply incl_tran; [exact P4 |].
  eapply incl_tran; [exact P3 |].
  eapply incl_tran; [exact P2 | exact P1].
Qed.


(** ** RollCoordinator *)

Lemma world_eta (w : World) :
  mkWorld (timers w) (container w) (dice w) (notified w) (completions w) = w.
Proof. destruct w; reflexivity. Qed.

Lemma handleReset_accepted (c : DiceContainer) (t : Timers) :
  isRolling c = false ->
  fst (handleReset c t) =
    mkDiceContainer (S (resetCount c)) true
      (Some (nextTimerId t)) 0 false [] (Some 0%Z) /\
  now (snd (handleReset c t)) = now t /\
  nextTimerId (snd (handleReset c t)) = S (nextTimerId t) /\
  pending (snd (handleReset c t)) =
    pending (clearIfSet (resetTimerRef c) t) ++
    [mkTimer (nextTimerId t) (now t + 4000) None ResetTimer].
Proof.
  intros H; unfold handleReset; rewrite H; cbn [negb].
  destruct (clearIfSet_frame (resetTimerRef c) t) as (Hn & Hi & _).
  unfold setTimeout; cbn [fst snd pending now nextTimerId]; rewrite Hn, Hi.
  repeat split.
Qed.

(** C5, as stated, fails in one point: the call does not report
    non-acceptance.  [handleReset] returns nothing, to a click that is
    ignored as to one that is accepted, so that its caller cannot tell the
    two apart by the value of the call. *)
Lemma rejected_reset_returns_undefined :
  let idle := mountDiceContainer in
  let rolling := fst (handleReset idle (mkTimers 0 1 [])) in
  isRolling idle = false /\ isRolling rolling = true /\
  handleResetReturns rolling = ReturnedUndefined /\
  handleResetReturns rolling <> ReturnedBoolean false /\
  handleResetReturns rolling = handleResetReturns idle.
Proof.
  cbv zeta; repeat split; discriminate.
Qed.

(** C5, amended.  While a roll is in flight [handleReset] changes nothing:
    the roll counter, the settled count, the stored values and the timers
    stay as they are, and the click is followed by no render, so no die
    respawns.  The roll counter moves only when the rolling flag is clear,
    and then by one, with the count and the values reset and the 4000 ms
    timer set.  The call itself reports nothing: it evaluates to
    [undefined] whether the click is accepted or not. *)
Theorem reset_is_ignored_while_rolling_and_reports_nothing :
  (forall (c : DiceContainer) (t : Timers),
      isRolling c = true -> handleReset c t = (c, t)) /\
  (forall w : World, isRolling (container w) = true -> click w = w) /\
  (forall (c : DiceContainer) (t : Timers),
      resetCount (fst (handleReset c t)) <> resetCount c ->
      isRolling c = false) /\
  (forall (c : DiceContainer) (t : Timers),
      isRolling c = false ->
      fst (handleReset c t) =
        mkDiceContainer (S (resetCount c)) true
          (Some (nextTimerId t)) 0 false [] (Some 0%Z) /\
      pending (snd (handleReset c t)) =
        pending (clearIfSet (resetTimerRef c) t) ++
        [mkTimer (nextTimerId t) (now t + 4000) None ResetTimer]) /\
  (forall c : DiceContainer, handleResetReturns c = ReturnedUndefined).
Proof.
  split; [| split; [| split; [| split]]].
  - intros c t H; unfold handleReset; rewrite H; reflexivity.
  - intros w H; unfold click, handleReset; rewrite H; cbn.
    apply world_eta.
  - intros c t H; unfold handleReset in H.
    destruct (isRolling c); [cbn in H; congruence | reflexivity].
  - intros c t H.
    destruct (handleReset_accepted c t H) as (Hc & _ & _ & Hp).
    split; assumption.
  - intros c; unfold handleResetReturns; destruct (negb (isRolling c));
      reflexivity.
Qed.

Lemma reset_is_ignored_while_rolling_and_reports_nothing_witness :
  let c := fst (handleReset mountDiceContainer (mkTimers 0 1 [])) in
  let t := snd (handleReset mountDiceContainer (mkTimers 0 1 [])) in
  isRolling c = true /\ handleReset c t = (c, t) /\
  handleResetReturns c = ReturnedUndefined.
Proof.
  cbv zeta.
  assert (H : isRolling (fst (handleReset mountDiceContainer (mkTimers 0 1 [])))
              = true) by reflexivity.
  destruct reset_is_ignored_while_rolling_and_reports_nothing
    as (A & _ & _ & _ & B).
  split; [exact H |]; split; [exact (A _ _ H) | apply B].
Defined.

(** What one call of [handleDiceStable] does. *)
Lemma handleDiceStable_spec (i : nat) (v : Z) (c : DiceContainer) (t : Timers) :
  let c' := fst (handleDiceStable i v c t) in
  let t' := snd (handleDiceStable i v c t) in
  stableDiceCountRef c' = S (stableDiceCountRef c) /\
  diceValues c' = assign (spread (diceValues c)) i (Number v) /\
  resetCount c' = resetCount c /\ isRolling c' = isRolling c /\
  resetTimerRef c' = resetTimerRef c /\ totalPoints c' = totalPoints c /\
  now t' = now t /\
  ((hasCalculatedPointsRef c = false /\ stableDiceCountRef c = 4%nat) ->
     hasCalculatedPointsRef c' = true /\
     nextTimerId t' = S (nextTimerId t) /\
     pending t' =
       pending t ++ [mkTimer (nextTimerId t) (now t + 100) None PointsTimer]) /\
  (~ (hasCalculatedPointsRef c = false /\ stableDiceCountRef c = 4%nat) ->
     hasCalculatedPointsRef c' = hasCalculatedPointsRef c /\ t' = t).
Proof.
  unfold handleDiceStable, diceCount.
  destruct (Nat.eqb_spec (S (stableDiceCountRef c)) 5) as [E | E];
    destruct (hasCalculatedPointsRef c) eqn:F; cbn [negb andb fst snd setTimeout
      stableDiceCountRef diceValues resetCount isRolling resetTimerRef
      totalPoints hasCalculatedPointsRef now pending nextTimerId];
    repeat split; try (intros (? & ?)); try discriminate; try lia;
    try (intros H; exfalso; apply H; split; [reflexivity | lia]).
Qed.

(** What a series of notifications does to the count, the one-shot flag
    and the timers. *)
Lemma deliverAll_spec (ns : list Settled) :
  forall (c : DiceContainer) (t : Timers),
    let c' := fst (deliverAll ns c t) in
    let t' := snd (deliverAll ns c t) in
    stableDiceCountRef c' = (stableDiceCountRef c + List.length ns)%nat /\
    resetCount c' = resetCount c /\ isRolling c' = isRolling c /\
    totalPoints c' = totalPoints c /\ now t' = now t /\
    ((hasCalculatedPointsRef c = false /\
      (stableDiceCountRef c < 5 <= stableDiceCountRef c + List.length ns)%nat) ->
       hasCalculatedPointsRef c' = true /\
       pending t' =
         pending t ++ [mkTimer (nextTimerId t) (now t + 100) None PointsTimer]) /\
    (~ (hasCalculatedPointsRef c = false /\
        (stableDiceCountRef c < 5 <= stableDiceCountRef c + List.length ns)%nat) ->
       hasCalculatedPointsRef c' = hasCalculatedPointsRef c /\ t' = t).
Proof.
  induction ns as [| s rest IH]; intros c t; cbn [deliverAll List.length].
  - cbn [fst snd]; repeat split; lia.
  - pose proof (handleDiceStable_spec (settledIndex s) (settledValue s) c t) as S.
    destruct (handleDiceStable (settledIndex s) (settledValue s) c t)
      as [c1 t1]; cbn [fst snd] in S.
    destruct S as (S1 & _ & S3 & S4 & _ & S6 & S7 & Syes & Sno).
    specialize (IH c1 t1); cbv zeta in IH.
    destruct IH as (I1 & I3 & I4 & I6 & I7 & Iyes & Ino).
    cbv zeta.
    split; [lia |]; split; [congruence |]; split; [congruence |].
    split; [congruence |]; split; [congruence |].
    destruct (hasCalculatedPointsRef c) eqn:F.
    + destruct Sno as (Sf & ->); [intros (? & _); discriminate |].
      destruct Ino as (If & ->); [intros (? & _); congruence |].
      split; [intros (? & _); discriminate | intros _; split; congruence].
    + destruct (Nat.eq_dec (stableDiceCountRef c) 4) as [E4 | E4].
      * destruct Syes as (Sf & Sid & Sp); [split; [reflexivity | exact E4] |].
        destruct Ino as (If & ->); [intros (? & _); congruence |].
        split; [intros _; split; congruence | intros H; exfalso; apply H].
        split; [reflexivity | lia].
      * destruct Sno as (Sf & ->); [intros (_ & ?); contradiction |].
        split.
        -- intros (_ & H); apply Iyes; split; [congruence | lia].
        -- intros H; destruct Ino as (If & ->); [| split; congruence].
           intros (_ & H'); apply H; split; [reflexivity | lia].
Qed.

(** C4.  After an accepted reset, a series of settled notifications sets
    the points timer exactly once if it has at least five entries, on the
    call that brings the count to five and due 100 ms later; with fewer
    than five it sets none, and past the fifth the one-shot flag keeps any
    further call from setting another. *)
Theorem completion_fires_once_at_five
  (c : DiceContainer) (t : Timers) (ns : list Settled) :
  isRolling c = false ->
  let c0 := fst (handleReset c t) in
  let t0 := snd (handleReset c t) in
  stableDiceCountRef (fst (deliverAll ns c0 t0)) = List.length ns /\
  ((List.length ns < 5)%nat ->
     hasCalculatedPointsRef (fst (deliverAll ns c0 t0)) = false /\
     snd (deliverAll ns c0 t0) = t0) /\
  ((5 <= List.length ns)%nat ->
     hasCalculatedPointsRef (fst (deliverAll ns c0 t0)) = true /\
     pending (snd (deliverAll ns c0 t0)) =
       pending t0 ++
       [mkTimer (nextTimerId t0) (now t0 + 100) None PointsTimer]) /\
  (forall s : Settled,
      pending (snd (deliverAll (ns ++ [s]) c0 t0)) <>
      pending (snd (deliverAll ns c0 t0)) <->
      List.length ns = 4%nat).
Proof.
  intros H c0 t0.
  destruct (handleReset_accepted c t H) as (Hc0 & _); fold c0 in Hc0.
  assert (Hn : stableDiceCountRef c0 = 0%nat) by (rewrite Hc0; reflexivity).
  assert (Hf : hasCalculatedPointsRef c0 = false) by (rewrite Hc0; reflexivity).
  assert (Hspec : forall l : list Settled,
             stableDiceCountRef (fst (deliverAll l c0 t0)) = List.length l /\
             ((List.length l < 5)%nat ->
                hasCalculatedPointsRef (fst (deliverAll l c0 t0)) = false /\
                snd (deliverAll l c0 t0) = t0) /\
             ((5 <= List.length l)%nat ->
                hasCalculatedPointsRef (fst (deliverAll l c0 t0)) = true /\
                pending (snd (deliverAll l c0 t0)) =
                  pending t0 ++
                  [mkTimer (nextTimerId t0) (now t0 + 100) None PointsTimer])).
  { intros l.
    destruct (deliverAll_spec l c0 t0) as (I1 & _ & _ & _ & _ & Iyes & Ino).
    rewrite Hn, Hf in *; cbn [Nat.add] in *.
    split; [exact I1 |]; split.
    - intros Hlt; apply Ino; intros (_ & ?); lia.
    - intros Hge; apply Iyes; split; [reflexivity | lia]. }
  destruct (Hspec ns) as (S1 & Slt & Sge).
  split; [exact S1 |]; split; [exact Slt |]; split; [exact Sge |].
  intros s; destruct (Hspec (ns ++ [s])) as (_ & Tlt & Tge).
  rewrite length_app in Tlt, Tge; cbn [List.length] in Tlt, Tge.
  destruct (le_lt_dec 5 (List.length ns)) as [G | G].
  - destruct (Sge G) as (_ & ->).
    destruct Tge as (_ & ->); [lia |].
    split; [congruence | lia].
  - destruct (Slt G) as (_ & ->).
    destruct (Nat.eq_dec (List.length ns) 4) as [E | E].
    + destruct Tge as (_ & ->); [lia |].
      split; [intros _; exact E | intros _ G'].
      rewrite <- (app_nil_r (pending t0)) in G' at 2.
      apply app_inv_head in G'; discriminate.
    + destruct Tlt as (_ & ->); [lia |].
      split; [congruence | contradiction].
Qed.

Lemma completion_fires_once_at_five_witness :
  let c0 := fst (handleReset mountDiceContainer (mkTimers 0 1 [])) in
  let t0 := snd (handleReset mountDiceContainer (mkTimers 0 1 [])) in
  let ns := [mkSettled 2 3; mkSettled 0 5; mkSettled 4 1; mkSettled 1 6;
             mkSettled 3 2; mkSettled 3 2] in
  pending (snd (deliverAll ns c0 t0)) =
    pending t0 ++ [mkTimer (nextTimerId t0) (now t0 + 100) None PointsTimer].
Proof.
  cbv zeta.
  refine (proj2 (proj1 (proj2 (proj2
    (completion_fires_once_at_five mountDiceContainer (mkTimers 0 1 [])
       [mkSettled 2 3; mkSettled 0 5; mkSettled 4 1; mkSettled 1 6;
        mkSettled 3 2; mkSettled 3 2] eq_refl))) _)).
  cbn; lia.
Defined.

(** C3, as stated, fails: [handleDiceStable] has no guard on the index.
    Two notifications for die 0 after a reset leave the count at 2, and
    five of them set the one-shot flag and the points timer although a
    single die has settled. *)
Lemma duplicate_notification_is_counted_again :
  let c0 := fst (handleReset mountDiceContainer (mkTimers 0 1 [])) in
  let t0 := snd (handleReset mountDiceContainer (mkTimers 0 1 [])) in
  stableDiceCountRef
    (fst (deliverAll [mkSettled 0 3; mkSettled 0 3] c0 t0)) = 2%nat /\
  hasCalculatedPointsRef
    (fst (deliverAll [mkSettled 0 3; mkSettled 0 3; mkSettled 0 3;
                      mkSettled 0 3; mkSettled 0 3] c0 t0)) = true /\
  pending
    (snd (deliverAll [mkSettled 0 3; mkSettled 0 3; mkSettled 0 3;
                      mkSettled 0 3; mkSettled 0 3] c0 t0)) =
    [mkTimer 1 4000 None ResetTimer; mkTimer 2 100 None PointsTimer].
Proof. repeat split. Qed.

(** C3, amended.  [handleDiceStable] counts every notification it is
    given.  That a die is counted once per roll is the work of the die:
    whatever is invoked on it within a roll, the notifications it sends
    raise the count by at most one, and a locked die sends none. *)
Theorem every_notification_is_counted_and_a_die_sends_one :
  (forall (i : nat) (v : Z) (c : DiceContainer) (t : Timers),
      stableDiceCountRef (fst (handleDiceStable i v c t)) =
        S (stableDiceCountRef c)) /\
  (forall (d : PhysicsDice) (acts : list Invocation)
          (c : DiceContainer) (t : Timers),
      (stableDiceCountRef (fst (deliverAll (snd (invokeAll d acts)) c t))
       <= S (stableDiceCountRef c))%nat) /\
  (forall (d : PhysicsDice) (acts : list Invocation)
          (c : DiceContainer) (t : Timers),
      isLockedRef d = true ->
      deliverAll (snd (invokeAll d acts)) c t = (c, t)).
Proof.
  split; [| split].
  - intros i v c t; apply handleDiceStable_spec.
  - intros d acts c t.
    destruct (deliverAll_spec (snd (invokeAll d acts)) c t) as (-> & _).
    pose proof (invokeAll_at_most_once acts d); lia.
  - intros d acts c t H.
    destruct (invokeAll_locked acts d H) as (-> & _); reflexivity.
Qed.

(** ** OutcomeAggregator *)

Lemma length_assign (a : list Entry) (i : nat) (v : Entry) :
  List.length (assign a i v) = Nat.max (List.length a) (S i).
Proof.
  revert a; induction i as [| i IH]; intros [| e a]; cbn [assign List.length];
    try rewrite IH; cbn [List.length]; lia.
Qed.

Lemma nth_error_assign_same (a : list Entry) (i : nat) (v : Entry) :
  nth_error (assign a i v) i = Some v.
Proof.
  revert a; induction i as [| i IH]; intros [| e a]; cbn; auto.
Qed.

Lemma nth_error_assign_other (a : list Entry) (i j : nat) (v e : Entry) :
  j <> i -> nth_error a j = Some e -> nth_error (assign a i v) j = Some e.
Proof.
  revert a j; induction i as [| i IH]; intros [| b a] [| j] Hne H;
    cbn in *; try congruence; try discriminate.
  apply IH; [lia | exact H].
Qed.

Lemma nth_error_spread_number (a : list Entry) (j : nat) (v : Z) :
  nth_error a j = Some (Number v) -> nth_error (spread a) j = Some (Number v).
Proof.
  intros H; unfold spread; rewrite nth_error_map, H; reflexivity.
Qed.

Lemma length_spread (a : list Entry) : List.length (spread a) = List.length a.
Proof. apply length_map. Qed.

(** After the dice in [order] have reported, the array holds the value of
    each of them at its index and has not grown past the dice. *)
Lemma deliverAll_values (vs : list Z) (order : list nat) :
  forall (c : DiceContainer) (t : Timers) (seen : list nat),
    (forall i, In i order -> (i < List.length vs)%nat) ->
    (List.length (diceValues c) <= List.length vs)%nat ->
    (forall j, In j seen ->
       nth_error (diceValues c) j = Some (Number (nth j vs 0%Z))) ->
    let c' := fst (deliverAll (settlesInOrder vs order) c t) in
    (List.length (diceValues c') <= List.length vs)%nat /\
    (forall j, In j (seen ++ order) ->
       nth_error (diceValues c') j = Some (Number (nth j vs 0%Z))).
Proof.
  induction order as [| i order IH]; intros c t seen Hlt Hlen Hseen;
    cbn [settlesInOrder map deliverAll].
  - cbn [fst]; rewrite app_nil_r; split; assumption.
  - cbn [settledIndex settledValue].
    pose proof (handleDiceStable_spec i (nth i vs 0%Z) c t) as S.
    destruct (handleDiceStable i (nth i vs 0%Z) c t) as [c1 t1];
      cbn [fst snd] in S.
    destruct S as (_ & Sv & _).
    specialize (IH c1 t1 (seen ++ [i])).
    change (map (fun i0 => mkSettled i0 (nth i0 vs 0%Z)) order)
      with (settlesInOrder vs order).
    rewrite <- app_assoc in IH; cbn [app] in IH; apply IH.
    + intros k Hk; apply Hlt; right; exact Hk.
    + rewrite Sv, length_assign, length_spread.
      specialize (Hlt i (or_introl eq_refl)); lia.
    + intros j Hj; rewrite Sv.
      destruct (Nat.eq_dec j i) as [-> | Hne];
        [apply nth_error_assign_same |].
      apply nth_error_assign_other; [exact Hne |].
      apply nth_error_spread_number, Hseen.
      apply in_app_or in Hj as [Hj | [Hj | []]]; [exact Hj | congruence].
Qed.

Lemma nth_error_map_Number (vs : list Z) (j : nat) :
  (j < List.length vs)%nat ->
  nth_error (map Number vs) j = Some (Number (nth j vs 0%Z)).
Proof.
  intros H; rewrite nth_error_map, (nth_error_nth' vs 0%Z H); reflexivity.
Qed.

Lemma reduceSum_numbers (vs : list Z) :
  reduceSum (map Number vs) = Some (sumZ vs).
Proof.
  unfold reduceSum.
  assert (G : forall acc : Z,
             fold_left
               (fun acc e =>
                  match e with
                  | Hole => acc
                  | Undefined => None
                  | Number v => option_map (fun a => (a + v)%Z) acc
                  end) (map Number vs) (Some acc) = Some (acc + sumZ vs)%Z).
  { unfold sumZ; induction vs as [| v vs IH]; intros acc; cbn.
    - f_equal; lia.
    - rewrite IH; f_equal; lia. }
  change (Some (sumZ vs)) with (Some (0 + sumZ vs)%Z); apply G.
Qed.

Lemma positives_numbers (vs : list Z) :
  (forall v, In v vs -> (0 < v)%Z) -> positives (map Number vs) = vs.
Proof.
  induction vs as [| v vs IH]; intros H; cbn; [reflexivity |].
  destruct (Z.ltb_spec 0 v) as [_ | G];
    [| specialize (H v (or_introl eq_refl)); lia].
  rewrite IH; [reflexivity | intros u Hu; apply H; right; exact Hu].
Qed.

Lemma calculatePoints_spec (updateTrigger : nat)
  (diceRefs : list (option RigidBody)) :
  (0 < updateTrigger)%nat ->
  calculatePoints updateTrigger false diceRefs =
    Some (liveValues diceRefs, sumZ (liveValues diceRefs)).
Proof.
  intros H; unfold calculatePoints.
  replace (0 <? updateTrigger)%nat with true
    by (symmetry; apply Nat.ltb_lt; exact H).
  cbn [andb negb]; f_equal.
  assert (G : forall (acc : list Z * Z),
             snd acc = sumZ (fst acc) ->
             fold_left
               (fun acc dice =>
                  match dice with
                  | Some dice =>
                      let value := getDiceValueFromRotation (rotation dice) in
                      (fst acc ++ [value], (snd acc + value)%Z)
                  | None => acc
                  end) diceRefs acc =
             (fst acc ++ liveValues diceRefs,
              sumZ (fst acc ++ liveValues diceRefs))).
  { induction diceRefs as [| [b |] rest IH]; intros [l z] Hz; cbn in *.
    - rewrite app_nil_r; f_equal; exact Hz.
    - rewrite IH; cbn [fst snd].
      + rewrite <- app_assoc; reflexivity.
      + subst z; unfold sumZ; rewrite fold_right_app; cbn.
        clear; induction l as [| a l IHl]; cbn; [lia |].
        rewrite <- IHl; lia.
    - apply IH; exact Hz. }
  apply (G ([], 0%Z)); reflexivity.
Qed.

Lemma deliverAll_complete (vs : list Z) (order : list nat)
  (c : DiceContainer) (t : Timers) :
  List.length vs = diceCount -> Permutation order (seq 0 diceCount) ->
  diceValues c = [] ->
  diceValues (fst (deliverAll (settlesInOrder vs order) c t)) = map Number vs.
Proof.
  intros Hlen Hperm Hnil.
  destruct (deliverAll_values vs order c t []) as (Hle & Hall).
  - intros i Hi; rewrite Hlen.
    apply (Permutation_in _ Hperm), in_seq in Hi; lia.
  - rewrite Hnil; cbn; lia.
  - intros j [].
  - cbn [app] in Hall.
    assert (Hin : forall j, (j < diceCount)%nat -> In j order).
    { intros j Hj; apply (Permutation_in _ (Permutation_sym Hperm)).
      apply in_seq; lia. }
    apply nth_error_ext; intros n.
    destruct (lt_dec n diceCount) as [Hn | Hn].
    + rewrite (Hall n (Hin n Hn)), nth_error_map_Number by lia; reflexivity.
    + transitivity (@None Entry);
        [| symmetry]; apply nth_error_None; rewrite ?length_map; lia.
Qed.

(** C9.  When the five dice have reported, in whatever order, the stored
    values are those of the dice in body order; the points callback sets
    the total to their sum, computed anew from the stored values whatever
    the total was; and once the roll is over the panel shows that total
    and the values in body order.  The aggregator of [utils/Points.tsx]
    reads the handles in body order and stores their values and the sum.
    For the values 3, 5, 1, 6, 2 the total is 17 and the breakdown is
    3, 5, 1, 6, 2. *)
Theorem total_is_sum_of_values_in_body_order :
  (forall (vs : list Z) (order : list nat) (c : DiceContainer) (t : Timers),
      List.length vs = diceCount -> Permutation order (seq 0 diceCount) ->
      isRolling c = false ->
      let c0 := fst (handleReset c t) in
      let t0 := snd (handleReset c t) in
      let c1 := fst (deliverAll (settlesInOrder vs order) c0 t0) in
      diceValues c1 = map Number vs /\
      totalPoints (pointsTimeout c1) = Some (sumZ vs) /\
      shownTotal (resetTimeout (pointsTimeout c1)) = Some (Some (sumZ vs)) /\
      ((forall v, In v vs -> (0 < v)%Z) ->
       shownBreakdown (resetTimeout (pointsTimeout c1)) = Some vs)) /\
  (forall c : DiceContainer,
      totalPoints (pointsTimeout c) = reduceSum (diceValues c) /\
      diceValues (pointsTimeout c) = diceValues c) /\
  (forall (updateTrigger : nat) (diceRefs : list (option RigidBody)),
      (0 < updateTrigger)%nat ->
      calculatePoints updateTrigger false diceRefs =
        Some (liveValues diceRefs, sumZ (liveValues diceRefs))) /\
  (let c0 := fst (handleReset mountDiceContainer (mkTimers 0 1 [])) in
   let t0 := snd (handleReset mountDiceContainer (mkTimers 0 1 [])) in
   let c1 :=
     fst (deliverAll (settlesInOrder [3; 5; 1; 6; 2]%Z [2; 0; 4; 1; 3]%nat)
            c0 t0) in
   totalPoints (pointsTimeout c1) = Some 17%Z /\
   shownBreakdown (resetTimeout (pointsTimeout c1)) = Some [3; 5; 1; 6; 2]%Z) /\
  calculatePoints 1 false restingBodies = Some ([3; 5; 1; 6; 2]%Z, 17%Z).
Proof.
  split; [| split; [| split; [| split]]].
  - intros vs order c t Hlen Hperm Hroll c0 t0 c1.
    destruct (handleReset_accepted c t Hroll) as (Hc0 & _); fold c0 in Hc0.
    assert (Hv : diceValues c1 = map Number vs).
    { apply deliverAll_complete; [assumption | assumption |].
      rewrite Hc0; reflexivity. }
    assert (Ht : totalPoints (pointsTimeout c1) = Some (sumZ vs)).
    { unfold pointsTimeout; cbn [totalPoints].
      rewrite Hv; apply reduceSum_numbers. }
    split; [exact Hv |]; split; [exact Ht |]; split.
    + unfold shownTotal, resetTimeout; cbn [isRolling totalPoints].
      rewrite Ht; reflexivity.
    + intros Hpos; unfold shownBreakdown, resetTimeout, pointsTimeout.
      cbn [isRolling diceValues negb andb]; rewrite Hv, length_map, Hlen.
      cbn [diceCount Nat.ltb Nat.leb]; rewrite positives_numbers by assumption.
      reflexivity.
  - intros c; split; reflexivity.
  - exact calculatePoints_spec.
  - split; reflexivity.
  - rewrite calculatePoints_spec by lia.
    unfold restingBodies, liveValues, mountRigidBody;
      cbn [flat_map app rotation].
    destruct rest_orientations as (H1 & H2 & H3 & H4 & H5 & H6).
    rewrite H1, H2, H3, H5, H6; reflexivity.
Qed.

Lemma total_is_sum_of_values_in_body_order_witness :
  let c0 := fst (handleReset mountDiceContainer (mkTimers 0 1 [])) in
  let t0 := snd (handleReset mountDiceContainer (mkTimers 0 1 [])) in
  let c1 :=
    fst (deliverAll (settlesInOrder [3; 5; 1; 6; 2]%Z [0; 1; 2; 3; 4]%nat)
           c0 t0) in
  totalPoints (pointsTimeout c1) = Some (sumZ [3; 5; 1; 6; 2]%Z).
Proof.
  cbv zeta.
  exact (proj1 (proj2 (proj1 total_is_sum_of_values_in_body_order
                         [3; 5; 1; 6; 2]%Z [0; 1; 2; 3; 4]%nat
                         mountDiceContainer (mkTimers 0 1 [])
                         eq_refl (Permutation_refl _) eq_refl))).
Defined.

(** ** RollCoordinator: the roll from the click to the reset *)

Lemma In_clearTimeout (id : nat) (t : Timers) (tm : Timer) :
  In tm (pending (clearTimeout id t)) <->
  In tm (pending t) /\ timerId tm <> id.
Proof.
  unfold clearTimeout; cbn [pending]; rewrite filter_In.
  rewrite negb_true_iff, Nat.eqb_neq; reflexivity.
Qed.

Lemma In_clearIfSet (ref : option nat) (t : Timers) (tm : Timer) :
  In tm (pending (clearIfSet ref t)) <->
  In tm (pending t) /\ ref <> Some (timerId tm).
Proof.
  destruct ref as [id |]; cbn [clearIfSet].
  - rewrite In_clearTimeout; split; intros (H & G); split; auto; congruence.
  - split; [intros H; split; [exact H | discriminate] | tauto].
Qed.

(** Cancelling timers leaves the identifiers of the others distinct. *)
Lemma NoDup_clearTimeout (id : nat) (t : Timers) :
  NoDup (map timerId (pending t)) ->
  NoDup (map timerId (pending (clearTimeout id t))).
Proof.
  unfold clearTimeout; cbn [pending].
  induction (pending t) as [| tm rest IH]; cbn [filter map]; intros Hnd.
  - constructor.
  - apply NoDup_cons_iff in Hnd; destruct Hnd as [Hfresh Hrest].
    destruct (negb (timerId tm =? id)%nat); [| exact (IH Hrest)].
    cbn [map]; apply NoDup_cons; [| exact (IH Hrest)].
    rewrite in_map_iff; intros (tm' & Heq & Hin).
    apply filter_In in Hin; apply Hfresh.
    rewrite <- Heq; apply in_map; tauto.
Qed.

Lemma NoDup_clearIfSet (ref : option nat) (t : Timers) :
  NoDup (map timerId (pending t)) ->
  NoDup (map timerId (pending (clearIfSet ref t))).
Proof. destruct ref; [apply NoDup_clearTimeout | auto]. Qed.

Lemma NoDup_ids_inj (l : list Timer) (a b : Timer) :
  NoDup (map timerId l) -> In a l -> In b l -> timerId a = timerId b -> a = b.
Proof.
  induction l as [| c l IH]; cbn; intros H Ha Hb E; [contradiction |].
  inversion H as [| ? ? Hin Hnd]; subst.
  destruct Ha as [-> | Ha], Hb as [-> | Hb]; auto.
  - exfalso; apply Hin; rewrite E; apply in_map, Hb.
  - exfalso; apply Hin; rewrite <- E; apply in_map, Ha.
Qed.

Lemma NoDup_ids_snoc (l : list Timer) (tm : Timer) :
  NoDup (map timerId l) ->
  (forall a, In a l -> timerId a <> timerId tm) ->
  NoDup (map timerId (l ++ [tm])).
Proof.
  intros H Hfresh; rewrite map_app; cbn.
  apply NoDup_app; [exact H | repeat constructor; intros [] |].
  intros id Hin [<- | []].
  apply in_map_iff in Hin as (a & Ea & Ha); exact (Hfresh a Ha Ea).
Qed.

Lemma earliest_spec (l : list Timer) :
  match earliest l with
  | Some tm => In tm l /\ forall tm', In tm' l -> (due tm <= due tm')%nat
  | None => l = []
  end.
Proof.
  induction l as [| a l IH]; cbn [earliest]; [reflexivity |].
  destruct (earliest l) as [b |].
  - destruct IH as (Hb & Hmin).
    destruct (Nat.ltb_spec (due b) (due a)).
    + split; [right; exact Hb |].
      intros tm' [<- | H']; [lia | apply Hmin, H'].
    + split; [left; reflexivity |].
      intros tm' [<- | H']; [lia | specialize (Hmin tm' H'); lia].
  - subst l; split; [left; reflexivity |].
    intros tm' [<- | []]; lia.
Qed.

Lemma dueTimer_Some (t : Timers) (tm : Timer) :
  dueTimer t = Some tm -> In tm (pending t) /\ (due tm <= now t)%nat.
Proof.
  unfold dueTimer; pose proof (earliest_spec (pending t)) as H.
  destruct (earliest (pending t)) as [a |]; [| discriminate].
  destruct (Nat.leb_spec (due a) (now t)); [| discriminate].
  intros [= <-]; split; [apply H | assumption].
Qed.

Lemma dueTimer_None (t : Timers) :
  dueTimer t = None -> forall tm, In tm (pending t) -> (now t < due tm)%nat.
Proof.
  unfold dueTimer; pose proof (earliest_spec (pending t)) as H.
  destruct (earliest (pending t)) as [a |].
  - destruct (Nat.leb_spec (due a) (now t)); [discriminate |].
    intros _ tm Htm; destruct H as (_ & Hmin); specialize (Hmin tm Htm); lia.
  - intros _ tm Htm; rewrite H in Htm; contradiction.
Qed.

Lemma nth_error_replaceNth_same {A : Type} (l : list A) (i : nat) (a b : A) :
  nth_error l i = Some b -> nth_error (replaceNth i a l) i = Some a.
Proof.
  revert i; induction l as [| c l IH]; intros [| i]; cbn; try discriminate; auto.
Qed.

Lemma nth_error_replaceNth_other {A : Type} (l : list A) (i j : nat) (a : A) :
  j <> i -> nth_error (replaceNth i a l) j = nth_error l j.
Proof.
  revert i j; induction l as [| c l IH]; intros [| i] [| j] H; cbn;
    try reflexivity; try congruence.
  apply IH; lia.
Qed.

Lemma In_replaceNth {A : Type} (l : list A) (i : nat) (a b : A) :
  In b (replaceNth i a l) -> b = a \/ In b l.
Proof.
  revert i; induction l as [| c l IH]; intros [| i]; cbn; try tauto.
  - intros [<- | H]; auto.
  - intros [<- | H]; auto. destruct (IH i H); auto.
Qed.

Lemma In_replaceNth_inv {A : Type} (l : list A) (i : nat) (a b c : A) :
  nth_error l i = Some c -> In b l -> b = c \/ In b (replaceNth i a l).
Proof.
  revert i; induction l as [| e l IH]; intros [| i]; cbn; try tauto;
    try discriminate.
  - intros [= ->] [<- | H]; auto.
  - intros Hc [<- | H]; auto. destruct (IH i Hc H); auto.
Qed.

(** The cleanups of the dice cancel exactly the pending timers whose
    identifier some die holds. *)
Lemma cleanup_spec (d : PhysicsDice) (t : Timers) :
  now (effectCleanup d t) = now t /\
  nextTimerId (effectCleanup d t) = nextTimerId t /\
  (forall tm, In tm (pending (effectCleanup d t)) <->
              In tm (pending t) /\ ~ In (Some (timerId tm)) (refsOf d)) /\
  (NoDup (map timerId (pending t)) ->
   NoDup (map timerId (pending (effectCleanup d t)))).
Proof.
  destruct (effectCleanup_frame d t) as (Hn & Hi & _).
  split; [exact Hn |]; split; [exact Hi |]; split.
  - intros tm; unfold effectCleanup, refsOf.
    rewrite !In_clearIfSet; cbn [In].
    split.
    + intros ((((H & H1) & H2) & H3) & H4); split; [exact H |].
      intros [G | [G | [G | [G | []]]]]; congruence.
    + intros (H & G); repeat split; auto; intros E; apply G; rewrite E; tauto.
  - intros H; unfold effectCleanup; repeat apply NoDup_clearIfSet; exact H.
Qed.




Lemma cleanupAll_spec (ds : list PhysicsDice) :
  forall t : Timers,
    now (cleanupAll ds t) = now t /\
    nextTimerId (cleanupAll ds t) = nextTimerId t /\
    (forall tm, In tm (pending (cleanupAll ds t)) <->
                In tm (pending t) /\ Untracked ds (timerId tm)) /\
    (NoDup (map timerId (pending t)) ->
     NoDup (map timerId (pending (cleanupAll ds t)))).
Proof.
  unfold cleanupAll, Untracked.
  induction ds as [| d ds IH]; intros t; cbn [fold_left].
  - repeat split; try tauto; intros H; apply H.
  - destruct (cleanup_spec d t) as (Hn & Hi & Hin & Hnd).
    destruct (IH (effectCleanup d t)) as (In' & Ii' & Iin & Ind).
    split; [congruence |]; split; [congruence |]; split.
    + intros tm; rewrite Iin, Hin; split.
      * intros ((H & G) & F); split; [exact H |].
        intros e [<- | He]; auto.
      * intros (H & F); repeat split; auto.
        -- apply F; left; reflexivity.
        -- intros e He; apply F; right; exact He.
    + intros H; apply Ind, Hnd, H.
Qed.

Lemma effectAll_idle (rc : nat) (ds : list PhysicsDice) :
  forall t : Timers,
    (forall d, In d ds -> lastResetCountRef d = rc) ->
    effectAll rc ds t = (ds, t).
Proof.
  induction ds as [| d ds IH]; intros t H; cbn [effectAll]; [reflexivity |].
  assert (Hd : respawnEffect rc d t = (d, t)).
  { unfold respawnEffect.
    replace (respawnDue rc d) with false; [reflexivity |].
    symmetry; apply respawnDue_false; right; symmetry; apply H; left; reflexivity. }
  rewrite Hd, IH; [reflexivity | intros e He; apply H; right; exact He].
Qed.

Lemma KeepsDie_refl (d : PhysicsDice) : KeepsDie d d.
Proof. unfold KeepsDie; tauto. Qed.

Lemma refsOf_eq (d d' : PhysicsDice) :
  refsOf d' = refsOf d ->
  timerRef d' = timerRef d /\ stabilityTimerRef d' = stabilityTimerRef d /\
  gradualDampingRef d' = gradualDampingRef d /\
  stabilityCheckRef d' = stabilityCheckRef d.
Proof. unfold refsOf; intros [= -> -> -> ->]; tauto. Qed.

Lemma lockDicePhysics_keeps (d : PhysicsDice) :
  KeepsDie d (fst (lockDicePhysics d)) /\
  (diceRef d <> None -> isLockedRef (fst (lockDicePhysics d)) = true).
Proof.
  unfold lockDicePhysics.
  destruct (diceRef d) as [body |] eqn:Hb; [| split; [apply KeepsDie_refl | congruence]].
  destruct (isLockedRef d) eqn:Hl; cbn [negb fst];
    [split; [apply KeepsDie_refl | intros _; exact Hl] |].
  split; [| reflexivity].
  unfold KeepsDie; cbn.
  repeat split; try congruence; try discriminate.
  - apply getDiceValueFromRotation_range.
  - apply getDiceValueFromRotation_range.
  - intros _ _; eexists; repeat split.
Qed.

Lemma checkStability_keeps (t : nat) (d : PhysicsDice) :
  KeepsDie d (fst (checkStability t d)).
Proof.
  unfold checkStability.
  destruct (diceRef d) as [body |] eqn:Hb; [| apply KeepsDie_refl].
  destruct (isLockedRef d) eqn:Hl; [apply KeepsDie_refl |].
  set (d1 := setPositionHistoryRef _ d).
  assert (K1 : KeepsDie d d1).
  { unfold KeepsDie, Resolved; cbn; rewrite Hl.
    repeat split; try tauto; try discriminate. }
  assert (K2 : KeepsDie d (fst (lockDicePhysics d1))).
  { destruct (lockDicePhysics_keeps d1) as (K & _).
    unfold KeepsDie in *.
    destruct K1 as (A1 & A2 & A3 & A4 & A5 & A6 & A7 & A8).
    destruct K as (B1 & B2 & B3 & B4 & B5 & B6 & B7 & B8).
    repeat split; try congruence; tauto. }
  destruct (5 <=? List.length (positionHistoryRef d1))%nat; [| exact K1].
  destruct (positionsStable (positionHistoryRef d1) 1 4); [| exact K1].
  destruct (velocitiesStable body); [exact K2 | exact K1].
Qed.

Lemma forcedLockTimeout_keeps (d : PhysicsDice) :
  KeepsDie d (fst (forcedLockTimeout d)) /\
  (diceRef d <> None -> isLockedRef (fst (forcedLockTimeout d)) = true).
Proof.
  unfold forcedLockTimeout.
  destruct (isLockedRef d) eqn:Hl; cbn [negb fst];
    [split; [apply KeepsDie_refl | intros _; exact Hl] |].
  destruct (diceRef d) eqn:Hb; [| split; [apply KeepsDie_refl | congruence]].
  destruct (lockDicePhysics_keeps d) as (K & L).
  split; [exact K | intros _; apply L; congruence].
Qed.

Lemma forcedLockTimeout_reports (d : PhysicsDice) :
  snd (forcedLockTimeout d) <> None ->
  isLockedRef d = false /\ isLockedRef (fst (forcedLockTimeout d)) = true.
Proof. apply (invoke_reports d Forced). Qed.

Lemma simulate_keeps (k : Kinematics) (d : PhysicsDice) :
  Resolved d ->
  KeepsDie d (setDiceRef (option_map (simulate k) (diceRef d)) d) /\
  isLockedRef (setDiceRef (option_map (simulate k) (diceRef d)) d) = isLockedRef d.
Proof.
  intros R; split; [| reflexivity].
  unfold KeepsDie, Resolved; cbn.
  repeat split; try tauto.
  - destruct (diceRef d); cbn; congruence.
  - destruct (diceRef d); cbn; congruence.
  - intros _ Hl; destruct (R Hl) as (body & Hb & Hf & Hv).
    exists body; rewrite Hb; cbn; unfold simulate; rewrite Hf; tauto.
Qed.

(** A pending timer stays as it should when one die is replaced by one
    that keeps what the timer relies on. *)
Lemma TimerOk_update (T : nat) (w w' : World) (tm : Timer)
  (i : nat) (d d' : PhysicsDice) :
  TimerOk T w tm ->
  now (timers w') = now (timers w) ->
  (nextTimerId (timers w) <= nextTimerId (timers w'))%nat ->
  resetTimerRef (container w') = resetTimerRef (container w) ->
  nth_error (dice w) i = Some d ->
  dice w' = replaceNth i d' (dice w) ->
  (forall id, In (Some id) (refsOf d') ->
     In (Some id) (refsOf d) \/ (nextTimerId (timers w) <= id)%nat) ->
  (dieOf (callback tm) = Some i -> RefOk d tm -> RefOk d' tm) ->
  TimerOk T w' tm.
Proof.
  intros (H1 & H2 & H3 & H4 & H5 & H6) Hn Hi Hr Hd Hds Hrefs Href.
  unfold TimerOk; rewrite Hn, Hr, Hds.
  split; [exact H1 |]; split; [lia |]; split; [exact H3 |].
  split; [exact H4 |]; split.
  - intros Ht e He G.
    apply In_replaceNth in He as [-> | He].
    + destruct (Hrefs _ G) as [G' | G']; [| lia].
      apply (H5 Ht d); [eapply nth_error_In; exact Hd | exact G'].
    + apply (H5 Ht e He G).
  - intros j Hj; destruct (H6 j Hj) as (e & He & Hok).
    destruct (Nat.eq_dec j i) as [-> | Hne].
    + exists d'; split; [eapply nth_error_replaceNth_same; exact Hd |].
      apply Href; [exact Hj | congruence].
    + exists e; rewrite nth_error_replaceNth_other by exact Hne; tauto.
Qed.

Lemma TimerOk_same_dice (T : nat) (w w' : World) (tm : Timer) :
  TimerOk T w tm ->
  now (timers w') = now (timers w) ->
  (nextTimerId (timers w) <= nextTimerId (timers w'))%nat ->
  resetTimerRef (container w') = resetTimerRef (container w) ->
  dice w' = dice w ->
  TimerOk T w' tm.
Proof.
  intros (H1 & H2 & H3 & H4 & H5 & H6) Hn Hi Hr Hds.
  unfold TimerOk; rewrite Hn, Hr, Hds.
  repeat split; try assumption; lia.
Qed.

Lemma DieOk_same (w w' : World) (i : nat) (d : PhysicsDice) :
  DieOk w i d ->
  resetCount (container w') = resetCount (container w) ->
  (nextTimerId (timers w) <= nextTimerId (timers w'))%nat ->
  DieOk w' i d.
Proof.
  intros (H1 & H2 & H3 & H4 & H5 & H6) Hrc Hid.
  unfold DieOk; rewrite Hrc.
  repeat split; try assumption; try tauto.
  intros id Hin; specialize (H4 id Hin); lia.
Qed.

Lemma DieOk_keeps (w w' : World) (i : nat) (d d' : PhysicsDice) :
  DieOk w i d -> KeepsDie d d' ->
  resetCount (container w') = resetCount (container w) ->
  (nextTimerId (timers w) <= nextTimerId (timers w'))%nat ->
  DieOk w' i d'.
Proof.
  intros (H1 & H2 & H3 & H4 & H5 & H6)
         (K1 & K2 & K3 & K4 & K5 & K6 & K7 & K8) Hrc Hid.
  unfold DieOk; rewrite Hrc, K1, K2, K3, K4.
  repeat split; try assumption; try tauto.
  intros id Hin; specialize (H4 id Hin); lia.
Qed.

Lemma fire_dequeued (r : Draw) (tm : Timer) (w : World) :
  fire r tm w = run r (callback tm) (dequeued tm w).
Proof. reflexivity. Qed.

Lemma Inv_rolling (T : nat) (w : World) :
  RollInv T w -> ResetPending w ->
  (forall i d, nth_error (dice w) i = Some d -> Live w i d) ->
  Inv w.
Proof.
  intros (H1 & H2 & H3 & H4) HR HL; unfold Inv; rewrite H3.
  split; [exact H1 |]; split; [exact H2 |].
  exists T; split; [exact HR |]; split; assumption.
Qed.

Lemma RefOk_same_id (d : PhysicsDice) (tm tm' : Timer) :
  timerId tm' = timerId tm -> callback tm' = callback tm ->
  RefOk d tm -> RefOk d tm'.
Proof. unfold RefOk; intros -> ->; tauto. Qed.

(** Taking the due timer off the table keeps the invariant of the roll. *)
Lemma dequeued_spec (T : nat) (w : World) (tm : Timer) :
  RollInv T w -> In tm (pending (timers w)) ->
  (due tm <= now (timers w))%nat ->
  RollInv T (dequeued tm w) /\
  now (timers (dequeued tm w)) = due tm /\
  (forall tm', In tm' (pending (timers w)) -> tm' <> tm ->
     In tm' (pending (timers (dequeued tm w)))) /\
  (every tm = None ->
   forall tm', In tm' (pending (timers (dequeued tm w))) ->
     timerId tm' <> timerId tm).
Proof.
  intros (HD & HN & HR & HF) Hin Hdue.
  pose proof (proj1 (Forall_forall _ _) HF tm Hin) as Htm.
  destruct Htm as (Hnow & Hid & Hd & Hrr & Hun & Hlook).
  assert (Enow : now (timers w) = due tm) by lia.
  set (t0 := clearTimeout (timerId tm) (timers w)).
  assert (Hin0 : forall tm', In tm' (pending t0) <->
                   In tm' (pending (timers w)) /\ timerId tm' <> timerId tm)
    by (intros tm'; apply In_clearTimeout).
  assert (Hother : forall tm', In tm' (pending (timers w)) -> tm' <> tm ->
                     In tm' (pending t0)).
  { intros tm' H' Hne; apply Hin0; split; [exact H' |].
    intros E; apply Hne; eapply NoDup_ids_inj; eauto. }
  assert (HF0 : Forall (TimerOk T (mkWorld t0 (container w) (dice w)
                                     (notified w) (completions w)))
                  (pending t0)).
  { apply Forall_forall; intros tm' H'; apply Hin0 in H' as (H' & _).
    eapply TimerOk_same_dice;
      [apply (proj1 (Forall_forall _ _) HF tm' H') | | | |]; cbn;
      try reflexivity; lia. }
  assert (Hn0 : now t0 = now (timers w)) by reflexivity.
  assert (Hi0 : nextTimerId t0 = nextTimerId (timers w)) by reflexivity.
  unfold dequeued; fold t0.
  destruct (every tm) as [period |] eqn:Ev.
  - assert (Hp : period = 100%nat /\ (T + 100 < due tm)%nat /\
                 tracked (callback tm) = true).
    { unfold DueOk in Hd; destruct (callback tm); cbn;
        destruct Hd as (Hd1 & Hd2); try congruence;
        rewrite Ev in Hd2; injection Hd2 as ->; repeat split; lia. }
    destruct Hp as (-> & HdT & Htr).
    cbn [timers now pending].
    split; [| split; [exact Enow | split]].
    + split; [| split; [| split]]; cbn [dice timers container pending].
      * intros i d Hi; eapply DieOk_same; [apply (HD i d Hi) | |]; cbn;
          [reflexivity | lia].
      * apply NoDup_ids_snoc; [apply NoDup_clearTimeout, HN |].
        intros a Ha; apply Hin0 in Ha; cbn; tauto.
      * exact HR.
      * apply Forall_app; split.
        -- eapply Forall_impl; [| exact HF0].
           intros a Ha; eapply TimerOk_same_dice; [exact Ha | | | |];
             cbn; try reflexivity; lia.
        -- constructor; [| constructor].
           unfold TimerOk; cbn [timers now nextTimerId container dice
                                  due timerId callback].
           rewrite Hn0, Hi0.
           split; [lia |]; split; [exact Hid |]; split.
           ++ unfold DueOk in *; cbn [callback due every].
              destruct (callback tm); cbn in Htr; try discriminate;
                cbn in Hd |- *; try (destruct Hd; congruence);
                split; try reflexivity; lia.
           ++ split; [exact Hrr |]; split; [congruence |].
              intros i Hi; destruct (Hlook i Hi) as (d & Hd' & Hok).
              exists d; split; [exact Hd' |].
              eapply RefOk_same_id; [| | exact Hok]; reflexivity.
    + intros tm' H' Hne; apply in_or_app; left; apply Hother; assumption.
    + discriminate.
  - split; [| split; [exact Enow | split]].
    + split; [| split; [| split]]; cbn [dice timers container pending].
      * intros i d Hi; eapply DieOk_same; [apply (HD i d Hi) | |]; cbn;
          [reflexivity | lia].
      * apply NoDup_clearTimeout, HN.
      * exact HR.
      * exact HF0.
    + intros tm' H' Hne; apply Hother; assumption.
    + intros _ tm' H'; apply Hin0 in H'; tauto.
Qed.

(** A render between two rolls of the dice runs no effect: it only
    cancels the timers the dice hold. *)
Lemma commit_cleanup (w : World) :
  (forall d, In d (dice w) ->
     lastResetCountRef d = resetCount (container w)) ->
  commit w =
    mkWorld (cleanupAll (dice w) (timers w)) (container w) (dice w)
      (notified w) (completions w).
Proof.
  intros H; unfold commit; rewrite effectAll_idle by exact H; reflexivity.
Qed.

Lemma RollInv_last (T : nat) (w : World) :
  RollInv T w ->
  forall d, In d (dice w) -> lastResetCountRef d = resetCount (container w).
Proof.
  intros (HD & _) d Hd; apply In_nth_error in Hd as (i & Hi).
  apply (HD i d Hi).
Qed.

(** A render after the respawns of a roll keeps its invariant. *)
Lemma commit_rolling (T : nat) (w : World) :
  RollInv T w -> ResetPending w ->
  (forall i d, nth_error (dice w) i = Some d -> Live w i d) ->
  (T + 100 < now (timers w))%nat ->
  RollInv T (commit w) /\ ResetPending (commit w) /\
  (forall i d, nth_error (dice (commit w)) i = Some d -> Live (commit w) i d) /\
  container (commit w) = container w /\ dice (commit w) = dice w.
Proof.
  intros HRI (tr & Htr & Hcb) HL Hnow.
  rewrite (commit_cleanup w (RollInv_last T w HRI)).
  destruct HRI as (HD & HN & HR & HF).
  destruct (cleanupAll_spec (dice w) (timers w)) as (Cn & Ci & Cin & Cnd).
  assert (Hkeep : forall tm, In tm (pending (timers w)) ->
                    tracked (callback tm) = false ->
                    In tm (pending (cleanupAll (dice w) (timers w)))).
  { intros tm Htm Ht; apply Cin; split; [exact Htm |].
    apply (proj1 (Forall_forall _ _) HF tm Htm); exact Ht. }
  cbn [container dice].
  split; [| split; [| split; [| split; reflexivity]]].
  - split; [| split; [| split]]; cbn [dice timers container].
    + intros i d Hi; eapply DieOk_same; [apply (HD i d Hi) | |]; cbn;
        [reflexivity | lia].
    + apply Cnd, HN.
    + exact HR.
    + apply Forall_forall; intros tm Htm; apply Cin in Htm as (Htm & _).
      eapply TimerOk_same_dice;
        [apply (proj1 (Forall_forall _ _) HF tm Htm) | | | |]; cbn;
        try reflexivity; try congruence; lia.
  - exists tr; split; [apply Hkeep; [exact Htr | rewrite Hcb; reflexivity] |].
    exact Hcb.
  - intros i d Hi Hb; destruct (HL i d Hi Hb) as [Hl | (tm & Htm & Hc)];
      [left; exact Hl | right].
    pose proof (proj1 (Forall_forall _ _) HF tm Htm) as (Hn' & _ & Hd' & _).
    destruct Hc as [Hc | Hc].
    + exists tm; split; [apply Hkeep; [exact Htm | rewrite Hc; reflexivity] |].
      left; exact Hc.
    + exfalso; unfold DueOk in Hd'; rewrite Hc in Hd'; lia.
Qed.

(** A call of [onStable] between the respawns and the forced locks of a
    roll keeps its invariant. *)
Lemma deliver_rolling (T : nat) (w : World) (r : option Settled) :
  RollInv T w -> ResetPending w ->
  (forall i d, nth_error (dice w) i = Some d -> Live w i d) ->
  (r <> None -> (T + 100 < now (timers w) <= T + 3100)%nat) ->
  RollInv T (deliver r w) /\ ResetPending (deliver r w) /\
  (forall i d, nth_error (dice (deliver r w)) i = Some d ->
     Live (deliver r w) i d) /\
  dice (deliver r w) = dice w.
Proof.
  intros HRI HRP HL Hnow.
  destruct r as [s |]; cbn [deliver]; [| tauto].
  specialize (Hnow ltac:(discriminate)).
  pose proof (handleDiceStable_spec (settledIndex s) (settledValue s)
                (container w) (timers w)) as S.
  destruct (handleDiceStable (settledIndex s) (settledValue s)
              (container w) (timers w)) as [c1 t1]; cbn [fst snd] in S.
  destruct S as (_ & _ & Src & Sroll & Srr & _ & Snow & Syes & Sno).
  set (w1 := mkWorld t1 c1 (dice w) (notified w ++ [s]) (completions w)).
  assert (Hcases :
            (t1 = timers w) \/
            (nextTimerId t1 = S (nextTimerId (timers w)) /\
             pending t1 =
               pending (timers w) ++
               [mkTimer (nextTimerId (timers w)) (now (timers w) + 100)
                  None PointsTimer])).
  { destruct (hasCalculatedPointsRef (container w)) eqn:F.
    - left; apply Sno; intros (? & _); discriminate.
    - destruct (Nat.eq_dec (stableDiceCountRef (container w)) 4) as [E | E].
      + right; destruct Syes as (_ & ? & ?); [tauto | tauto].
      + left; apply Sno; tauto. }
  destruct HRI as (HD & HN & HR & HF), HRP as (tr & Htr & Hcb).
  assert (H1 : RollInv T w1 /\ ResetPending w1 /\
               (forall i d, nth_error (dice w1) i = Some d -> Live w1 i d) /\
               (T + 100 < now (timers w1))%nat).
  { unfold w1; destruct Hcases as [-> | (Hid & Hp)].
    - split; [| split; [| split]]; cbn [dice timers].
      + split; [| split; [| split]]; cbn [dice timers container].
        * intros i d Hi; eapply DieOk_same; [apply (HD i d Hi) | |]; cbn;
            [congruence | lia].
        * exact HN.
        * congruence.
        * eapply Forall_impl; [| exact HF].
          intros a Ha; eapply TimerOk_same_dice; [exact Ha | | | |];
            cbn; try reflexivity; try congruence; lia.
      + exists tr; tauto.
      + exact HL.
      + lia.
    - split; [| split; [| split]]; cbn [dice timers].
      + split; [| split; [| split]]; cbn [dice timers container].
        * intros i d Hi; eapply DieOk_same; [apply (HD i d Hi) | |]; cbn;
            [congruence | lia].
        * rewrite Hp; apply NoDup_ids_snoc; [exact HN |].
          intros a Ha; cbn.
          pose proof (proj1 (Forall_forall _ _) HF a Ha) as (_ & Hlt & _); lia.
        * congruence.
        * rewrite Hp; apply Forall_app; split.
          -- eapply Forall_impl; [| exact HF].
             intros a Ha; eapply TimerOk_same_dice; [exact Ha | | | |];
               cbn; try reflexivity; try congruence; lia.
          -- constructor; [| constructor].
             unfold TimerOk; cbn [timers now nextTimerId container dice
                                    due timerId callback tracked dieOf].
             rewrite Snow, Hid.
             split; [lia |]; split; [lia |]; split;
               [unfold DueOk; cbn; split; [lia | reflexivity] |].
             split; [discriminate |]; split; [| discriminate].
             intros _ d Hd G; apply In_nth_error in Hd as (i & Hi).
             destruct (HD i d Hi) as (_ & _ & _ & Hb & _).
             specialize (Hb _ G); lia.
      + exists tr; cbn [timers]; rewrite Hp.
        split; [apply in_or_app; tauto | exact Hcb].
      + intros i d Hi Hb; destruct (HL i d Hi Hb) as [Hl | (tm & Htm & Hc)];
          [left; exact Hl | right].
        exists tm; cbn [timers]; rewrite Hp.
        split; [apply in_or_app; tauto | exact Hc].
      + rewrite Snow; lia. }
  destruct H1 as (A1 & A2 & A3 & A4).
  destruct (commit_rolling T w1 A1 A2 A3 A4) as (B1 & B2 & B3 & _ & B5).
  split; [exact B1 |]; split; [exact B2 |]; split; [exact B3 |].
  rewrite B5; reflexivity.
Qed.

Lemma Live_replace_other (w w' : World) (i j : nat) (d' e : PhysicsDice) :
  dice w' = replaceNth i d' (dice w) -> j <> i ->
  (forall tm, In tm (pending (timers w)) -> In tm (pending (timers w'))) ->
  nth_error (dice w') j = Some e ->
  (forall e0, nth_error (dice w) j = Some e0 -> Live w j e0) ->
  Live w' j e.
Proof.
  intros Hds Hne Hp Hj HL Hb.
  rewrite Hds, nth_error_replaceNth_other in Hj by exact Hne.
  destruct (HL e Hj Hb) as [Hl | (tm & Htm & Hc)]; [left; exact Hl | right].
  exists tm; split; [apply Hp, Htm | exact Hc].
Qed.

(** A callback that freezes die [i], between its respawn and the end of
    the roll, keeps the invariant. *)
Lemma withDie_rolling (T : nat) (w : World) (i : nat)
  (f : PhysicsDice -> PhysicsDice * option Settled) (d : PhysicsDice) :
  RollInv T w -> ResetPending w ->
  nth_error (dice w) i = Some d -> timerRef d = None ->
  KeepsDie d (fst (f d)) ->
  (snd (f d) <> None -> (T + 100 < now (timers w) <= T + 3100)%nat) ->
  (forall j e, nth_error (dice w) j = Some e -> j <> i -> Live w j e) ->
  (Live w i d \/ (diceRef d <> None -> isLockedRef (fst (f d)) = true)) ->
  RollInv T (withDie i f w) /\ ResetPending (withDie i f w) /\
  (forall j e, nth_error (dice (withDie i f w)) j = Some e ->
     Live (withDie i f w) j e).
Proof.
  intros HRI HRP Hd Href HK Hrep HLo HLi.
  unfold withDie; rewrite Hd.
  destruct (f d) as [d' r]; cbn [fst snd] in *.
  set (w2 := mkWorld (timers w) (container w) (replaceNth i d' (dice w))
               (notified w) (completions w)).
  destruct HRI as (HD & HN & HR & HF).
  pose proof HK as (K1 & K2 & K3 & K4 & K5 & K6 & K7 & K8).
  destruct (refsOf_eq d d' K4) as (E1 & E2 & E3 & E4).
  assert (A1 : RollInv T w2).
  { split; [| split; [| split]]; cbn [w2 dice timers container].
    - intros j e Hj; destruct (Nat.eq_dec j i) as [-> | Hne].
      + rewrite (nth_error_replaceNth_same _ _ _ _ Hd) in Hj.
        injection Hj as <-.
        eapply DieOk_keeps; [apply (HD i d Hd) | exact HK | |]; cbn;
          [reflexivity | lia].
      + rewrite nth_error_replaceNth_other in Hj by exact Hne.
        eapply DieOk_same; [apply (HD j e Hj) | |]; cbn; [reflexivity | lia].
    - exact HN.
    - exact HR.
    - apply Forall_forall; intros tm Htm.
      eapply (TimerOk_update T w w2 tm i d d');
        [apply (proj1 (Forall_forall _ _) HF tm Htm) | reflexivity
        | unfold w2; cbn [timers]; lia | reflexivity | exact Hd
        | reflexivity | |].
      + intros id Hin; left; rewrite <- K4; exact Hin.
      + intros _; unfold RefOk; rewrite E1, E2, E3, E4.
        destruct (callback tm); try tauto.
        intros (G & _); congruence. }
  assert (A2 : ResetPending w2) by exact HRP.
  assert (A3 : forall j e, nth_error (dice w2) j = Some e -> Live w2 j e).
  { intros j e Hj; destruct (Nat.eq_dec j i) as [-> | Hne].
    - cbn [w2 dice] in Hj.
      rewrite (nth_error_replaceNth_same _ _ _ _ Hd) in Hj; injection Hj as <-.
      intros Hb; assert (Hb0 : diceRef d <> None) by tauto.
      destruct HLi as [HLi | HLi]; [| left; apply HLi, Hb0].
      destruct (HLi Hb0) as [Hl | Hw]; [left; apply K6, Hl | right; exact Hw].
    - eapply (Live_replace_other w w2 i j d' e); try reflexivity; auto. }
  destruct (deliver_rolling T w2 r A1 A2 A3 Hrep) as (B1 & B2 & B3 & _).
  split; [exact B1 |]; split; [exact B2 | exact B3].
Qed.

Lemma checkStability_needs_handle (t : nat) (d : PhysicsDice) :
  snd (checkStability t d) <> None -> diceRef d <> None.
Proof.
  intros H G; rewrite checkStability_inert in H by (left; exact G).
  apply H; reflexivity.
Qed.

Lemma run_StabilityCheck (T : nat) (w : World) (r : Draw) (i : nat)
  (d : PhysicsDice) :
  RollInv T w -> ResetPending w ->
  (forall j e, nth_error (dice w) j = Some e -> Live w j e) ->
  nth_error (dice w) i = Some d -> timerRef d = None ->
  (T + 100 < now (timers w))%nat ->
  RollInv T (run r (StabilityCheck i) w) /\
  ResetPending (run r (StabilityCheck i) w) /\
  (forall j e, nth_error (dice (run r (StabilityCheck i) w)) j = Some e ->
     Live (run r (StabilityCheck i) w) j e).
Proof.
  intros HRI HRP HL Hd Href Hnow; cbn [run].
  apply (withDie_rolling T w i _ d); try assumption.
  - apply checkStability_keeps.
  - intros Hs; split; [exact Hnow |].
    destruct (checkStability_reports _ _ Hs) as (Hl & _).
    pose proof (checkStability_needs_handle _ _ Hs) as Hb.
    destruct (HL i d Hd Hb) as [Hl' | (tm & Htm & Hc)]; [congruence |].
    destruct HRI as (_ & _ & _ & HF).
    pose proof (proj1 (Forall_forall _ _) HF tm Htm)
      as (Hn & _ & Hdue & _ & _ & Hlook).
    unfold DueOk in Hdue.
    destruct Hc as [Hc | Hc]; rewrite Hc in Hdue, Hlook.
    + lia.
    + destruct (Hlook i eq_refl) as (e & He & Hok).
      unfold RefOk in Hok; rewrite Hc in Hok.
      rewrite Hd in He; injection He as <-; destruct Hok; congruence.
  - intros j e Hj _; apply HL, Hj.
  - left; apply HL, Hd.
Qed.

Lemma run_ForcedLock (T : nat) (w : World) (r : Draw) (i : nat)
  (d : PhysicsDice) :
  RollInv T w -> ResetPending w ->
  (forall j e, nth_error (dice w) j = Some e -> j <> i -> Live w j e) ->
  nth_error (dice w) i = Some d -> timerRef d = None ->
  now (timers w) = (T + 3100)%nat ->
  RollInv T (run r (ForcedLock i) w) /\
  ResetPending (run r (ForcedLock i) w) /\
  (forall j e, nth_error (dice (run r (ForcedLock i) w)) j = Some e ->
     Live (run r (ForcedLock i) w) j e).
Proof.
  intros HRI HRP HL Hd Href Hnow; cbn [run].
  destruct (forcedLockTimeout_keeps d) as (HK & Hlock).
  apply (withDie_rolling T w i _ d); try assumption.
  - intros _; lia.
  - right; exact Hlock.
Qed.

(** A callback that sets or clears timers of die [i] keeps the invariant
    of the roll, provided the die and the timers it leaves are as the
    invariant wants them. *)
Lemma withDieTimers_rolling (T : nat) (w : World) (i : nat)
  (f : PhysicsDice -> Timers -> PhysicsDice * Timers)
  (d d' : PhysicsDice) (t' : Timers) :
  RollInv T w -> ResetPending w ->
  nth_error (dice w) i = Some d ->
  f d (timers w) = (d', t') ->
  index d' = index d -> startDelay d' = startDelay d ->
  lastResetCountRef d' = lastResetCountRef d ->
  (1 <= finalValueRef d' <= 6)%Z -> Resolved d' ->
  (forall id, In (Some id) (refsOf d') ->
     In (Some id) (refsOf d) \/
     (nextTimerId (timers w) <= id < nextTimerId t')%nat) ->
  now t' = now (timers w) ->
  (nextTimerId (timers w) <= nextTimerId t')%nat ->
  NoDup (map timerId (pending t')) ->
  (forall tm, In tm (pending t') ->
     (In tm (pending (timers w)) /\
      (dieOf (callback tm) = Some i -> RefOk d tm -> RefOk d' tm)) \/
     ((now t' <= due tm)%nat /\
      (nextTimerId (timers w) <= timerId tm < nextTimerId t')%nat /\
      DueOk T tm /\ dieOf (callback tm) = Some i /\ RefOk d' tm /\
      (tracked (callback tm) = false ->
       ~ In (Some (timerId tm)) (refsOf d')))) ->
  (forall tm, In tm (pending (timers w)) ->
     dieOf (callback tm) <> Some i -> In tm (pending t')) ->
  (forall j e, nth_error (dice w) j = Some e -> j <> i -> Live w j e) ->
  (diceRef d' <> None ->
   isLockedRef d' = true \/
   exists tm, In tm (pending t') /\
              (callback tm = ForcedLock i \/ callback tm = RespawnTimer i)) ->
  RollInv T (withDieTimers i f w) /\ ResetPending (withDieTimers i f w) /\
  (forall j e, nth_error (dice (withDieTimers i f w)) j = Some e ->
     Live (withDieTimers i f w) j e).
Proof.
  intros (HD & HN & HR & HF) (tr & Htr & Hcb) Hd Hf Ki Ks Kl Kv Kr Krefs
         Tn Ti Tnd Tp Tkeep HLo HLi.
  unfold withDieTimers; rewrite Hd, Hf.
  set (w' := mkWorld t' (container w) (replaceNth i d' (dice w))
               (notified w) (completions w)).
  split; [| split].
  - split; [| split; [| split]]; unfold w'; cbn [dice timers container].
    + intros j e Hj; destruct (Nat.eq_dec j i) as [-> | Hne].
      * rewrite (nth_error_replaceNth_same _ _ _ _ Hd) in Hj.
        injection Hj as <-.
        destruct (HD i d Hd) as (H1 & H2 & H3 & H4 & H5 & H6).
        unfold DieOk; cbn [timers container].
        rewrite Ki, Ks, Kl.
        repeat split; try assumption; try tauto.
        intros id Hin; destruct (Krefs id Hin) as [G | G];
          [specialize (H4 id G) |]; lia.
      * rewrite nth_error_replaceNth_other in Hj by exact Hne.
        eapply DieOk_same; [apply (HD j e Hj) | |]; cbn; [reflexivity | lia].
    + exact Tnd.
    + exact HR.
    + apply Forall_forall; intros tm Htm.
      destruct (Tp tm Htm) as [(Hold & Hok) | (N1 & N2 & N3 & N4 & N5 & N6)].
      * eapply (TimerOk_update T w w' tm i d d');
          [apply (proj1 (Forall_forall _ _) HF tm Hold) | exact Tn
          | exact Ti | reflexivity | exact Hd | reflexivity | | exact Hok].
        intros id Hin; destruct (Krefs id Hin) as [G | G]; [left; exact G |].
        right; lia.
      * unfold TimerOk, w'; cbn [timers container dice].
        split; [exact N1 |]; split; [lia |]; split; [exact N3 |].
        split; [intros E; rewrite E in N4; discriminate |]; split.
        -- intros Ht e He G; apply In_replaceNth in He as [-> | He];
             [exact (N6 Ht G) |].
           apply In_nth_error in He as (j & Hj).
           destruct (HD j e Hj) as (_ & _ & _ & Hb & _).
           specialize (Hb _ G); lia.
        -- intros j Hj; rewrite N4 in Hj; injection Hj as <-.
           exists d'; split;
             [eapply nth_error_replaceNth_same; exact Hd | exact N5].
  - exists tr; split; [| exact Hcb].
    apply Tkeep; [exact Htr | rewrite Hcb; discriminate].
  - intros j e Hj; destruct (Nat.eq_dec j i) as [-> | Hne].
    + unfold w' in Hj; cbn [dice] in Hj.
      rewrite (nth_error_replaceNth_same _ _ _ _ Hd) in Hj; injection Hj as <-.
      exact HLi.
    + unfold w' in Hj; cbn [dice] in Hj.
      rewrite nth_error_replaceNth_other in Hj by exact Hne.
      intros Hb; destruct (HLo j e Hj Hne Hb) as [Hl | (tm & Htm & Hc)];
        [left; exact Hl | right].
      exists tm; split; [| exact Hc].
      apply Tkeep; [exact Htm |].
      destruct Hc as [-> | ->]; cbn; congruence.
Qed.

Lemma RefOk_timerRef (d : PhysicsDice) (tm : Timer) (i : nat) :
  dieOf (callback tm) = Some i -> RefOk d tm ->
  timerRef d = Some (timerId tm) \/ timerRef d = None.
Proof.
  unfold RefOk; destruct (callback tm); cbn; try discriminate; tauto.
Qed.

Lemma run_RespawnTimer (T : nat) (w : World) (r : Draw) (i : nat)
  (d : PhysicsDice) (tid : nat) :
  RollInv T w -> ResetPending w ->
  (forall j e, nth_error (dice w) j = Some e -> j <> i -> Live w j e) ->
  nth_error (dice w) i = Some d ->
  timerRef d = Some tid -> isLockedRef d = false ->
  now (timers w) = (T + 100)%nat ->
  (forall tm, In tm (pending (timers w)) -> timerId tm <> tid) ->
  RollInv T (run r (RespawnTimer i) w) /\
  ResetPending (run r (RespawnTimer i) w) /\
  (forall j e, nth_error (dice (run r (RespawnTimer i) w)) j = Some e ->
     Live (run r (RespawnTimer i) w) j e).
Proof.
  intros HRI HRP HLo Hd Href Hl Hnow Hfresh; cbn [run].
  pose proof HRI as (HD & HN & HR & HF).
  destruct (HD i d Hd) as (Di & Ds & Dl & Db & Dv & Dr).
  assert (Hold : forall tm, In tm (pending (timers w)) ->
                   dieOf (callback tm) = Some i -> RefOk d tm -> False).
  { intros tm Htm Hi Hok.
    destruct (RefOk_timerRef d tm i Hi Hok) as [G | G]; [| congruence].
    apply (Hfresh tm Htm); congruence. }
  destruct (diceRef d) as [body |] eqn:Hb.
  - eapply (withDieTimers_rolling T w i (respawnTimeout r) d _ _ HRI HRP Hd).
    + unfold respawnTimeout, setTimeout; rewrite Hb; cbn; reflexivity.
    + reflexivity.
    + reflexivity.
    + reflexivity.
    + exact Dv.
    + intros G; cbn in G; congruence.
    + intros id; cbn [refsOf timerRef stabilityTimerRef gradualDampingRef
                       stabilityCheckRef setTimerRef setStabilityTimerRef
                       setDiceRef In nextTimerId].
      intros [G | [G | [G | [G | []]]]]; try discriminate.
      * injection G as <-; right; lia.
      * left; rewrite <- G; cbn; tauto.
      * left; rewrite <- G; cbn; tauto.
    + reflexivity.
    + cbn; lia.
    + cbn [pending]; rewrite <- app_assoc; cbn [app].
      rewrite map_app; cbn [map timerId].
      apply NoDup_app; [exact HN | |].
      * repeat constructor; cbn; [intros [G | []]; lia | intros []].
      * intros id Hin G; apply in_map_iff in Hin as (a & <- & Ha).
        pose proof (proj1 (Forall_forall _ _) HF a Ha) as (_ & Hlt & _).
        cbn in G; destruct G as [G | [G | []]]; lia.
    + cbn [pending]; intros tm Htm.
      apply in_app_or in Htm as [Htm | [<- | []]];
        [apply in_app_or in Htm as [Htm | [<- | []]] |].
      * left; split; [exact Htm |].
        intros Hi Hok; exfalso; exact (Hold tm Htm Hi Hok).
      * right; cbn; rewrite Di.
        repeat split; try lia; try reflexivity.
      * right; cbn; rewrite Di.
        repeat split; try lia; try reflexivity.
        -- intros _ [G | [G | [G | [G | []]]]]; try discriminate.
           ++ injection G; lia.
           ++ assert (In (Some (S (nextTimerId (timers w)))) (refsOf d))
                by (unfold refsOf; rewrite G; cbn; tauto).
              specialize (Db _ H); lia.
           ++ assert (In (Some (S (nextTimerId (timers w)))) (refsOf d))
                by (unfold refsOf; rewrite G; cbn; tauto).
              specialize (Db _ H); lia.
    + cbn [pending]; intros tm Htm _.
      apply in_or_app; left; apply in_or_app; left; exact Htm.
    + exact HLo.
    + intros _; right; eexists; split;
        [cbn [pending]; apply in_or_app; right; left; reflexivity |].
      left; cbn; rewrite Di; reflexivity.
  - eapply (withDieTimers_rolling T w i (respawnTimeout r) d _ _ HRI HRP Hd).
    + unfold respawnTimeout; rewrite Hb; reflexivity.
    + reflexivity.
    + reflexivity.
    + reflexivity.
    + exact Dv.
    + intros G; cbn in G; congruence.
    + intros id; cbn [refsOf timerRef stabilityTimerRef gradualDampingRef
                       stabilityCheckRef setTimerRef In].
      intros [G | [G | [G | [G | []]]]]; try discriminate;
        left; rewrite <- G; cbn; tauto.
    + reflexivity.
    + lia.
    + exact HN.
    + intros tm Htm; left; split; [exact Htm |].
      intros Hi Hok; exfalso; exact (Hold tm Htm Hi Hok).
    + intros tm Htm _; exact Htm.
    + exact HLo.
    + cbn; congruence.
Qed.

Lemma Live_of_old (w : World) (i : nat) (d d' : PhysicsDice) (t' : Timers) :
  Live w i d ->
  (diceRef d' <> None -> diceRef d <> None) ->
  (isLockedRef d = true -> isLockedRef d' = true) ->
  (forall tm, In tm (pending (timers w)) ->
     callback tm = ForcedLock i \/ callback tm = RespawnTimer i ->
     In tm (pending t')) ->
  diceRef d' <> None ->
  isLockedRef d' = true \/
  exists tm, In tm (pending t') /\
             (callback tm = ForcedLock i \/ callback tm = RespawnTimer i).
Proof.
  intros HL Hb Hl Hp Hb'.
  destruct (HL (Hb Hb')) as [G | (tm & Htm & Hc)]; [left; auto | right].
  exists tm; split; [apply Hp; assumption | exact Hc].
Qed.

Lemma run_StabilityTimer (T : nat) (w : World) (r : Draw) (i : nat)
  (d : PhysicsDice) (tid : nat) :
  RollInv T w -> ResetPending w ->
  (forall j e, nth_error (dice w) j = Some e -> Live w j e) ->
  nth_error (dice w) i = Some d ->
  timerRef d = None -> stabilityTimerRef d = Some tid ->
  now (timers w) = (T + 1600)%nat ->
  (forall tm, In tm (pending (timers w)) -> timerId tm <> tid) ->
  RollInv T (run r (StabilityTimer i) w) /\
  ResetPending (run r (StabilityTimer i) w) /\
  (forall j e, nth_error (dice (run r (StabilityTimer i) w)) j = Some e ->
     Live (run r (StabilityTimer i) w) j e).
Proof.
  intros HRI HRP HL Hd Href Hsref Hnow Hfresh; cbn [run].
  pose proof HRI as (HD & HN & HR & HF).
  destruct (HD i d Hd) as (Di & Ds & Dl & Db & Dv & Dr).
  assert (Hold : forall tm d', In tm (pending (timers w)) ->
                   dieOf (callback tm) = Some i -> RefOk d tm ->
                   timerRef d' = timerRef d ->
                   isLockedRef d' = isLockedRef d ->
                   RefOk d' tm).
  { intros tm d' Htm Hi; unfold RefOk.
    destruct (callback tm) eqn:Hc; try tauto.
    - intros (G1 & G2) E1 E2; split; congruence.
    - intros (_ & G) _ _; exfalso; apply (Hfresh tm Htm); congruence.
    - intros (_ & G & _) _ _; congruence.
    - intros (_ & G & _) _ _; congruence.
    - intros G E1 _; congruence. }
  destruct (diceRef d) as [body |] eqn:Hb.
  - eapply (withDieTimers_rolling T w i stabilityTimeout d _ _ HRI HRP Hd).
    + unfold stabilityTimeout, setInterval; rewrite Hb; cbn; reflexivity.
    + reflexivity.
    + reflexivity.
    + reflexivity.
    + exact Dv.
    + exact Dr.
    + intros id; cbn [refsOf timerRef stabilityTimerRef gradualDampingRef
                       stabilityCheckRef setStabilityTimerRef
                       setStabilityCheckRef setGradualDampingRef In
                       nextTimerId].
      intros [G | [G | [G | [G | []]]]]; try discriminate.
      * left; rewrite <- G; cbn; tauto.
      * injection G as <-; right; lia.
      * injection G as <-; right; lia.
    + reflexivity.
    + cbn; lia.
    + cbn [pending]; rewrite <- app_assoc; cbn [app].
      rewrite map_app; cbn [map timerId].
      apply NoDup_app; [exact HN | |].
      * repeat constructor; cbn; [intros [G | []]; lia | intros []].
      * intros id Hin G; apply in_map_iff in Hin as (a & <- & Ha).
        pose proof (proj1 (Forall_forall _ _) HF a Ha) as (_ & Hlt & _).
        cbn in G; destruct G as [G | [G | []]]; lia.
    + cbn [pending]; intros tm Htm.
      apply in_app_or in Htm as [Htm | [<- | []]];
        [apply in_app_or in Htm as [Htm | [<- | []]] |].
      * left; split; [exact Htm |].
        intros Hi Hok; apply (Hold tm _ Htm Hi Hok); reflexivity.
      * right; cbn; rewrite Di, Href.
        repeat split; try lia; try reflexivity; discriminate.
      * right; cbn; rewrite Di, Href.
        repeat split; try lia; try reflexivity; discriminate.
    + cbn [pending]; intros tm Htm _.
      apply in_or_app; left; apply in_or_app; left; exact Htm.
    + intros j e Hj _; apply HL, Hj.
    + apply (Live_of_old w i d); [apply HL, Hd | cbn; rewrite Hb; congruence
                                 | cbn; tauto |].
      cbn [pending]; intros tm Htm _.
      apply in_or_app; left; apply in_or_app; left; exact Htm.
  - eapply (withDieTimers_rolling T w i stabilityTimeout d _ _ HRI HRP Hd).
    + unfold stabilityTimeout; rewrite Hb; reflexivity.
    + reflexivity.
    + reflexivity.
    + reflexivity.
    + exact Dv.
    + exact Dr.
    + intros id; cbn [refsOf timerRef stabilityTimerRef gradualDampingRef
                       stabilityCheckRef setStabilityTimerRef In].
      intros [G | [G | [G | [G | []]]]]; try discriminate;
        left; rewrite <- G; cbn; tauto.
    + reflexivity.
    + lia.
    + exact HN.
    + intros tm Htm; left; split; [exact Htm |].
      intros Hi Hok; apply (Hold tm _ Htm Hi Hok); reflexivity.
    + intros tm Htm _; exact Htm.
    + intros j e Hj _; apply HL, Hj.
    + cbn; congruence.
Qed.

Lemma gradualDampingTick_spec (d : PhysicsDice) (t : Timers) :
  let d' := fst (gradualDampingTick d t) in
  let t' := snd (gradualDampingTick d t) in
  index d' = index d /\ startDelay d' = startDelay d /\
  lastResetCountRef d' = lastResetCountRef d /\
  finalValueRef d' = finalValueRef d /\ isLockedRef d' = isLockedRef d /\
  timerRef d' = timerRef d /\ stabilityTimerRef d' = stabilityTimerRef d /\
  stabilityCheckRef d' = stabilityCheckRef d /\
  (diceRef d' = None <-> diceRef d = None) /\
  (isLockedRef d = true -> d' = d) /\
  ((gradualDampingRef d' = gradualDampingRef d /\ t' = t) \/
   (gradualDampingRef d' = None /\ t' = clearIfSet (gradualDampingRef d) t)).
Proof.
  unfold gradualDampingTick.
  destruct (diceRef d) as [body |] eqn:Hb;
    [| cbn [fst snd]; repeat split; try tauto; left; tauto].
  destruct (Num.ltb (currentDampingRef d) 20);
    [| cbn [fst snd andb]; repeat split; try tauto; try congruence;
       left; tauto].
  destruct (isLockedRef d) eqn:Hl; cbn [negb andb];
    [cbn [fst snd]; repeat split; try tauto; try congruence; left; tauto |].
  match goal with
  | |- context [if ?c then _ else _] => destruct c
  end.
  - destruct (gradualDampingRef d) eqn:Hg; cbn;
      rewrite ?Hg; repeat split; try tauto; try congruence; try discriminate;
      right; split; reflexivity.
  - cbn; repeat split; try tauto; try congruence; try discriminate;
      left; split; reflexivity.
Qed.

Lemma run_GradualDamping (T : nat) (w : World) (r : Draw) (i : nat)
  (d : PhysicsDice) (tm0 : Timer) :
  RollInv T w -> ResetPending w ->
  (forall j e, nth_error (dice w) j = Some e -> Live w j e) ->
  nth_error (dice w) i = Some d ->
  In tm0 (pending (timers w)) -> callback tm0 = GradualDamping i ->
  gradualDampingRef d = Some (timerId tm0) ->
  RollInv T (run r (GradualDamping i) w) /\
  ResetPending (run r (GradualDamping i) w) /\
  (forall j e, nth_error (dice (run r (GradualDamping i) w)) j = Some e ->
     Live (run r (GradualDamping i) w) j e).
Proof.
  intros HRI HRP HL Hd Htm0 Hcb0 Hg; cbn [run].
  pose proof HRI as (HD & HN & HR & HF).
  destruct (HD i d Hd) as (Di & Ds & Dl & Db & Dv & Dr).
  pose proof (gradualDampingTick_spec d (timers w)) as S; cbv zeta in S.
  destruct S as (S1 & S2 & S3 & S4 & S5 & S6 & S7 & S8 & S9 & S10 & S11).
  assert (Hsame : forall tm, In tm (pending (timers w)) ->
                    timerId tm = timerId tm0 -> tm = tm0).
  { intros tm Htm E; eapply NoDup_ids_inj; eauto. }
  assert (Hin' : forall tm, In tm (pending (timers w)) ->
                   callback tm <> GradualDamping i ->
                   In tm (pending (snd (gradualDampingTick d (timers w))))).
  { intros tm Htm Hne; destruct S11 as [(_ & ->) | (_ & ->)]; [exact Htm |].
    apply In_clearIfSet; split; [exact Htm |].
    rewrite Hg; intros [= E]; apply Hne.
    rewrite (Hsame tm Htm (eq_sym E)); exact Hcb0. }
  assert (Hsub : forall tm,
             In tm (pending (snd (gradualDampingTick d (timers w)))) ->
             In tm (pending (timers w)) /\
             (gradualDampingRef (fst (gradualDampingTick d (timers w))) =
                gradualDampingRef d \/ timerId tm <> timerId tm0)).
  { intros tm Htm; destruct S11 as [(E & Et) | (_ & Et)]; rewrite Et in Htm.
    - split; [exact Htm | left; exact E].
    - apply In_clearIfSet in Htm as (Htm & Hne); split; [exact Htm | right].
      rewrite Hg in Hne; congruence. }
  eapply (withDieTimers_rolling T w i gradualDampingTick d _ _ HRI HRP Hd).
  - apply surjective_pairing.
  - exact S1.
  - exact S2.
  - exact S3.
  - rewrite S4; exact Dv.
  - intros Hl; rewrite S5 in Hl; rewrite (S10 Hl); apply Dr; exact Hl.
  - intros id; unfold refsOf; rewrite S6, S7, S8; cbn [In].
    intros [G | [G | [G | [G | []]]]]; try tauto.
    destruct S11 as [(E & _) | (E & _)]; rewrite E in G;
      [tauto | discriminate].
  - destruct S11 as [(_ & ->) | (_ & ->)]; [reflexivity |].
    apply clearIfSet_frame.
  - destruct S11 as [(_ & ->) | (_ & ->)]; [lia |].
    destruct (clearIfSet_frame (gradualDampingRef d) (timers w))
      as (_ & -> & _); lia.
  - destruct S11 as [(_ & ->) | (_ & ->)]; [exact HN |].
    apply NoDup_clearIfSet, HN.
  - intros tm Htm; left; destruct (Hsub tm Htm) as (Hold & Hcase).
    split; [exact Hold |].
    intros _; unfold RefOk; rewrite S5, S6, S7, S8.
    destruct (callback tm); try tauto.
    intros (G1 & G2 & G3); repeat split; try assumption.
    destruct Hcase as [-> | Hne]; [exact G3 |].
    exfalso; apply Hne; congruence.
  - intros tm Htm Hne; apply Hin'; [exact Htm |].
    intros E; apply Hne; rewrite E; reflexivity.
  - intros j e Hj _; apply HL, Hj.
  - apply (Live_of_old w i d); [apply HL, Hd | tauto | congruence |].
    intros tm Htm Hc; apply Hin'; [exact Htm |].
    destruct Hc as [-> | ->]; discriminate.
Qed.

Lemma nil_of_no_member {A : Type} (l : list A) :
  (forall a, ~ In a l) -> l = [].
Proof.
  destruct l as [| a l]; [reflexivity |].
  intros H; exfalso; apply (H a); left; reflexivity.
Qed.

(** When the reset timer runs, every die with a handle is locked, and the
    render that follows leaves no timer pending. *)
Lemma run_ResetTimer (T : nat) (w : World) (r : Draw) (rid : nat) :
  RollInv T w ->
  (forall j e, nth_error (dice w) j = Some e -> Live w j e) ->
  resetTimerRef (container w) = Some rid ->
  (forall tm, In tm (pending (timers w)) -> timerId tm <> rid) ->
  now (timers w) = (T + 4000)%nat ->
  Inv (run r ResetTimer w) /\ AllLocked (run r ResetTimer w) /\
  isRolling (container (run r ResetTimer w)) = false /\
  now (timers (run r ResetTimer w)) = (T + 4000)%nat.
Proof.
  intros HRI HL Hrid Hfresh Hnow; cbn [run].
  pose proof HRI as (HD & HN & HR & HF).
  rewrite HR.
  set (w1 := mkWorld (timers w) (resetTimeout (container w)) (dice w)
               (notified w) (completions w)).
  assert (Hc : commit w1 =
               mkWorld (cleanupAll (dice w) (timers w))
                 (resetTimeout (container w)) (dice w)
                 (notified w) (completions w)).
  { apply (commit_cleanup w1); intros d Hdin.
    apply (RollInv_last T w HRI d Hdin). }
  rewrite Hc; clear Hc w1.
  destruct (cleanupAll_spec (dice w) (timers w)) as (Cn & Ci & Cin & Cnd).
  assert (Hlocked : forall j e, nth_error (dice w) j = Some e ->
                      diceRef e <> None -> isLockedRef e = true).
  { intros j e Hj Hb; destruct (HL j e Hj Hb) as [G | (tm & Htm & Hcb)];
      [exact G | exfalso].
    pose proof (proj1 (Forall_forall _ _) HF tm Htm) as (Hn & _ & Hdue & _).
    unfold DueOk in Hdue; destruct Hcb as [Hcb | Hcb]; rewrite Hcb in Hdue; lia. }
  assert (Hnil : pending (cleanupAll (dice w) (timers w)) = []).
  { apply nil_of_no_member; intros tm Htm; apply Cin in Htm as (Htm & Hun).
    pose proof (proj1 (Forall_forall _ _) HF tm Htm)
      as (Hn & _ & Hdue & Hrr & _ & Hlook).
    unfold DueOk in Hdue.
    destruct (callback tm) eqn:Hcb; try lia.
    - apply (Hfresh tm Htm); specialize (Hrr eq_refl); congruence.
    - destruct (Hlook die eq_refl) as (d & Hd & Hok).
      unfold RefOk in Hok; rewrite Hcb in Hok.
      apply (Hun d); [eapply nth_error_In; exact Hd |].
      unfold refsOf; destruct Hok as (_ & _ & <-); cbn; tauto.
    - destruct (Hlook die eq_refl) as (d & Hd & Hok).
      unfold RefOk in Hok; rewrite Hcb in Hok.
      apply (Hun d); [eapply nth_error_In; exact Hd |].
      unfold refsOf; destruct Hok as (_ & _ & <-); cbn; tauto. }
  split; [| split; [| split; [reflexivity | cbn [timers]; rewrite Cn; exact Hnow]]].
  - unfold Inv; cbn [dice timers container isRolling resetTimeout].
    split; [| split; [rewrite Hnil; constructor | exact Hnil]].
    intros j e Hj; eapply DieOk_same; [apply (HD j e Hj) | |]; cbn;
      [reflexivity | lia].
  - intros e He Hb; cbn [dice] in He.
    apply In_nth_error in He as (j & Hj).
    destruct (HD j e Hj) as (_ & _ & _ & _ & Dv & Dr).
    pose proof (Hlocked j e Hj Hb) as Hl.
    split; [exact Hl |]; split; [exact Dv | exact (Dr Hl)].
Qed.

Lemma run_PointsTimer (T : nat) (w : World) (r : Draw) :
  RollInv T w -> ResetPending w ->
  (forall j e, nth_error (dice w) j = Some e -> Live w j e) ->
  (T + 100 < now (timers w))%nat ->
  RollInv T (run r PointsTimer w) /\ ResetPending (run r PointsTimer w) /\
  (forall j e, nth_error (dice (run r PointsTimer w)) j = Some e ->
     Live (run r PointsTimer w) j e).
Proof.
  intros HRI HRP HL Hnow; cbn [run].
  set (w1 := mkWorld (timers w) (pointsTimeout (container w)) (dice w)
               (notified w) (S (completions w))).
  destruct HRI as (HD & HN & HR & HF).
  assert (A1 : RollInv T w1).
  { split; [| split; [| split]]; unfold w1; cbn [dice timers container].
    - intros j e Hj; eapply DieOk_same; [apply (HD j e Hj) | |]; cbn;
        [reflexivity | lia].
    - exact HN.
    - exact HR.
    - eapply Forall_impl; [| exact HF].
      intros a Ha; eapply TimerOk_same_dice; [exact Ha | | | |];
        cbn; try reflexivity; lia. }
  destruct (totalEqb _ _).
  - split; [exact A1 |]; split; [exact HRP | exact HL].
  - destruct (commit_rolling T w1 A1 HRP HL Hnow) as (B1 & B2 & B3 & _).
    split; [exact B1 |]; split; [exact B2 | exact B3].
Qed.

Lemma timers_eta (t : Timers) :
  mkTimers (now t) (nextTimerId t) (pending t) = t.
Proof. destruct t; reflexivity. Qed.

Lemma filter_all {A : Type} (p : A -> bool) (l : list A) :
  (forall a, In a l -> p a = true) -> filter p l = l.
Proof.
  induction l as [| a l IH]; cbn; intros H; [reflexivity |].
  rewrite (H a (or_introl eq_refl)), IH; [reflexivity |].
  intros b Hb; apply H; right; exact Hb.
Qed.

Lemma clearIfSet_id (ref : option nat) (t : Timers) :
  (forall tm, In tm (pending t) -> ref <> Some (timerId tm)) ->
  clearIfSet ref t = t.
Proof.
  intros H; destruct ref as [id |]; [| reflexivity].
  unfold clearIfSet, clearTimeout; rewrite filter_all; [apply timers_eta |].
  intros tm Htm; apply negb_true_iff, Nat.eqb_neq.
  intros E; apply (H tm Htm); congruence.
Qed.

(** The effect on a die that is due, when no pending timer is one the die
    holds: the refs are reset and the respawn timer is set. *)
Lemma respawnEffect_due (rc : nat) (d : PhysicsDice) (t : Timers) :
  respawnDue rc d = true ->
  (forall tm, In tm (pending t) -> ~ In (Some (timerId tm)) (refsOf d)) ->
  respawnEffect rc d t =
    (respawned rc (nextTimerId t) d,
     mkTimers (now t) (S (nextTimerId t))
       (pending t ++
          [mkTimer (nextTimerId t) (now t + startDelay d) None
             (RespawnTimer (index d))])).
Proof.
  intros Hdue Hno; unfold respawnEffect; rewrite Hdue.
  cbn [timerRef stabilityTimerRef gradualDampingRef stabilityCheckRef
       setLastResetCountRef setTimerRef setStabilityTimerRef
       setGradualDampingRef setStabilityCheckRef].
  assert (H1 : clearIfSet (timerRef d) t = t).
  { apply clearIfSet_id; intros tm Htm E; apply (Hno tm Htm).
    unfold refsOf; rewrite E; cbn; tauto. }
  assert (H2 : clearIfSet (stabilityTimerRef d) t = t).
  { apply clearIfSet_id; intros tm Htm E; apply (Hno tm Htm).
    unfold refsOf; rewrite E; cbn; tauto. }
  assert (H3 : clearIfSet (gradualDampingRef d) t = t).
  { apply clearIfSet_id; intros tm Htm E; apply (Hno tm Htm).
    unfold refsOf; rewrite E; cbn; tauto. }
  assert (H4 : clearIfSet (stabilityCheckRef d) t = t).
  { apply clearIfSet_id; intros tm Htm E; apply (Hno tm Htm).
    unfold refsOf; rewrite E; cbn; tauto. }
  rewrite H1, H2, H3, H4; reflexivity.
Qed.

Lemma dequeued_rearmed (tm : Timer) (w : World) (p : nat) :
  every tm = Some p ->
  In (mkTimer (timerId tm) (due tm + p) (Some p) (callback tm))
    (pending (timers (dequeued tm w))).
Proof.
  intros E; unfold dequeued; rewrite E; cbn [timers pending].
  apply in_or_app; right; left; reflexivity.
Qed.

(** A due timer of the roll that started at [T] fires: the roll goes on,
    or this was the reset timer and the roll has ended. *)
Lemma fire_rolling (T : nat) (w : World) (r : Draw) (tm : Timer) :
  Rolling T w ->
  In tm (pending (timers w)) -> (due tm <= now (timers w))%nat ->
  Rolling T (fire r tm w) \/ RollEnded T (fire r tm w).
Proof.
  intros (HRI & HRP & HL) Hin Hdue.
  destruct (dequeued_spec T w tm HRI Hin Hdue) as (HRI1 & Hnow1 & Hsurv & Hfresh).
  assert (HTO : TimerOk T w tm).
  { destruct HRI as (_ & _ & _ & HF); rewrite Forall_forall in HF; exact (HF tm Hin). }
  destruct HTO as (_ & _ & HD & Hrref & _ & Hlook).
  assert (HL1 : forall j e, nth_error (dice w) j = Some e ->
            callback tm <> ForcedLock j -> callback tm <> RespawnTimer j ->
            Live (dequeued tm w) j e).
  { intros j e Hj N1 N2 Hh.
    destruct (HL j e Hj Hh) as [L | (tm' & Hin' & Hcb)]; [left; exact L |].
    right; exists tm'; split; [| exact Hcb].
    apply Hsurv; [exact Hin' |]; intros E; subst tm'; tauto. }
  assert (HRP1 : callback tm <> ResetTimer -> ResetPending (dequeued tm w)).
  { intros N; destruct HRP as (tr & Htr & Hcb); exists tr; split; [| exact Hcb].
    apply Hsurv; [exact Htr |]; intros E; subst tr; tauto. }
  rewrite fire_dequeued.
  unfold DueOk in HD.
  destruct (callback tm) as [| | i | i | i | i | i] eqn:Ecb.
  - (* ResetTimer *)
    destruct HD as (HD & Hev).
    right; apply (run_ResetTimer T (dequeued tm w) r (timerId tm)).
    + exact HRI1.
    + intros j e Hj; apply HL1; [exact Hj | discriminate | discriminate].
    + exact (Hrref eq_refl).
    + exact (Hfresh Hev).
    + rewrite Hnow1; exact HD.
  - (* PointsTimer *)
    destruct HD as (HD & Hev).
    left; apply run_PointsTimer.
    + exact HRI1.
    + apply HRP1; discriminate.
    + intros j e Hj; apply HL1; [exact Hj | discriminate | discriminate].
    + rewrite Hnow1; lia.
  - (* RespawnTimer *)
    destruct HD as (HD & Hev).
    destruct (Hlook i eq_refl) as (d & Hd & HR).
    unfold RefOk in HR; rewrite Ecb in HR; destruct HR as (HR1 & HR2).
    left; apply (run_RespawnTimer T _ r i d (timerId tm)).
    + exact HRI1.
    + apply HRP1; discriminate.
    + intros j e Hj Hne; apply HL1; [exact Hj | discriminate | congruence].
    + exact Hd.
    + exact HR1.
    + exact HR2.
    + rewrite Hnow1; exact HD.
    + exact (Hfresh Hev).
  - (* StabilityTimer *)
    destruct HD as (HD & Hev).
    destruct (Hlook i eq_refl) as (d & Hd & HR).
    unfold RefOk in HR; rewrite Ecb in HR; destruct HR as (HR1 & HR2).
    left; apply (run_StabilityTimer T _ r i d (timerId tm)).
    + exact HRI1.
    + apply HRP1; discriminate.
    + intros j e Hj; apply HL1; [exact Hj | discriminate | discriminate].
    + exact Hd.
    + exact HR1.
    + exact HR2.
    + rewrite Hnow1; exact HD.
    + exact (Hfresh Hev).
  - (* GradualDamping *)
    destruct HD as (HD & Hev).
    destruct (Hlook i eq_refl) as (d & Hd & HR).
    unfold RefOk in HR; rewrite Ecb in HR; destruct HR as (HR1 & HR2 & HR3).
    left; apply
      (run_GradualDamping T _ r i d
         (mkTimer (timerId tm) (due tm + 100) (Some 100%nat) (callback tm))).
    + exact HRI1.
    + apply HRP1; discriminate.
    + intros j e Hj; apply HL1; [exact Hj | discriminate | discriminate].
    + exact Hd.
    + apply dequeued_rearmed; exact Hev.
    + exact Ecb.
    + exact HR3.
  - (* StabilityCheck *)
    destruct HD as (HD & Hev).
    destruct (Hlook i eq_refl) as (d & Hd & HR).
    unfold RefOk in HR; rewrite Ecb in HR; destruct HR as (HR1 & HR2 & HR3).
    left; apply (run_StabilityCheck T _ r i d).
    + exact HRI1.
    + apply HRP1; discriminate.
    + intros j e Hj; apply HL1; [exact Hj | discriminate | discriminate].
    + exact Hd.
    + exact HR1.
    + rewrite Hnow1; lia.
  - (* ForcedLock *)
    destruct HD as (HD & Hev).
    destruct (Hlook i eq_refl) as (d & Hd & HR).
    unfold RefOk in HR; rewrite Ecb in HR.
    left; apply (run_ForcedLock T _ r i d).
    + exact HRI1.
    + apply HRP1; discriminate.
    + intros j e Hj Hne; apply HL1; [exact Hj | congruence | discriminate].
    + exact Hd.
    + exact HR.
    + rewrite Hnow1; exact HD.
Qed.

Lemma Rolling_Inv (T : nat) (w : World) : Rolling T w -> Inv w.
Proof. intros (H1 & H2 & H3); exact (Inv_rolling T w H1 H2 H3). Qed.

Lemma Rolling_flag (T : nat) (w : World) :
  Rolling T w -> isRolling (container w) = true.
Proof. intros ((_ & _ & H & _) & _); exact H. Qed.

Lemma Inv_Rolling (w : World) :
  Inv w -> isRolling (container w) = true -> exists T, Rolling T w.
Proof.
  intros (HD & HN & HI) Hr; rewrite Hr in HI.
  destruct HI as (T & HRP & HF & HL); exists T.
  split; [split; [exact HD | split; [exact HN | split; [exact Hr | exact HF]]] |].
  split; [exact HRP | exact HL].
Qed.

(** A millisecond passes with no timer due. *)
Lemma advance_rolling (T : nat) (w : World) :
  Rolling T w -> dueTimer (timers w) = None ->
  Rolling T
    (mkWorld
       (mkTimers (S (now (timers w))) (nextTimerId (timers w))
          (pending (timers w)))
       (container w) (dice w) (notified w) (completions w)).
Proof.
  intros ((HD & HN & HR & HF) & HRP & HL) Edue.
  pose proof (dueTimer_None _ Edue) as Hlate.
  split; [split; [| split; [| split]] | split].
  - intros i d Hi; cbn [dice] in Hi.
    eapply DieOk_same; [apply (HD i d Hi) | reflexivity | cbn; lia].
  - exact HN.
  - exact HR.
  - apply Forall_forall; intros tm Htm.
    pose proof (proj1 (Forall_forall _ _) HF tm Htm) as (_ & B & C & D & E & F).
    split; [cbn; apply Hlate, Htm |].
    split; [exact B |]; split; [exact C |]; split; [exact D |].
    split; [exact E | exact F].
  - exact HRP.
  - exact HL.
Qed.

(** One turn of the event loop during the roll that started at [T]. *)
Lemma tick_rolling (T : nat) (r : Draw) (w : World) :
  Rolling T w -> Rolling T (tick r w) \/ RollEnded T (tick r w).
Proof.
  intros HR; unfold tick.
  destruct (dueTimer (timers w)) as [tm |] eqn:Edue.
  - destruct (dueTimer_Some _ _ Edue) as (Hin & Hd).
    exact (fire_rolling T w r tm HR Hin Hd).
  - left; exact (advance_rolling T w HR Edue).
Qed.

(** Between rolls no timer is pending: a turn of the event loop is a
    millisecond that passes. *)
Lemma tick_idle (r : Draw) (w : World) :
  Inv w -> isRolling (container w) = false -> Inv (tick r w).
Proof.
  intros (HD & HN & HI) Hr; rewrite Hr in HI; unfold tick.
  destruct (dueTimer (timers w)) as [tm |] eqn:Edue.
  - destruct (dueTimer_Some _ _ Edue) as (Hin & _).
    rewrite HI in Hin; destruct Hin.
  - split; [| split]; cbn [dice timers container pending].
    + intros i d Hi; eapply DieOk_same; [apply (HD i d Hi) | reflexivity |].
      cbn; lia.
    + exact HN.
    + rewrite Hr; exact HI.
Qed.

(** The physics engine moves die [i]: what this keeps of the dice. *)
Lemma simulate_DieOk (w : World) (i : nat) (k : Kinematics) (d : PhysicsDice) :
  (forall j e, nth_error (dice w) j = Some e -> DieOk w j e) ->
  nth_error (dice w) i = Some d ->
  forall j e,
    nth_error
      (replaceNth i (setDiceRef (option_map (simulate k) (diceRef d)) d)
         (dice w)) j = Some e ->
    DieOk
      (mkWorld (timers w) (container w)
         (replaceNth i (setDiceRef (option_map (simulate k) (diceRef d)) d)
            (dice w))
         (notified w) (completions w)) j e.
Proof.
  intros HD Hd j e Hj.
  assert (HRes : Resolved d) by apply (HD i d Hd).
  destruct (simulate_keeps k d HRes) as (HK & _).
  destruct (Nat.eq_dec j i) as [-> | Hne].
  - rewrite (nth_error_replaceNth_same _ _ _ _ Hd) in Hj.
    injection Hj as <-.
    eapply DieOk_keeps; [apply (HD i d Hd) | exact HK | |]; cbn;
      [reflexivity | lia].
  - rewrite nth_error_replaceNth_other in Hj by exact Hne.
    eapply DieOk_same; [apply (HD j e Hj) | |]; cbn; [reflexivity | lia].
Qed.

Lemma simulate_rolling (T : nat) (w : World) (i : nat) (k : Kinematics) :
  Rolling T w -> Rolling T (step w (Simulate i k)).
Proof.
  intros HR; cbn [step].
  destruct (nth_error (dice w) i) as [d |] eqn:Hd; [| exact HR].
  destruct HR as ((HD & HN & HR & HF) & HRP & HL).
  set (d' := setDiceRef (option_map (simulate k) (diceRef d)) d).
  set (w2 := mkWorld (timers w) (container w) (replaceNth i d' (dice w))
               (notified w) (completions w)).
  assert (HRes : Resolved d) by apply (HD i d Hd).
  destruct (simulate_keeps k d HRes) as (HK & HLk); fold d' in HK, HLk.
  pose proof HK as (K1 & K2 & K3 & K4 & K5 & K6 & K7 & K8).
  destruct (refsOf_eq d d' K4) as (E1 & E2 & E3 & E4).
  split; [split; [| split; [| split]] | split].
  - exact (simulate_DieOk w i k d HD Hd).
  - exact HN.
  - exact HR.
  - apply Forall_forall; intros tm Htm.
    eapply (TimerOk_update T w w2 tm i d d');
      [apply (proj1 (Forall_forall _ _) HF tm Htm) | reflexivity
      | unfold w2; cbn [timers]; lia | reflexivity | exact Hd
      | reflexivity | |].
    + intros id Hin; left; rewrite <- K4; exact Hin.
    + intros _; unfold RefOk; rewrite E1, E2, E3, E4, HLk; tauto.
  - exact HRP.
  - intros j e Hj; destruct (Nat.eq_dec j i) as [-> | Hne].
    + unfold w2 in Hj; cbn [dice] in Hj.
      rewrite (nth_error_replaceNth_same _ _ _ _ Hd) in Hj; injection Hj as <-.
      intros Hb; assert (Hb0 : diceRef d <> None) by tauto.
      destruct (HL i d Hd Hb0) as [Hl | Hw];
        [left; apply K6, Hl | right; exact Hw].
    + eapply (Live_replace_other w w2 i j d' e); try reflexivity; auto.
Qed.

Lemma simulate_idle (w : World) (i : nat) (k : Kinematics) :
  Inv w -> isRolling (container w) = false -> Inv (step w (Simulate i k)).
Proof.
  intros HI Hr; cbn [step].
  destruct (nth_error (dice w) i) as [d |] eqn:Hd; [| exact HI].
  destruct HI as (HD & HN & HI); rewrite Hr in HI.
  split; [exact (simulate_DieOk w i k d HD Hd) | split; [exact HN |]].
  cbn [container timers]; rewrite Hr; exact HI.
Qed.

(** The effects of the render that follows an accepted click: every die
    respawns and sets its respawn timer, [startDelay] from now. *)
Lemma effectAll_click (rc T B : nat) (ds : list PhysicsDice) :
  (0 < rc)%nat ->
  forall (off : nat) (t : Timers),
  (forall k d, nth_error ds k = Some d ->
     index d = (off + k)%nat /\ startDelay d = 100%nat /\
     lastResetCountRef d <> rc /\
     (forall id, In (Some id) (refsOf d) -> (id < B)%nat)) ->
  (B <= nextTimerId t)%nat ->
  (forall tm, In tm (pending t) -> (B <= timerId tm < nextTimerId t)%nat) ->
  NoDup (map timerId (pending t)) -> now t = T ->
  let ds' := fst (effectAll rc ds t) in
  let t' := snd (effectAll rc ds t) in
  now t' = T /\ (nextTimerId t <= nextTimerId t')%nat /\
  NoDup (map timerId (pending t')) /\
  (forall tm, In tm (pending t') ->
     (timerId tm < nextTimerId t')%nat /\
     (In tm (pending t) \/
      ((nextTimerId t <= timerId tm)%nat /\ due tm = (T + 100)%nat /\
       every tm = None /\
       exists k d', callback tm = RespawnTimer (off + k) /\
                    nth_error ds' k = Some d' /\
                    timerRef d' = Some (timerId tm) /\
                    isLockedRef d' = false))) /\
  (forall tm, In tm (pending t) -> In tm (pending t')) /\
  (forall k d', nth_error ds' k = Some d' ->
     exists d id, nth_error ds k = Some d /\ d' = respawned rc id d /\
       (nextTimerId t <= id < nextTimerId t')%nat /\
       In (mkTimer id (T + 100) None (RespawnTimer (off + k))) (pending t')).
Proof.
  intros Hrc; induction ds as [| d rest IH]; intros off t Hds HB Hp HN Hnow.
  - cbn [effectAll fst snd]; split; [exact Hnow |]; split; [lia |].
    split; [exact HN |]; split.
    + intros tm Htm; split; [apply (Hp tm Htm) | left; exact Htm].
    + split; [tauto |]; intros [| k] d' Hk; discriminate Hk.
  - destruct (Hds 0%nat d eq_refl) as (Hi & Hs & Hl & Hr).
    assert (Hdue : respawnDue rc d = true).
    { unfold respawnDue; apply andb_true_intro; split;
        [apply Nat.ltb_lt, Hrc | apply negb_true_iff, Nat.eqb_neq; congruence]. }
    assert (Hno : forall tm, In tm (pending t) ->
              ~ In (Some (timerId tm)) (refsOf d)).
    { intros tm Htm Hin; specialize (Hr _ Hin); specialize (Hp _ Htm); lia. }
    cbn [effectAll]; rewrite (respawnEffect_due rc d t Hdue Hno).
    set (n := nextTimerId t).
    set (tm0 := mkTimer n (now t + startDelay d) None (RespawnTimer (index d))).
    set (t1 := mkTimers (now t) (S n) (pending t ++ [tm0])).
    assert (E0 : tm0 = mkTimer n (T + 100) None (RespawnTimer (off + 0))).
    { unfold tm0; rewrite Hnow, Hs, Hi; reflexivity. }
    specialize (IH (S off) t1).
    destruct IH as (I1 & I2 & I3 & I4 & I5 & I6).
    { intros k e Hk; destruct (Hds (S k) e Hk) as (A & B0 & C & D).
      split; [lia | tauto]. }
    { cbn [t1 nextTimerId]; fold n in HB; lia. }
    { intros tm Htm; cbn [t1 pending nextTimerId] in *.
      apply in_app_or in Htm; destruct Htm as [Htm | [<- | []]].
      - specialize (Hp _ Htm); fold n in Hp; lia.
      - cbn [tm0 timerId]; fold n in HB; lia. }
    { cbn [t1 pending]; apply NoDup_ids_snoc; [exact HN |].
      intros a Ha; specialize (Hp _ Ha); cbn [tm0 timerId]; fold n in Hp; lia. }
    { exact Hnow. }
    destruct (effectAll rc rest t1) as [rest' t'] eqn:E.
    cbn [fst snd] in *.
    cbn [t1 nextTimerId] in I2.
    split; [exact I1 |]; split; [fold n; lia |]; split; [exact I3 |].
    split; [| split].
    + intros tm Htm; destruct (I4 tm Htm) as (Hb & Hc); split; [exact Hb |].
      destruct Hc as [Hc | (C1 & C2 & C3 & k & d' & C4 & C5 & C6 & C7)].
      * cbn [t1 pending] in Hc; apply in_app_or in Hc.
        destruct Hc as [Hc | [<- | []]]; [left; exact Hc | right].
        rewrite E0; cbn [timerId due every callback].
        split; [fold n; lia |]; split; [reflexivity |]; split; [reflexivity |].
        exists 0%nat, (respawned rc n d); cbn [nth_error respawned timerRef isLockedRef].
        repeat split; reflexivity.
      * right; cbn [t1 nextTimerId] in C1.
        split; [fold n; lia |]; split; [exact C2 |]; split; [exact C3 |].
        exists (S k), d'; cbn [nth_error].
        replace (off + S k)%nat with (S off + k)%nat by lia.
        rewrite C4; repeat split; assumption.
    + intros tm Htm; apply I5; cbn [t1 pending]; apply in_or_app; left; exact Htm.
    + intros [| k] d' Hk; cbn [nth_error] in Hk.
      * injection Hk as <-; exists d, n; cbn [nth_error].
        split; [reflexivity |]; split; [reflexivity |]; split; [fold n; lia |].
        rewrite <- E0; apply I5; cbn [t1 pending]; apply in_or_app; right; left.
        reflexivity.
      * destruct (I6 k d' Hk) as (e & id & J1 & J2 & J3 & J4).
        exists e, id; cbn [nth_error]; cbn [t1 nextTimerId] in J3.
        split; [exact J1 |]; split; [exact J2 |]; split; [fold n; lia |].
        replace (off + S k)%nat with (S off + k)%nat by lia; exact J4.
Qed.

Lemma click_rolling (w : World) :
  isRolling (container w) = true -> click w = w.
Proof.
  intros Hr; unfold click, handleReset; rewrite Hr; cbn [negb].
  apply world_eta.
Qed.

(** An accepted click starts a roll, at the time of the click. *)
Lemma click_idle (w : World) :
  Inv w -> isRolling (container w) = false ->
  Rolling (now (timers w)) (click w).
Proof.
  intros (HD & HN & HI) Hr; rewrite Hr in HI.
  unfold click, handleReset; rewrite Hr; cbn [negb].
  rewrite (clearIfSet_id (resetTimerRef (container w)) (timers w))
    by (intros tm Htm; rewrite HI in Htm; destruct Htm).
  unfold setTimeout; rewrite HI; cbn [app].
  set (n0 := nextTimerId (timers w)).
  set (T := now (timers w)).
  set (R0 := mkTimer n0 (T + 4000) None ResetTimer).
  set (t1 := mkTimers T (S n0) [R0]).
  set (c1 := mkDiceContainer (S (resetCount (container w))) true (Some n0) 0
               false [] (Some 0%Z)).
  unfold commit; cbn [dice timers container notified completions resetCount c1].
  destruct (cleanupAll_spec (dice w) t1) as (Q1 & Q2 & Q3 & Q4).
  set (tc := cleanupAll (dice w) t1) in *.
  assert (HR0 : forall d, In d (dice w) -> ~ In (Some n0) (refsOf d)).
  { intros d Hd Hin; apply In_nth_error in Hd; destruct Hd as (k & Hk).
    destruct (HD k d Hk) as (_ & _ & _ & Hb & _).
    specialize (Hb _ Hin); fold n0 in Hb; lia. }
  assert (HtcR : forall tm, In tm (pending tc) -> tm = R0).
  { intros tm Htm; apply Q3 in Htm; destruct Htm as ([<- | []] & _); reflexivity. }
  assert (HR0in : In R0 (pending tc)).
  { apply Q3; split; [left; reflexivity | exact HR0]. }
  destruct (effectAll_click (S (resetCount (container w))) T n0 (dice w)
              ltac:(lia) 0%nat tc) as (P1 & P2 & P3 & P4 & P5 & P6).
  { intros k d Hk; destruct (HD k d Hk) as (A & B0 & C & D & _).
    split; [exact A |]; split; [exact B0 |]; split; [lia | exact D]. }
  { rewrite Q2; cbn; lia. }
  { intros tm Htm; rewrite (HtcR tm Htm), Q2; cbn; lia. }
  { apply Q4; cbn; constructor; [intros [] | constructor]. }
  { rewrite Q1; reflexivity. }
  destruct (effectAll (S (resetCount (container w))) (dice w) tc) as [ds' t'].
  cbn [fst snd] in *.
  rewrite Q2 in P2; cbn [t1 nextTimerId] in P2.
  split; [split; [| split; [| split]] | split];
    cbn [dice timers container isRolling].
  - intros k d' Hk; destruct (P6 k d' Hk) as (d & id & J1 & -> & J3 & _).
    destruct (HD k d J1) as (A & B0 & _).
    split; [exact A |]; split; [exact B0 |]; split; [reflexivity |].
    split; [| split; [cbn; lia | intros Hl; discriminate Hl]].
    intros x [Hx | [Hx | [Hx | [Hx | []]]]]; cbn in Hx; try discriminate Hx.
    injection Hx as <-; cbn [timers]; lia.
  - exact P3.
  - reflexivity.
  - apply Forall_forall; intros tm Htm.
    destruct (P4 tm Htm) as (Hb & [Hold | (C1 & C2 & C3 & k & d' & C4 & C5 & C6 & C7)]).
    + rewrite (HtcR tm Hold) in *.
      split; [cbn; rewrite P1; lia |].
      split; [exact Hb |].
      split; [cbn; split; reflexivity |].
      split; [intros _; reflexivity |].
      split; [| intros i Hi; discriminate Hi].
      intros _ d' Hd' Hin; cbn [dice] in Hd'.
      apply In_nth_error in Hd'; destruct Hd' as (k & Hk).
      destruct (P6 k d' Hk) as (d & id & _ & -> & J3 & _).
      rewrite Q2 in J3; cbn [t1 nextTimerId] in J3.
      destruct Hin as [Hx | [Hx | [Hx | [Hx | []]]]]; cbn in Hx;
        try discriminate Hx.
      injection Hx as Hx; cbn [R0 timerId] in Hx; lia.
    + split; [cbn [timers]; rewrite P1, C2; lia |].
      split; [exact Hb |].
      split; [unfold DueOk; rewrite C4; split; [exact C2 | exact C3] |].
      split; [rewrite C4; intros Hc; discriminate Hc |].
      split; [rewrite C4; intros Hc; discriminate Hc |].
      intros i Hi; rewrite C4 in Hi; cbn in Hi; injection Hi as <-.
      exists d'; split; [exact C5 |].
      unfold RefOk; rewrite C4; split; [exact C6 | exact C7].
  - exists R0; split; [apply P5, HR0in | reflexivity].
  - intros k d' Hk Hh; cbn [dice] in Hk.
    destruct (P6 k d' Hk) as (d & id & _ & _ & _ & J4).
    right; eexists; split; [exact J4 | right; reflexivity].
Qed.

Lemma nth_error_mountDice (handles : list (option RigidBody)) :
  forall off k d,
    nth_error (mountDice off handles) k = Some d ->
    exists h, d = mountPhysicsDice (calculateDicePosition (off + k))
                    (off + k) 100 h.
Proof.
  induction handles as [| h rest IH]; intros off [| k] d Hk; cbn in Hk;
    try discriminate Hk.
  - injection Hk as <-; exists h; rewrite Nat.add_0_r; reflexivity.
  - destruct (IH (S off) k d Hk) as (h' & ->); exists h'.
    replace (off + S k)%nat with (S off + k)%nat by lia; reflexivity.
Qed.

(** The page as it is mounted. *)
Lemma mount_inv (handles : list (option RigidBody)) : Inv (mountWorld handles).
Proof.
  split; [| split; [constructor | reflexivity]].
  intros k d Hk; cbn [mountWorld dice] in Hk.
  destruct (nth_error_mountDice handles 0 k d Hk) as (h & ->).
  split; [reflexivity |]; split; [reflexivity |]; split; [reflexivity |].
  split; [| split; [cbn; lia | intros Hl; discriminate Hl]].
  intros x [Hx | [Hx | [Hx | [Hx | []]]]]; discriminate Hx.
Qed.

(** Every action during the roll that started at [T]: the roll goes on,
    or it ends, at [T + 4000] and with every die locked. *)
Lemma step_rolling (T : nat) (w : World) (a : Action) :
  Rolling T w -> Rolling T (step w a) \/ RollEnded T (step w a).
Proof.
  intros HR; destruct a as [| r | i k].
  - left; cbn [step]; rewrite (click_rolling w (Rolling_flag T w HR)); exact HR.
  - exact (tick_rolling T r w HR).
  - left; exact (simulate_rolling T w i k HR).
Qed.

(** Every action keeps the invariant of the page. *)
Lemma step_inv (w : World) (a : Action) : Inv w -> Inv (step w a).
Proof.
  intros HI; destruct (isRolling (container w)) eqn:Hr.
  - destruct (Inv_Rolling w HI Hr) as (T & HR).
    destruct (step_rolling T w a HR) as [H | H];
      [exact (Rolling_Inv T _ H) | apply H].
  - destruct a as [| r | i k].
    + exact (Rolling_Inv _ _ (click_idle w HI Hr)).
    + exact (tick_idle r w HI Hr).
    + exact (simulate_idle w i k HI Hr).
Qed.

Lemma steps_inv (acts : list Action) :
  forall w, Inv w -> Inv (steps w acts).
Proof.
  induction acts as [| a acts IH]; intros w HI; [exact HI |].
  cbn [steps fold_left]; apply IH, step_inv, HI.
Qed.

Lemma rollingThrough_flag (acts : list Action) (w : World) :
  rollingThrough w acts = true -> isRolling (container w) = true.
Proof.
  destruct acts; cbn [rollingThrough]; [tauto |].
  intros H; apply andb_true_iff in H; tauto.
Qed.

(** While the flag stays set, the roll that started at [T] goes on. *)
Lemma steps_rolling (T : nat) (acts : list Action) :
  forall w, Rolling T w -> rollingThrough w acts = true ->
            Rolling T (steps w acts).
Proof.
  induction acts as [| a acts IH]; intros w HR Hthru; [exact HR |].
  cbn [rollingThrough] in Hthru; apply andb_true_iff in Hthru.
  destruct Hthru as (_ & Hthru).
  cbn [steps fold_left]; apply IH; [| exact Hthru].
  destruct (step_rolling T w a HR) as [H | (_ & _ & Hf & _)]; [exact H |].
  rewrite (rollingThrough_flag acts _ Hthru) in Hf; discriminate Hf.
Qed.

Lemma present_iff (a b : option RigidBody) :
  (a = None <-> b = None) -> present a = present b.
Proof.
  destruct a, b; cbn; intros [H1 H2]; try reflexivity;
    [discriminate (H2 eq_refl) | discriminate (H1 eq_refl)].
Qed.

Lemma map_replaceNth {A B : Type} (f : A -> B) (l : list A) :
  forall (i : nat) (a b : A),
    nth_error l i = Some b -> f a = f b ->
    map f (replaceNth i a l) = map f l.
Proof.
  induction l as [| c l IH]; intros [| i] a b Hi Hf; cbn in *;
    try discriminate Hi.
  - injection Hi as ->; rewrite Hf; reflexivity.
  - rewrite (IH i a b Hi Hf); reflexivity.
Qed.

Lemma respawnEffect_handle (rc : nat) (d : PhysicsDice) (t : Timers) :
  diceRef (fst (respawnEffect rc d t)) = diceRef d.
Proof.
  unfold respawnEffect; destruct (respawnDue rc d); reflexivity.
Qed.

Lemma effectAll_handles (rc : nat) (ds : list PhysicsDice) :
  forall t : Timers,
    map (fun d => present (diceRef d)) (fst (effectAll rc ds t)) =
    map (fun d => present (diceRef d)) ds.
Proof.
  induction ds as [| d rest IH]; intros t; [reflexivity |].
  cbn [effectAll].
  pose proof (respawnEffect_handle rc d t) as H.
  destruct (respawnEffect rc d t) as [d' t1]; cbn [fst] in H.
  specialize (IH t1); destruct (effectAll rc rest t1) as [rest' t2].
  cbn [fst map] in *; rewrite H, IH; reflexivity.
Qed.

Lemma commit_handles (w : World) : handlesOf (commit w) = handlesOf w.
Proof.
  unfold commit, handlesOf.
  pose proof (effectAll_handles (resetCount (container w)) (dice w)
                (cleanupAll (dice w) (timers w))) as H.
  destruct (effectAll _ _ _) as [ds t]; exact H.
Qed.

Lemma deliver_handles (r : option Settled) (w : World) :
  handlesOf (deliver r w) = handlesOf w.
Proof.
  destruct r as [s |]; [| reflexivity]; unfold deliver.
  destruct (handleDiceStable _ _ _ _) as [c t]; rewrite commit_handles.
  reflexivity.
Qed.

Lemma withDie_handles (i : nat)
  (f : PhysicsDice -> PhysicsDice * option Settled) (w : World) :
  (forall d, present (diceRef (fst (f d))) = present (diceRef d)) ->
  handlesOf (withDie i f w) = handlesOf w.
Proof.
  intros Hf; unfold withDie.
  destruct (nth_error (dice w) i) as [d |] eqn:Hd; [| reflexivity].
  specialize (Hf d); destruct (f d) as [d' r]; cbn [fst] in Hf.
  rewrite deliver_handles; unfold handlesOf; cbn [dice].
  apply (map_replaceNth _ _ _ _ d Hd Hf).
Qed.

Lemma withDieTimers_handles (i : nat)
  (f : PhysicsDice -> Timers -> PhysicsDice * Timers) (w : World) :
  (forall d t, present (diceRef (fst (f d t))) = present (diceRef d)) ->
  handlesOf (withDieTimers i f w) = handlesOf w.
Proof.
  intros Hf; unfold withDieTimers.
  destruct (nth_error (dice w) i) as [d |] eqn:Hd; [| reflexivity].
  specialize (Hf d (timers w)); destruct (f d (timers w)) as [d' t'].
  cbn [fst] in Hf; unfold handlesOf; cbn [dice].
  apply (map_replaceNth _ _ _ _ d Hd Hf).
Qed.

Lemma run_handles (r : Draw) (cb : Callback) (w : World) :
  handlesOf (run r cb w) = handlesOf w.
Proof.
  destruct cb as [| | i | i | i | i | i]; cbn [run].
  - destruct (isRolling (container w)); [rewrite commit_handles |]; reflexivity.
  - destruct (totalEqb _ _); [| rewrite commit_handles]; reflexivity.
  - apply withDieTimers_handles; intros d t; unfold respawnTimeout.
    destruct (diceRef d) eqn:E; cbn; [reflexivity | rewrite E; reflexivity].
  - apply withDieTimers_handles; intros d t; unfold stabilityTimeout.
    destruct (diceRef d) eqn:E; cbn; rewrite E; reflexivity.
  - apply withDieTimers_handles; intros d t; apply present_iff.
    apply (gradualDampingTick_spec d t).
  - apply withDie_handles; intros d; apply present_iff.
    apply (checkStability_keeps (now (timers w)) d).
  - apply withDie_handles; intros d; apply present_iff.
    apply (forcedLockTimeout_keeps d).
Qed.

Lemma step_handles (w : World) (a : Action) :
  handlesOf (step w a) = handlesOf w.
Proof.
  destruct a as [| r | i k]; cbn [step].
  - unfold click; destruct (handleReset _ _) as [c t].
    destruct (isRolling (container w)); [| rewrite commit_handles]; reflexivity.
  - unfold tick; destruct (dueTimer (timers w)) as [tm |]; [| reflexivity].
    rewrite fire_dequeued, run_handles; reflexivity.
  - destruct (nth_error (dice w) i) as [d |] eqn:Hd; [| reflexivity].
    unfold handlesOf; cbn [dice].
    apply (map_replaceNth _ _ _ _ d Hd); cbn [diceRef setDiceRef].
    destruct (diceRef d); reflexivity.
Qed.

Lemma steps_handles (acts : list Action) :
  forall w, handlesOf (steps w acts) = handlesOf w.
Proof.
  induction acts as [| a acts IH]; intros w; [reflexivity |].
  cbn [steps fold_left]; fold (steps (step w a) acts).
  rewrite IH; apply step_handles.
Qed.

Lemma mount_handles (handles : list (option RigidBody)) :
  forall off, map (fun d => present (diceRef d)) (mountDice off handles) =
              map present handles.
Proof.
  induction handles as [| h rest IH]; intros off; [reflexivity |].
  cbn [mountDice map mountPhysicsDice diceRef]; rewrite IH; reflexivity.
Qed.

(** The dice of the page stand in for the bodies it was mounted with: a
    page where every die with a body is locked has every body locked. *)
Lemma AllLocked_bodies (l : list PhysicsDice) :
  (forall d, In d l -> diceRef d <> None -> Locked d) ->
  forall hs : list (option RigidBody),
    map (fun d => present (diceRef d)) l = map present hs ->
    Forall2 (fun h d => h <> None -> Locked d) hs l.
Proof.
  induction l as [| d l IH]; intros Hall [| h hs] Hm; cbn in Hm;
    try discriminate Hm; [constructor |].
  injection Hm as Hh Hm; constructor.
  - intros Hne; apply Hall; [left; reflexivity |].
    destruct h; [| congruence]; destruct (diceRef d); [discriminate | discriminate Hh].
  - apply IH; [| exact Hm]; intros e He; apply Hall; right; exact He.
Qed.

Lemma Rolling_timing (T : nat) (w : World) : Rolling T w -> RollTiming T w.
Proof.
  intros ((HD & HN & HR & HF) & (tr & Htr & Hcb) & HL).
  rewrite Forall_forall in HF.
  assert (Hr : due tr = (T + 4000)%nat /\ (now (timers w) <= due tr)%nat).
  { destruct (HF tr Htr) as (A & _ & B & _); unfold DueOk in B.
    rewrite Hcb in B; tauto. }
  split; [lia |].
  split; [exists tr; tauto |].
  split; [| split; [| split]].
  - intros tm i Htm Hc; destruct (HF tm Htm) as (_ & _ & B & _).
    unfold DueOk in B; rewrite Hc in B; tauto.
  - intros tm i Htm Hc; destruct (HF tm Htm) as (_ & _ & B & _).
    unfold DueOk in B; rewrite Hc in B; lia.
  - intros tm Htm Hc; destruct (HF tm Htm) as (_ & _ & B & _).
    unfold DueOk in B; rewrite Hc in B; lia.
  - exact HL.
Qed.

(** C8.  Take the page at any point of its life, after any clicks, timer
    turns and physics steps since it was mounted, with no roll in flight,
    and let a click be accepted at time [T].  As long as the rolling flag
    has stayed set since, the reset timer is pending and due at
    [T + 4000]; that is after every forced lock, due at [T + 100 + 3000]
    (the start delay plus the forced timeout), and after the points
    callback, due at most 100 ms later still; and every unlocked die that
    has a body still has its forced lock ahead.  The action that then
    takes the flag down does so at [T + 4000], and leaves every body the
    page was mounted with locked: its rigid body fixed and its value that
    of its orientation, between 1 and 6. *)
Theorem rolling_flag_outlasts_every_forced_lock
  (handles : list (option RigidBody)) (before acts : list Action) :
  let w0 := steps (mountWorld handles) before in
  let T := now (timers w0) in
  let w := steps (click w0) acts in
  isRolling (container w0) = false ->
  rollingThrough (click w0) acts = true ->
  RollTiming T w /\ EndsLocked T handles w.
Proof.
  intros w0 T w Hidle Hthru.
  assert (HI : Inv w0) by apply steps_inv, mount_inv.
  assert (HR : Rolling T w).
  { apply steps_rolling; [exact (click_idle w0 HI Hidle) | exact Hthru]. }
  split; [exact (Rolling_timing T w HR) |].
  intros a Hf.
  destruct (step_rolling T w a HR) as [H | (_ & HA & _ & Hnow)].
  - rewrite (Rolling_flag T _ H) in Hf; discriminate Hf.
  - split; [exact Hnow |].
    apply AllLocked_bodies; [exact HA |].
    change (handlesOf (step w a) = map present handles).
    rewrite step_handles; unfold w; rewrite steps_handles.
    change (click w0) with (step w0 Click).
    rewrite step_handles; unfold w0; rewrite steps_handles.
    apply (mount_handles handles 0).
Qed.

Lemma rolling_flag_outlasts_every_forced_lock_witness :
  isRolling (container (steps (mountWorld restingBodies) [])) = false /\
  rollingThrough (click (steps (mountWorld restingBodies) []))
    (repeat (Tick draw0) 200) = true /\
  RollTiming 0
    (steps (click (steps (mountWorld restingBodies) []))
       (repeat (Tick draw0) 200)) /\
  EndsLocked 0 restingBodies
    (steps (click (steps (mountWorld restingBodies) []))
       (repeat (Tick draw0) 200)).
Proof.
  split; [reflexivity |]; split; [vm_compute; reflexivity |].
  apply (rolling_flag_outlasts_every_forced_lock restingBodies []
           (repeat (Tick draw0) 200)); [reflexivity | vm_compute; reflexivity].
Defined.

(** A page whose dice have no body yet has nothing to lock: after the
    click the five respawn timers run, 4000 turns of one millisecond pass
    with the flag up, and the next turn, the reset timer, takes it down. *)
Lemma roll_without_bodies_lasts_4000ms :
  isRolling
    (container
       (steps (mountWorld [None; None; None; None; None])
          (Click :: repeat (Tick draw0) 4005))) = true /\
  isRolling
    (container
       (steps (mountWorld [None; None; None; None; None])
          (Click :: repeat (Tick draw0) 4006))) = false.
Proof. split; vm_compute; reflexivity. Qed.

(* ================================================================== *)
(** * Part III.  Further properties of the code *)

(** The properties of the resolver are about real numbers. *)
Local Open Scope R_scope.

(** The resolver looks at its input through the six alignments only. *)
Lemma resolver_ext (q q' : Quaternion) :
  (forall f, In f faces -> alignment q f = alignment q' f) ->
  getDiceValueFromRotation q = getDiceValueFromRotation q'.
Proof.
  intros H; unfold getDiceValueFromRotation.
  rewrite !quaternion_eta.
  assert (E : forall fs b, incl fs faces ->
            fold_left (visit q) fs b = fold_left (visit q') fs b).
  { induction fs as [| f fs IH]; intros b Hi; [reflexivity |].
    cbn [fold_left]; unfold visit at 2 4.
    rewrite (H f (Hi f (or_introl eq_refl))).
    apply IH; intros g Hg; apply Hi; right; exact Hg. }
  rewrite (E faces _ (incl_refl _)); reflexivity.
Qed.

Lemma alignment_negated (q : Quaternion) (f : Face) :
  alignment (THREE.scale (-1) q) f = alignment q f.
Proof.
  unfold alignment, THREE.dot, THREE.applyQuaternion, THREE.scale, worldUp.
  cbn [x y z qx qy qz qw]; ring.
Qed.

Lemma alignment_yaw (c s : R) (q : Quaternion) (f : Face) :
  c * c + s * s = 1 ->
  alignment (multiplyQuaternions (yaw c s) q) f = alignment q f.
Proof.
  intros H.
  assert (Hs : s * s = 1 - c * c) by lra.
  unfold alignment, THREE.dot, THREE.applyQuaternion, multiplyQuaternions,
    yaw, worldUp.
  cbn [x y z qx qy qz qw].
  destruct q as [a b e d], f as [[vx vy vz] v]; cbn [x y z qx qy qz qw normal].
  ring_simplify.
  replace (s ^ 2) with (1 - c ^ 2) by (simpl; lra).
  ring.
Qed.

(** X1.  A quaternion and its negative are the same rotation, and
    [getDiceValueFromRotation] gives them the same value, whatever the
    length of the quaternion. *)
Theorem resolver_ignores_the_sign_of_the_quaternion (q : Quaternion) :
  getDiceValueFromRotation (THREE.scale (-1) q) = getDiceValueFromRotation q.
Proof.
  apply resolver_ext; intros f _; apply alignment_negated.
Qed.

(** X2.  The value does not depend on the heading of the die: turning
    the die about world-up by any angle, after the rotation [q] it has,
    leaves every alignment and so the value unchanged. *)
Theorem resolver_ignores_the_heading (c s : R) (q : Quaternion) :
  c * c + s * s = 1 ->
  (forall f : Face,
      alignment (multiplyQuaternions (yaw c s) q) f = alignment q f) /\
  getDiceValueFromRotation (multiplyQuaternions (yaw c s) q) =
    getDiceValueFromRotation q.
Proof.
  intros H; split; [intros f; apply alignment_yaw, H |].
  apply resolver_ext; intros f _; apply alignment_yaw, H.
Qed.

Lemma resolver_ignores_the_heading_witness :
  0 * 0 + 1 * 1 = 1 /\
  getDiceValueFromRotation (multiplyQuaternions (yaw 0 1) tilted) =
    getDiceValueFromRotation tilted.
Proof.
  split; [lra |].
  apply (resolver_ignores_the_heading 0 1 tilted); lra.
Defined.

(** The alignments of the three positive faces of a unit quaternion are a
    row of its rotation matrix: their squares add up to one. *)
Lemma alignments_unit_row (q : Quaternion) :
  THREE.lengthSq q = 1 ->
  alignment q (mkFace (mkVector3 1 0 0) 2) * alignment q (mkFace (mkVector3 1 0 0) 2) +
  alignment q (mkFace (mkVector3 0 1 0) 3) * alignment q (mkFace (mkVector3 0 1 0) 3) +
  alignment q (mkFace (mkVector3 0 0 1) 1) * alignment q (mkFace (mkVector3 0 0 1) 1)
  = 1.
Proof.
  unfold THREE.lengthSq, alignment, THREE.dot, THREE.applyQuaternion, worldUp.
  destruct q as [a b e d]; cbn [x y z qx qy qz qw normal]; intros H.
  match goal with
  | |- ?l = 1 =>
      replace l with (1 + 4 * (a * a + e * e) * ((a * a + b * b + e * e + d * d) - 1))
        by ring
  end.
  rewrite H; ring.
Qed.

Lemma alignment_opposite (q : Quaternion) :
  alignment q (mkFace (mkVector3 0 0 (-1)) 4) =
    - alignment q (mkFace (mkVector3 0 0 1) 1) /\
  alignment q (mkFace (mkVector3 (-1) 0 0) 5) =
    - alignment q (mkFace (mkVector3 1 0 0) 2) /\
  alignment q (mkFace (mkVector3 0 (-1) 0) 6) =
    - alignment q (mkFace (mkVector3 0 1 0) 3).
Proof.
  unfold alignment, THREE.dot, THREE.applyQuaternion, worldUp.
  cbn [x y z qx qy qz qw normal]; repeat split; ring.
Qed.

(** X3.  On a unit quaternion the face whose value is returned does point
    up: its alignment is positive, at least [1 / sqrt 3], that of a die
    standing on a corner. *)
Theorem resolved_face_points_up (q : Quaternion) :
  THREE.lengthSq q = 1 ->
  exists f,
    In f faces /\ getDiceValueFromRotation q = value f /\
    (forall g, In g faces -> alignment q g <= alignment q f) /\
    0 < alignment q f /\ 1 <= 3 * (alignment q f * alignment q f).
Proof.
  intros Hunit.
  destruct (getDiceValueFromRotation_first_max q) as (f & (i & Hi & Hall & _) & Hv).
  exists f; split; [eapply nth_error_In; exact Hi |].
  split; [exact Hv |]; split; [exact Hall |].
  pose proof (alignments_unit_row q Hunit) as Hrow.
  pose proof (Hall (mkFace (mkVector3 0 0 1) 1)) as H1.
  pose proof (Hall (mkFace (mkVector3 1 0 0) 2)) as H2.
  pose proof (Hall (mkFace (mkVector3 0 1 0) 3)) as H3.
  pose proof (Hall (mkFace (mkVector3 0 0 (-1)) 4)) as H4.
  pose proof (Hall (mkFace (mkVector3 (-1) 0 0) 5)) as H5.
  pose proof (Hall (mkFace (mkVector3 0 (-1) 0) 6)) as H6.
  unfold faces in H1, H2, H3, H4, H5, H6.
  specialize (H1 ltac:(cbn; tauto)); specialize (H2 ltac:(cbn; tauto)).
  specialize (H3 ltac:(cbn; tauto)); specialize (H4 ltac:(cbn; tauto)).
  specialize (H5 ltac:(cbn; tauto)); specialize (H6 ltac:(cbn; tauto)).
  destruct (alignment_opposite q) as (E4 & E5 & E6).
  rewrite E4 in H4; rewrite E5 in H5; rewrite E6 in H6.
  set (m := alignment q f) in *.
  set (az := alignment q (mkFace (mkVector3 0 0 1) 1)) in *.
  set (ax := alignment q (mkFace (mkVector3 1 0 0) 2)) in *.
  set (ay := alignment q (mkFace (mkVector3 0 1 0) 3)) in *.
  assert (Hm : 0 <= m) by lra.
  assert (Hx : ax * ax <= m * m) by nra.
  assert (Hy : ay * ay <= m * m) by nra.
  assert (Hz : az * az <= m * m) by nra.
  split; [| lra].
  destruct (Rle_lt_or_eq_dec 0 m Hm) as [Hpos | Hzero]; [exact Hpos |].
  rewrite <- Hzero in *; nra.
Qed.

Lemma resolved_face_points_up_witness :
  THREE.lengthSq tilted = 1 /\
  exists f,
    In f faces /\ getDiceValueFromRotation tilted = value f /\
    0 < alignment tilted f.
Proof.
  assert (H : THREE.lengthSq tilted = 1).
  { unfold THREE.lengthSq, tilted; cbn [qx qy qz qw]; lra. }
  split; [exact H |].
  destruct (resolved_face_points_up tilted H) as (f & A & B & _ & C & _).
  exists f; split; [exact A |]; split; [exact B | exact C].
Defined.

(** From here on the numbers are counters, identifiers and milliseconds. *)
Local Close Scope R_scope.

Section PerDie.

Variable P : PhysicsDice -> Prop.

Hypothesis P_respawnEffect :
  forall rc d t, P d -> P (fst (respawnEffect rc d t)).
Hypothesis P_respawnTimeout :
  forall r d t, P d -> P (fst (respawnTimeout r d t)).
Hypothesis P_stabilityTimeout :
  forall d t, P d -> P (fst (stabilityTimeout d t)).
Hypothesis P_gradualDampingTick :
  forall d t, P d -> P (fst (gradualDampingTick d t)).
Hypothesis P_checkStability :
  forall t d, P d -> P (fst (checkStability t d)).
Hypothesis P_forcedLockTimeout :
  forall d, P d -> P (fst (forcedLockTimeout d)).
Hypothesis P_simulate :
  forall k d, P d -> P (setDiceRef (option_map (simulate k) (diceRef d)) d).

Lemma PerDie_replaceNth (ds : list PhysicsDice) (i : nat) (d : PhysicsDice) :
  Forall P ds -> P d -> Forall P (replaceNth i d ds).
Proof.
  intros H Hd; apply Forall_forall; intros e He.
  destruct (In_replaceNth _ _ _ _ He) as [-> | Hin]; [exact Hd |].
  exact (proj1 (Forall_forall _ _) H e Hin).
Qed.

Lemma PerDie_effectAll (rc : nat) (ds : list PhysicsDice) :
  forall t, Forall P ds -> Forall P (fst (effectAll rc ds t)).
Proof.
  induction ds as [| d rest IH]; intros t H; [constructor |].
  inversion H as [| ? ? Hd Hrest]; subst.
  cbn [effectAll].
  pose proof (P_respawnEffect rc d t Hd) as Hd'.
  destruct (respawnEffect rc d t) as [d' t1]; cbn [fst] in Hd'.
  specialize (IH t1 Hrest); destruct (effectAll rc rest t1) as [rest' t2].
  constructor; [exact Hd' | exact IH].
Qed.

Lemma PerDie_commit (w : World) :
  Forall P (dice w) -> Forall P (dice (commit w)).
Proof.
  intros H; unfold commit.
  pose proof (PerDie_effectAll (resetCount (container w)) (dice w)
                (cleanupAll (dice w) (timers w)) H) as H'.
  destruct (effectAll _ _ _) as [ds t]; exact H'.
Qed.

Lemma PerDie_deliver (r : option Settled) (w : World) :
  Forall P (dice w) -> Forall P (dice (deliver r w)).
Proof.
  intros H; destruct r as [s |]; [| exact H]; unfold deliver.
  destruct (handleDiceStable _ _ _ _) as [c t]; apply PerDie_commit; exact H.
Qed.

Lemma PerDie_withDie (i : nat)
  (f : PhysicsDice -> PhysicsDice * option Settled) (w : World) :
  (forall d, P d -> P (fst (f d))) ->
  Forall P (dice w) -> Forall P (dice (withDie i f w)).
Proof.
  intros Hf H; unfold withDie.
  destruct (nth_error (dice w) i) as [d |] eqn:Hd; [| exact H].
  pose proof (Hf d (proj1 (Forall_forall _ _) H d (nth_error_In _ _ Hd))) as Hd'.
  destruct (f d) as [d' r]; apply PerDie_deliver; cbn [dice fst] in *.
  apply PerDie_replaceNth; assumption.
Qed.

Lemma PerDie_withDieTimers (i : nat)
  (f : PhysicsDice -> Timers -> PhysicsDice * Timers) (w : World) :
  (forall d t, P d -> P (fst (f d t))) ->
  Forall P (dice w) -> Forall P (dice (withDieTimers i f w)).
Proof.
  intros Hf H; unfold withDieTimers.
  destruct (nth_error (dice w) i) as [d |] eqn:Hd; [| exact H].
  pose proof (Hf d (timers w)
                (proj1 (Forall_forall _ _) H d (nth_error_In _ _ Hd))) as Hd'.
  destruct (f d (timers w)) as [d' t']; cbn [dice fst] in *.
  apply PerDie_replaceNth; assumption.
Qed.

Lemma PerDie_run (r : Draw) (cb : Callback) (w : World) :
  Forall P (dice w) -> Forall P (dice (run r cb w)).
Proof.
  intros H; destruct cb as [| | i | i | i | i | i]; cbn [run].
  - destruct (isRolling (container w)); [apply PerDie_commit |]; exact H.
  - destruct (totalEqb _ _); [| apply PerDie_commit]; exact H.
  - apply PerDie_withDieTimers; [apply P_respawnTimeout | exact H].
  - apply PerDie_withDieTimers; [apply P_stabilityTimeout | exact H].
  - apply PerDie_withDieTimers; [apply P_gradualDampingTick | exact H].
  - apply PerDie_withDie; [apply P_checkStability | exact H].
  - apply PerDie_withDie; [apply P_forcedLockTimeout | exact H].
Qed.

Lemma PerDie_step (w : World) (a : Action) :
  Forall P (dice w) -> Forall P (dice (step w a)).
Proof.
  intros H; destruct a as [| r | i k]; cbn [step].
  - unfold click; destruct (handleReset _ _) as [c t].
    destruct (isRolling (container w)); [| apply PerDie_commit]; exact H.
  - unfold tick; destruct (dueTimer (timers w)) as [tm |]; [| exact H].
    rewrite fire_dequeued; apply PerDie_run; exact H.
  - destruct (nth_error (dice w) i) as [d |] eqn:Hd; [| exact H].
    cbn [dice]; apply PerDie_replaceNth; [exact H |].
    apply P_simulate.
    exact (proj1 (Forall_forall _ _) H d (nth_error_In _ _ Hd)).
Qed.

Lemma PerDie_steps (acts : list Action) :
  forall w, Forall P (dice w) -> Forall P (dice (steps w acts)).
Proof.
  induction acts as [| a acts IH]; intros w H; [exact H |].
  cbn [steps fold_left]; apply IH, PerDie_step, H.
Qed.

Lemma PerDie_mount (handles : list (option RigidBody)) :
  (forall p i h, P (mountPhysicsDice p i 100 h)) ->
  forall off, Forall P (mountDice off handles).
Proof.
  intros Hm; induction handles as [| h rest IH]; intros off; cbn [mountDice];
    constructor; [apply Hm | apply IH].
Qed.

End PerDie.

(** What the callbacks of a die leave as it is. *)
Lemma respawnEffect_fields (rc : nat) (d : PhysicsDice) (t : Timers) :
  let d' := fst (respawnEffect rc d t) in
  diceRef d' = diceRef d /\ index d' = index d /\
  ((d' = d /\ respawnDue rc d = false) \/
   (respawnDue rc d = true /\ positionHistoryRef d' = [] /\
    currentDampingRef d' = (1 / 2)%R /\ isLockedRef d' = false /\
    finalValueRef d' = 1%Z /\ isResettingRef d' = true /\
    lastResetCountRef d' = rc)).
Proof.
  unfold respawnEffect; destruct (respawnDue rc d); cbn.
  - split; [reflexivity |]; split; [reflexivity |]; right; tauto.
  - split; [reflexivity |]; split; [reflexivity |]; left; tauto.
Qed.

Lemma respawnTimeout_fields (r : Draw) (d : PhysicsDice) (t : Timers) :
  let d' := fst (respawnTimeout r d t) in
  positionHistoryRef d' = positionHistoryRef d /\
  currentDampingRef d' = currentDampingRef d /\
  isLockedRef d' = isLockedRef d /\ finalValueRef d' = finalValueRef d /\
  index d' = index d /\ (diceRef d' = None <-> diceRef d = None).
Proof.
  unfold respawnTimeout; destruct (diceRef d) eqn:E; cbn;
    repeat split; try reflexivity; try congruence; try discriminate.
Qed.

Lemma stabilityTimeout_fields (d : PhysicsDice) (t : Timers) :
  let d' := fst (stabilityTimeout d t) in
  positionHistoryRef d' = positionHistoryRef d /\
  currentDampingRef d' = currentDampingRef d /\
  isLockedRef d' = isLockedRef d /\ finalValueRef d' = finalValueRef d /\
  index d' = index d /\ diceRef d' = diceRef d.
Proof.
  unfold stabilityTimeout; destruct (diceRef d) eqn:E; cbn;
    repeat split; try reflexivity; congruence.
Qed.

Lemma gradualDampingTick_fields (d : PhysicsDice) (t : Timers) :
  let d' := fst (gradualDampingTick d t) in
  positionHistoryRef d' = positionHistoryRef d /\
  isLockedRef d' = isLockedRef d /\ finalValueRef d' = finalValueRef d /\
  index d' = index d /\ (diceRef d' = None <-> diceRef d = None) /\
  (currentDampingRef d' = currentDampingRef d \/
   (currentDampingRef d < 20 /\ isLockedRef d = false /\ diceRef d <> None /\
    currentDampingRef d' = currentDampingRef d + 1 / 2))%R.
Proof.
  unfold gradualDampingTick; destruct (diceRef d) as [body |] eqn:E;
    [| cbn; rewrite E; tauto].
  destruct (Num.ltb (currentDampingRef d) 20) eqn:El;
    [| cbn; rewrite E; tauto].
  destruct (isLockedRef d) eqn:Ek; [cbn; rewrite E, Ek; tauto |].
  apply ltb_true in El.
  cbn [andb negb currentDampingRef setCurrentDampingRef setDiceRef
       gradualDampingRef].
  destruct (Num.geb _ _); [destruct (gradualDampingRef d) |]; cbn;
    (repeat split; try reflexivity; try discriminate; try tauto;
     right; repeat split; try assumption; discriminate).
Qed.

Lemma lockDicePhysics_fields (d : PhysicsDice) :
  let d' := fst (lockDicePhysics d) in
  positionHistoryRef d' = positionHistoryRef d /\
  currentDampingRef d' = currentDampingRef d /\ index d' = index d.
Proof.
  unfold lockDicePhysics; destruct (diceRef d); [| cbn; tauto].
  destruct (isLockedRef d); cbn; tauto.
Qed.

Lemma checkStability_fields (t : nat) (d : PhysicsDice) :
  let d' := fst (checkStability t d) in
  currentDampingRef d' = currentDampingRef d /\ index d' = index d /\
  (positionHistoryRef d' = positionHistoryRef d \/
   exists s, positionHistoryRef d' = pushSample s (positionHistoryRef d)).
Proof.
  unfold checkStability; destruct (diceRef d) as [body |]; [| cbn; tauto].
  destruct (isLockedRef d); [cbn; tauto |].
  set (d1 := setPositionHistoryRef _ d).
  assert (H1 : currentDampingRef d1 = currentDampingRef d /\
               index d1 = index d /\
               positionHistoryRef d1 =
                 pushSample (mkSample (translation body) t) (positionHistoryRef d))
    by (unfold d1; cbn; tauto).
  destruct H1 as (A & B & C).
  destruct (5 <=? _)%nat; [| cbn [fst]; rewrite A, B, C; eauto].
  destruct (positionsStable _ _ _);
    [destruct (velocitiesStable body) |];
    try (cbn [fst]; rewrite A, B, C; eauto).
  destruct (lockDicePhysics_fields d1) as (L1 & L2 & L3).
  rewrite L1, L2, L3, A, B, C; eauto.
Qed.

Lemma forcedLockTimeout_fields (d : PhysicsDice) :
  let d' := fst (forcedLockTimeout d) in
  positionHistoryRef d' = positionHistoryRef d /\
  currentDampingRef d' = currentDampingRef d /\ index d' = index d.
Proof.
  unfold forcedLockTimeout; destruct (negb (isLockedRef d)); [| cbn; tauto].
  destruct (diceRef d); [apply lockDicePhysics_fields | cbn; tauto].
Qed.

Lemma pushSample_bounded (s : Sample) (history : list Sample) :
  (List.length history <= 10)%nat ->
  (List.length (pushSample s history) <= 10)%nat.
Proof.
  intros H; unfold pushSample.
  destruct (10 <? List.length (history ++ [s]))%nat eqn:E.
  - rewrite length_app in E; cbn in E.
    destruct (history ++ [s]) as [| a l] eqn:El; [cbn; lia |].
    assert (Hl : List.length (a :: l) = S (List.length history)).
    { rewrite <- El, length_app; cbn; lia. }
    cbn [tl]; cbn in Hl; lia.
  - apply Nat.ltb_ge in E; exact E.
Qed.

Lemma pushSample_recent (s : Sample) (history : list Sample) :
  (List.length history <= 10)%nat ->
  pushSample s history = lastN 10 (history ++ [s]).
Proof.
  intros H; unfold pushSample, lastN.
  assert (Hl : List.length (history ++ [s]) = S (List.length history))
    by (rewrite length_app; cbn; lia).
  destruct (10 <? List.length (history ++ [s]))%nat eqn:E.
  - apply Nat.ltb_lt in E.
    replace (List.length (history ++ [s]) - 10)%nat with 1%nat by lia.
    destruct (history ++ [s]); reflexivity.
  - apply Nat.ltb_ge in E.
    replace (List.length (history ++ [s]) - 10)%nat with 0%nat by lia.
    reflexivity.
Qed.

Lemma HistoryBounded_steps (handles : list (option RigidBody))
  (acts : list Action) :
  Forall HistoryBounded (dice (steps (mountWorld handles) acts)).
Proof.
  apply PerDie_steps; unfold HistoryBounded.
  - intros rc d t H.
    destruct (respawnEffect_fields rc d t) as (_ & _ & [(-> & _) | (_ & -> & _)]);
      [exact H | cbn; lia].
  - intros r d t H; destruct (respawnTimeout_fields r d t) as (-> & _); exact H.
  - intros d t H; destruct (stabilityTimeout_fields d t) as (-> & _); exact H.
  - intros d t H; destruct (gradualDampingTick_fields d t) as (-> & _); exact H.
  - intros t d H.
    destruct (checkStability_fields t d) as (_ & _ & [-> | (s & ->)]);
      [exact H | apply pushSample_bounded, H].
  - intros d H; destruct (forcedLockTimeout_fields d) as (-> & _); exact H.
  - intros k d H; exact H.
  - apply PerDie_mount; intros p i h; cbn; lia.
Qed.

(** X4.  The position history keeps the ten most recent samples and no
    more: a push onto a history of at most ten leaves the last ten of the
    extended history, and on the page, whatever has happened since the
    mount, no die holds more than ten samples. *)
Theorem history_keeps_the_ten_most_recent_samples :
  (forall (s : Sample) (history : list Sample),
      (List.length history <= 10)%nat ->
      pushSample s history = lastN 10 (history ++ [s]) /\
      (List.length (pushSample s history) <= 10)%nat) /\
  (forall (handles : list (option RigidBody)) (acts : list Action),
      Forall (fun d => (List.length (positionHistoryRef d) <= 10)%nat)
        (dice (steps (mountWorld handles) acts))).
Proof.
  split.
  - intros s history H; split;
      [apply pushSample_recent, H | apply pushSample_bounded, H].
  - intros handles acts; exact (HistoryBounded_steps handles acts).
Qed.

Lemma DampingOnRamp_bounds (d : PhysicsDice) :
  DampingOnRamp d -> (1 / 2 <= currentDampingRef d <= 20)%R.
Proof.
  intros (k & Hk & ->).
  pose proof (pos_INR k) as H0.
  apply le_INR in Hk.
  replace (INR 39) with 39%R in Hk by (cbn; lra).
  lra.
Qed.

Lemma DampingOnRamp_next (d d' : PhysicsDice) :
  DampingOnRamp d -> (currentDampingRef d < 20)%R ->
  currentDampingRef d' = (currentDampingRef d + 1 / 2)%R ->
  DampingOnRamp d'.
Proof.
  intros (k & Hk & E) Hlt E'.
  exists (S k); split.
  - assert (Hk' : (INR k < 39)%R) by (rewrite E in Hlt; lra).
    replace 39%R with (INR 39) in Hk' by (cbn; lra).
    apply INR_lt in Hk'; lia.
  - rewrite E', E, S_INR; lra.
Qed.

Lemma DampingOnRamp_steps (handles : list (option RigidBody))
  (acts : list Action) :
  Forall DampingOnRamp (dice (steps (mountWorld handles) acts)).
Proof.
  apply PerDie_steps.
  - intros rc d t H.
    destruct (respawnEffect_fields rc d t)
      as (_ & _ & [(-> & _) | (_ & _ & E & _)]); [exact H |].
    exists 0%nat; split; [lia | rewrite E; cbn; lra].
  - intros r d t (k & Hk & E); exists k; split; [exact Hk |].
    destruct (respawnTimeout_fields r d t) as (_ & -> & _); exact E.
  - intros d t (k & Hk & E); exists k; split; [exact Hk |].
    destruct (stabilityTimeout_fields d t) as (_ & -> & _); exact E.
  - intros d t H.
    destruct (gradualDampingTick_fields d t)
      as (_ & _ & _ & _ & _ & [E | (Hlt & _ & _ & E)]).
    + destruct H as (k & Hk & E0); exists k; split; [exact Hk | congruence].
    + exact (DampingOnRamp_next d _ H Hlt E).
  - intros t d (k & Hk & E); exists k; split; [exact Hk |].
    destruct (checkStability_fields t d) as (-> & _); exact E.
  - intros d (k & Hk & E); exists k; split; [exact Hk |].
    destruct (forcedLockTimeout_fields d) as (_ & -> & _); exact E.
  - intros k d H; exact H.
  - apply PerDie_mount; intros p i h; exists 0%nat; split; [lia | cbn; lra].
Qed.

(** One round of the damping interval on an unlocked die below 20. *)
Lemma gradualDampingTick_round (d : PhysicsDice) (body : RigidBody)
  (t : Timers) :
  diceRef d = Some body -> isLockedRef d = false ->
  (currentDampingRef d < 20)%R ->
  let d' := fst (gradualDampingTick d t) in
  let t' := snd (gradualDampingTick d t) in
  let c := (currentDampingRef d + 1 / 2)%R in
  currentDampingRef d' = c /\ isLockedRef d' = false /\
  diceRef d' =
    Some (setAngularDamping c (setLinearDamping c body)) /\
  ((c < 20)%R ->
     gradualDampingRef d' = gradualDampingRef d /\
     isResettingRef d' = isResettingRef d /\ t' = t) /\
  ((c >= 20)%R ->
     gradualDampingRef d' = None /\ isResettingRef d' = false /\
     t' = clearIfSet (gradualDampingRef d) t).
Proof.
  intros Hb Hl Hlt; unfold gradualDampingTick; rewrite Hb, Hl.
  destruct (Num.ltb (currentDampingRef d) 20) eqn:El;
    [| apply ltb_false in El; lra].
  cbn [andb negb currentDampingRef setCurrentDampingRef setDiceRef
       gradualDampingRef].
  destruct (Num.geb (currentDampingRef d + 1 / 2) 20) eqn:Eg.
  - apply geb_true in Eg.
    destruct (gradualDampingRef d) eqn:Er; cbn; rewrite ?Hl, ?Er;
      (repeat split; try reflexivity; try lra; intros; exfalso; lra).
  - assert (Hn : ~ (currentDampingRef d + 1 / 2 >= 20)%R).
    { intros G; apply geb_true in G; congruence. }
    cbn; rewrite ?Hl;
      (repeat split; try reflexivity; try lra; intros; exfalso; lra).
Qed.

(** The ramp: from the respawn value 0.5 the damping goes up by 0.5 a
    round; the 39th round brings it to 20, cancels the interval and ends
    the reset. *)
Lemma dampingRounds_ramp (d : PhysicsDice) (body : RigidBody) (t : Timers) :
  diceRef d = Some body -> isLockedRef d = false ->
  currentDampingRef d = (1 / 2)%R ->
  forall n : nat, (n <= 39)%nat ->
    let d' := fst (dampingRounds n d t) in
    let t' := snd (dampingRounds n d t) in
    currentDampingRef d' = ((1 + INR n) / 2)%R /\ isLockedRef d' = false /\
    (exists b, diceRef d' = Some b /\
       ((0 < n)%nat ->
        linearDamping b = ((1 + INR n) / 2)%R /\
        angularDamping b = ((1 + INR n) / 2)%R)) /\
    ((n < 39)%nat ->
       gradualDampingRef d' = gradualDampingRef d /\
       isResettingRef d' = isResettingRef d /\ t' = t) /\
    (n = 39%nat ->
       gradualDampingRef d' = None /\ isResettingRef d' = false /\
       t' = clearIfSet (gradualDampingRef d) t).
Proof.
  intros Hb Hl Hc; induction n as [| n IH]; intros Hn.
  - cbn [dampingRounds fst snd]; rewrite Hc; cbn.
    split; [lra |]; split; [exact Hl |]; split.
    + exists body; split; [exact Hb | lia].
    + split; [tauto | discriminate].
  - specialize (IH ltac:(lia)).
    cbn [dampingRounds].
    destruct (dampingRounds n d t) as [d1 t1]; cbn [fst snd] in IH.
    destruct IH as (I1 & I2 & (b & I3 & _) & I4 & _).
    destruct (I4 ltac:(lia)) as (I5 & I6 & ->).
    assert (Hk : (INR n < 39)%R).
    { replace 39%R with (INR 39) by (cbn; lra); apply lt_INR; lia. }
    assert (Hlt : (currentDampingRef d1 < 20)%R) by (rewrite I1; lra).
    destruct (gradualDampingTick_round d1 b t I3 I2 Hlt)
      as (G1 & G2 & G3 & G4 & G5).
    rewrite I1 in G1, G3, G4, G5.
    assert (E : ((1 + INR n) / 2 + 1 / 2 = (1 + INR (S n)) / 2)%R)
      by (rewrite S_INR; lra).
    rewrite E in G1, G3, G4, G5.
    split; [exact G1 |]; split; [exact G2 |]; split; [| split].
    + eexists; split; [exact G3 | intros _; cbn; tauto].
    + intros Hs.
      assert (Hs' : (INR (S n) < 39)%R).
      { replace 39%R with (INR 39) by (cbn; lra); apply lt_INR; lia. }
      destruct (G4 ltac:(lra)) as (A & B & C).
      rewrite A, B, I5, I6; tauto.
    + intros Hs.
      assert (Hs' : INR (S n) = 39%R).
      { rewrite Hs; cbn; lra. }
      destruct (G5 ltac:(lra)) as (A & B & C).
      rewrite A, B, C, I5; tauto.
Qed.

(** Past 20 a round changes nothing. *)
Lemma gradualDampingTick_done (d : PhysicsDice) (t : Timers) :
  (20 <= currentDampingRef d)%R -> gradualDampingTick d t = (d, t).
Proof.
  intros H; unfold gradualDampingTick.
  destruct (diceRef d); [| reflexivity].
  destruct (Num.ltb (currentDampingRef d) 20) eqn:E; [| reflexivity].
  apply ltb_true in E; lra.
Qed.

(** X5.  The damping ramp.  On an unlocked die with a body, from the
    respawn value 0.5, round [n] of the damping interval leaves the
    damping of the die and of its body at [0.5 + 0.5 n]; the interval and
    the timers are untouched before the 39th round, which reaches 20,
    cancels the interval and clears the resetting flag; later rounds
    change nothing.  On the page the damping of a die is at all times
    between 0.5 and 20. *)
Theorem damping_ramps_to_twenty_and_stops :
  (forall (d : PhysicsDice) (body : RigidBody) (t : Timers) (n : nat),
      diceRef d = Some body -> isLockedRef d = false ->
      currentDampingRef d = (1 / 2)%R -> (n <= 39)%nat ->
      let d' := fst (dampingRounds n d t) in
      let t' := snd (dampingRounds n d t) in
      currentDampingRef d' = (1 / 2 + 1 / 2 * INR n)%R /\
      (exists b, diceRef d' = Some b /\
         ((0 < n)%nat ->
          linearDamping b = (1 / 2 + 1 / 2 * INR n)%R /\
          angularDamping b = (1 / 2 + 1 / 2 * INR n)%R)) /\
      ((n < 39)%nat ->
         gradualDampingRef d' = gradualDampingRef d /\
         isResettingRef d' = isResettingRef d /\ t' = t) /\
      (n = 39%nat ->
         currentDampingRef d' = 20%R /\
         gradualDampingRef d' = None /\ isResettingRef d' = false /\
         t' = clearIfSet (gradualDampingRef d) t /\
         gradualDampingTick d' t' = (d', t'))) /\
  (forall (handles : list (option RigidBody)) (acts : list Action),
      Forall (fun d => (1 / 2 <= currentDampingRef d <= 20)%R)
        (dice (steps (mountWorld handles) acts))).
Proof.
  split.
  - intros d body t n Hb Hl Hc Hn.
    destruct (dampingRounds_ramp d body t Hb Hl Hc n Hn)
      as (A & _ & (b & B1 & B2) & C & D).
    replace (1 / 2 + 1 / 2 * INR n)%R with ((1 + INR n) / 2)%R by lra.
    cbv zeta; split; [exact A |]; split; [exists b; tauto |].
    split; [exact C |].
    intros E; destruct (D E) as (D1 & D2 & D3).
    assert (H20 : currentDampingRef (fst (dampingRounds n d t)) = 20%R).
    { rewrite A, E; cbn; lra. }
    split; [exact H20 |]; split; [exact D1 |]; split; [exact D2 |].
    split; [exact D3 |].
    apply gradualDampingTick_done; rewrite H20; lra.
  - intros handles acts.
    eapply Forall_impl; [| apply (DampingOnRamp_steps handles acts)].
    intros d; apply DampingOnRamp_bounds.
Qed.

Lemma In_four_clears (d : PhysicsDice) (t : Timers) (tm : Timer) :
  In tm
    (pending
       (clearIfSet (stabilityCheckRef d)
          (clearIfSet (gradualDampingRef d)
             (clearIfSet (stabilityTimerRef d)
                (clearIfSet (timerRef d) t))))) <->
  In tm (pending t) /\ ~ In (Some (timerId tm)) (refsOf d).
Proof.
  rewrite !In_clearIfSet; unfold refsOf; cbn [In].
  split.
  - intros ((((H & Z) & A) & B) & C); split; [exact H |].
    intros [E | [E | [E | [E | []]]]]; congruence.
  - intros (H & N); repeat split; try exact H; intros E; apply N;
      rewrite E; tauto.
Qed.

(** X6.  A new roll reaches a die: when [resetCount] is positive and not
    the one last processed, the effect cancels the timers the die holds
    in its four refs and no other, clears the history, the lock flag and
    the value, puts the damping back to 0.5, and sets one timer, the
    respawn, due [startDelay] later, which [timerRef] then holds. *)
Theorem new_resetCount_restarts_the_die
  (rc : nat) (d : PhysicsDice) (t : Timers) :
  respawnDue rc d = true ->
  let d' := fst (respawnEffect rc d t) in
  let t' := snd (respawnEffect rc d t) in
  let respawn :=
    mkTimer (nextTimerId t) (now t + startDelay d) None
      (RespawnTimer (index d)) in
  d' = respawned rc (nextTimerId t) d /\
  refsOf d' = [Some (nextTimerId t); None; None; None] /\
  now t' = now t /\ nextTimerId t' = S (nextTimerId t) /\
  (forall tm, In tm (pending t') <->
     (In tm (pending t) /\ ~ In (Some (timerId tm)) (refsOf d)) \/
     tm = respawn).
Proof.
  intros Hdue; unfold respawnEffect; rewrite Hdue.
  cbn [timerRef stabilityTimerRef gradualDampingRef stabilityCheckRef
       setLastResetCountRef setTimerRef setStabilityTimerRef
       setGradualDampingRef setStabilityCheckRef setPositionHistoryRef
       setIsResettingRef setCurrentDampingRef setIsLockedRef setFinalValueRef
       index startDelay].
  set (t1 := clearIfSet (timerRef d) t).
  set (t2 := clearIfSet (stabilityTimerRef d) t1).
  set (t3 := clearIfSet (gradualDampingRef d) t2).
  set (t4 := clearIfSet (stabilityCheckRef d) t3).
  assert (Hn : now t4 = now t /\ nextTimerId t4 = nextTimerId t).
  { destruct (clearIfSet_frame (timerRef d) t) as (a1 & b1 & _).
    destruct (clearIfSet_frame (stabilityTimerRef d) t1) as (a2 & b2 & _).
    destruct (clearIfSet_frame (gradualDampingRef d) t2) as (a3 & b3 & _).
    destruct (clearIfSet_frame (stabilityCheckRef d) t3) as (a4 & b4 & _).
    unfold t4, t3, t2, t1 in *; split; congruence. }
  destruct Hn as (Hn1 & Hn2).
  unfold setTimeout; cbn [fst snd now nextTimerId pending].
  rewrite Hn1, Hn2.
  split; [reflexivity |]; split; [reflexivity |]; split; [reflexivity |].
  split; [reflexivity |].
  intros tm; rewrite in_app_iff; unfold t4, t3, t2, t1; rewrite In_four_clears.
  cbn [In]; intuition congruence.
Qed.

Lemma new_resetCount_restarts_the_die_witness :
  respawnDue 1 restingDie = true /\
  pending (snd (respawnEffect 1 restingDie (mkTimers 0 1 []))) =
    [mkTimer 1 100 None (RespawnTimer 0)] /\
  isLockedRef (fst (respawnEffect 1 restingDie (mkTimers 0 1 []))) = false.
Proof.
  split; [reflexivity |].
  destruct (new_resetCount_restarts_the_die 1 restingDie (mkTimers 0 1 [])
              eq_refl) as (E & _).
  split; [reflexivity | rewrite E; reflexivity].
Defined.

Lemma INR_apart (i j : nat) : i <> j -> (1 <= Rabs (INR i - INR j))%R.
Proof.
  intros H; destruct (Nat.lt_total i j) as [L | [E | L]]; [| tauto |].
  - assert (L' : (S i <= j)%nat) by lia.
    apply le_INR in L'; rewrite S_INR in L'.
    rewrite Rabs_left1; lra.
  - assert (L' : (S j <= i)%nat) by lia.
    apply le_INR in L'; rewrite S_INR in L'.
    rewrite Rabs_right; lra.
Qed.

(** X7.  The respawn.  A die with a body is put back on its slot of the
    row: at the height 4 of the slot, within 0.025 of it in x and z, with
    the rotation drawn, dynamic and at rest, its damping that of the die;
    the stability timer is set 1500 ms and the forced lock 3000 ms ahead.
    Whatever is drawn, two dice of different slots respawn at least 0.95
    apart. *)
Theorem respawn_puts_the_die_on_its_slot :
  (forall (r : Draw) (d : PhysicsDice) (body : RigidBody) (t : Timers)
          (i : nat),
      diceRef d = Some body -> position d = calculateDicePosition i ->
      (0 <= jitterX r < 1)%R -> (0 <= jitterZ r < 1)%R ->
      exists b,
        diceRef (fst (respawnTimeout r d t)) = Some b /\
        (Rabs (x (translation b) - (INR i - 2)) <= 25 / 1000)%R /\
        y (translation b) = 4%R /\
        (Rabs (z (translation b)) <= 25 / 1000)%R /\
        rotation b = quaternion r /\ bodyType b = Dynamic /\
        linvel b = zeroVector /\ angvel b = zeroVector /\
        linearDamping b = currentDampingRef d /\
        angularDamping b = currentDampingRef d /\
        pending (snd (respawnTimeout r d t)) =
          pending t ++
          [ mkTimer (nextTimerId t) (now t + 1500) None
              (StabilityTimer (index d))
          ; mkTimer (S (nextTimerId t)) (now t + 3000) None
              (ForcedLock (index d)) ]) /\
  (forall (r r' : Draw) (d d' : PhysicsDice) (body body' : RigidBody)
          (t t' : Timers) (i j : nat),
      diceRef d = Some body -> diceRef d' = Some body' ->
      position d = calculateDicePosition i ->
      position d' = calculateDicePosition j -> i <> j ->
      (0 <= jitterX r < 1)%R -> (0 <= jitterX r' < 1)%R ->
      exists b b',
        diceRef (fst (respawnTimeout r d t)) = Some b /\
        diceRef (fst (respawnTimeout r' d' t')) = Some b' /\
        (95 / 100 <= Rabs (x (translation b) - x (translation b')))%R).
Proof.
  assert (Hc : INR diceCount = 5%R) by (cbn; lra).
  split.
  - intros r d body t i Hb Hp (Hx1 & Hx2) (Hz1 & Hz2).
    unfold respawnTimeout; rewrite Hb, Hp.
    unfold setTimeout, calculateDicePosition.
    cbn [fst snd diceRef setDiceRef setStabilityTimerRef setTimerRef x y z
         now nextTimerId pending index].
    eexists; split; [reflexivity |].
    cbn [translation rotation bodyType linvel angvel linearDamping
         angularDamping setBodyType setTranslation setRotation setLinvel
         setAngvel setLinearDamping setAngularDamping applyTorqueImpulse
         x y z currentDampingRef].
    rewrite Hc.
    split; [apply Rabs_le; lra |].
    split; [reflexivity |].
    split; [apply Rabs_le; lra |].
    repeat split; try reflexivity.
    rewrite <- app_assoc; reflexivity.
  - intros r r' d d' body body' t t' i j Hb Hb' Hp Hp' Hij (A1 & A2) (B1 & B2).
    unfold respawnTimeout; rewrite Hb, Hb', Hp, Hp'.
    unfold setTimeout, calculateDicePosition.
    cbn [fst snd diceRef setDiceRef setStabilityTimerRef setTimerRef x y z].
    do 2 eexists; split; [reflexivity |]; split; [reflexivity |].
    cbn [translation setBodyType setTranslation setRotation setLinvel
         setAngvel setLinearDamping setAngularDamping applyTorqueImpulse x].
    rewrite Hc.
    pose proof (INR_apart i j Hij) as H1.
    unfold Rabs in *.
    repeat match goal with
    | |- context [Rcase_abs ?e] => destruct (Rcase_abs e)
    | H : context [Rcase_abs ?e] |- _ => destruct (Rcase_abs e)
    end; lra.
Qed.

Lemma length_replaceNth {A : Type} (l : list A) :
  forall (i : nat) (a : A), List.length (replaceNth i a l) = List.length l.
Proof.
  induction l as [| b l IH]; intros [| i] a; cbn; try reflexivity.
  rewrite IH; reflexivity.
Qed.

Lemma length_refCallback (i : nat) (el : option RigidBody)
  (refs : list (option RigidBody)) :
  List.length (refCallback i el refs) = Nat.max (List.length refs) (S i).
Proof.
  unfold refCallback; rewrite length_replaceNth, length_app, repeat_length.
  lia.
Qed.

Lemma nth_error_padded (refs : list (option RigidBody)) (n j : nat) :
  nth_error (refs ++ repeat None n) j =
    if (j <? List.length refs)%nat then nth_error refs j
    else if (j <? List.length refs + n)%nat then Some None else None.
Proof.
  destruct (j <? List.length refs)%nat eqn:E.
  - apply Nat.ltb_lt in E; apply nth_error_app1, E.
  - apply Nat.ltb_ge in E; rewrite nth_error_app2 by exact E.
    destruct (j <? List.length refs + n)%nat eqn:E2.
    + apply Nat.ltb_lt in E2.
      rewrite nth_error_repeat by lia; reflexivity.
    + apply Nat.ltb_ge in E2; apply nth_error_None.
      rewrite repeat_length; lia.
Qed.

Lemma nth_error_refCallback_same (i : nat) (el : option RigidBody)
  (refs : list (option RigidBody)) :
  nth_error (refCallback i el refs) i = Some el.
Proof.
  unfold refCallback.
  destruct (nth_error (refs ++ repeat None (S i - List.length refs)) i)
    as [b |] eqn:E.
  - exact (nth_error_replaceNth_same _ _ _ _ E).
  - apply nth_error_None in E; rewrite length_app, repeat_length in E; lia.
Qed.

Lemma nth_error_refCallback_other (i j : nat) (el : option RigidBody)
  (refs : list (option RigidBody)) :
  j <> i ->
  nth_error (refCallback i el refs) j =
    if (j <? List.length refs)%nat then nth_error refs j
    else if (j <? i)%nat then Some None else None.
Proof.
  intros Hne; unfold refCallback.
  rewrite nth_error_replaceNth_other by exact Hne.
  rewrite nth_error_padded.
  destruct (j <? List.length refs)%nat eqn:E; [reflexivity |].
  apply Nat.ltb_ge in E.
  destruct (j <? i)%nat eqn:E2.
  - apply Nat.ltb_lt in E2.
    replace (j <? List.length refs + (S i - List.length refs))%nat with true;
      [reflexivity | symmetry; apply Nat.ltb_lt; lia].
  - apply Nat.ltb_ge in E2.
    replace (j <? List.length refs + (S i - List.length refs))%nat with false;
      [reflexivity | symmetry; apply Nat.ltb_ge; lia].
Qed.

Lemma registerAll_seen (handles : list (option RigidBody)) (order : list nat) :
  forall (refs : list (option RigidBody)) (seen : list nat),
    (forall i, In i order -> (i < List.length handles)%nat) ->
    (List.length refs <= List.length handles)%nat ->
    (forall j, In j seen -> nth_error refs j = Some (nth j handles None)) ->
    (List.length (registerAll handles order refs) <= List.length handles)%nat /\
    (forall j, In j (seen ++ order) ->
       nth_error (registerAll handles order refs) j =
         Some (nth j handles None)).
Proof.
  induction order as [| i order IH]; intros refs seen Hlt Hle Hseen.
  - cbn [registerAll fold_left]; rewrite app_nil_r; tauto.
  - cbn [registerAll fold_left].
    change (fold_left _ order ?r) with (registerAll handles order r).
    destruct (IH (refCallback i (nth i handles None) refs) (seen ++ [i]))
      as (A & B).
    + intros k Hk; apply Hlt; right; exact Hk.
    + rewrite length_refCallback.
      specialize (Hlt i (or_introl eq_refl)); lia.
    + intros j Hj; apply in_app_or in Hj; destruct Hj as [Hj | [<- | []]].
      * destruct (Nat.eq_dec j i) as [-> | Hne];
          [apply nth_error_refCallback_same |].
        rewrite nth_error_refCallback_other by exact Hne.
        pose proof (Hseen j Hj) as Hs.
        assert (Hl : (j < List.length refs)%nat)
          by (apply nth_error_Some; congruence).
        apply Nat.ltb_lt in Hl; rewrite Hl; exact Hs.
      * apply nth_error_refCallback_same.
    + split; [exact A |].
      intros j Hj; apply B; rewrite <- app_assoc; exact Hj.
Qed.

Lemma registerAll_complete (handles : list (option RigidBody))
  (order : list nat) :
  Permutation order (seq 0 (List.length handles)) ->
  registerAll handles order [] = handles.
Proof.
  intros Hperm.
  destruct (registerAll_seen handles order [] []) as (Hle & Hall).
  - intros i Hi; apply (Permutation_in _ Hperm), in_seq in Hi; lia.
  - cbn; lia.
  - intros j [].
  - cbn [app] in Hall.
    apply nth_error_ext; intros n.
    destruct (lt_dec n (List.length handles)) as [Hn | Hn].
    + rewrite Hall.
      * symmetry; apply nth_error_nth'; exact Hn.
      * apply (Permutation_in _ (Permutation_sym Hperm)), in_seq; lia.
    + transitivity (@None (option RigidBody));
        [| symmetry]; apply nth_error_None; lia.
Qed.

(** X8.  The array of handles.  The callback ref of die [i] stores its
    handle at index [i], growing the array with [null] up to there and
    touching no other entry; once each die has handed in its handle, in
    whatever order, the array is the handles in the order of the dice, so
    that the values [Points] reads from it are in that order too. *)
Theorem ref_callbacks_fill_the_handles_in_dice_order :
  (forall (i : nat) (el : option RigidBody) (refs : list (option RigidBody)),
      nth_error (refCallback i el refs) i = Some el /\
      List.length (refCallback i el refs) =
        Nat.max (List.length refs) (S i) /\
      (forall j, j <> i -> (j < List.length refs)%nat ->
         nth_error (refCallback i el refs) j = nth_error refs j) /\
      (forall j, (List.length refs <= j < i)%nat ->
         nth_error (refCallback i el refs) j = Some None)) /\
  (forall (handles : list (option RigidBody)) (order : list nat)
          (updateTrigger : nat),
      Permutation order (seq 0 (List.length handles)) ->
      registerAll handles order [] = handles /\
      ((0 < updateTrigger)%nat ->
       calculatePoints updateTrigger false (registerAll handles order []) =
         Some (liveValues handles, sumZ (liveValues handles)))).
Proof.
  split.
  - intros i el refs.
    split; [apply nth_error_refCallback_same |].
    split; [apply length_refCallback |]; split.
    + intros j Hne Hj; rewrite nth_error_refCallback_other by exact Hne.
      apply Nat.ltb_lt in Hj; rewrite Hj; reflexivity.
    + intros j (H1 & H2).
      rewrite nth_error_refCallback_other by lia.
      apply Nat.ltb_ge in H1; rewrite H1.
      apply Nat.ltb_lt in H2; rewrite H2; reflexivity.
  - intros handles order updateTrigger Hperm.
    rewrite (registerAll_complete handles order Hperm).
    split; [reflexivity | apply calculatePoints_spec].
Qed.

Lemma calculatePoints_cases (u : nat) (rolling : bool)
  (diceRefs : list (option RigidBody)) :
  calculatePoints u rolling diceRefs =
    if (0 <? u)%nat && negb rolling
    then Some (liveValues diceRefs, sumZ (liveValues diceRefs)) else None.
Proof.
  destruct (0 <? u)%nat eqn:E;
    [| unfold calculatePoints; rewrite E; reflexivity].
  destruct rolling; [unfold calculatePoints; rewrite E; reflexivity |].
  apply Nat.ltb_lt in E; exact (calculatePoints_spec u diceRefs E).
Qed.

Lemma liveValues_faces (diceRefs : list (option RigidBody)) :
  Forall (fun v => (1 <= v <= 6)%Z) (liveValues diceRefs) /\
  (List.length (liveValues diceRefs) <= List.length diceRefs)%nat.
Proof.
  unfold liveValues.
  induction diceRefs as [| [b |] rest (IH1 & IH2)]; cbn.
  - split; [constructor | lia].
  - split; [constructor; [apply getDiceValueFromRotation_range | exact IH1] |].
    lia.
  - split; [exact IH1 | lia].
Qed.

Lemma sumZ_faces (vs : list Z) :
  Forall (fun v => (1 <= v <= 6)%Z) vs ->
  (Z.of_nat (List.length vs) <= sumZ vs <= 6 * Z.of_nat (List.length vs))%Z.
Proof.
  induction 1 as [| v vs Hv _ IH]; cbn [sumZ fold_right List.length];
    [lia |].
  fold (sumZ vs); lia.
Qed.

Lemma pointsRender_cases (old : option PointsProps) (p : PointsProps)
  (diceRefs : list (option RigidBody)) (s : PointsState) :
  pointsRender old p diceRefs s = s \/
  pointsRender old p diceRefs s = mkPointsState 0 [] \/
  (propIsRolling p = false /\ (0 < propUpdateTrigger p)%nat /\
   pointsRender old p diceRefs s =
     mkPointsState (sumZ (liveValues diceRefs)) (liveValues diceRefs)).
Proof.
  unfold pointsRender, pointsUpdateEffect, pointsResetEffect.
  rewrite calculatePoints_cases.
  destruct (0 <? propUpdateTrigger p)%nat eqn:Eu;
    destruct (propIsRolling p) eqn:Er; cbn [andb negb];
    repeat match goal with
    | |- context [if ?b then _ else _] => destruct b
    end; try tauto;
    right; right; apply Nat.ltb_lt in Eu; tauto.
Qed.

Lemma pointsRender_consistent (old : option PointsProps) (p : PointsProps)
  (diceRefs : list (option RigidBody)) (s : PointsState) :
  PointsConsistent s -> PointsConsistent (pointsRender old p diceRefs s).
Proof.
  intros H.
  destruct (pointsRender_cases old p diceRefs s) as [-> | [-> | (_ & _ & ->)]].
  - exact H.
  - split; [reflexivity | constructor].
  - split; [reflexivity | apply liveValues_faces].
Qed.

Lemma pointsRenders_consistent
  (rs : list (PointsProps * list (option RigidBody))) :
  forall (old : option PointsProps) (s : PointsState),
    PointsConsistent s -> PointsConsistent (pointsRenders old rs s).
Proof.
  induction rs as [| [p refs] rs IH]; intros old s H; [exact H |].
  cbn [pointsRenders]; apply IH, pointsRender_consistent, H.
Qed.

(** X9.  The score panel of [utils/Points.tsx].  Whatever renders it has
    been through since it was mounted, the total it holds is the sum of
    the values it holds and every value is a face, so the total of [n]
    values lies between [n] and [6 n] and a breakdown shown adds up to the
    total shown.  A render with [isRolling] set never reads the bodies:
    it leaves the state or resets it.  The render on which [isRolling]
    goes down, with a trigger that has fired at some time, stores the
    values of the handles present, in their order. *)
Theorem points_panel_total_is_the_sum_of_its_values :
  (forall (rs : list (PointsProps * list (option RigidBody))),
      let s := pointsRenders None rs mountPointsState in
      pointsTotal s = sumZ (pointsValues s) /\
      Forall (fun v => (1 <= v <= 6)%Z) (pointsValues s) /\
      (Z.of_nat (List.length (pointsValues s)) <= pointsTotal s
       <= 6 * Z.of_nat (List.length (pointsValues s)))%Z /\
      (forall p vs total,
         pointsShownBreakdown p s = Some (vs, total) ->
         total = sumZ vs /\ pointsShownTotal p s = Some total)) /\
  (forall (old : option PointsProps) (p : PointsProps)
          (diceRefs : list (option RigidBody)) (s : PointsState),
      propIsRolling p = true ->
      pointsRender old p diceRefs s = s \/
      pointsRender old p diceRefs s = mkPointsState 0 []) /\
  (forall (o p : PointsProps) (diceRefs : list (option RigidBody))
          (s : PointsState),
      propIsRolling o = true -> propIsRolling p = false ->
      (0 < propUpdateTrigger p)%nat ->
      pointsRender (Some o) p diceRefs s =
        mkPointsState (sumZ (liveValues diceRefs)) (liveValues diceRefs)).
Proof.
  split; [| split].
  - intros rs s.
    assert (H : PointsConsistent s).
    { apply pointsRenders_consistent; split; [reflexivity | constructor]. }
    destruct H as (H1 & H2).
    split; [exact H1 |]; split; [exact H2 |]; split.
    + rewrite H1; apply sumZ_faces, H2.
    + intros p vs total; unfold pointsShownBreakdown, pointsShownTotal.
      destruct (propIsRolling p); cbn [negb andb]; [discriminate |].
      destruct (0 <? _)%nat; [| discriminate].
      intros E; injection E as <- <-; split; [exact H1 | reflexivity].
  - intros old p diceRefs s Hr.
    destruct (pointsRender_cases old p diceRefs s) as [E | [E | (E & _)]];
      [left; exact E | right; exact E | congruence].
  - intros o p diceRefs s Ho Hp Hu.
    unfold pointsRender, pointsUpdateEffect.
    rewrite Ho, Hp; cbn [Bool.eqb negb].
    rewrite orb_true_r, calculatePoints_cases.
    replace (0 <? propUpdateTrigger p)%nat with true
      by (symmetry; apply Nat.ltb_lt; exact Hu).
    reflexivity.
Qed.

Lemma SameFace_refl (d : PhysicsDice) : SameFace d d.
Proof. split; reflexivity. Qed.

Lemma SameFaces_refl (ds : list PhysicsDice) : SameFaces ds ds.
Proof. induction ds; constructor; [apply SameFace_refl | assumption]. Qed.

Lemma SameFaces_replaceNth (ds : list PhysicsDice) :
  forall (i : nat) (d d' : PhysicsDice),
    nth_error ds i = Some d -> SameFace d d' ->
    SameFaces ds (replaceNth i d' ds).
Proof.
  induction ds as [| e ds IH]; intros [| i] d d' Hi Hs; cbn in *;
    try discriminate Hi.
  - injection Hi as ->; constructor; [exact Hs | apply SameFaces_refl].
  - constructor; [apply SameFace_refl | exact (IH i d d' Hi Hs)].
Qed.

(** What the two callbacks that can freeze a die report. *)
Lemma lockDicePhysics_report (d : PhysicsDice) :
  match snd (lockDicePhysics d) with
  | None => fst (lockDicePhysics d) = d
  | Some s =>
      isLockedRef d = false /\ isLockedRef (fst (lockDicePhysics d)) = true /\
      s = mkSettled (index d) (finalValueRef (fst (lockDicePhysics d)))
  end.
Proof.
  unfold lockDicePhysics; destruct (diceRef d); [| reflexivity].
  destruct (isLockedRef d) eqn:E; cbn; [reflexivity | tauto].
Qed.

Lemma checkStability_report (t : nat) (d : PhysicsDice) :
  match snd (checkStability t d) with
  | None => SameFace d (fst (checkStability t d))
  | Some s =>
      isLockedRef d = false /\ isLockedRef (fst (checkStability t d)) = true /\
      s = mkSettled (index d) (finalValueRef (fst (checkStability t d)))
  end.
Proof.
  unfold checkStability; destruct (diceRef d) as [body |];
    [| apply SameFace_refl].
  destruct (isLockedRef d) eqn:E; [apply SameFace_refl |].
  set (d1 := setPositionHistoryRef _ d).
  assert (H1 : SameFace d d1) by (split; reflexivity).
  destruct (5 <=? _)%nat; [| exact H1].
  destruct (positionsStable _ _ _); [| exact H1].
  destruct (velocitiesStable body); [| exact H1].
  pose proof (lockDicePhysics_report d1) as H.
  destruct (snd (lockDicePhysics d1)) as [s |].
  - destruct H as (A & B & C); split; [reflexivity |]; split; [exact B | exact C].
  - rewrite H; exact H1.
Qed.

Lemma forcedLockTimeout_report (d : PhysicsDice) :
  match snd (forcedLockTimeout d) with
  | None => SameFace d (fst (forcedLockTimeout d))
  | Some s =>
      isLockedRef d = false /\
      isLockedRef (fst (forcedLockTimeout d)) = true /\
      s = mkSettled (index d) (finalValueRef (fst (forcedLockTimeout d)))
  end.
Proof.
  unfold forcedLockTimeout; destruct (negb (isLockedRef d));
    [| apply SameFace_refl].
  destruct (diceRef d); [| apply SameFace_refl].
  pose proof (lockDicePhysics_report d) as H.
  destruct (snd (lockDicePhysics d)); [exact H | rewrite H; apply SameFace_refl].
Qed.

(** What the three callbacks that set timers do to the table. *)
Lemma respawnTimeout_pending (r : Draw) (d : PhysicsDice) (t : Timers) :
  let t' := snd (respawnTimeout r d t) in
  (forall q, In q (pending t) -> In q (pending t')) /\
  (forall q, In q (pending t') -> callback q = PointsTimer ->
     In q (pending t)).
Proof.
  unfold respawnTimeout; destruct (diceRef d); [| cbn; tauto].
  unfold setTimeout; cbn [snd pending]; split.
  - intros q H; apply in_or_app; left; apply in_or_app; left; exact H.
  - intros q H Hc; apply in_app_or in H as [H | [<- | []]];
      [apply in_app_or in H as [H | [<- | []]] |]; try exact H;
      discriminate Hc.
Qed.

Lemma stabilityTimeout_pending (d : PhysicsDice) (t : Timers) :
  let t' := snd (stabilityTimeout d t) in
  (forall q, In q (pending t) -> In q (pending t')) /\
  (forall q, In q (pending t') -> callback q = PointsTimer ->
     In q (pending t)).
Proof.
  unfold stabilityTimeout; destruct (diceRef d); [| cbn; tauto].
  unfold setInterval; cbn [snd pending]; split.
  - intros q H; apply in_or_app; left; apply in_or_app; left; exact H.
  - intros q H Hc; apply in_app_or in H as [H | [<- | []]];
      [apply in_app_or in H as [H | [<- | []]] |]; try exact H;
      discriminate Hc.
Qed.

Lemma gradualDampingTick_pending (d : PhysicsDice) (t : Timers) :
  let t' := snd (gradualDampingTick d t) in
  (forall q, In q (pending t) ->
     gradualDampingRef d <> Some (timerId q) -> In q (pending t')) /\
  (forall q, In q (pending t') -> In q (pending t)).
Proof.
  destruct (gradualDampingTick_spec d t)
    as (_ & _ & _ & _ & _ & _ & _ & _ & _ & _ & [(_ & E) | (_ & E)]);
    cbv zeta; rewrite E.
  - tauto.
  - split; intros q H; [intros N |]; rewrite In_clearIfSet in *; tauto.
Qed.

Lemma fst_handleDiceStable (i : nat) (v : Z) (c : DiceContainer)
  (t t' : Timers) :
  fst (handleDiceStable i v c t) = fst (handleDiceStable i v c t').
Proof.
  unfold handleDiceStable, setTimeout.
  destruct (_ && _); reflexivity.
Qed.

Lemma pending_handleDiceStable (i : nat) (v : Z) (c : DiceContainer)
  (t : Timers) :
  pending (snd (handleDiceStable i v c t)) =
    if (S (stableDiceCountRef c) =? diceCount)%nat
       && negb (hasCalculatedPointsRef c)
    then pending t ++ [mkTimer (nextTimerId t) (now t + 100) None PointsTimer]
    else pending t.
Proof.
  unfold handleDiceStable, setTimeout.
  destruct (_ && _); reflexivity.
Qed.

Lemma In_dequeued (tm : Timer) (w : World) (q : Timer) :
  In q (pending (timers (dequeued tm w))) ->
  (In q (pending (timers w)) /\ timerId q <> timerId tm) \/
  (every tm <> None /\ callback q = callback tm).
Proof.
  unfold dequeued; destruct (every tm) as [p |]; cbn [timers pending].
  - intros H; apply in_app_or in H as [H | [<- | []]].
    + left; apply In_clearTimeout, H.
    + right; split; [discriminate | reflexivity].
  - intros H; left; apply In_clearTimeout, H.
Qed.

Lemma Untracked_replaceNth (ds : list PhysicsDice) (i : nat)
  (d d' : PhysicsDice) (id : nat) :
  Untracked ds id -> refsOf d' = refsOf d -> nth_error ds i = Some d ->
  Untracked (replaceNth i d' ds) id.
Proof.
  intros H E Hd e He.
  destruct (In_replaceNth _ _ _ _ He) as [-> | Hin]; [| exact (H e Hin)].
  rewrite E; apply H; eapply nth_error_In; exact Hd.
Qed.

Lemma commit_frame (w : World) :
  container (commit w) = container w /\ notified (commit w) = notified w /\
  completions (commit w) = completions w.
Proof.
  unfold commit; destruct (effectAll _ _ _) as [ds t]; cbn; tauto.
Qed.

Lemma dequeued_frame (tm : Timer) (w : World) :
  now (timers (dequeued tm w)) = now (timers w) /\
  nextTimerId (timers (dequeued tm w)) = nextTimerId (timers w).
Proof.
  unfold dequeued; destruct (every tm); cbn; tauto.
Qed.

Lemma Untracked_fresh (w : World) :
  (forall i d, nth_error (dice w) i = Some d -> DieOk w i d) ->
  Untracked (dice w) (nextTimerId (timers w)).
Proof.
  intros HD d Hd Hin; apply In_nth_error in Hd as (i & Hi).
  destruct (HD i d Hi) as (_ & _ & _ & Hb & _); specialize (Hb _ Hin); lia.
Qed.

(** A callback of die [i] that sets or clears timers of its own, run on
    the page [w1] that [fire] hands it. *)
Lemma withDieTimers_quiet
  (f : PhysicsDice -> Timers -> PhysicsDice * Timers)
  (w w1 : World) (i : nat) (d : PhysicsDice) :
  (forall d t, SameFace d (fst (f d t))) ->
  (forall d t q, In q (pending t) ->
     ~ In (Some (timerId q)) (refsOf d) -> In q (pending (snd (f d t)))) ->
  (forall d t q, In q (pending (snd (f d t))) -> callback q = PointsTimer ->
     In q (pending t)) ->
  container w1 = container w -> dice w1 = dice w ->
  notified w1 = notified w -> completions w1 = completions w ->
  nth_error (dice w) i = Some d ->
  (forall p, In p (pending (timers w)) -> tracked (callback p) = false ->
     In p (pending (timers w1)) /\ Untracked (dice w) (timerId p)) ->
  (forall q, In q (pending (timers w1)) -> callback q = PointsTimer ->
     In q (pending (timers w))) ->
  (forall p, In p (pending (timers w)) -> tracked (callback p) = false ->
     In p (pending (timers (withDieTimers i f w1)))) /\
  Quiet w (withDieTimers i f w1).
Proof.
  intros Hface Hfwd Hbwd Ec Ed En Eo Hd Hkeep Hback.
  unfold withDieTimers; rewrite Ed, Hd.
  pose proof (Hface d (timers w1)) as Hf1.
  pose proof (Hfwd d (timers w1)) as Hf2.
  pose proof (Hbwd d (timers w1)) as Hf3.
  destruct (f d (timers w1)) as [d' t']; cbn [fst snd] in *.
  assert (Hs : forall p, In p (pending (timers w)) ->
                 tracked (callback p) = false -> In p (pending t')).
  { intros p Hp Ht; destruct (Hkeep p Hp Ht) as (H1 & H2).
    apply Hf2; [exact H1 |]; apply H2; eapply nth_error_In; exact Hd. }
  split; [exact Hs |].
  split; [exact Ec |]; split; [exact (SameFaces_replaceNth _ _ _ _ Hd Hf1) |].
  split; [| split; [exact En | exact Eo]].
  intros p Hp; cbn [timers]; split.
  - intros H; apply Hback; [apply Hf3; assumption | exact Hp].
  - intros H; apply Hs; [exact H | rewrite Hp; reflexivity].
Qed.

(** A callback of die [i] that may freeze it, run on the page [w1] that
    [fire] hands it. *)
Lemma withDie_shape
  (f : PhysicsDice -> PhysicsDice * option Settled)
  (w w1 : World) (i : nat) (d : PhysicsDice) :
  KeepsDie d (fst (f d)) ->
  match snd (f d) with
  | None => SameFace d (fst (f d))
  | Some s =>
      isLockedRef d = false /\ isLockedRef (fst (f d)) = true /\
      s = mkSettled (index d) (finalValueRef (fst (f d)))
  end ->
  (forall j e, nth_error (dice w) j = Some e -> DieOk w j e) ->
  container w1 = container w -> dice w1 = dice w ->
  notified w1 = notified w -> completions w1 = completions w ->
  now (timers w1) = now (timers w) ->
  nextTimerId (timers w1) = nextTimerId (timers w) ->
  nth_error (dice w) i = Some d ->
  (forall p, In p (pending (timers w)) -> tracked (callback p) = false ->
     (In p (pending (timers w1)) \/ dueTimer (timers w) = Some p) /\
     Untracked (dice w) (timerId p)) ->
  (forall p, In p (pending (timers w)) -> callback p = PointsTimer ->
     In p (pending (timers w1))) ->
  (forall q, In q (pending (timers w1)) -> callback q = PointsTimer ->
     In q (pending (timers w))) ->
  Survives w (withDie i f w1) /\
  (Quiet w (withDie i f w1) \/ Settles w (withDie i f w1)).
Proof.
  intros HK Hrep HD Ec Ed En Eo Enow Eid Hd Hkeep Hpk Hback.
  unfold withDie; rewrite Ed, Hd.
  destruct (f d) as [d' r]; cbn [fst snd] in *.
  pose proof HK as (K1 & K2 & K3 & K4 & _).
  destruct (HD i d Hd) as (Di & _ & Dl & _).
  destruct r as [s |].
  - destruct Hrep as (R1 & R2 & ->); rewrite Di.
    cbn [deliver settledIndex settledValue timers container dice notified
         completions].
    set (v := finalValueRef d').
    pose proof (handleDiceStable_spec i v (container w1) (timers w1)) as S.
    pose proof (pending_handleDiceStable i v (container w1) (timers w1)) as P.
    pose proof (fst_handleDiceStable i v (container w1) (timers w1) (timers w))
      as F.
    destruct (handleDiceStable i v (container w1) (timers w1)) as [c1 t1].
    cbn [fst snd] in S, P, F.
    destruct S as (_ & _ & Src & _).
    set (ds2 := replaceNth i d' (dice w)).
    set (w2 := mkWorld t1 c1 ds2 (notified w1 ++ [mkSettled i v])
                 (completions w1)).
    assert (Hc : commit w2 =
                 mkWorld (cleanupAll ds2 t1) c1 ds2
                   (notified w1 ++ [mkSettled i v]) (completions w1)).
    { apply (commit_cleanup w2); intros e He; cbn [w2 dice container] in *.
      rewrite Src, Ec.
      destruct (In_replaceNth _ _ _ _ He) as [-> | Hine].
      - rewrite K3; exact Dl.
      - apply In_nth_error in Hine as (j & Hj).
        apply (HD j e Hj). }
    fold ds2; fold w2; rewrite Hc; clear Hc.
    destruct (cleanupAll_spec ds2 t1) as (_ & _ & Cin & _).
    assert (Hu2 : forall id, Untracked (dice w) id -> Untracked ds2 id).
    { intros id H; exact (Untracked_replaceNth _ _ _ _ _ H K4 Hd). }
    assert (Hin1 : forall q, In q (pending (timers w1)) -> In q (pending t1)).
    { intros q Hq; rewrite P; destruct (_ && _);
        [apply in_or_app; left |]; exact Hq. }
    split.
    + intros p Hp Ht; destruct (Hkeep p Hp Ht) as ([H1 | H1] & H2);
        [left | right; exact H1].
      cbn [timers]; apply Cin; split; [apply Hin1, H1 | apply Hu2, H2].
    + right; exists i, d, d'.
      split; [exact Hd |]; split; [exact R1 |]; split; [exact R2 |].
      split; [reflexivity |].
      split; [cbn [container]; rewrite F, Ec; reflexivity |].
      split; [| split; [| split; [cbn; rewrite En; reflexivity | exact Eo]]].
      * intros p Hp; cbn [timers]; rewrite Cin, P, Ec, Eid, Enow.
        set (fifth := (S (stableDiceCountRef (container w)) =? diceCount)%nat
                      && negb (hasCalculatedPointsRef (container w))).
        assert (Hfifth : fifth = true <->
                  hasCalculatedPointsRef (container w) = false /\
                  stableDiceCountRef (container w) = 4%nat).
        { unfold fifth, diceCount.
          rewrite andb_true_iff, Nat.eqb_eq, negb_true_iff; intuition lia. }
        split.
        -- intros (H & _); destruct fifth.
           ++ apply in_app_or in H as [H | [<- | []]];
                [left; apply Hback; assumption | right].
              destruct Hfifth as ((E1 & E2) & _); [reflexivity |].
              repeat split; assumption.
           ++ left; apply Hback; assumption.
        -- intros [H | (H1 & H2 & ->)].
           ++ split.
              ** destruct fifth; [apply in_or_app; left |];
                   apply Hpk; assumption.
              ** apply Hu2, (Hkeep p H); rewrite Hp; reflexivity.
           ++ replace fifth with true by (symmetry; apply Hfifth; tauto).
              split; [apply in_or_app; right; left; reflexivity |].
              apply Hu2; cbn [timerId]; apply Untracked_fresh, HD.
      * intros q Hq; cbn [timers dice] in *; apply Cin in Hq; tauto.
  - cbn [deliver]; split.
    + intros p Hp Ht; apply (Hkeep p Hp Ht).
    + left; split; [exact Ec |].
      split; [exact (SameFaces_replaceNth _ _ _ _ Hd Hrep) |].
      split; [| split; [exact En | exact Eo]].
      intros p Hp; cbn [timers]; split; intros H;
        [apply Hback | apply Hpk]; assumption.
Qed.

Lemma untracked_cases (cb : Callback) :
  tracked cb = false ->
  cb = ResetTimer \/ cb = PointsTimer \/ exists i, cb = ForcedLock i.
Proof.
  destruct cb; cbn; intros H; try discriminate H; eauto.
Qed.

(** What a due timer of a roll in flight does, seen from the container. *)
Lemma fire_shape (T : nat) (w : World) (r : Draw) (tm : Timer) :
  Rolling T w -> dueTimer (timers w) = Some tm ->
  Survives w (fire r tm w) /\
  (Quiet w (fire r tm w) \/ Settles w (fire r tm w) \/
   Scores w (fire r tm w) \/ Ends w (fire r tm w)).
Proof.
  intros (HRI & HRP & HL) Edue.
  destruct (dueTimer_Some _ _ Edue) as (Hin & Hdue).
  destruct (dequeued_spec T w tm HRI Hin Hdue) as (HRI1 & Hnow1 & Hother & Hfresh).
  destruct (dequeued_frame tm w) as (Enow & Eid).
  pose proof HRI as (HD & HN & HR & HF).
  rewrite Forall_forall in HF.
  destruct (HF tm Hin) as (Hnow_tm & _ & HDtm & Hrref & _ & Hlook).
  assert (Hback : forall q, In q (pending (timers (dequeued tm w))) ->
            (In q (pending (timers w)) /\ timerId q <> timerId tm) \/
            (every tm <> None /\ callback q = callback tm))
    by (intros q; apply In_dequeued).
  assert (Hunt : forall p, In p (pending (timers w)) ->
            tracked (callback p) = false -> Untracked (dice w) (timerId p)).
  { intros p Hp Ht; apply (HF p Hp), Ht. }
  assert (Hsame : forall p, In p (pending (timers w)) ->
            timerId p = timerId tm -> p = tm).
  { intros p Hp E; exact (NoDup_ids_inj _ _ _ HN Hp Hin E). }
  assert (Hkeep : forall p, In p (pending (timers w)) ->
            tracked (callback p) = false ->
            (In p (pending (timers (dequeued tm w))) \/
             dueTimer (timers w) = Some p) /\
            Untracked (dice w) (timerId p)).
  { intros p Hp Ht; split; [| exact (Hunt p Hp Ht)].
    destruct (Nat.eq_dec (timerId p) (timerId tm)) as [E | E].
    - right; rewrite (Hsame p Hp E); exact Edue.
    - left; apply Hother; [exact Hp | congruence]. }
  assert (Hpk : callback tm <> PointsTimer ->
            forall p, In p (pending (timers w)) -> callback p = PointsTimer ->
              In p (pending (timers (dequeued tm w)))).
  { intros N p Hp Hc; apply Hother; [exact Hp | congruence]. }
  assert (Hbk : callback tm <> PointsTimer ->
            forall q, In q (pending (timers (dequeued tm w))) ->
              callback q = PointsTimer -> In q (pending (timers w))).
  { intros N q Hq Hc; destruct (Hback q Hq) as [(H & _) | (_ & H)];
      [exact H | congruence]. }
  assert (Hkeep' : tracked (callback tm) = true ->
            forall p, In p (pending (timers w)) ->
              tracked (callback p) = false ->
              In p (pending (timers (dequeued tm w))) /\
              Untracked (dice w) (timerId p)).
  { intros Htr p Hp Ht; split; [| exact (Hunt p Hp Ht)].
    apply Hother; [exact Hp | congruence]. }
  rewrite fire_dequeued.
  unfold DueOk in HDtm.
  destruct (callback tm) as [| | i | i | i | i | i] eqn:Ecb.
  - (* ResetTimer *)
    destruct HDtm as (HDd & Hev).
    destruct (run_ResetTimer T (dequeued tm w) r (timerId tm))
      as (A & _ & Hf & _).
    + exact HRI1.
    + intros j e Hj Hh.
      destruct (HL j e Hj Hh) as [L | (tm' & Hin' & Hcb)]; [left; exact L |].
      right; exists tm'; split; [| exact Hcb].
      apply Hother; [exact Hin' |]; intros E; subst tm'.
      destruct Hcb; congruence.
    + exact (Hrref eq_refl).
    + exact (Hfresh Hev).
    + rewrite Hnow1; exact HDd.
    + assert (Hnil : pending (timers (run r ResetTimer (dequeued tm w))) = []).
      { destruct A as (_ & _ & A); rewrite Hf in A; exact A. }
      assert (Hlate : forall p, In p (pending (timers w)) ->
                (T + 4000 <= due p)%nat).
      { intros p Hp; destruct (HF p Hp) as (Hn & _); lia. }
      assert (Hshape :
                container (run r ResetTimer (dequeued tm w)) =
                  resetTimeout (container w) /\
                dice (run r ResetTimer (dequeued tm w)) = dice w /\
                notified (run r ResetTimer (dequeued tm w)) = notified w /\
                completions (run r ResetTimer (dequeued tm w)) =
                  completions w).
      { cbn [run]; change (container (dequeued tm w)) with (container w).
        rewrite HR.
        set (w2 := mkWorld _ _ _ _ _).
        destruct (commit_frame w2) as (C1 & C2 & C3).
        rewrite C1, C2, C3, (commit_cleanup w2); [cbn; tauto |].
        intros e He; exact (RollInv_last T w HRI e He). }
      destruct Hshape as (S1 & S2 & S3 & S4).
      split.
      * intros p Hp Ht.
        destruct (Nat.eq_dec (timerId p) (timerId tm)) as [E | E];
          [right; rewrite (Hsame p Hp E); exact Edue | exfalso].
        pose proof (Hlate p Hp) as Hl.
        destruct (HF p Hp) as (_ & _ & Hdp & Hrp & _).
        unfold DueOk in Hdp.
        destruct (untracked_cases _ Ht) as [Hc | [Hc | (j & Hc)]];
          rewrite Hc in Hdp; try lia.
        apply E; specialize (Hrp Hc); specialize (Hrref eq_refl); congruence.
      * right; right; right.
        split; [exact S1 |]; split; [exact S2 |]; split; [exact Hnil |].
        split; [| split; [exact S3 | exact S4]].
        intros p Hp Hc; pose proof (Hlate p Hp) as Hl.
        destruct (HF p Hp) as (_ & _ & Hdp & _).
        unfold DueOk in Hdp; rewrite Hc in Hdp; lia.
  - (* PointsTimer *)
    destruct HDtm as (HDd & Hev).
    cbn [run].
    change (container (dequeued tm w)) with (container w).
    change (dice (dequeued tm w)) with (dice w).
    change (notified (dequeued tm w)) with (notified w).
    change (completions (dequeued tm w)) with (completions w).
    set (w2 := mkWorld _ (pointsTimeout (container w)) _ _ _).
    assert (Hc : commit w2 =
                 mkWorld (cleanupAll (dice w) (timers (dequeued tm w)))
                   (pointsTimeout (container w)) (dice w) (notified w)
                   (S (completions w))).
    { apply (commit_cleanup w2); intros e He.
      exact (RollInv_last T w HRI e He). }
    destruct (cleanupAll_spec (dice w) (timers (dequeued tm w)))
      as (_ & _ & Cin & _).
    assert (Hq : forall q, In q (pending (timers (dequeued tm w))) ->
              In q (pending (timers w)) /\ dueTimer (timers w) <> Some q).
    { intros q Hq; destruct (Hback q Hq) as [(H1 & H2) | (H1 & _)];
        [| congruence].
      split; [exact H1 |]; rewrite Edue; congruence. }
    destruct (totalEqb _ _); [| rewrite Hc]; (split;
      [ intros p Hp Ht; destruct (Hkeep p Hp Ht) as ([H1 | H1] & H2);
          [left | right; exact H1]; cbn [timers w2];
          try (apply Cin; split); assumption
      | right; right; left;
        split; [exists tm; split; [exact Edue | exact Ecb] |];
        split; [reflexivity |]; split; [reflexivity |];
        split; [| split; reflexivity];
        intros q Hq'; cbn [timers w2] in Hq'; try apply Cin in Hq';
        apply Hq; tauto ]).
  - (* RespawnTimer *)
    destruct (Hlook i eq_refl) as (d & Hd & _).
    destruct (withDieTimers_quiet (respawnTimeout r) w (dequeued tm w) i d)
      as (A & B); try reflexivity; try exact Hd.
    + intros e t; destruct (respawnTimeout_fields r e t) as (_ & _ & ? & ? & _).
      split; assumption.
    + intros e t q Hq _; apply (respawnTimeout_pending r e t), Hq.
    + intros e t q; apply (respawnTimeout_pending r e t).
    + apply Hkeep'; reflexivity.
    + apply Hbk; discriminate.
    + split; [intros p Hp Ht; left; apply A; assumption | left; exact B].
  - (* StabilityTimer *)
    destruct (Hlook i eq_refl) as (d & Hd & _).
    destruct (withDieTimers_quiet stabilityTimeout w (dequeued tm w) i d)
      as (A & B); try reflexivity; try exact Hd.
    + intros e t; destruct (stabilityTimeout_fields e t) as (_ & _ & ? & ? & _).
      split; assumption.
    + intros e t q Hq _; apply (stabilityTimeout_pending e t), Hq.
    + intros e t q; apply (stabilityTimeout_pending e t).
    + apply Hkeep'; reflexivity.
    + apply Hbk; discriminate.
    + split; [intros p Hp Ht; left; apply A; assumption | left; exact B].
  - (* GradualDamping *)
    destruct (Hlook i eq_refl) as (d & Hd & _).
    destruct (withDieTimers_quiet gradualDampingTick w (dequeued tm w) i d)
      as (A & B); try reflexivity; try exact Hd.
    + intros e t; destruct (gradualDampingTick_fields e t) as (_ & ? & ? & _).
      split; assumption.
    + intros e t q Hq Hn; apply (gradualDampingTick_pending e t); [exact Hq |].
      intros E; apply Hn; unfold refsOf; rewrite E; cbn; tauto.
    + intros e t q Hq _; apply (gradualDampingTick_pending e t), Hq.
    + apply Hkeep'; reflexivity.
    + apply Hbk; discriminate.
    + split; [intros p Hp Ht; left; apply A; assumption | left; exact B].
  - (* StabilityCheck *)
    destruct (Hlook i eq_refl) as (d & Hd & _).
    destruct (withDie_shape (checkStability (now (timers (dequeued tm w))))
                w (dequeued tm w) i d) as (A & B);
      try reflexivity; try assumption.
    + apply checkStability_keeps.
    + apply checkStability_report.
    + apply Hpk; discriminate.
    + apply Hbk; discriminate.
    + split; [exact A | tauto].
  - (* ForcedLock *)
    destruct (Hlook i eq_refl) as (d & Hd & _).
    destruct (withDie_shape forcedLockTimeout w (dequeued tm w) i d)
      as (A & B); try reflexivity; try assumption.
    + apply forcedLockTimeout_keeps.
    + apply forcedLockTimeout_report.
    + apply Hpk; discriminate.
    + apply Hbk; discriminate.
    + split; [exact A | tauto].
Qed.

Lemma Quiet_refl (w : World) : Quiet w w.
Proof.
  split; [reflexivity |]; split; [apply SameFaces_refl |].
  split; [intros p _; tauto | tauto].
Qed.

Lemma simulate_SameFaces (w : World) (i : nat) (k : Kinematics)
  (d : PhysicsDice) :
  nth_error (dice w) i = Some d ->
  SameFaces (dice w)
    (replaceNth i (setDiceRef (option_map (simulate k) (diceRef d)) d)
       (dice w)).
Proof.
  intros Hd; apply (SameFaces_replaceNth _ _ _ _ Hd); split; reflexivity.
Qed.

(** What an action of a roll in flight does, seen from the container. *)
Lemma step_shape (T : nat) (w : World) (a : Action) :
  Rolling T w ->
  Survives w (step w a) /\
  (Quiet w (step w a) \/ Settles w (step w a) \/
   Scores w (step w a) \/ Ends w (step w a)).
Proof.
  intros HR; destruct a as [| r | i k]; cbn [step].
  - rewrite (click_rolling w (Rolling_flag T w HR)).
    split; [intros p Hp _; left; exact Hp | left; apply Quiet_refl].
  - unfold tick; destruct (dueTimer (timers w)) as [tm |] eqn:Edue.
    + exact (fire_shape T w r tm HR Edue).
    + split; [intros p Hp _; left; exact Hp |].
      left; split; [reflexivity |]; split; [apply SameFaces_refl |].
      split; [intros p _; cbn; tauto | cbn; tauto].
  - destruct (nth_error (dice w) i) as [d |] eqn:Hd.
    + split; [intros p Hp _; left; exact Hp |].
      left; split; [reflexivity |].
      split; [exact (simulate_SameFaces w i k d Hd) |].
      split; [intros p _; cbn; tauto | cbn; tauto].
    + split; [intros p Hp _; left; exact Hp | left; apply Quiet_refl].
Qed.

Lemma lockedCount_le (ds : list PhysicsDice) :
  (lockedCount ds <= List.length ds)%nat.
Proof. apply filter_length_le. Qed.

Lemma lockedCount_unlocked (ds : list PhysicsDice) :
  forall i d, nth_error ds i = Some d -> isLockedRef d = false ->
    (lockedCount ds < List.length ds)%nat.
Proof.
  unfold lockedCount; induction ds as [| e ds IH]; intros [| i] d Hi Hl;
    cbn in *; try discriminate Hi.
  - injection Hi as ->; rewrite Hl.
    pose proof (filter_length_le isLockedRef ds); lia.
  - specialize (IH i d Hi Hl); destruct (isLockedRef e); cbn; lia.
Qed.

Lemma lockedCount_all (ds : list PhysicsDice) :
  (forall d, In d ds -> isLockedRef d = true) ->
  lockedCount ds = List.length ds.
Proof.
  unfold lockedCount; induction ds as [| e ds IH]; intros H; [reflexivity |].
  cbn; rewrite (H e (or_introl eq_refl)); cbn; rewrite IH; [reflexivity |].
  intros d Hd; apply H; right; exact Hd.
Qed.

Lemma lockedCount_none (ds : list PhysicsDice) :
  (forall d, In d ds -> isLockedRef d = false) -> lockedCount ds = 0%nat.
Proof.
  unfold lockedCount; induction ds as [| e ds IH]; intros H; [reflexivity |].
  cbn; rewrite (H e (or_introl eq_refl)); apply IH.
  intros d Hd; apply H; right; exact Hd.
Qed.

Lemma lockedCount_SameFaces (ds ds' : list PhysicsDice) :
  SameFaces ds ds' -> lockedCount ds' = lockedCount ds.
Proof.
  unfold lockedCount; induction 1 as [| d d' ds ds' (E & _) _ IH];
    [reflexivity |].
  cbn; rewrite E; destruct (isLockedRef d); cbn; rewrite IH; reflexivity.
Qed.

Lemma lockedCount_locks (ds : list PhysicsDice) :
  forall i d d', nth_error ds i = Some d ->
    isLockedRef d = false -> isLockedRef d' = true ->
    lockedCount (replaceNth i d' ds) = S (lockedCount ds).
Proof.
  unfold lockedCount; induction ds as [| e ds IH]; intros [| i] d d' Hi H H';
    try discriminate Hi; cbn [replaceNth filter nth_error] in *.
  - injection Hi as ->; rewrite H, H'; reflexivity.
  - specialize (IH i d d' Hi H H').
    destruct (isLockedRef e); cbn [length]; rewrite IH; reflexivity.
Qed.

Lemma SameFaces_nth (ds ds' : list PhysicsDice) :
  SameFaces ds ds' ->
  forall i d', nth_error ds' i = Some d' ->
    exists d, nth_error ds i = Some d /\ SameFace d d'.
Proof.
  induction 1 as [| d d' ds ds' Hs _ IH]; intros [| i] e Hi; cbn in *;
    try discriminate Hi.
  - injection Hi as <-; exists d; tauto.
  - exact (IH i e Hi).
Qed.

Lemma ScoreCore_quiet (w w' : World) :
  ScoreCore w -> Quiet w w' -> ScoreCore w'.
Proof.
  intros (S0 & S1 & S2 & S3 & S4 & S5 & S6 & S7 & S8) (Qc & Qd & Qp & _).
  pose proof (Forall2_length Qd) as Hlen.
  assert (Hpp : PointsPending w' <-> PointsPending w).
  { split; intros (p & Hp & Hc); exists p; split; try exact Hc;
      apply (Qp p Hc); exact Hp. }
  unfold ScoreCore; rewrite Qc, <- Hlen, (lockedCount_SameFaces _ _ Qd), Hpp.
  split; [exact S0 |]; split; [exact S1 |]; split; [| split; [exact S3 |]].
  - intros i d' Hi Hl.
    destruct (SameFaces_nth _ _ Qd i d' Hi) as (d & Hd & (E1 & E2)).
    rewrite E2; apply (S2 i d Hd); congruence.
  - split; [exact S4 |]; split; [exact S5 |]; split; [exact S6 |].
    split; [exact S7 |].
    intros p q Hp Hq Hcp Hcq; apply S8; try assumption;
      [apply (Qp p Hcp) | apply (Qp q Hcq)]; assumption.
Qed.

Lemma ScoreCore_scores (w w' : World) :
  ScoreCore w -> Scores w w' -> ScoreCore w'.
Proof.
  intros (S0 & S1 & S2 & S3 & S4 & S5 & S6 & S7 & S8)
         ((p & Hdue & Hc) & Qc & Qd & Qp & _).
  destruct (dueTimer_Some _ _ Hdue) as (Hp & _).
  assert (Hflag : hasCalculatedPointsRef (container w) = true).
  { apply S5; exists p; tauto. }
  unfold ScoreCore; rewrite Qc, Qd; cbn [pointsTimeout stableDiceCountRef
    diceValues hasCalculatedPointsRef totalPoints].
  split; [exact S0 |]; split; [exact S1 |]; split; [exact S2 |].
  split; [exact S3 |]; split; [exact S4 |]; split; [intros _; exact Hflag |].
  split; [intros H; congruence |]; split; [intros _; right; reflexivity |].
  intros a b Ha Hb; apply S8; [apply (Qp a Ha) | apply (Qp b Hb)].
Qed.

Lemma ScoreCore_ends (w w' : World) :
  ScoreCore w -> Ends w w' -> ScoreCore w'.
Proof.
  intros (S0 & S1 & S2 & S3 & S4 & S5 & S6 & S7 & S8)
         (Qc & Qd & Qp & Qn & _).
  unfold ScoreCore, PointsPending; rewrite Qc, Qd, Qp; cbn [resetTimeout
    stableDiceCountRef diceValues hasCalculatedPointsRef totalPoints].
  split; [exact S0 |]; split; [exact S1 |]; split; [exact S2 |].
  split; [exact S3 |]; split; [exact S4 |].
  split; [intros (p & [] & _) |]; split; [exact S6 |].
  split; [| intros p q []].
  intros H; right; destruct (S7 H) as [(p & Hp & Hc) | E]; [| exact E].
  exfalso; exact (Qn p Hp Hc).
Qed.

Lemma ScoreCore_settles (w w' : World) :
  ScoreCore w -> Settles w w' -> ScoreCore w'.
Proof.
  intros (S0 & S1 & S2 & S3 & S4 & S5 & S6 & S7 & S8)
         (i & d & d' & Hi & Hl & Hl' & Qd & Qc & Qp & _).
  pose proof (lockedCount_unlocked _ i d Hi Hl) as Hlt.
  assert (Hil : (i < List.length (dice w))%nat).
  { apply nth_error_Some; congruence. }
  unfold diceCount in S0.
  assert (Hflag : hasCalculatedPointsRef (container w) = false).
  { destruct (hasCalculatedPointsRef (container w)); [| reflexivity].
    destruct S4 as (S4 & _); specialize (S4 eq_refl); lia. }
  assert (Hno : ~ PointsPending w).
  { intros H; apply S5 in H; congruence. }
  pose proof (handleDiceStable_spec i (finalValueRef d') (container w)
                (timers w)) as Hs; cbv zeta in Hs; rewrite <- Qc in Hs.
  destruct Hs as (Hc & Hv & _ & _ & _ & Ht & _ & Hyes & Hnot).
  assert (Hf' : hasCalculatedPointsRef (container w') = true <->
                stableDiceCountRef (container w) = 4%nat).
  { destruct (Nat.eq_dec (stableDiceCountRef (container w)) 4) as [E | E].
    - destruct (Hyes (conj Hflag E)) as (E' & _); rewrite E'; tauto.
    - destruct Hnot as (E' & _); [tauto |]; rewrite E', Hflag; split;
        [discriminate | tauto]. }
  unfold ScoreCore, diceCount; rewrite Qd, length_replaceNth.
  split; [exact S0 |]; split.
  { rewrite Hc, S1; symmetry; exact (lockedCount_locks _ i d d' Hi Hl Hl'). }
  split.
  { intros j e Hj He; rewrite Hv.
    destruct (Nat.eq_dec i j) as [<- | Hne].
    - rewrite (nth_error_replaceNth_same _ _ d' _ Hi) in Hj.
      injection Hj as <-; apply nth_error_assign_same.
    - rewrite nth_error_replaceNth_other in Hj by congruence.
      apply nth_error_assign_other; [congruence |].
      apply nth_error_spread_number, (S2 j e Hj He). }
  split.
  { rewrite Hv, length_assign, length_spread; lia. }
  split.
  { rewrite Hf', Hc; lia. }
  split.
  { intros (p & Hp & Hcb); apply (Qp p Hcb) in Hp as [Hp | (_ & E & _)].
    - exfalso; apply Hno; exists p; tauto.
    - apply Hf', E. }
  split.
  { intros _; rewrite Ht; exact (S6 Hflag). }
  split.
  { intros H; left; apply Hf' in H.
    set (p := mkTimer (nextTimerId (timers w)) (now (timers w) + 100) None
                PointsTimer).
    exists p; split; [| reflexivity].
    apply (Qp p eq_refl); right; tauto. }
  intros p q Hp Hq Hcp Hcq.
  apply (Qp p Hcp) in Hp as [Hp | (_ & _ & ->)];
    [exfalso; apply Hno; exists p; tauto |].
  apply (Qp q Hcq) in Hq as [Hq | (_ & _ & ->)];
    [exfalso; apply Hno; exists q; tauto | reflexivity].
Qed.

(** An accepted click, seen from the container: the state of a new roll,
    every die respawned, and no points timer pending. *)
Lemma click_idle_shape (w : World) :
  Inv w -> isRolling (container w) = false ->
  container (click w) =
    mkDiceContainer (S (resetCount (container w))) true
      (Some (nextTimerId (timers w))) 0 false [] (Some 0%Z) /\
  (forall k d', nth_error (dice (click w)) k = Some d' ->
     exists d id, nth_error (dice w) k = Some d /\
                  d' = respawned (S (resetCount (container w))) id d) /\
  (forall p, In p (pending (timers (click w))) -> callback p <> PointsTimer) /\
  notified (click w) = notified w /\ completions (click w) = completions w.
Proof.
  intros (HD & HN & HI) Hr; rewrite Hr in HI.
  unfold click, handleReset; rewrite Hr; cbn [negb].
  rewrite (clearIfSet_id (resetTimerRef (container w)) (timers w))
    by (intros tm Htm; rewrite HI in Htm; destruct Htm).
  unfold setTimeout; rewrite HI; cbn [app].
  set (n0 := nextTimerId (timers w)).
  set (T := now (timers w)).
  set (R0 := mkTimer n0 (T + 4000) None ResetTimer).
  set (t1 := mkTimers T (S n0) [R0]).
  unfold commit; cbn [dice timers container notified completions resetCount].
  destruct (cleanupAll_spec (dice w) t1) as (Q1 & Q2 & Q3 & Q4).
  set (tc := cleanupAll (dice w) t1) in *.
  assert (HtcR : forall tm, In tm (pending tc) -> tm = R0).
  { intros tm Htm; apply Q3 in Htm; destruct Htm as ([<- | []] & _);
      reflexivity. }
  destruct (effectAll_click (S (resetCount (container w))) T n0 (dice w)
              ltac:(lia) 0%nat tc) as (P1 & P2 & P3 & P4 & P5 & P6).
  { intros k d Hk; destruct (HD k d Hk) as (A & B0 & C & D & _).
    split; [exact A |]; split; [exact B0 |]; split; [lia | exact D]. }
  { rewrite Q2; cbn; lia. }
  { intros tm Htm; rewrite (HtcR tm Htm), Q2; cbn; lia. }
  { apply Q4; cbn; constructor; [intros [] | constructor]. }
  { rewrite Q1; reflexivity. }
  destruct (effectAll (S (resetCount (container w))) (dice w) tc) as [ds' t'].
  cbn [fst snd dice timers container notified completions] in *.
  split; [reflexivity |]; split; [| split; [| tauto]].
  - intros k d' Hk; destruct (P6 k d' Hk) as (d & id & J1 & J2 & _).
    exists d, id; tauto.
  - intros p Hp.
    destruct (P4 p Hp) as (_ & [Hold | (_ & _ & _ & k & d' & C4 & _)]).
    + rewrite (HtcR p Hold); discriminate.
    + rewrite C4; discriminate.
Qed.

(** The timers an accepted click leaves: the reset timer, and for each die
    its respawn timer. *)
Lemma click_idle_timers (w : World) :
  Inv w -> isRolling (container w) = false ->
  let rc := S (resetCount (container w)) in
  let T := now (timers w) in
  let reset := mkTimer (nextTimerId (timers w)) (T + 4000) None ResetTimer in
  now (timers (click w)) = T /\
  In reset (pending (timers (click w))) /\
  (forall k d', nth_error (dice (click w)) k = Some d' ->
     exists d id,
       nth_error (dice w) k = Some d /\ d' = respawned rc id d /\
       In (mkTimer id (T + 100) None (RespawnTimer k))
         (pending (timers (click w)))) /\
  (forall p, In p (pending (timers (click w))) ->
     p = reset \/
     exists k d',
       p = mkTimer (timerId p) (T + 100) None (RespawnTimer k) /\
       nth_error (dice (click w)) k = Some d' /\
       timerRef d' = Some (timerId p)).
Proof.
  intros (HD & HN & HI) Hr; rewrite Hr in HI.
  unfold click, handleReset; rewrite Hr; cbn [negb].
  rewrite (clearIfSet_id (resetTimerRef (container w)) (timers w))
    by (intros tm Htm; rewrite HI in Htm; destruct Htm).
  unfold setTimeout; rewrite HI; cbn [app].
  set (n0 := nextTimerId (timers w)).
  set (T := now (timers w)).
  set (R0 := mkTimer n0 (T + 4000) None ResetTimer).
  set (t1 := mkTimers T (S n0) [R0]).
  unfold commit; cbn [dice timers container notified completions resetCount].
  destruct (cleanupAll_spec (dice w) t1) as (Q1 & Q2 & Q3 & Q4).
  set (tc := cleanupAll (dice w) t1) in *.
  assert (HR0 : forall d, In d (dice w) -> ~ In (Some n0) (refsOf d)).
  { intros d Hd Hin; apply In_nth_error in Hd; destruct Hd as (k & Hk).
    destruct (HD k d Hk) as (_ & _ & _ & Hb & _).
    specialize (Hb _ Hin); fold n0 in Hb; lia. }
  assert (HtcR : forall tm, In tm (pending tc) -> tm = R0).
  { intros tm Htm; apply Q3 in Htm; destruct Htm as ([<- | []] & _);
      reflexivity. }
  assert (HR0in : In R0 (pending tc)).
  { apply Q3; split; [left; reflexivity | exact HR0]. }
  destruct (effectAll_click (S (resetCount (container w))) T n0 (dice w)
              ltac:(lia) 0%nat tc) as (P1 & P2 & P3 & P4 & P5 & P6).
  { intros k d Hk; destruct (HD k d Hk) as (A & B0 & C & D & _).
    split; [exact A |]; split; [exact B0 |]; split; [lia | exact D]. }
  { rewrite Q2; cbn; lia. }
  { intros tm Htm; rewrite (HtcR tm Htm), Q2; cbn; lia. }
  { apply Q4; cbn; constructor; [intros [] | constructor]. }
  { rewrite Q1; reflexivity. }
  destruct (effectAll (S (resetCount (container w))) (dice w) tc) as [ds' t'].
  cbn [fst snd dice timers container notified completions] in *.
  split; [exact P1 |]; split; [exact (P5 R0 HR0in) |]; split.
  - intros k d' Hk; destruct (P6 k d' Hk) as (d & id & J1 & J2 & _ & J4).
    exists d, id; tauto.
  - intros p Hp.
    destruct (P4 p Hp) as (_ & [Hold | (_ & C2 & C3 & k & d' & C4 & C5 & C6 & _)]).
    + left; exact (HtcR p Hold).
    + right; exists k, d'; split; [| tauto].
      destruct p as [pid pdue pev pcb]; cbn in *; subst; reflexivity.
Qed.

Lemma length_handlesOf (w : World) :
  List.length (handlesOf w) = List.length (dice w).
Proof. apply length_map. Qed.

Lemma step_length (w : World) (a : Action) :
  List.length (dice (step w a)) = List.length (dice w).
Proof. rewrite <- !length_handlesOf, step_handles; reflexivity. Qed.

Lemma Score_click (w : World) :
  Inv w -> isRolling (container w) = false -> Score w -> Score (click w).
Proof.
  intros HI Hr ((S0 & _) & _).
  destruct (click_idle_shape w HI Hr) as (Hc & Hd & Hp & _).
  assert (Hun : forall d, In d (dice (click w)) -> isLockedRef d = false).
  { intros d Hin; apply In_nth_error in Hin as (k & Hk).
    destruct (Hd k d Hk) as (e & id & _ & ->); reflexivity. }
  pose proof (step_length w Click) as Hlen; cbn [step] in Hlen.
  split.
  - unfold ScoreCore; rewrite Hc, Hlen, (lockedCount_none _ Hun).
    cbn [stableDiceCountRef diceValues hasCalculatedPointsRef totalPoints
         List.length].
    split; [exact S0 |]; split; [reflexivity |]; split.
    { intros i d Hi Hl; apply nth_error_In in Hi.
      rewrite (Hun d Hi) in Hl; discriminate Hl. }
    split; [lia |]; split; [split; [discriminate | lia] |].
    split; [intros (p & Hin & Hcb); exfalso; exact (Hp p Hin Hcb) |].
    split; [reflexivity |]; split; [discriminate |].
    intros p q Hin _ Hcb; exfalso; exact (Hp p Hin Hcb).
  - rewrite Hc; discriminate.
Qed.

Lemma Locked_simulate (k : Kinematics) (d : PhysicsDice) :
  Locked d -> Locked (setDiceRef (option_map (simulate k) (diceRef d)) d).
Proof.
  intros (Hl & Hv & body & Hb & Hf & Hq).
  split; [exact Hl |]; split; [exact Hv |].
  exists body; cbn; rewrite Hb; cbn; unfold simulate; rewrite Hf; tauto.
Qed.

(** Between rolls an action other than a click changes nothing the
    container sees. *)
Lemma Score_idle (w : World) (a : Action) :
  Inv w -> isRolling (container w) = false -> a <> Click ->
  Score w -> Score (step w a) /\ Quiet w (step w a).
Proof.
  intros (HD & HN & HI) Hr Ha (HS & HA); rewrite Hr in HI.
  destruct a as [| r | i k]; [congruence | |]; cbn [step].
  - unfold tick; destruct (dueTimer (timers w)) as [tm |] eqn:Edue.
    { destruct (dueTimer_Some _ _ Edue) as (Hin & _).
      rewrite HI in Hin; destruct Hin. }
    assert (HQ : Quiet w
              (mkWorld
                 (mkTimers (S (now (timers w))) (nextTimerId (timers w))
                    (pending (timers w)))
                 (container w) (dice w) (notified w) (completions w))).
    { split; [reflexivity |]; split; [apply SameFaces_refl |].
      split; [intros p _; cbn; tauto | cbn; tauto]. }
    split; [| exact HQ].
    split; [exact (ScoreCore_quiet _ _ HS HQ) | exact HA].
  - destruct (nth_error (dice w) i) as [d |] eqn:Hd;
      [| split; [split; assumption | apply Quiet_refl]].
    assert (HQ : Quiet w
              (mkWorld (timers w) (container w)
                 (replaceNth i
                    (setDiceRef (option_map (simulate k) (diceRef d)) d)
                    (dice w))
                 (notified w) (completions w))).
    { split; [reflexivity |].
      split; [exact (simulate_SameFaces w i k d Hd) |].
      split; [intros p _; cbn; tauto | cbn; tauto]. }
    split; [| exact HQ].
    split; [exact (ScoreCore_quiet _ _ HS HQ) |].
    cbn [container]; intros H1 H2 e He Hb; cbn [dice] in He.
    specialize (HA H1 H2).
    apply In_replaceNth in He as [-> | He]; [| exact (HA e He Hb)].
    apply Locked_simulate, (HA d (nth_error_In _ _ Hd)).
    cbn in Hb; destruct (diceRef d); [discriminate | exact Hb].
Qed.

Lemma Score_mount (handles : list (option RigidBody)) :
  (List.length handles <= diceCount)%nat -> Score (mountWorld handles).
Proof.
  intros Hlen.
  assert (Hun : forall d, In d (dice (mountWorld handles)) ->
                          isLockedRef d = false).
  { intros d Hin; apply In_nth_error in Hin as (k & Hk).
    destruct (nth_error_mountDice handles 0 k d Hk) as (h & ->); reflexivity. }
  assert (Hl : List.length (dice (mountWorld handles)) = List.length handles).
  { rewrite <- length_handlesOf; unfold handlesOf; cbn [mountWorld dice].
    rewrite mount_handles; apply length_map. }
  split; [| cbn; lia].
  unfold ScoreCore; rewrite Hl, (lockedCount_none _ Hun).
  cbn [mountWorld container timers pending mountDiceContainer
       stableDiceCountRef diceValues hasCalculatedPointsRef totalPoints
       List.length].
  split; [exact Hlen |]; split; [reflexivity |]; split.
  { intros i d Hi Hk; apply nth_error_In in Hi.
    rewrite (Hun d Hi) in Hk; discriminate Hk. }
  split; [lia |]; split; [split; [discriminate | lia] |].
  split; [intros (p & [] & _) |].
  split; [reflexivity |]; split; [discriminate | intros p q []].
Qed.

(** Every action keeps what the container knows of the dice. *)
Lemma step_score (w : World) (a : Action) :
  Inv w -> Score w -> Score (step w a).
Proof.
  intros HI HS; destruct (isRolling (container w)) eqn:Hr.
  - destruct (Inv_Rolling w HI Hr) as (T & HR).
    destruct (step_shape T w a HR) as (_ & Hshape).
    destruct HS as (HS & _).
    split.
    + destruct Hshape as [H | [H | [H | H]]];
        [exact (ScoreCore_quiet _ _ HS H) | exact (ScoreCore_settles _ _ HS H)
        | exact (ScoreCore_scores _ _ HS H) | exact (ScoreCore_ends _ _ HS H)].
    + intros Hidle _.
      destruct (step_rolling T w a HR) as [H | H].
      * rewrite (Rolling_flag _ _ H) in Hidle; discriminate Hidle.
      * apply H.
  - destruct a as [| r | i k].
    + exact (Score_click w HI Hr HS).
    + apply (Score_idle w (Tick r) HI Hr); [discriminate | exact HS].
    + apply (Score_idle w (Simulate i k) HI Hr); [discriminate | exact HS].
Qed.

Lemma steps_score (acts : list Action) :
  forall w, Inv w -> Score w -> Inv (steps w acts) /\ Score (steps w acts).
Proof.
  induction acts as [| a acts IH]; intros w HI HS; [tauto |].
  cbn [steps fold_left]; fold (steps (step w a) acts).
  apply IH; [apply step_inv, HI | apply step_score; assumption].
Qed.

Lemma Delta_refl (b : bool) (t : Timers) : Delta b t t.
Proof. split; [reflexivity | intros q Hq; left; exact Hq]. Qed.

Lemma Delta_trans (b : bool) (t1 t2 t3 : Timers) :
  Delta b t1 t2 -> Delta b t2 t3 -> Delta b t1 t3.
Proof.
  intros (N1 & H1) (N2 & H2); split; [congruence |].
  intros q Hq; destruct (H2 q Hq) as [H | (H & Hb)].
  - exact (H1 q H).
  - right; split; [lia | exact Hb].
Qed.

Lemma Delta_incl (b : bool) (t t' : Timers) :
  now t' = now t -> incl (pending t') (pending t) -> Delta b t t'.
Proof. intros Hn Hi; split; [exact Hn | intros q Hq; left; exact (Hi q Hq)]. Qed.

Lemma Delta_setTimeout (b : bool) (cb : Callback) (delay : nat) (t : Timers) :
  (0 < delay)%nat -> (tracked cb = true -> b = true) ->
  Delta b t (snd (setTimeout cb delay t)).
Proof.
  intros Hd Hb; split; [reflexivity |]; cbn [setTimeout snd pending].
  intros q Hq; apply in_app_or in Hq as [Hq | [<- | []]]; [left; exact Hq |].
  right; cbn [due callback]; split; [lia | exact Hb].
Qed.

Lemma Delta_setInterval (b : bool) (cb : Callback) (delay : nat) (t : Timers) :
  (0 < delay)%nat -> (tracked cb = true -> b = true) ->
  Delta b t (snd (setInterval cb delay t)).
Proof.
  intros Hd Hb; split; [reflexivity |]; cbn [setInterval snd pending].
  intros q Hq; apply in_app_or in Hq as [Hq | [<- | []]]; [left; exact Hq |].
  right; cbn [due callback]; split; [lia | exact Hb].
Qed.

Lemma Delta_clearIfSet (b : bool) (ref : option nat) (t : Timers) :
  Delta b t (clearIfSet ref t).
Proof.
  destruct (clearIfSet_frame ref t) as (Hn & _ & Hi).
  exact (Delta_incl b _ _ Hn Hi).
Qed.

Lemma Delta_effectCleanup (b : bool) (d : PhysicsDice) (t : Timers) :
  Delta b t (effectCleanup d t).
Proof.
  unfold effectCleanup.
  eapply Delta_trans; [| apply Delta_clearIfSet].
  eapply Delta_trans; [| apply Delta_clearIfSet].
  eapply Delta_trans; [| apply Delta_clearIfSet].
  apply Delta_clearIfSet.
Qed.

Lemma Delta_cleanupAll (b : bool) (ds : list PhysicsDice) :
  forall t, Delta b t (cleanupAll ds t).
Proof.
  unfold cleanupAll; induction ds as [| d ds IH]; intros t; cbn [fold_left];
    [apply Delta_refl |].
  eapply Delta_trans; [apply Delta_effectCleanup | apply IH].
Qed.

Lemma Delta_respawnTimeout (r : Draw) (d : PhysicsDice) (t : Timers) :
  Delta true t (snd (respawnTimeout r d t)).
Proof.
  unfold respawnTimeout; destruct (diceRef d); [| apply Delta_refl].
  unfold setTimeout; cbn [snd pending now]; split; [reflexivity |].
  cbn [pending now nextTimerId].
  intros q H; apply in_app_or in H as [H | [<- | []]];
    [apply in_app_or in H as [H | [<- | []]] |]; [left; exact H | |];
    right; cbn [due callback]; split; try lia; tauto.
Qed.

Lemma Delta_stabilityTimeout (d : PhysicsDice) (t : Timers) :
  Delta true t (snd (stabilityTimeout d t)).
Proof.
  unfold stabilityTimeout; destruct (diceRef d); [| apply Delta_refl].
  unfold setInterval; cbn [snd pending now]; split; [reflexivity |].
  cbn [pending now nextTimerId].
  intros q H; apply in_app_or in H as [H | [<- | []]];
    [apply in_app_or in H as [H | [<- | []]] |]; [left; exact H | |];
    right; cbn [due callback]; split; try lia; tauto.
Qed.

Lemma Delta_gradualDampingTick (b : bool) (d : PhysicsDice) (t : Timers) :
  Delta b t (snd (gradualDampingTick d t)).
Proof.
  unfold gradualDampingTick; destruct (diceRef d); [| apply Delta_refl].
  destruct (_ && _); [| apply Delta_refl].
  cbv zeta; destruct (Num.geb _ _); cbn [snd];
    [apply Delta_clearIfSet | apply Delta_refl].
Qed.

Lemma Delta_handleDiceStable (b : bool) (i : nat) (v : Z) (c : DiceContainer)
  (t : Timers) :
  Delta b t (snd (handleDiceStable i v c t)).
Proof.
  unfold handleDiceStable; destruct (_ && _); [| apply Delta_refl].
  pose proof (Delta_setTimeout b PointsTimer 100 t ltac:(lia)
                ltac:(discriminate)) as H.
  destruct (setTimeout PointsTimer 100 t) as [id t1]; exact H.
Qed.

Lemma Delta_commit (b : bool) (w : World) :
  (forall d, In d (dice w) ->
     lastResetCountRef d = resetCount (container w)) ->
  Delta b (timers w) (timers (commit w)) /\ dice (commit w) = dice w.
Proof.
  intros H; rewrite (commit_cleanup w H); cbn [timers dice].
  split; [apply Delta_cleanupAll | reflexivity].
Qed.

Lemma Delta_deliver (b : bool) (r : option Settled) (w : World) :
  (forall d, In d (dice w) ->
     lastResetCountRef d = resetCount (container w)) ->
  Delta b (timers w) (timers (deliver r w)).
Proof.
  intros H; destruct r as [s |]; cbn [deliver]; [| apply Delta_refl].
  pose proof (handleDiceStable_spec (settledIndex s) (settledValue s)
                (container w) (timers w)) as S.
  pose proof (Delta_handleDiceStable b (settledIndex s) (settledValue s)
                (container w) (timers w)) as D.
  destruct (handleDiceStable (settledIndex s) (settledValue s)
              (container w) (timers w)) as [c1 t1]; cbn [fst snd] in S, D.
  destruct S as (_ & _ & Src & _).
  eapply Delta_trans; [exact D |].
  set (w1 := mkWorld t1 c1 (dice w) (notified w ++ [s]) (completions w)).
  change t1 with (timers w1); apply Delta_commit.
  cbn [w1 dice container]; intros d Hd; rewrite Src; exact (H d Hd).
Qed.

Lemma Delta_withDie (b : bool) (i : nat)
  (f : PhysicsDice -> PhysicsDice * option Settled) (w : World) :
  (forall d, lastResetCountRef (fst (f d)) = lastResetCountRef d) ->
  (forall d, In d (dice w) ->
     lastResetCountRef d = resetCount (container w)) ->
  Delta b (timers w) (timers (withDie i f w)).
Proof.
  intros Hf H; unfold withDie.
  destruct (nth_error (dice w) i) as [d |] eqn:Hd; [| apply Delta_refl].
  specialize (Hf d); destruct (f d) as [d' r]; cbn [fst] in Hf.
  set (w1 := mkWorld (timers w) (container w) (replaceNth i d' (dice w))
               (notified w) (completions w)).
  change (timers w) with (timers w1) at 1; apply Delta_deliver.
  cbn [w1 dice container]; intros e He.
  apply In_replaceNth in He as [-> | He]; [| exact (H e He)].
  rewrite Hf; apply H, (nth_error_In _ _ Hd).
Qed.

Lemma Delta_withDieTimers (b : bool) (i : nat)
  (f : PhysicsDice -> Timers -> PhysicsDice * Timers) (w : World) :
  (forall d t, Delta b t (snd (f d t))) ->
  Delta b (timers w) (timers (withDieTimers i f w)).
Proof.
  intros Hf; unfold withDieTimers.
  destruct (nth_error (dice w) i) as [d |]; [| apply Delta_refl].
  specialize (Hf d (timers w)); destruct (f d (timers w)) as [d' t'].
  exact Hf.
Qed.

(** What a callback does to the timer table. *)
Lemma Delta_run (r : Draw) (cb : Callback) (w : World) :
  (forall d, In d (dice w) ->
     lastResetCountRef d = resetCount (container w)) ->
  Delta (tracked cb) (timers w) (timers (run r cb w)).
Proof.
  intros H; destruct cb as [| | i | i | i | i | i]; cbn [run tracked].
  - destruct (isRolling (container w)); [| apply Delta_refl].
    set (w1 := mkWorld _ _ _ _ _); change (timers w) with (timers w1).
    apply Delta_commit; exact H.
  - destruct (totalEqb _ _); [apply Delta_refl |].
    set (w1 := mkWorld _ _ _ _ _); change (timers w) with (timers w1).
    apply Delta_commit; exact H.
  - apply Delta_withDieTimers; intros; apply Delta_respawnTimeout.
  - apply Delta_withDieTimers; intros; apply Delta_stabilityTimeout.
  - apply Delta_withDieTimers; intros; apply Delta_gradualDampingTick.
  - apply Delta_withDie; [| exact H].
    intros d; apply (checkStability_keeps (now (timers w)) d).
  - apply Delta_withDie; [| exact H].
    intros d; apply (forcedLockTimeout_keeps d).
Qed.

(** What running the due timer of a roll in flight does to the timer
    table: every timer left was there before, the one that ran apart, or
    is due later. *)
Lemma fire_delta (T : nat) (w : World) (r : Draw) (tm : Timer) :
  Rolling T w -> dueTimer (timers w) = Some tm ->
  now (timers (fire r tm w)) = now (timers w) /\
  forall q, In q (pending (timers (fire r tm w))) ->
    (In q (pending (timers w)) /\ q <> tm) \/
    ((now (timers w) < due q)%nat /\
     (tracked (callback q) = true -> tracked (callback tm) = true)).
Proof.
  intros (HRI & _) Edue.
  destruct (dueTimer_Some _ _ Edue) as (Hin & Hdue).
  pose proof HRI as (HD & HN & HR & HF).
  rewrite Forall_forall in HF.
  destruct (HF tm Hin) as (Hnow_tm & _ & HDtm & _).
  destruct (dequeued_frame tm w) as (Enow & _).
  rewrite fire_dequeued.
  destruct (Delta_run r (callback tm) (dequeued tm w)) as (Dn & Dq).
  { intros d Hd; exact (RollInv_last T w HRI d Hd). }
  split; [congruence |].
  intros q Hq; destruct (Dq q Hq) as [Hold | (Hl & Hb)];
    [| right; split; [lia | exact Hb]].
  unfold dequeued in Hold; cbn [timers] in Hold.
  assert (Hcl : In q (pending (clearTimeout (timerId tm) (timers w))) ->
                In q (pending (timers w)) /\ q <> tm).
  { intros H; apply In_clearTimeout in H as (H1 & H2).
    split; [exact H1 | congruence]. }
  destruct (every tm) as [p |] eqn:Ev; [| left; exact (Hcl Hold)].
  cbn [pending] in Hold; apply in_app_or in Hold as [Hold | [<- | []]];
    [left; exact (Hcl Hold) | right].
  cbn [due callback]; split; [| tauto].
  unfold DueOk in HDtm; rewrite Ev in HDtm.
  destruct (callback tm); destruct HDtm as (_ & E); try discriminate E.
  - injection E as ->; lia.
  - injection E as ->; lia.
Qed.

Lemma steps_prefix_S (s : nat -> Action) (k n : nat) (w : World) :
  steps w (prefix s k (S n)) = steps (step w (s k)) (prefix s (S k) n).
Proof. reflexivity. Qed.

(** Running a due timer leaves fewer timers due. *)
Lemma dueNow_decreases (T : nat) (w : World) (r : Draw) (tm : Timer) :
  Rolling T w -> dueTimer (timers w) = Some tm ->
  NoDup (map timerId (pending (timers (fire r tm w)))) ->
  (List.length (dueNow (timers (fire r tm w)))
   < List.length (dueNow (timers w)))%nat.
Proof.
  intros HR Edue HN.
  destruct (dueTimer_Some _ _ Edue) as (Hin & Hdue).
  destruct (fire_delta T w r tm HR Edue) as (En & Hq).
  set (l' := dueNow (timers (fire r tm w))).
  set (l := dueNow (timers w)).
  assert (Hsub : forall q, In q l' -> In q l /\ q <> tm).
  { intros q Hl; apply filter_In in Hl as (Hp & Hd).
    apply Nat.leb_le in Hd; rewrite En in Hd.
    destruct (Hq q Hp) as [(H1 & H2) | (H1 & _)]; [| lia].
    split; [| exact H2].
    apply filter_In; split; [exact H1 | apply Nat.leb_le, Hd]. }
  assert (Htm : In tm l).
  { apply filter_In; split; [exact Hin | apply Nat.leb_le, Hdue]. }
  assert (HN' : NoDup (tm :: l')).
  { constructor; [intros H; apply (Hsub tm H); reflexivity |].
    apply NoDup_filter, (NoDup_map_inv timerId), HN. }
  assert (Hincl : incl (tm :: l') l).
  { intros q [<- | H]; [exact Htm | apply (Hsub q H)]. }
  pose proof (NoDup_incl_length HN' Hincl) as H; cbn [List.length] in H; lia.
Qed.

Lemma resetCount_step (T : nat) (w : World) (a : Action) :
  Rolling T w ->
  resetCount (container (step w a)) = resetCount (container w).
Proof.
  intros HR; destruct (step_shape T w a HR) as (_ & [H | [H | [H | H]]]).
  - destruct H as (-> & _); reflexivity.
  - destruct H as (i & d & d' & _ & _ & _ & _ & -> & _).
    apply (handleDiceStable_spec i (finalValueRef d') (container w)
             (timers w)).
  - destruct H as (_ & -> & _); reflexivity.
  - destruct H as (-> & _); reflexivity.
Qed.

(** An action of a roll in flight ends the roll, or runs a due timer, or
    lets a millisecond pass, or leaves the timers as they are. *)
Lemma step_measure (T : nat) (w : World) (a : Action) :
  Rolling T w ->
  RollEnded T (step w a) \/
  (Rolling T (step w a) /\
   ((now (timers (step w a)) = now (timers w) /\
     List.length (dueNow (timers (step w a)))
     < List.length (dueNow (timers w)))%nat \/
    (now (timers w) < now (timers (step w a)) <= T + 4000)%nat \/
    ((forall r, a <> Tick r) /\ timers (step w a) = timers w))).
Proof.
  intros HR.
  destruct (step_rolling T w a HR) as [HR' | Hend]; [right | left; exact Hend].
  split; [exact HR' |]; revert HR'.
  destruct a as [| r | i k]; cbn [step].
  - intros _; right; right; split; [discriminate |].
    rewrite (click_rolling w (Rolling_flag T w HR)); reflexivity.
  - unfold tick; destruct (dueTimer (timers w)) as [tm |] eqn:Edue; intros HR'.
    + left; split; [apply (fire_delta T w r tm HR Edue) |].
      apply (dueNow_decreases T w r tm HR Edue), HR'.
    + right; left; cbn [timers now].
      destruct HR as ((_ & _ & _ & HF) & (tr & Htr & Hcb) & _).
      pose proof (dueTimer_None _ Edue tr Htr) as Hlate.
      rewrite Forall_forall in HF; destruct (HF tr Htr) as (_ & _ & Hd & _).
      unfold DueOk in Hd; rewrite Hcb in Hd; lia.
  - intros _; right; right; split; [discriminate |].
    destruct (nth_error (dice w) i); reflexivity.
Qed.

(** A roll in flight runs out: as the event loop keeps turning, its timers
    run and time passes, until the reset timer ends it. *)
Lemma roll_runs_out (s : nat -> Action) (T : nat) :
  Fair s ->
  forall (k c : nat) (w : World) (j : nat),
    Rolling T w ->
    (T + 4000 - now (timers w) <= k)%nat ->
    (List.length (dueNow (timers w)) <= c)%nat ->
    exists n,
      RollEnded T (steps w (prefix s j n)) /\
      resetCount (container (steps w (prefix s j n))) =
        resetCount (container w).
Proof.
  intros Hfair.
  assert (Hwait : forall (d : nat) (w : World) (j : nat),
            (exists r, s (j + d)%nat = Tick r) ->
            Rolling T w ->
            (forall w' j', Rolling T w' ->
               (now (timers w') = now (timers w) /\
                List.length (dueNow (timers w'))
                < List.length (dueNow (timers w)))%nat \/
               (now (timers w) < now (timers w') <= T + 4000)%nat ->
               exists n,
                 RollEnded T (steps w' (prefix s j' n)) /\
                 resetCount (container (steps w' (prefix s j' n))) =
                   resetCount (container w')) ->
            exists n,
              RollEnded T (steps w (prefix s j n)) /\
              resetCount (container (steps w (prefix s j n))) =
                resetCount (container w)).
  { induction d as [| d IHd]; intros w j (r & Hr) HR Hnext;
      pose proof (resetCount_step T w (s j) HR) as Hrc;
      (destruct (step_measure T w (s j) HR)
         as [Hend | (HR' & [Hm | [Hm | (Hnt & Ht)]])];
       [ exists 1%nat; split; [exact Hend | exact Hrc]
       | destruct (Hnext _ (S j) HR' (or_introl Hm)) as (n & Hend & Hc);
         exists (S n); rewrite steps_prefix_S; split; [exact Hend | congruence]
       | destruct (Hnext _ (S j) HR' (or_intror Hm)) as (n & Hend & Hc);
         exists (S n); rewrite steps_prefix_S; split; [exact Hend | congruence]
       | ]).
    - exfalso; rewrite Nat.add_0_r in Hr; exact (Hnt r Hr).
    - destruct (IHd (step w (s j)) (S j)) as (n & Hend & Hc).
      + exists r; rewrite <- Hr; f_equal; lia.
      + exact HR'.
      + intros w' j' HRw Hm; apply Hnext; [exact HRw |].
        rewrite Ht in Hm; exact Hm.
      + exists (S n); rewrite steps_prefix_S; split; [exact Hend | congruence]. }
  assert (Hstep : forall (w : World) (j : nat),
            Rolling T w ->
            (forall w' j', Rolling T w' ->
               (now (timers w') = now (timers w) /\
                List.length (dueNow (timers w'))
                < List.length (dueNow (timers w)))%nat \/
               (now (timers w) < now (timers w') <= T + 4000)%nat ->
               exists n,
                 RollEnded T (steps w' (prefix s j' n)) /\
                 resetCount (container (steps w' (prefix s j' n))) =
                   resetCount (container w')) ->
            exists n,
              RollEnded T (steps w (prefix s j n)) /\
              resetCount (container (steps w (prefix s j n))) =
                resetCount (container w)).
  { intros w j HR Hnext.
    destruct (Hfair j) as (j' & r & Hle & Hr).
    apply (Hwait (j' - j)%nat w j); [| exact HR | exact Hnext].
    exists r; rewrite <- Hr; f_equal; lia. }
  induction k as [| k IHk].
  - induction c as [| c IHc]; intros w j HR Hk Hc; apply (Hstep w j HR);
      intros w' j' HR' [(En & Hl) | Hl]; try lia.
    apply (IHc w' j' HR'); lia.
  - induction c as [| c IHc]; intros w j HR Hk Hc; apply (Hstep w j HR);
      intros w' j' HR' [(En & Hl) | Hl]; try lia.
    + apply (IHk (List.length (dueNow (timers w'))) w' j' HR'); lia.
    + apply (IHc w' j' HR'); lia.
    + apply (IHk (List.length (dueNow (timers w'))) w' j' HR'); lia.
Qed.

(** From any state between rolls: the click starts a roll, and the event
    loop brings it to its end, 4000 ms later. *)
Lemma click_runs_out (s : nat -> Action) (w0 : World) :
  Fair s -> Inv w0 -> isRolling (container w0) = false ->
  exists n,
    RollEnded (now (timers w0)) (steps (click w0) (prefix s 0 n)) /\
    resetCount (container (steps (click w0) (prefix s 0 n))) =
      S (resetCount (container w0)).
Proof.
  intros Hfair HI Hr.
  pose proof (click_idle w0 HI Hr) as HR.
  destruct (roll_runs_out s (now (timers w0)) Hfair
              (now (timers w0) + 4000 - now (timers (click w0)))
              (List.length (dueNow (timers (click w0)))) (click w0) 0%nat HR
              (Nat.le_refl _) (Nat.le_refl _)) as (n & Hend & Hc).
  exists n; split; [exact Hend |]; rewrite Hc.
  destruct (click_idle_shape w0 HI Hr) as (-> & _); reflexivity.
Qed.

Lemma Fair_ticks (r : Draw) : Fair (fun _ => Tick r).
Proof. intros k; exists k, r; split; [lia | reflexivity]. Qed.

Lemma reach_inv (handles : list (option RigidBody)) (acts : list Action) :
  Inv (steps (mountWorld handles) acts).
Proof. apply steps_inv, mount_inv. Qed.

Lemma reach_score (handles : list (option RigidBody)) (acts : list Action) :
  (List.length handles <= diceCount)%nat ->
  Score (steps (mountWorld handles) acts).
Proof.
  intros H; apply steps_score; [apply mount_inv | apply Score_mount, H].
Qed.

Lemma reach_handles (handles : list (option RigidBody)) (acts : list Action) :
  handlesOf (steps (mountWorld handles) acts) = map present handles.
Proof.
  rewrite steps_handles; unfold handlesOf; cbn [mountWorld dice].
  apply mount_handles.
Qed.

Lemma reach_length (handles : list (option RigidBody)) (acts : list Action) :
  List.length (dice (steps (mountWorld handles) acts)) = List.length handles.
Proof.
  rewrite <- length_handlesOf, reach_handles; apply length_map.
Qed.

Lemma lockedCount_full (ds : list PhysicsDice) :
  lockedCount ds = List.length ds ->
  forall d, In d ds -> isLockedRef d = true.
Proof.
  intros E d Hd; destruct (isLockedRef d) eqn:Hl; [reflexivity | exfalso].
  apply In_nth_error in Hd as (i & Hi).
  pose proof (lockedCount_unlocked ds i d Hi Hl); lia.
Qed.

Lemma Inv_resolved (w : World) (d : PhysicsDice) :
  Inv w -> In d (dice w) -> Resolved d.
Proof.
  intros (HD & _) Hd; apply In_nth_error in Hd as (i & Hi).
  apply (HD i d Hi).
Qed.

Lemma Inv_idle (w : World) :
  Inv w -> isRolling (container w) = false -> pending (timers w) = [].
Proof. intros (_ & _ & H) Hr; rewrite Hr in H; exact H. Qed.

(** A timer that a die keeps in a ref and that an action of a roll in
    flight leaves pending was pending before, or has been set by the
    callback of another such timer. *)
Lemma step_tracked (T : nat) (w : World) (a : Action) :
  Rolling T w ->
  forall q, In q (pending (timers (step w a))) ->
    tracked (callback q) = true ->
    exists tm, In tm (pending (timers w)) /\ tracked (callback tm) = true.
Proof.
  intros HR q Hq Ht; destruct a as [| r | i k]; cbn [step] in Hq.
  - rewrite (click_rolling w (Rolling_flag T w HR)) in Hq; exists q; tauto.
  - unfold tick in Hq; destruct (dueTimer (timers w)) as [tm |] eqn:Edue;
      [| exists q; tauto].
    destruct (fire_delta T w r tm HR Edue) as (_ & Hd).
    destruct (Hd q Hq) as [(H & _) | (_ & H)]; [exists q; tauto |].
    exists tm; split; [apply (dueTimer_Some _ _ Edue) | exact (H Ht)].
  - destruct (nth_error (dice w) i); exists q; tauto.
Qed.

Lemma SameFaces_locked (ds ds' : list PhysicsDice) :
  SameFaces ds ds' ->
  forall d', In d' ds' -> isLockedRef d' = true ->
    exists d, In d ds /\ isLockedRef d = true.
Proof.
  intros H d' Hd' Hl; apply In_nth_error in Hd' as (i & Hi).
  destruct (SameFaces_nth _ _ H i d' Hi) as (d & Hd & (E & _)).
  exists d; split; [exact (nth_error_In _ _ Hd) | congruence].
Qed.

Lemma tracked_dieOf (cb : Callback) :
  tracked cb = true -> exists i, dieOf cb = Some i.
Proof. destruct cb; cbn; intros H; try discriminate H; eauto. Qed.

Lemma RefOk_tracked (d : PhysicsDice) (q : Timer) :
  tracked (callback q) = true -> RefOk d q ->
  In (Some (timerId q)) (refsOf d).
Proof.
  unfold RefOk, refsOf; destruct (callback q); cbn; intros H R;
    try discriminate H.
  - destruct R as (-> & _); tauto.
  - destruct R as (_ & ->); tauto.
  - destruct R as (_ & _ & ->); tauto.
  - destruct R as (_ & _ & ->); tauto.
Qed.

(** During a roll every pending timer that a die keeps in a ref is in a
    ref of its die. *)
Lemma Rolling_tracked (T : nat) (w : World) (q : Timer) :
  Rolling T w -> In q (pending (timers w)) ->
  tracked (callback q) = true -> ~ Untracked (dice w) (timerId q).
Proof.
  intros ((_ & _ & _ & HF) & _) Hq Ht Hun.
  rewrite Forall_forall in HF.
  destruct (HF q Hq) as (_ & _ & _ & _ & _ & Hlook).
  destruct (tracked_dieOf _ Ht) as (i & Hi).
  destruct (Hlook i Hi) as (d & Hd & HR).
  exact (Hun d (nth_error_In _ _ Hd) (RefOk_tracked d q Ht HR)).
Qed.

Lemma step_LockedMeansUntracked (w : World) (a : Action) :
  Inv w -> LockedMeansUntracked w -> LockedMeansUntracked (step w a).
Proof.
  intros HI HJ; destruct (isRolling (container w)) eqn:Hr.
  - destruct (Inv_Rolling w HI Hr) as (T & HR).
    intros d' Hd' Hl q Hq.
    destruct (tracked (callback q)) eqn:Ht; [exfalso | reflexivity].
    assert (Hold : (exists d, In d (dice w) /\ isLockedRef d = true) -> False).
    { intros (d & Hd & Hld).
      destruct (step_tracked T w a HR q Hq Ht) as (tm & Htm & Htt).
      rewrite (HJ d Hd Hld tm Htm) in Htt; discriminate Htt. }
    destruct (step_shape T w a HR) as (_ & [H | [H | [H | H]]]).
    + destruct H as (_ & Hs & _).
      exact (Hold (SameFaces_locked _ _ Hs d' Hd' Hl)).
    + destruct H as (i & d0 & d1 & _ & _ & _ & _ & _ & _ & Hun & _).
      destruct (step_rolling T w a HR) as [HR' | Hend].
      * exact (Rolling_tracked T _ q HR' Hq Ht (Hun q Hq)).
      * destruct Hend as (HI' & _ & Hidle & _).
        rewrite (Inv_idle _ HI' Hidle) in Hq; destruct Hq.
    + destruct H as (_ & _ & Hs & _); rewrite Hs in Hd'.
      apply Hold; exists d'; tauto.
    + destruct H as (_ & Hs & _); rewrite Hs in Hd'.
      apply Hold; exists d'; tauto.
  - pose proof (Inv_idle w HI Hr) as Hnil.
    destruct a as [| r | i k].
    + intros d' Hd' Hl; exfalso.
      destruct (click_idle_shape w HI Hr) as (_ & Hd & _).
      apply In_nth_error in Hd' as (j & Hj).
      destruct (Hd j d' Hj) as (e & id & _ & ->); discriminate Hl.
    + cbn [step]; unfold tick.
      destruct (dueTimer (timers w)) as [tm |] eqn:Edue.
      { destruct (dueTimer_Some _ _ Edue) as (Hin & _).
        rewrite Hnil in Hin; destruct Hin. }
      intros d' _ _ q Hq; cbn [timers pending] in Hq.
      rewrite Hnil in Hq; destruct Hq.
    + cbn [step]; destruct (nth_error (dice w) i);
        intros d' _ _ q Hq; cbn [timers] in Hq; rewrite Hnil in Hq;
        destruct Hq.
Qed.

Lemma reach_LockedMeansUntracked (handles : list (option RigidBody))
  (acts : list Action) :
  LockedMeansUntracked (steps (mountWorld handles) acts).
Proof.
  assert (H : forall w, Inv w -> LockedMeansUntracked w ->
                        LockedMeansUntracked (steps w acts)).
  { induction acts as [| a acts IH]; intros w HI HJ; [exact HJ |].
    cbn [steps fold_left]; fold (steps (step w a) acts).
    apply IH; [apply step_inv, HI | apply step_LockedMeansUntracked; assumption]. }
  apply H; [apply mount_inv |].
  intros d Hd Hl q [].
Qed.

(** What the page shows between rolls, once a roll of five dice with
    their bodies has ended. *)
Lemma finished_roll (w : World) :
  Inv w -> Score w -> List.length (dice w) = diceCount ->
  (forall d, In d (dice w) -> diceRef d <> None) ->
  isRolling (container w) = false -> (0 < resetCount (container w))%nat ->
  (forall d, In d (dice w) -> Locked d) /\
  hasCalculatedPointsRef (container w) = true /\
  diceValues (container w) = map Number (faceValues w) /\
  totalPoints (container w) = Some (sumZ (faceValues w)) /\
  shownTotal (container w) = Some (Some (sumZ (faceValues w))) /\
  shownBreakdown (container w) = Some (faceValues w).
Proof.
  intros HI ((S0 & S1 & S2 & S3 & S4 & S5 & S6 & S7 & S8) & HA) Hlen Hb Hr Hrc.
  specialize (HA Hr Hrc).
  assert (HL : forall d, In d (dice w) -> Locked d).
  { intros d Hd; exact (HA d Hd (Hb d Hd)). }
  assert (Hall : lockedCount (dice w) = List.length (dice w)).
  { apply lockedCount_all; intros d Hd; apply (HL d Hd). }
  assert (Hflag : hasCalculatedPointsRef (container w) = true).
  { apply S4; rewrite S1, Hall, Hlen; unfold diceCount; lia. }
  assert (Hv : diceValues (container w) = map Number (faceValues w)).
  { apply nth_error_ext; intros i; unfold faceValues.
    rewrite map_map, nth_error_map.
    destruct (nth_error (dice w) i) as [d |] eqn:Hi; cbn [option_map].
    - apply (S2 i d Hi), (HL d (nth_error_In _ _ Hi)).
    - apply nth_error_None; apply nth_error_None in Hi; lia. }
  assert (Ht : totalPoints (container w) = Some (sumZ (faceValues w))).
  { destruct (S7 Hflag) as [(p & Hp & _) | E].
    - rewrite (Inv_idle w HI Hr) in Hp; destruct Hp.
    - rewrite E, Hv; apply reduceSum_numbers. }
  split; [exact HL |]; split; [exact Hflag |]; split; [exact Hv |].
  split; [exact Ht |]; split.
  - unfold shownTotal; rewrite Hr, Ht; reflexivity.
  - unfold shownBreakdown; rewrite Hr, Hv, length_map; unfold faceValues.
    rewrite length_map, Hlen; cbn [negb andb diceCount Nat.ltb Nat.leb].
    rewrite positives_numbers; [reflexivity |].
    intros v Hin; apply in_map_iff in Hin as (d & <- & Hd).
    destruct (HL d Hd) as (_ & Hrange & _); lia.
Qed.

Lemma all_present (handles : list (option RigidBody)) (acts : list Action) :
  forallb present handles = true ->
  forall d, In d (dice (steps (mountWorld handles) acts)) -> diceRef d <> None.
Proof.
  intros Hall d Hd Hn.
  assert (Hin : In false (handlesOf (steps (mountWorld handles) acts))).
  { unfold handlesOf; apply in_map_iff; exists d; rewrite Hn; tauto. }
  rewrite reach_handles in Hin; apply in_map_iff in Hin as (h & Hh & Hin).
  rewrite forallb_forall in Hall; rewrite (Hall h Hin) in Hh; discriminate Hh.
Qed.

Lemma some_absent (handles : list (option RigidBody)) (acts : list Action) :
  In None handles ->
  exists d, In d (dice (steps (mountWorld handles) acts)) /\
            diceRef d = None /\ isLockedRef d = false.
Proof.
  intros Hin.
  assert (H : In false (handlesOf (steps (mountWorld handles) acts))).
  { rewrite reach_handles; apply in_map_iff; exists None; tauto. }
  unfold handlesOf in H; apply in_map_iff in H as (d & Hp & Hd).
  assert (Hn : diceRef d = None) by (destruct (diceRef d); [discriminate | reflexivity]).
  exists d; split; [exact Hd |]; split; [exact Hn |].
  destruct (isLockedRef d) eqn:Hl; [exfalso | reflexivity].
  destruct (Inv_resolved _ d (reach_inv handles acts) Hd Hl) as (body & Hb & _).
  congruence.
Qed.

(** With a die that has no body the fifth report never comes. *)
Lemma absent_state (handles : list (option RigidBody)) (acts : list Action) :
  List.length handles = diceCount -> In None handles ->
  hasCalculatedPointsRef (container (steps (mountWorld handles) acts)) = false /\
  totalPoints (container (steps (mountWorld handles) acts)) = Some 0%Z /\
  ~ PointsPending (steps (mountWorld handles) acts).
Proof.
  intros Hlen Hin.
  destruct (some_absent handles acts Hin) as (d & Hd & _ & Hl).
  destruct (reach_score handles acts ltac:(lia))
    as ((S0 & S1 & _ & _ & S4 & S5 & S6 & _) & _).
  apply In_nth_error in Hd as (i & Hi).
  pose proof (lockedCount_unlocked _ i d Hi Hl) as Hlt.
  rewrite reach_length, Hlen in Hlt; unfold diceCount in Hlt.
  assert (Hflag : hasCalculatedPointsRef
                    (container (steps (mountWorld handles) acts)) = false).
  { destruct (hasCalculatedPointsRef _); [| reflexivity].
    destruct S4 as (S4 & _); specialize (S4 eq_refl); lia. }
  split; [exact Hflag |]; split; [exact (S6 Hflag) |].
  intros H; apply S5 in H; congruence.
Qed.

(** The points callback runs only when its timer is pending. *)
Lemma step_completions (w : World) (a : Action) :
  Inv w -> Score w -> ~ PointsPending w ->
  completions (step w a) = completions w.
Proof.
  intros HI HS Hno; destruct (isRolling (container w)) eqn:Hr.
  - destruct (Inv_Rolling w HI Hr) as (T & HR).
    destruct (step_shape T w a HR) as (_ & [H | [H | [H | H]]]).
    + apply H.
    + destruct H as (i & d & d' & H); apply H.
    + exfalso; destruct H as ((p & Hdue & Hc) & _); apply Hno.
      exists p; split; [apply (dueTimer_Some _ _ Hdue) | exact Hc].
    + apply H.
  - destruct a as [| r | i k].
    + apply (click_idle_shape w HI Hr).
    + apply (Score_idle w (Tick r) HI Hr); [discriminate | exact HS].
    + apply (Score_idle w (Simulate i k) HI Hr); [discriminate | exact HS].
Qed.

Lemma steps_snoc (w : World) (acts : list Action) (a : Action) :
  steps w (acts ++ [a]) = step (steps w acts) a.
Proof. unfold steps; rewrite fold_left_app; reflexivity. Qed.

Lemma absent_completions (handles : list (option RigidBody)) :
  List.length handles = diceCount -> In None handles ->
  forall acts, completions (steps (mountWorld handles) acts) = 0%nat.
Proof.
  intros Hlen Hin acts; induction acts as [| a acts IH] using rev_ind;
    [reflexivity |].
  rewrite steps_snoc, step_completions; [exact IH | apply reach_inv | |].
  - apply reach_score; lia.
  - apply (absent_state handles acts Hlen Hin).
Qed.

(** X10.  On a page of five dice, at every moment: the count the container
    keeps in [stableDiceCountRef] is the number of dice that are locked;
    its one-shot flag is up exactly when all five are; and for every
    locked die the container holds, at the index of the die, the value
    the die holds, which is the value [getDiceValueFromRotation] gives
    for the rotation of its body, frozen as a fixed body. *)
Theorem container_counts_the_locked_dice
  (handles : list (option RigidBody)) (acts : list Action) :
  List.length handles = diceCount ->
  let w := steps (mountWorld handles) acts in
  stableDiceCountRef (container w) = lockedCount (dice w) /\
  (hasCalculatedPointsRef (container w) = true <->
   forall d, In d (dice w) -> isLockedRef d = true) /\
  (forall i d, nth_error (dice w) i = Some d -> isLockedRef d = true ->
     nth_error (diceValues (container w)) i = Some (Number (finalValueRef d)) /\
     exists body,
       diceRef d = Some body /\ bodyType body = Fixed /\
       finalValueRef d = getDiceValueFromRotation (rotation body)).
Proof.
  intros Hlen w.
  destruct (reach_score handles acts ltac:(lia))
    as ((S0 & S1 & S2 & _ & S4 & _) & _); fold w in S0, S1, S2, S4.
  pose proof (reach_length handles acts) as Hl; fold w in Hl.
  split; [exact S1 |]; split; [| intros i d Hi Hk; split].
  - rewrite S4, S1; split.
    + intros H; apply lockedCount_full.
      pose proof (lockedCount_le (dice w)); unfold diceCount in Hlen; lia.
    + intros H; rewrite (lockedCount_all _ H), Hl, Hlen; unfold diceCount; lia.
  - exact (S2 i d Hi Hk).
  - exact (Inv_resolved w d (reach_inv handles acts) (nth_error_In _ _ Hi) Hk).
Qed.

Lemma container_counts_the_locked_dice_witness :
  List.length restingBodies = diceCount /\
  let w := steps (mountWorld restingBodies) [Click; Tick draw0] in
  stableDiceCountRef (container w) = lockedCount (dice w) /\
  (hasCalculatedPointsRef (container w) = true <->
   forall d, In d (dice w) -> isLockedRef d = true) /\
  (forall i d, nth_error (dice w) i = Some d -> isLockedRef d = true ->
     nth_error (diceValues (container w)) i = Some (Number (finalValueRef d)) /\
     exists body,
       diceRef d = Some body /\ bodyType body = Fixed /\
       finalValueRef d = getDiceValueFromRotation (rotation body)).
Proof.
  split; [reflexivity |].
  apply (container_counts_the_locked_dice restingBodies [Click; Tick draw0]).
  reflexivity.
Defined.

(** X11.  On a page of five dice one of which has no rigid body, no roll
    is ever completed: at every moment the one-shot flag is down, no
    points timer is set, the points callback has not run, and the total
    is 0, which is what the panel shows between rolls. *)
Theorem a_missing_body_keeps_the_total_at_zero
  (handles : list (option RigidBody)) (acts : list Action) :
  List.length handles = diceCount -> In None handles ->
  let w := steps (mountWorld handles) acts in
  hasCalculatedPointsRef (container w) = false /\
  (forall p, In p (pending (timers w)) -> callback p <> PointsTimer) /\
  completions w = 0%nat /\
  totalPoints (container w) = Some 0%Z /\
  shownTotal (container w) =
    if isRolling (container w) then None else Some (Some 0%Z).
Proof.
  intros Hlen Hin w.
  destruct (absent_state handles acts Hlen Hin) as (Hf & Ht & Hno);
    fold w in Hf, Ht, Hno.
  split; [exact Hf |]; split; [| split; [| split; [exact Ht |]]].
  - intros p Hp Hc; apply Hno; exists p; tauto.
  - exact (absent_completions handles Hlen Hin acts).
  - unfold shownTotal; rewrite Ht; reflexivity.
Qed.

Lemma a_missing_body_keeps_the_total_at_zero_witness :
  exists n,
    let handles := [None; None; None; None; None] in
    let acts := Click :: prefix (fun _ => Tick draw0) 0 n in
    let w := steps (mountWorld handles) acts in
    (List.length handles = diceCount /\ In None handles) /\
    isRolling (container w) = false /\
    hasCalculatedPointsRef (container w) = false /\
    completions w = 0%nat /\
    shownTotal (container w) = Some (Some 0%Z).
Proof.
  destruct (click_runs_out (fun _ => Tick draw0)
              (mountWorld [None; None; None; None; None])
              (Fair_ticks draw0) (mount_inv _) eq_refl)
    as (n & (_ & _ & Hidle & _) & _).
  exists n; cbv zeta.
  destruct (a_missing_body_keeps_the_total_at_zero
              [None; None; None; None; None]
              (Click :: prefix (fun _ => Tick draw0) 0 n)
              eq_refl (or_introl eq_refl)) as (H1 & _ & H3 & _ & H5).
  split; [split; [reflexivity | left; reflexivity] |].
  split; [exact Hidle |]; split; [exact H1 |]; split; [exact H3 |].
  rewrite H5.
  change (steps (mountWorld [None; None; None; None; None])
            (Click :: prefix (fun _ => Tick draw0) 0 n))
    with (steps (click (mountWorld [None; None; None; None; None]))
            (prefix (fun _ => Tick draw0) 0 n)).
  rewrite Hidle; reflexivity.
Defined.

(** X12.  At no moment is a die locked while a timer that a die keeps in a
    ref is pending: the render that follows the first report of a roll
    runs the cleanup of every die, which cancels the stability checks and
    damping intervals of the dice still rolling, and only the forced
    locks, the points timer and the reset timer are left. *)
Theorem a_report_cancels_the_timers_the_dice_hold
  (handles : list (option RigidBody)) (acts : list Action) :
  anyLocked (steps (mountWorld handles) acts)
  && anyTracked (steps (mountWorld handles) acts) = false.
Proof.
  pose proof (reach_LockedMeansUntracked handles acts) as HJ.
  destruct (anyLocked _) eqn:E1; [| reflexivity].
  destruct (anyTracked _) eqn:E2; [exfalso | reflexivity].
  apply existsb_exists in E1 as (d & Hd & Hl).
  apply existsb_exists in E2 as (q & Hq & Ht).
  rewrite (HJ d Hd Hl q Hq) in Ht; discriminate Ht.
Qed.

(** X13.  A timer that no die keeps in a ref (a forced lock, the points
    timer, the reset timer) is never cancelled: whatever happens next, it
    is still pending afterwards, unless it was the timer that was due and
    has run. *)
Theorem untracked_timers_are_never_cancelled
  (handles : list (option RigidBody)) (acts : list Action) (a : Action)
  (p : Timer) :
  let w := steps (mountWorld handles) acts in
  In p (pending (timers w)) -> tracked (callback p) = false ->
  In p (pending (timers (step w a))) \/ dueTimer (timers w) = Some p.
Proof.
  intros w Hp Ht.
  pose proof (reach_inv handles acts) as HI; fold w in HI.
  destruct (isRolling (container w)) eqn:Hr.
  - destruct (Inv_Rolling w HI Hr) as (T & HR).
    destruct (step_shape T w a HR) as (Hs & _); exact (Hs p Hp Ht).
  - rewrite (Inv_idle w HI Hr) in Hp; destruct Hp.
Qed.

Lemma untracked_timers_are_never_cancelled_witness :
  let w := steps (mountWorld restingBodies) [Click] in
  let p :=
    mkTimer (nextTimerId (timers (mountWorld restingBodies)))
      (now (timers (mountWorld restingBodies)) + 4000) None ResetTimer in
  In p (pending (timers w)) /\ tracked (callback p) = false /\
  (In p (pending (timers (step w (Tick draw0)))) \/
   dueTimer (timers w) = Some p).
Proof.
  cbv zeta.
  destruct (click_idle_timers (mountWorld restingBodies)
              (mount_inv restingBodies) eq_refl) as (_ & Hin & _).
  split; [exact Hin |]; split; [reflexivity |].
  exact (untracked_timers_are_never_cancelled restingBodies [Click]
           (Tick draw0) _ Hin eq_refl).
Defined.

(** X14.  Every roll ends.  From any moment at which the page is not
    rolling, a click starts a roll, and however the clicks, the steps of
    the physics engine and the turns of the event loop follow each other,
    as long as the event loop keeps turning there comes a moment at which
    the rolling flag is down again: 4000 ms after the click, with the
    roll counter one up, no timer left pending and every die that has a
    body locked. *)
Theorem every_roll_ends
  (handles : list (option RigidBody)) (before : list Action)
  (s : nat -> Action) :
  Fair s ->
  let w0 := steps (mountWorld handles) before in
  isRolling (container w0) = false ->
  exists n,
    let w := steps (click w0) (prefix s 0 n) in
    isRolling (container w) = false /\
    now (timers w) = (now (timers w0) + 4000)%nat /\
    resetCount (container w) = S (resetCount (container w0)) /\
    pending (timers w) = [] /\
    forall d, In d (dice w) -> diceRef d <> None -> Locked d.
Proof.
  intros Hfair w0 Hr.
  destruct (click_runs_out s w0 Hfair (reach_inv handles before) Hr)
    as (n & (HI & HA & Hidle & Hnow) & Hc).
  exists n; cbv zeta.
  split; [exact Hidle |]; split; [exact Hnow |]; split; [exact Hc |].
  split; [exact (Inv_idle _ HI Hidle) | exact HA].
Qed.

Lemma every_roll_ends_witness :
  Fair (fun _ => Tick draw0) /\
  isRolling (container (steps (mountWorld restingBodies) [])) = false /\
  exists n,
    let w0 := steps (mountWorld restingBodies) [] in
    let w := steps (click w0) (prefix (fun _ => Tick draw0) 0 n) in
    isRolling (container w) = false /\
    now (timers w) = (now (timers w0) + 4000)%nat /\
    resetCount (container w) = S (resetCount (container w0)) /\
    pending (timers w) = [] /\
    forall d, In d (dice w) -> diceRef d <> None -> Locked d.
Proof.
  split; [apply Fair_ticks |]; split; [reflexivity |].
  apply (every_roll_ends restingBodies [] (fun _ => Tick draw0));
    [apply Fair_ticks | reflexivity].
Defined.

(** X15.  On a page of five dice that all have their rigid body, whenever
    the rolling flag is down after a roll: every die is locked, its body
    fixed and its value that of its orientation; the container holds the
    five values in the order of the dice; the total is their sum; and the
    panel shows that total and the five values. *)
Theorem finished_roll_shows_the_sum_of_the_faces
  (handles : list (option RigidBody)) (acts : list Action) :
  List.length handles = diceCount -> forallb present handles = true ->
  let w := steps (mountWorld handles) acts in
  isRolling (container w) = false -> (0 < resetCount (container w))%nat ->
  (forall d, In d (dice w) -> Locked d) /\
  diceValues (container w) = map Number (faceValues w) /\
  totalPoints (container w) = Some (sumZ (faceValues w)) /\
  shownTotal (container w) = Some (Some (sumZ (faceValues w))) /\
  shownBreakdown (container w) = Some (faceValues w).
Proof.
  intros Hlen Hall w Hr Hrc.
  destruct (finished_roll w (reach_inv handles acts)
              (reach_score handles acts ltac:(lia))
              ltac:(unfold w; rewrite reach_length; exact Hlen)
              (all_present handles acts Hall) Hr Hrc)
    as (H1 & _ & H2 & H3 & H4 & H5).
  tauto.
Qed.

Lemma finished_roll_shows_the_sum_of_the_faces_witness :
  exists n,
    let acts := Click :: prefix (fun _ => Tick draw0) 0 n in
    let w := steps (mountWorld restingBodies) acts in
    (List.length restingBodies = diceCount /\
     forallb present restingBodies = true /\
     isRolling (container w) = false /\
     (0 < resetCount (container w))%nat) /\
    (forall d, In d (dice w) -> Locked d) /\
    diceValues (container w) = map Number (faceValues w) /\
    totalPoints (container w) = Some (sumZ (faceValues w)) /\
    shownTotal (container w) = Some (Some (sumZ (faceValues w))) /\
    shownBreakdown (container w) = Some (faceValues w).
Proof.
  destruct (click_runs_out (fun _ => Tick draw0) (mountWorld restingBodies)
              (Fair_ticks draw0) (mount_inv restingBodies) eq_refl)
    as (n & (_ & _ & Hidle & _) & Hc).
  exists n; cbv zeta.
  assert (Hrc : (0 < resetCount
                     (container
                        (steps (mountWorld restingBodies)
                           (Click :: prefix (fun _ => Tick draw0) 0 n))))%nat).
  { change (steps (mountWorld restingBodies)
              (Click :: prefix (fun _ => Tick draw0) 0 n))
      with (steps (click (mountWorld restingBodies))
              (prefix (fun _ => Tick draw0) 0 n)).
    rewrite Hc; lia. }
  split; [split; [reflexivity | split; [reflexivity | split;
    [exact Hidle | exact Hrc]]] |].
  exact (finished_roll_shows_the_sum_of_the_faces restingBodies
           (Click :: prefix (fun _ => Tick draw0) 0 n) eq_refl eq_refl
           Hidle Hrc).
Defined.

(** X16.  Between rolls no timer is pending: when the rolling flag is
    down, every timer of the rolls so far has run or has been
    cancelled. *)
Theorem no_timer_is_pending_between_rolls
  (handles : list (option RigidBody)) (acts : list Action) :
  let w := steps (mountWorld handles) acts in
  isRolling (container w) = false -> pending (timers w) = [].
Proof.
  intros w Hr; exact (Inv_idle w (reach_inv handles acts) Hr).
Qed.

Lemma no_timer_is_pending_between_rolls_witness :
  exists n,
    let w :=
      steps (mountWorld restingBodies)
        (Click :: prefix (fun _ => Tick draw0) 0 n) in
    (0 < resetCount (container w))%nat /\
    isRolling (container w) = false /\ pending (timers w) = [].
Proof.
  destruct (click_runs_out (fun _ => Tick draw0) (mountWorld restingBodies)
              (Fair_ticks draw0) (mount_inv restingBodies) eq_refl)
    as (n & (_ & _ & Hidle & _) & Hc).
  exists n; cbv zeta.
  split; [| split; [exact Hidle |]].
  - change (steps (mountWorld restingBodies)
              (Click :: prefix (fun _ => Tick draw0) 0 n))
      with (steps (click (mountWorld restingBodies))
              (prefix (fun _ => Tick draw0) 0 n)).
    rewrite Hc; lia.
  - exact (no_timer_is_pending_between_rolls restingBodies
             (Click :: prefix (fun _ => Tick draw0) 0 n) Hidle).
Defined.

Lemma PointsPending_dec (w : World) : PointsPending w \/ ~ PointsPending w.
Proof.
  unfold PointsPending.
  induction (pending (timers w)) as [| p l IH].
  - right; intros (q & [] & _).
  - destruct IH as [(q & Hq & Hc) | IH]; [left; exists q; cbn; tauto |].
    destruct (callback p) eqn:E;
      try (right; intros (q & [<- | Hq] & Hc);
           [congruence | apply IH; exists q; tauto]).
    left; exists p; cbn; tauto.
Qed.

Lemma Tally_quiet (w w' : World) : Tally w -> Quiet w w' -> Tally w'.
Proof.
  intros (K1 & K2 & K3) (Qc & _ & Qp & _ & Qn).
  assert (Hpp : PointsPending w' <-> PointsPending w).
  { split; intros (p & Hp & Hc); exists p; split; try exact Hc;
      apply (Qp p Hc); exact Hp. }
  unfold Tally; rewrite Qc, Qn, Hpp; tauto.
Qed.

Lemma Tally_step (w : World) (a : Action) :
  Inv w -> Score w -> Tally w ->
  List.length (dice w) = diceCount ->
  (forall d, In d (dice w) -> diceRef d <> None) ->
  Tally (step w a).
Proof.
  intros HI HS (K1 & K2 & K3) Hlen Hb.
  assert (Hr : isRolling (container w) = true \/
               isRolling (container w) = false)
    by (destruct (isRolling (container w)); tauto).
  destruct Hr as [Hr | Hr].
  - destruct (Inv_Rolling w HI Hr) as (T & HR).
    pose proof (resetCount_step T w a HR) as Hrc.
    destruct HS as ((S0 & S1 & _ & _ & S4 & S5 & _ & _ & S8) & _).
    destruct (step_shape T w a HR) as (_ & [H | [H | [H | H]]]).
    + exact (Tally_quiet w _ (conj K1 (conj K2 K3)) H).
    + destruct H as (i & d & d' & Hi & Hl & Hl' & _ & Qc & Qp & _ & _ & Qn).
      pose proof (lockedCount_unlocked _ i d Hi Hl) as Hlt.
      rewrite Hlen in Hlt; unfold diceCount in Hlt.
      assert (Hflag : hasCalculatedPointsRef (container w) = false).
      { destruct (hasCalculatedPointsRef (container w)); [| reflexivity].
        destruct S4 as (S4 & _); specialize (S4 eq_refl); lia. }
      assert (Hc : S (completions w) = resetCount (container w)).
      { destruct (K2 Hflag) as [(_ & _ & E) | E]; [congruence | exact E]. }
      pose proof (handleDiceStable_spec i (finalValueRef d') (container w)
                    (timers w)) as Hs; cbv zeta in Hs; rewrite <- Qc in Hs.
      destruct Hs as (_ & _ & _ & _ & _ & _ & _ & Hyes & Hnot).
      unfold Tally; rewrite Qn, Hrc.
      split; [| split; [intros _; right; exact Hc | intros _; exact Hc]].
      intros Hf' Hno; exfalso.
      destruct (Nat.eq_dec (stableDiceCountRef (container w)) 4) as [E | E].
      * apply Hno.
        set (p := mkTimer (nextTimerId (timers w)) (now (timers w) + 100)
                    None PointsTimer).
        exists p; split; [| reflexivity].
        apply (Qp p eq_refl); right; tauto.
      * destruct Hnot as (E' & _); [tauto | congruence].
    + destruct H as ((p & Hdue & Hcb) & Qc & _ & Qp & _ & Qn).
      destruct (dueTimer_Some _ _ Hdue) as (Hp & _).
      assert (Hpp : PointsPending w) by (exists p; tauto).
      pose proof (K3 Hpp) as Hc; pose proof (S5 Hpp) as Hflag.
      assert (Hno : ~ PointsPending (step w a)).
      { intros (q & Hq & Hcq); destruct (Qp q Hq) as (Hq' & Hne).
        apply Hne; rewrite Hdue; f_equal; symmetry.
        exact (S8 q p Hq' Hp Hcq Hcb). }
      unfold Tally; rewrite Qn, Hrc.
      split; [intros _ _; exact Hc |]; split; [| tauto].
      rewrite Qc; cbn [pointsTimeout hasCalculatedPointsRef]; congruence.
    + destruct H as (Qc & _ & Qp & Qno & _ & Qn).
      assert (Hno : ~ PointsPending w).
      { intros (p & Hp & Hc); exact (Qno p Hp Hc). }
      unfold Tally, PointsPending; rewrite Qn, Hrc, Qp, Qc.
      cbn [resetTimeout hasCalculatedPointsRef isRolling].
      split; [intros Hf _; exact (K1 Hf Hno) |].
      split; [| intros (p & [] & _)].
      intros Hf; right.
      destruct (K2 Hf) as [(_ & _ & E) | E]; [congruence | exact E].
  - assert (Hnil : pending (timers w) = []) by exact (Inv_idle w HI Hr).
    assert (Hno : ~ PointsPending w).
    { intros (p & Hp & _); rewrite Hnil in Hp; destruct Hp. }
    destruct a as [| r | i k].
    + assert (Hc : completions w = resetCount (container w)).
      { destruct (Nat.eq_dec (resetCount (container w)) 0) as [E | E].
        - destruct (hasCalculatedPointsRef (container w)) eqn:Hf.
          + exact (K1 eq_refl Hno).
          + destruct (K2 eq_refl) as [(_ & E' & _) | E']; lia.
        - destruct (finished_roll w HI HS Hlen Hb Hr ltac:(lia))
            as (_ & Hf & _).
          exact (K1 Hf Hno). }
      cbn [step].
      destruct (click_idle_shape w HI Hr) as (Qc & _ & Qp & _ & Qn).
      unfold Tally; rewrite Qn, Qc.
      cbn [hasCalculatedPointsRef resetCount isRolling].
      split; [discriminate |]; split; [intros _; right; congruence |].
      intros (p & Hp & Hcb); exfalso; exact (Qp p Hp Hcb).
    + apply (Tally_quiet w); [exact (conj K1 (conj K2 K3)) |].
      apply (Score_idle w (Tick r) HI Hr); [discriminate | exact HS].
    + apply (Tally_quiet w); [exact (conj K1 (conj K2 K3)) |].
      apply (Score_idle w (Simulate i k) HI Hr); [discriminate | exact HS].
Qed.

Lemma reach_tally (handles : list (option RigidBody)) :
  List.length handles = diceCount -> forallb present handles = true ->
  forall acts, Tally (steps (mountWorld handles) acts).
Proof.
  intros Hlen Hall acts; induction acts as [| a acts IH] using rev_ind.
  - split; [intros H; discriminate H |].
    split; [intros _; left; cbn; tauto | intros (p & [] & _)].
  - rewrite steps_snoc; apply Tally_step.
    + apply reach_inv.
    + apply reach_score; lia.
    + exact IH.
    + rewrite reach_length; exact Hlen.
    + exact (all_present handles acts Hall).
Qed.

(** X17.  On a page of five dice that all have their rigid body the points
    callback runs exactly once per roll: at every moment it has run as
    often as the button has been accepted, or once less while the roll in
    flight has not got to it yet; and whenever the rolling flag is down
    it has run for every roll. *)
Theorem points_callback_runs_once_per_roll
  (handles : list (option RigidBody)) (acts : list Action) :
  List.length handles = diceCount -> forallb present handles = true ->
  let w := steps (mountWorld handles) acts in
  (completions w <= resetCount (container w) <= S (completions w))%nat /\
  (isRolling (container w) = false ->
   completions w = resetCount (container w)).
Proof.
  intros Hlen Hall w.
  destruct (reach_tally handles Hlen Hall acts) as (K1 & K2 & K3);
    fold w in K1, K2, K3.
  pose proof (reach_inv handles acts) as HI; fold w in HI.
  pose proof (reach_score handles acts ltac:(lia)) as HS; fold w in HS.
  split.
  - destruct (PointsPending_dec w) as [Hp | Hp]; [specialize (K3 Hp); lia |].
    destruct (hasCalculatedPointsRef (container w)) eqn:Hf.
    + specialize (K1 eq_refl Hp); lia.
    + destruct (K2 eq_refl) as [(E1 & E2 & _) | E]; lia.
  - intros Hr.
    assert (Hno : ~ PointsPending w).
    { intros (p & Hp & _); rewrite (Inv_idle w HI Hr) in Hp; destruct Hp. }
    destruct (Nat.eq_dec (resetCount (container w)) 0) as [E | E].
    + destruct (hasCalculatedPointsRef (container w)) eqn:Hf.
      * exact (K1 eq_refl Hno).
      * destruct (K2 eq_refl) as [(_ & E' & _) | E']; lia.
    + destruct (finished_roll w HI HS) as (_ & Hf & _); try assumption.
      * unfold w; rewrite reach_length; exact Hlen.
      * exact (all_present handles acts Hall).
      * lia.
      * exact (K1 Hf Hno).
Qed.

Lemma points_callback_runs_once_per_roll_witness :
  List.length restingBodies = diceCount /\
  forallb present restingBodies = true /\
  let w := steps (mountWorld restingBodies) [Click; Tick draw0] in
  (completions w <= resetCount (container w) <= S (completions w))%nat /\
  (isRolling (container w) = false ->
   completions w = resetCount (container w)).
Proof.
  split; [reflexivity |]; split; [reflexivity |].
  apply (points_callback_runs_once_per_roll restingBodies
           [Click; Tick draw0]); reflexivity.
Defined.

Lemma history_keeps_the_ten_most_recent_samples_witness :
  let s := mkSample zeroVector 7 in
  (List.length (@nil Sample) <= 10)%nat /\
  pushSample s [] = lastN 10 ([] ++ [s]) /\
  Forall (fun d => (List.length (positionHistoryRef d) <= 10)%nat)
    (dice (steps (mountWorld restingBodies) [Click; Tick draw0])).
Proof.
  cbv zeta; destruct history_keeps_the_ten_most_recent_samples as (H1 & H2).
  split; [cbn; lia |]; split.
  - apply (H1 (mkSample zeroVector 7) []); cbn; lia.
  - apply (H2 restingBodies [Click; Tick draw0]).
Defined.

Lemma damping_ramps_to_twenty_and_stops_witness :
  let d := slotDie 2 in
  let t := mkTimers 0 1 [] in
  (exists body, diceRef d = Some body) /\ isLockedRef d = false /\
  currentDampingRef d = (1 / 2)%R /\ (39 <= 39)%nat /\
  currentDampingRef (fst (dampingRounds 39 d t)) = 20%R /\
  gradualDampingRef (fst (dampingRounds 39 d t)) = None.
Proof.
  cbv zeta; destruct damping_ramps_to_twenty_and_stops as (H1 & _).
  split; [eexists; reflexivity |]; split; [reflexivity |].
  split; [reflexivity |]; split; [lia |].
  destruct (H1 (slotDie 2)
              (mountRigidBody (calculateDicePosition 2) restTop)
              (mkTimers 0 1 []) 39%nat eq_refl eq_refl eq_refl
              (Nat.le_refl 39)) as (_ & _ & _ & H).
  destruct (H eq_refl) as (E1 & E2 & _); split; [exact E1 | exact E2].
Defined.

Lemma respawn_puts_the_die_on_its_slot_witness :
  let t := mkTimers 0 1 [] in
  (0 <= jitterX draw0 < 1)%R /\ (0 <= jitterZ draw0 < 1)%R /\ 0%nat <> 1%nat /\
  (exists b,
     diceRef (fst (respawnTimeout draw0 (slotDie 0) t)) = Some b /\
     y (translation b) = 4%R /\ bodyType b = Dynamic) /\
  (exists b b',
     diceRef (fst (respawnTimeout draw0 (slotDie 0) t)) = Some b /\
     diceRef (fst (respawnTimeout draw0 (slotDie 1) t)) = Some b' /\
     (95 / 100 <= Rabs (x (translation b) - x (translation b')))%R).
Proof.
  cbv zeta; destruct respawn_puts_the_die_on_its_slot as (H1 & H2).
  assert (J : (0 <= jitterX draw0 < 1)%R) by (cbn; lra).
  assert (K : (0 <= jitterZ draw0 < 1)%R) by (cbn; lra).
  split; [exact J |]; split; [exact K |]; split; [discriminate |]; split.
  - destruct (H1 draw0 (slotDie 0)
                (mountRigidBody (calculateDicePosition 0) restTop)
                (mkTimers 0 1 []) 0%nat eq_refl eq_refl J K)
      as (b & Hb & _ & Hy & _ & _ & Hd & _).
    exists b; tauto.
  - exact (H2 draw0 draw0 (slotDie 0) (slotDie 1)
             (mountRigidBody (calculateDicePosition 0) restTop)
             (mountRigidBody (calculateDicePosition 1) restTop)
             (mkTimers 0 1 []) (mkTimers 0 1 []) 0%nat 1%nat
             eq_refl eq_refl eq_refl eq_refl ltac:(discriminate) J J).
Defined.

Lemma ref_callbacks_fill_the_handles_in_dice_order_witness :
  let order := [4; 3; 2; 1; 0]%nat in
  Permutation order (seq 0 (List.length restingBodies)) /\
  (0 < 1)%nat /\
  registerAll restingBodies order [] = restingBodies /\
  calculatePoints 1 false (registerAll restingBodies order []) =
    Some (liveValues restingBodies, sumZ (liveValues restingBodies)).
Proof.
  cbv zeta; destruct ref_callbacks_fill_the_handles_in_dice_order as (_ & H).
  assert (P : Permutation [4; 3; 2; 1; 0]%nat
                (seq 0 (List.length restingBodies))).
  { change [4; 3; 2; 1; 0]%nat with (rev (seq 0 5)).
    apply Permutation_sym, Permutation_rev. }
  split; [exact P |]; split; [lia |].
  destruct (H restingBodies [4; 3; 2; 1; 0]%nat 1%nat P) as (E1 & E2).
  split; [exact E1 | exact (E2 ltac:(lia))].
Defined.

Lemma points_panel_total_is_the_sum_of_its_values_witness :
  let o := mkPointsProps 1 true 0 in
  let p := mkPointsProps 1 false 1 in
  propIsRolling o = true /\ propIsRolling p = false /\
  (0 < propUpdateTrigger p)%nat /\
  pointsRender (Some o) p restingBodies mountPointsState =
    mkPointsState (sumZ (liveValues restingBodies)) (liveValues restingBodies).
Proof.
  cbv zeta; destruct points_panel_total_is_the_sum_of_its_values
    as (_ & _ & H).
  split; [reflexivity |]; split; [reflexivity |]; split; [cbn; lia |].
  apply (H (mkPointsProps 1 true 0) (mkPointsProps 1 false 1) restingBodies
           mountPointsState); [reflexivity | reflexivity | cbn; lia].
Defined.

(** X18.  An accepted click starts a clean roll.  From any moment at which
    the page is not rolling, the click leaves the container with the roll
    counter one up, the rolling flag set, no die counted, the one-shot
    flag down, no value stored and the total 0; every die is as the
    respawn effect leaves it, unlocked, its value 1, its history empty;
    and the timers pending are the reset timer, due 4000 ms later, and
    for each die its respawn timer, due 100 ms later and held in the
    [timerRef] of the die. *)
Theorem accepted_click_starts_a_clean_roll
  (handles : list (option RigidBody)) (before : list Action) :
  let w0 := steps (mountWorld handles) before in
  isRolling (container w0) = false ->
  let w := click w0 in
  let rc := S (resetCount (container w0)) in
  let T := now (timers w0) in
  let reset := mkTimer (nextTimerId (timers w0)) (T + 4000) None ResetTimer in
  container w =
    mkDiceContainer rc true (Some (nextTimerId (timers w0))) 0 false []
      (Some 0%Z) /\
  now (timers w) = T /\
  In reset (pending (timers w)) /\
  (forall k d', nth_error (dice w) k = Some d' ->
     exists d id,
       nth_error (dice w0) k = Some d /\ d' = respawned rc id d /\
       In (mkTimer id (T + 100) None (RespawnTimer k)) (pending (timers w))) /\
  (forall p, In p (pending (timers w)) ->
     p = reset \/
     exists k d',
       p = mkTimer (timerId p) (T + 100) None (RespawnTimer k) /\
       nth_error (dice w) k = Some d' /\ timerRef d' = Some (timerId p)).
Proof.
  intros w0 Hr w rc T reset.
  pose proof (reach_inv handles before) as HI; fold w0 in HI.
  destruct (click_idle_shape w0 HI Hr) as (Hc & _).
  destruct (click_idle_timers w0 HI Hr) as (H1 & H2 & H3 & H4).
  split; [exact Hc |]; split; [exact H1 |]; split; [exact H2 |].
  split; [exact H3 | exact H4].
Qed.

Lemma accepted_click_starts_a_clean_roll_witness :
  let w0 := steps (mountWorld restingBodies) [] in
  let w := click w0 in
  isRolling (container w0) = false /\
  container w = mkDiceContainer 1 true (Some 1%nat) 0 false [] (Some 0%Z) /\
  In (mkTimer 1 4000 None ResetTimer) (pending (timers w)).
Proof.
  cbv zeta; split; [reflexivity |].
  destruct (accepted_click_starts_a_clean_roll restingBodies [] eq_refl)
    as (H1 & _ & H3 & _).
  split; [exact H1 | exact H3].
Defined.

Lemma SameFaces_nth_fwd (ds ds' : list PhysicsDice) :
  SameFaces ds ds' ->
  forall i d, nth_error ds i = Some d ->
    exists d', nth_error ds' i = Some d' /\ SameFace d d'.
Proof.
  induction 1 as [| d d' ds ds' Hs _ IH]; intros [| i] e Hi; cbn in *;
    try discriminate Hi.
  - injection Hi as <-; exists d'; tauto.
  - exact (IH i e Hi).
Qed.

(** An action that is not an accepted click leaves every die with the
    lock flag and the value it has, the one die apart that it locks. *)
Lemma step_faces (w : World) (a : Action) :
  Inv w -> isRolling (container w) = true \/ a <> Click ->
  SameFaces (dice w) (dice (step w a)) \/
  exists i d d',
    nth_error (dice w) i = Some d /\ isLockedRef d = false /\
    dice (step w a) = replaceNth i d' (dice w).
Proof.
  intros HI Ha.
  assert (Hr : isRolling (container w) = true \/
               isRolling (container w) = false)
    by (destruct (isRolling (container w)); tauto).
  destruct Hr as [Hr | Hr].
  - destruct (Inv_Rolling w HI Hr) as (T & HR).
    destruct (step_shape T w a HR) as (_ & [H | [H | [H | H]]]).
    + left; apply H.
    + right; destruct H as (i & d & d' & H1 & H2 & _ & H4 & _).
      exists i, d, d'; tauto.
    + left; destruct H as (_ & _ & -> & _); apply SameFaces_refl.
    + left; destruct H as (_ & -> & _); apply SameFaces_refl.
  - left; destruct Ha as [Ha | Ha]; [congruence |].
    pose proof (Inv_idle w HI Hr) as Hnil.
    destruct a as [| r | i k]; [congruence | |]; cbn [step].
    + unfold tick; destruct (dueTimer (timers w)) as [tm |] eqn:Edue;
        [| apply SameFaces_refl].
      destruct (dueTimer_Some _ _ Edue) as (Hin & _).
      rewrite Hnil in Hin; destruct Hin.
    + destruct (nth_error (dice w) i) as [d |] eqn:Hd;
        [exact (simulate_SameFaces w i k d Hd) | apply SameFaces_refl].
Qed.

(** X19.  A locked die keeps its lock and its value: whatever happens
    next to the page, short of a click that is accepted, the die is still
    locked afterwards and holds the same value. *)
Theorem a_locked_die_keeps_its_value
  (handles : list (option RigidBody)) (acts : list Action) (a : Action)
  (i : nat) (d : PhysicsDice) :
  let w := steps (mountWorld handles) acts in
  nth_error (dice w) i = Some d -> isLockedRef d = true ->
  isRolling (container w) = true \/ a <> Click ->
  exists d',
    nth_error (dice (step w a)) i = Some d' /\
    isLockedRef d' = true /\ finalValueRef d' = finalValueRef d.
Proof.
  intros w Hi Hl Ha.
  destruct (step_faces w a (reach_inv handles acts) Ha)
    as [H | (j & e & e' & Hj & He & Hd)].
  - destruct (SameFaces_nth_fwd _ _ H i d Hi) as (d' & Hd' & (E1 & E2)).
    exists d'; split; [exact Hd' |]; split; congruence.
  - exists d; rewrite Hd; split; [| tauto].
    rewrite nth_error_replaceNth_other; [exact Hi |].
    intros E; subst j; congruence.
Qed.

Lemma a_locked_die_keeps_its_value_witness :
  exists n d,
    let w :=
      steps (mountWorld restingBodies)
        (Click :: prefix (fun _ => Tick draw0) 0 n) in
    (nth_error (dice w) 0 = Some d /\ isLockedRef d = true /\
     (isRolling (container w) = true \/ Tick draw0 <> Click)) /\
    exists d',
      nth_error (dice (step w (Tick draw0))) 0 = Some d' /\
      isLockedRef d' = true /\ finalValueRef d' = finalValueRef d.
Proof.
  destruct (click_runs_out (fun _ => Tick draw0) (mountWorld restingBodies)
              (Fair_ticks draw0) (mount_inv restingBodies) eq_refl)
    as (n & (_ & HA & _ & _) & _).
  exists n.
  pose proof (reach_length restingBodies
                (Click :: prefix (fun _ => Tick draw0) 0 n)) as Hlen.
  destruct (nth_error
              (dice (steps (mountWorld restingBodies)
                       (Click :: prefix (fun _ => Tick draw0) 0 n))) 0)
    as [d |] eqn:Hd.
  - exists d; cbv zeta.
    assert (Hl : isLockedRef d = true).
    { apply (HA d (nth_error_In _ _ Hd)).
      exact (all_present restingBodies _ eq_refl d (nth_error_In _ _ Hd)). }
    assert (Ha : isRolling
                   (container
                      (steps (mountWorld restingBodies)
                         (Click :: prefix (fun _ => Tick draw0) 0 n))) = true \/
                 Tick draw0 <> Click) by (right; discriminate).
    split; [split; [exact Hd | split; [exact Hl | exact Ha]] |].
    exact (a_locked_die_keeps_its_value restingBodies
             (Click :: prefix (fun _ => Tick draw0) 0 n) (Tick draw0) 0 d
             Hd Hl Ha).
  - exfalso; apply nth_error_None in Hd; rewrite Hlen in Hd; cbn in Hd; lia.
Defined.
